(* ===== verification/_CoqProject ===== *)
-Q . S2P
Prelude.v
CMem.v
QueueSeg.v
QueueSlist.v
QueueStailq.v
QueueDlist.v
QueueTailq.v
QueueCircleq.v
QueueIface.v
KthreadQueue.v
UserQueue.v
CString.v
Bytes.v
Procfs.v
Rmmod.v
Insmod.v
Logger.v
RbTree.v
Cache.v
CacheHalf.v
CacheOrder.v
CacheSpec.v
CacheRefine.v
CacheProps.v
CacheLimits.v
CacheSafe.v
CacheTest.v
CacheCost.v
CacheOld.v
MountIter.v
Netlink.v
NlHello.v
NlThread.v
NlMix.v
NlStruct.v
NlUser.v
KThread.v
KFile.v
Tgid.v
KLife.v
CreateFd.v
KFifo.v
SysMap.v
Fanotify.v
FanRun.v
FanArgs.v
FanPoll.v
