(* ===== verification/Prelude.v ===== *)
(** * Verification of the Linux kernel code samples

    The repository is a collection of independent C programs, one per directory
    of src/: kernel modules and small userspace tools. This development models
    them as Rocq functions, each definition named after the function, macro
    or struct it translates, and proves what they do.

    ** The parts and the files

    - Scan cache (src/RedBlack_Cache_LRU_Implementation_Kernel: include/cache.h,
      src/cache.c, src/rbtree_test.c). A cache of scanned files: one red-black tree ordered by device and
      inode, a second one ordered by time stamp for eviction, one slab and one spin
      lock for each. [RbTree] has the RB_* macros of cache.h over the interface
      [RbLib] of linux/rbtree.h (with its laws [RbLaws] and a reference
      library that meets them); [Cache] has the records, the state (a [half] per tree:
      slab, live objects, root, lock) and every function of cache.c; [CacheHalf] what the
      locked tree operations do to the records linked in a tree and to the others;
      [CacheOrder] the four comparison functions; [CacheSpec] the abstract map and the
      relation between it and a state; [CacheRefine] the refinement of each
      function; [CacheProps] and [CacheLimits] the theorems on one device and on what lies outside;
      [CacheSafe] the invariant that holds for files of any devices; [CacheTest] the test
      module, which drives the cache with files of three devices; [CacheCost] the number of
      comparisons; and [CacheOld] the tree functions of cache.c that the
      macros replaced and that are still there under #if 0.
    - BSD queues (src/Kthread_Queue/queue.h, identical to the copy in
      src/Userspace_Queue_using_BSD_Example). [CMem] is a C memory of cells with a
      separation logic over it (points-to, weakest preconditions, frame); [QueueSeg]
      chains of next cells; [QueueSlist], [QueueStailq], [QueueDlist],
      [QueueTailq] and [QueueCircleq] (with insque and remque) one macro family
      each, as a representation predicate and one definition per macro; [QueueIface] the
      interface the four null-terminated families share, with its loops.
    - Queue users. [KthreadQueue]: the producer and consumer threads of
      src/Kthread_Queue/thread.c as a step relation with the module's init and exit;
      [UserQueue]: the program src/Userspace_Queue_using_BSD_Example/queue_test_userspace.c.
    - procfs (src/Proc_Example/procfs.c): [Procfs], with [CString] for characters,
      buffers and decimal numbers.
    - rmmod and insmod (src/Userspace_RmmodCode/rmmod_code.c,
      src/Userspace_InsmodCode/insmod_code.c): [Rmmod] and [Insmod].
    - Logger (src/LoggerHeaderCode/log.h): [Logger].
    - Mount iteration (src/Iterate_MountFS/mount_iter.c): [MountIter], over the
      raw pointers of the kernel's mount tree, with linux/list.h as the interface [KList].
    - Netlink (the four NetLink directories). [Netlink] has the state of the modules and
      the interface [NetlinkLib] of the kernel's messages and sockets; [NlHello] the unicast
      module, the multicast module and its receiver userspace_test_mul.c; [NlThread] the
      callback, thread, init and exit that the mixed and the structure module share, as
      functions and as a transition system over the interface [NlModule]; [NlMix] and [NlStruct]
      the two modules that meet it (netlink_kernel.c of either directory); [NlUser] the programs
      userspace_test.c that talk to the modules. [Bytes] has
      memory that may be uninitialised, strcpy and the like on it, and little-endian numbers.
    - Kernel threads and file reading (src/Kernel_Thread/thread.c, [KThread];
      src/ReadingFileFromKernelSpace/readingFilefromKernel.c and
      src/Kernel_Thread_ReadingFileFromKernel/thread.c, [KFile];
      src/GetGroup_pid_From_ThreadId/get_tgid.c, [Tgid]); [KLife] the three thread modules
      from loading to unloading, as a step relation over the interface [KModule].
    - File descriptors (src/CreateUnusedFd/createfd.c): [CreateFd]. Record fifo
      (src/Kernel_Queue_using_Kernel_API/queue.c): [KFifo].
    - System.map reader and uname (src/Userspace_Read_System_map_file/read_system_map.c,
      src/Userspace_UnameSyscall/uname_code.c): [SysMap].
    - Fanotify (src/Userspace_Fanotify_Other_TestCode/fanotify.c): [Fanotify], [FanRun]
      for whole runs and [FanArgs] for the command line; [FanPoll] for the polling program src/Userspace_Fanotify_TestCode/test_fan.c,
      which reads the same event buffers.

    The parts meet where one calls another: the queue users call the TAILQ macros and their
    proofs use the macros' specifications only; the cache's functions call the RB
    macros, whose loops are verified against any comparison and any tree
    library that meets [RbLaws]; the threads of [KFile] and [Tgid] are the thread of
    [KThread] around their own actions; the message that the multicast module sends is what
    its receiver reads; the userspace programs and the netlink modules are composed into whole
    conversations; the test module runs on the cache's invariant; and the life cycles of [NlThread] and [KLife] are proved once, for any module
    that meets [NlModuleLaws] or [KModuleLaws]. Everything else is independent.

    ** How code is modelled

    This file has the machine integers ([u32], [u64], [s32], [s64] wrap around
    explicitly) and the monad [ST S] of state and failure. [None] is undefined
    behaviour: a null, wild or freed pointer, a double free, a store outside a
    buffer, taking a spin lock that is held, or an exhausted loop bound; so a
    theorem that a function returns [Some] says it does none of these. Loops that
    are not structural take a bound [fuel]; the theorems ask for a bound above the
    number of elements, entries, lines or bytes the loop goes through, and prove the loop ends
    within it. What the kernel and the library supply is a parameter: the
    tree library, the clock, addresses and contents of allocated objects
    ([Kernel], [KernelLaws]), [simple_strtol] ([Strtol]), [init_module] and
    [delete_module], the mounts and the list library ([MountKernel], [KList]), socket buffers and
    sends ([NetlinkLib]), the scheduler and kthread_run ([ThreadLib]), the files and tasks
    ([FileLib], [TaskLib], [FdLib]), the record fifo ([KFifoLib]), the fanotify system calls
    ([FanSys], [PollSys]); each interface is instantiated in a witness. Refused allocations,
    failed copies and short reads are
    arguments or answers by request number, and the theorems hold for all of them. Console output is kept where a
    function's result depends on it being readable (the cache's log, the logger's
    lines, the userspace programs, the netlink and thread modules) and left out elsewhere.

    The loops that have no bound in the code (the threads, the receivers, fanotify's
    read loop) run for a given list of answers or a given number of rounds. The bounds of the
    others: the sleeping macro ends after at most as many wake-ups as ticks,
    since each schedule_timeout returns less than it was given; the fifo's loops run ten
    rounds; a line or token loop takes one round a line or token; and the event loop of fanotify
    takes 24 bytes a round at least, so the length of its buffer is enough.

    ** What the theorems show

    - Queues: every update macro of every family refines an operation on lists,
      keeps back and last pointers right, and touches nothing else; the loops are
      folds, forwards and backwards.
    - Threads: in no interleaving does the queue code fault, the queue is a FIFO under mutual
      exclusion, the producer stops; but unloading can leave a record behind, and faults when a thread
      was never created or has returned on a signal.
    - Cache: for one device (inode numbers below 2^63) every sequence of calls
      refines a finite map with eviction by age, on all branches; both trees stay
      red-black search trees over the same entries, and tear-down frees all
      but the counted leaks. For files of any devices every sequence of calls is still
      memory safe, keeps the LRU tree sorted by age, reports no file that was not offered, and leaks at
      most a record for each failed insertion; so the test module is safe. Every search and insertion
      makes at most 2 log2(n+1) comparisons, and
      the replaced functions equal the macros. But device numbers are compared unsigned and
      are not ordered, so files get lost; time stamp collisions leak;
      concurrent removals free twice; purge_scan_cache strands the LRU tree.
    - procfs: round trips of numbers, the exact effect of reads, and the limits
      and overruns of both handlers; entries left behind at unload.
    - insmod, rmmod: the image of a file below 2^31 bytes is read completely and in bounds whatever the
      reads return, while the buffer's size wraps to 0 for a larger one; names are converted in bounds; /proc/modules is consulted as
      intended, with two runs into undefined behaviour.
    - Logger: exactly the enabled messages are printed, with the level in range.
    - Mount iteration: the walk ends, visits every mount once in pre-order and
      releases every reference; each file system type is listed once, while the
      records of further mounts of a type leak.
    - Netlink: the receiver prints the string the multicast module sent; a structure request
      is answered by the structure with its numbers multiplied, on every message that is
      long enough, and read out of bounds on all others; in every interleaving of requests that
      do not overlap the thread is stopped and the socket released before the module goes,
      while overlapping requests or refusals make unloading fault; the structure multicast
      sends uninitialised memory. The structure program and its module are followed from loading to
      unloading; the unicast program prints the answer, and the mixed one is undefined.
    - Threads and files: the thread prints its argument once a round until stopped, sleeping
      the requested time in between; in every interleaving with the unloading the thread modules
      do not fault if memory lasts, end within five steps of the request and hold nothing then; a file is read and printed when it can be opened
      and its text ends inside the buffer, and is undefined otherwise; the thread group lookup leaks
      the reference it takes, the descriptor example the file it opens and, from 3.6 on, a reference
      on its dentry and its mount.
    - Fifo: the ten records come out in the order they went in, whole and in bounds.
    - System.map: exactly the first line naming the table and its words are printed.
    - Fanotify: the loop over the raw buffer handles exactly the events the buffer
      encodes, in order; every permission request is answered once, before its descriptor is
      closed, and every descriptor is closed once, from the start of main to its exit; an overflow event, which has no
      descriptor, prints an uninitialised path; the last mask option decides the mask; the command line is read as the usage text says
      and nothing else is accepted; a descriptor of FD_SETSIZE or more is written behind the set. The polling program closes and answers every
      event in order and, ended by a signal, removes its marks and frees its memory.

    ** Not modelled

    What else stands under #if 0, which is never compiled (messages in the comparison functions and
    a removal loop of the userspace queue example); the branches of mount_iter.c for kernels before 3.3;
    the memory model of weakly ordered processors (steps of the threads interleave), interrupts, and
    the messages of rmmod and insmod. The second copy of queue.h is the same text as the
    first and has no definitions of its own; test_fan_debugstatement.c is test_fan.c with four more
    lines of output; fanotify-syscalllib.h only wraps two system calls, which are parameters. *)

From Stdlib Require Import ZArith Lia.
From stdpp Require Import base gmap list option relations.

(** ** Machine integers

    A C integer is a [Z] kept inside the range of its type by an explicit
    wrap-around: [u32], [u64] for the unsigned types, [s32], [s64] for the
    two's complement signed ones. *)

Definition u32 (z : Z) : Z := z mod 2 ^ 32.

Definition u64 (z : Z) : Z := z mod 2 ^ 64.

Definition s32 (z : Z) : Z := (z + 2 ^ 31) mod 2 ^ 32 - 2 ^ 31.

Definition s64 (z : Z) : Z := (z + 2 ^ 63) mod 2 ^ 64 - 2 ^ 63.

Definition in_u32 (z : Z) : Prop := (0 <= z < 2 ^ 32)%Z.

Definition in_u64 (z : Z) : Prop := (0 <= z < 2 ^ 64)%Z.

Definition in_s32 (z : Z) : Prop := (- 2 ^ 31 <= z < 2 ^ 31)%Z.

Definition in_s64 (z : Z) : Prop := (- 2 ^ 63 <= z < 2 ^ 63)%Z.

(** ** State and failure

    The effectful code of the repository is written in [ST S], functions on a
    state [S] that may get stuck: [None] stands for undefined behaviour
    (a wild, null or freed pointer) or for an exhausted loop bound. *)

Definition ST (S A : Type) : Type := S → option (A * S).

#[global] Instance ST_ret {S} : MRet (ST S) := λ A a s, Some (a, s).

#[global] Instance ST_bind {S} : MBind (ST S) := λ A B f m s,
  match m s with
  | Some (a, s') => f a s'
  | None => None
  end.

Definition st_get {S} : ST S S := λ s, Some (s, s).

Definition st_put {S} (s : S) : ST S unit := λ _, Some (tt, s).

Definition st_modify {S} (f : S → S) : ST S unit := λ s, Some (tt, f s).

Definition st_fail {S A} : ST S A := λ _, None.

Definition st_opt {S A} (o : option A) : ST S A := λ s,
  match o with Some a => Some (a, s) | None => None end.

Definition st_when {S} (b : bool) (m : ST S unit) : ST S unit :=
  if b then m else mret tt.

(** ** Tactics and hint databases *)

Create HintDb kdb discriminated.
Create HintDb kint discriminated.

(** Unfold the machine integer ranges and solve the linear arithmetic left. *)
Ltac int_solve :=
  unfold in_u32, in_u64, in_s32, in_s64 in *; lia.

(** Split a hypothesis on the result of a binding. *)
Ltac st_inv :=
  repeat match goal with
  | H : mbind _ ?m ?s = Some _ |- _ =>
      unfold mbind, ST_bind in H; destruct (m s) as [[? ?]|] eqn:?; [|discriminate H]
  | H : mret _ _ = Some _ |- _ => unfold mret, ST_ret in H
  | H : Some _ = Some _ |- _ => injection H as H; subst
  | H : (_, _) = (_, _) |- _ => injection H as H; subst
  end.

(** ** Lemmas on machine integers *)

Lemma u32_range z : in_u32 (u32 z).
Proof. apply Z.mod_pos_bound. lia. Qed.

Lemma u64_range z : in_u64 (u64 z).
Proof. apply Z.mod_pos_bound. lia. Qed.

Lemma s32_range z : in_s32 (s32 z).
Proof.
  unfold s32, in_s32. pose proof (Z.mod_pos_bound (z + 2 ^ 31) (2 ^ 32)). lia.
Qed.

Lemma s64_range z : in_s64 (s64 z).
Proof.
  unfold s64, in_s64. pose proof (Z.mod_pos_bound (z + 2 ^ 63) (2 ^ 64)). lia.
Qed.

Lemma u32_id z : in_u32 z → u32 z = z.
Proof. intros H. apply Z.mod_small. exact H. Qed.

Lemma u64_id z : in_u64 z → u64 z = z.
Proof. intros H. apply Z.mod_small. exact H. Qed.

Lemma s32_id z : in_s32 z → s32 z = z.
Proof. intros H. unfold s32, in_s32 in *. rewrite Z.mod_small; lia. Qed.

Lemma s64_id z : in_s64 z → s64 z = z.
Proof. intros H. unfold s64, in_s64 in *. rewrite Z.mod_small; lia. Qed.

(** Wrapping is determined by the residue: the two readings of a 64-bit word
    agree below [2 ^ 63] and differ by [2 ^ 64] above it. *)
Lemma s64_u64 z : s64 (u64 z) = s64 z.
Proof.
  unfold s64, u64. f_equal.
  rewrite Z.add_mod_idemp_l by lia. reflexivity.
Qed.

Lemma s64_sub_small x y :
  (- 2 ^ 63 <= x - y < 2 ^ 63)%Z → s64 (u64 (x - y)) = (x - y)%Z.
Proof. intros H. rewrite s64_u64. apply s64_id. exact H. Qed.

Lemma s32_succ z : s32 (s32 z + 1) = s32 (z + 1).
Proof.
  unfold s32. f_equal.
  replace ((z + 2 ^ 31) mod 2 ^ 32 - 2 ^ 31 + 1 + 2 ^ 31)%Z
    with ((z + 2 ^ 31) mod 2 ^ 32 + 1)%Z by lia.
  rewrite Z.add_mod_idemp_l by lia. f_equal. lia.
Qed.

#[export] Hint Resolve u32_range u64_range s32_range s64_range : kint.
#[export] Hint Rewrite u32_id u64_id s32_id s64_id using int_solve : kint.

(** ** Lemmas on the state monad *)

Section st_laws.
Context {S : Type}.

Lemma st_bind_some {A B} (m : ST S A) (k : A → ST S B) s a s' :
  m s = Some (a, s') → (m ≫= k) s = k a s'.
Proof. intros H. unfold mbind, ST_bind. by rewrite H. Qed.

Lemma st_bind_none {A B} (m : ST S A) (k : A → ST S B) s :
  m s = None → (m ≫= k) s = None.
Proof. intros H. unfold mbind, ST_bind. by rewrite H. Qed.

Lemma st_bind_stuck {A B} (m : ST S A) (k : A → ST S B) s :
  (∀ a s', k a s' = None) → (m ≫= k) s = None.
Proof. intros H. unfold mbind, ST_bind. destruct (m s) as [[a s']|]; [apply H|done]. Qed.

End st_laws.

(** [runs m s Q]: from [s] the computation [m] does not get stuck, and its result
    and final state satisfy [Q]. *)
Section runs.
Context {S : Type}.

Definition runs {A : Type} (m : ST S A) (s : S) (Q : A → S → Prop) : Prop :=
  ∃ a s', m s = Some (a, s') ∧ Q a s'.

Lemma runs_ret {A} (a : A) s (Q : A → S → Prop) : Q a s → runs (mret a) s Q.
Proof. intros H. by exists a, s. Qed.

Lemma runs_bind {A B} (m : ST S A) (k : A → ST S B) s (Q : B → S → Prop) :
  runs m s (λ a s', runs (k a) s' Q) → runs (m ≫= k) s Q.
Proof. intros (a & s' & E & H). unfold runs. by rewrite (st_bind_some _ _ _ _ _ E). Qed.

Lemma runs_wand {A} (m : ST S A) s (P Q : A → S → Prop) :
  runs m s P → (∀ a s', P a s' → Q a s') → runs m s Q.
Proof. intros (a & s' & E & H) HQ. exists a, s'. eauto. Qed.

End runs.

#[export] Hint Resolve st_bind_some runs_ret : kdb.
