(* ===== verification/CMem.v ===== *)
(** * The C memory model

    Memory is a finite map from locations to values. A location is a block
    (the object) with a byte offset in it; pointers to pointers, addresses of
    fields and [offsetof] arithmetic are plain location arithmetic, so the
    macros that reinterpret an entry as a list head keep their meaning. A cell
    that is not mapped (never allocated, or freed) cannot be read, written or
    freed: such an access is undefined behaviour and the run is stuck.

    On top of the memory the file builds a linear separation logic, an
    instance of Iris' [bi], and a weakest precondition [wp] for total
    correctness: [wp m Φ] holds in a heap when, whatever disjoint heap is
    added, [m] returns (it is not stuck), leaves the added heap alone and ends
    in a heap with [Φ]. *)

From stdpp Require Import base gmap list.
From iris.algebra Require Import ofe.
From iris.bi Require Import interface.
From iris.proofmode Require Import environments proofmode.
From S2P Require Import Prelude.

(** ** Locations and values *)

Abbreviation block := positive (only parsing).
Abbreviation loc := (positive * Z)%type (only parsing).

Inductive val :=
  | Vundef
  | Vint (n : Z)
  | Vnull
  | Vptr (l : positive * Z).

#[global] Instance val_eq_dec : EqDecision val.
Proof. solve_decision. Defined.

Abbreviation mem := (gmap (positive * Z) val) (only parsing).

(** [shift l o] is the location [o] bytes after [l]. *)
Definition shift (l : loc) (o : Z) : loc := (l.1, l.2 + o)%Z.

(** The size of a pointer on the 64-bit targets of the code. *)
Definition sizeof_ptr : Z := 8.

(** ** Operations *)

Abbreviation M := (ST mem) (only parsing).

(** [load v] is the C expression [*v]. *)
Definition load (v : val) : M val := λ m,
  match v with
  | Vptr l => match m !! l with Some w => Some (w, m) | None => None end
  | _ => None
  end.

(** [store v w] is the C statement [*v = w;]. *)
Definition store (v w : val) : M unit := λ m,
  match v with
  | Vptr l => match m !! l with Some _ => Some (tt, <[l := w]> m) | None => None end
  | _ => None
  end.

(** [v == w] on pointers; comparing an indeterminate value is stuck. *)
Definition ptr_eq (v w : val) : M bool :=
  match v, w with
  | (Vnull | Vptr _), (Vnull | Vptr _) => mret (bool_decide (v = w))
  | _, _ => st_fail
  end.

(** [&p->field] as a value; the address of a field of [NULL] is stuck. *)
Definition addr_of (v : val) (o : Z) : M val :=
  match v with Vptr l => mret (Vptr (shift l o)) | _ => st_fail end.

(** The cells of an object at [l] with fields at the offsets [os]. *)
Definition cells (l : loc) (os : list Z) (v : val) : mem :=
  list_to_map ((λ o, (shift l o, v)) <$> os).

Definition blocks (m : mem) : gset positive := set_map fst (dom m).

(** [malloc os ok] allocates a new object with uninitialised fields at the
    offsets [os]; [ok] is the allocator's choice between success and [NULL]. *)
Definition malloc (os : list Z) (ok : bool) : M val := λ m,
  if ok then
    let b := fresh (blocks m) in
    Some (Vptr (b, 0%Z), cells (b, 0%Z) os Vundef ∪ m)
  else Some (Vnull, m).

(** Free the cells of an object one by one; a missing cell is a double free. *)
Fixpoint free_cells (l : loc) (os : list Z) (m : mem) : option mem :=
  match os with
  | [] => Some m
  | o :: os =>
      match m !! shift l o with
      | Some _ => free_cells l os (delete (shift l o) m)
      | None => None
      end
  end.

(** [free(p)] on an object with fields at [os]; [free(NULL)] does nothing. *)
Definition free (os : list Z) (v : val) : M unit := λ m,
  match v with
  | Vnull => Some (tt, m)
  | Vptr l => match free_cells l os m with Some m' => Some (tt, m') | None => None end
  | _ => None
  end.

#[global] Arguments load _ _ : simpl never.
#[global] Arguments store _ _ _ : simpl never.
#[global] Arguments ptr_eq _ _ _ : simpl never.
#[global] Arguments addr_of _ _ _ : simpl never.
#[global] Arguments malloc _ _ _ : simpl never.
#[global] Arguments free _ _ _ : simpl never.

(** ** Heap predicates as a bi *)

Record heapProp := HeapProp { hp_holds :> mem → Prop }.
Bind Scope bi_scope with heapProp.

Section ofe.
Inductive heapProp_equiv' (P Q : heapProp) : Prop :=
  { heapProp_in_equiv : ∀ h, P h ↔ Q h }.

#[local] Instance heapProp_equiv : Equiv heapProp := heapProp_equiv'.

#[local] Instance heapProp_equivalence : Equivalence (≡@{heapProp}).
Proof.
  split.
  - by constructor.
  - intros P Q [H]; constructor; naive_solver.
  - intros P Q R [H1] [H2]; constructor; naive_solver.
Qed.

Canonical Structure heapPropO := discreteO heapProp.
End ofe.

Inductive heapProp_entails (P Q : heapProp) : Prop :=
  { heapProp_in_entails : ∀ h, P h → Q h }.

Definition hp_emp : heapProp := HeapProp (λ h, h = ∅).
Definition hp_pure (φ : Prop) : heapProp := HeapProp (λ _, φ).
Definition hp_and (P Q : heapProp) : heapProp := HeapProp (λ h, P h ∧ Q h).
Definition hp_or (P Q : heapProp) : heapProp := HeapProp (λ h, P h ∨ Q h).
Definition hp_impl (P Q : heapProp) : heapProp := HeapProp (λ h, P h → Q h).
Definition hp_forall {A} (Φ : A → heapProp) : heapProp := HeapProp (λ h, ∀ a, Φ a h).
Definition hp_exist {A} (Φ : A → heapProp) : heapProp := HeapProp (λ h, ∃ a, Φ a h).
Definition hp_sep (P Q : heapProp) : heapProp :=
  HeapProp (λ h, ∃ h1 h2, h = h1 ∪ h2 ∧ h1 ##ₘ h2 ∧ P h1 ∧ Q h2).
Definition hp_wand (P Q : heapProp) : heapProp :=
  HeapProp (λ h, ∀ h', h ##ₘ h' → P h' → Q (h ∪ h')).
Definition hp_persistently (P : heapProp) : heapProp :=
  hp_pure (heapProp_entails hp_emp P).
Definition hp_later (P : heapProp) : heapProp := P.

#[local] Existing Instance heapProp_equiv.
#[local] Existing Instance heapProp_equivalence.

Section mixin.
#[local] Instance heapProp_entails_po : PreOrder heapProp_entails.
Proof.
  split.
  - by constructor.
  - intros P Q R [H1] [H2]; constructor; naive_solver.
Qed.

(** Binary connectives respect equivalence, heap by heap. *)
#[local] Ltac ne :=
  intros n P P' [HP] Q Q' [HQ]; constructor; intros h; simpl;
  setoid_rewrite HP; setoid_rewrite HQ; done.

Lemma hp_sep_assoc_1 P Q R : heapProp_entails (hp_sep (hp_sep P Q) R) (hp_sep P (hp_sep Q R)).
Proof.
  constructor; intros h (h12 & h3 & -> & Hd & (h1 & h2 & -> & Hd' & HP & HQ) & HR).
  apply map_disjoint_union_l in Hd as [Hd1 Hd2].
  exists h1, (h2 ∪ h3). split_and!; [by rewrite assoc_L | by apply map_disjoint_union_r | done |].
  by exists h2, h3.
Qed.

Lemma hp_wand_intro P Q R : heapProp_entails (hp_sep P Q) R → heapProp_entails P (hp_wand Q R).
Proof. intros [H]; constructor; intros h HP h' Hd HQ. apply H. by exists h, h'. Qed.

Lemma hp_wand_elim P Q R : heapProp_entails P (hp_wand Q R) → heapProp_entails (hp_sep P Q) R.
Proof. intros [H]; constructor; intros h (h1 & h2 & -> & Hd & HP & HQ). by apply (H h1 HP h2). Qed.

Lemma hp_sep_comm_1 P Q : heapProp_entails (hp_sep P Q) (hp_sep Q P).
Proof.
  constructor; intros h (h1 & h2 & -> & Hd & HP & HQ).
  exists h2, h1. split_and!; [by rewrite map_union_comm | done..].
Qed.

Lemma heapProp_bi_mixin :
  BiMixin heapProp_entails hp_emp hp_pure hp_and hp_or hp_impl
    (@hp_forall) (@hp_exist) hp_sep hp_wand.
Proof.
  split; try apply _.
  - intros P Q; split.
    + intros [H]; split; constructor; naive_solver.
    + intros [[H1] [H2]]; constructor; naive_solver.
  - intros n φ ψ H; constructor; simpl; done.
  - ne.
  - ne.
  - ne.
  - intros A n Φ Ψ H; constructor; intros h; simpl. split; intros ? a; apply (H a); eauto.
  - intros A n Φ Ψ H; constructor; intros h; simpl. split; intros [a ?]; exists a; apply (H a); eauto.
  - ne.
  - ne.
  - intros φ P H; by constructor.
  - intros φ P H; constructor; intros h Hφ. by apply (H Hφ).
  - intros P Q; constructor; by intros h [].
  - intros P Q; constructor; by intros h [].
  - intros P Q R [H1] [H2]; constructor; naive_solver.
  - intros P Q; constructor; by left.
  - intros P Q; constructor; by right.
  - intros P Q R [H1] [H2]; constructor; intros h []; eauto.
  - intros P Q R [H]; constructor; intros h HP HQ. by apply H.
  - intros P Q R [H]; constructor; intros h [HP HQ]. by apply H.
  - intros A P Ψ H; constructor; intros h HP a. by apply H.
  - intros A Ψ a; constructor; intros h HΨ. apply HΨ.
  - intros A Ψ a; constructor; intros h HΨ. by exists a.
  - intros A Φ Q H; constructor; intros h [a HΦ]. by apply (H a).
  - intros P P' Q Q' [H1] [H2]; constructor; intros h (h1 & h2 & ? & ? & ? & ?).
    exists h1, h2; split_and!; eauto.
  - intros P; constructor; intros h HP. exists ∅, h.
    split_and!; [by rewrite left_id_L | apply map_disjoint_empty_l | done..].
  - intros P; constructor; intros h (h1 & h2 & -> & _ & -> & HP). by rewrite left_id_L.
  - apply hp_sep_comm_1.
  - apply hp_sep_assoc_1.
  - apply hp_wand_intro.
  - apply hp_wand_elim.
Qed.

Lemma heapProp_bi_persistently_mixin :
  BiPersistentlyMixin heapProp_entails hp_emp hp_and (@hp_exist) hp_sep hp_persistently.
Proof.
  eapply (bi_persistently_mixin_discrete _ _ hp_pure); [done| |done|apply heapProp_bi_mixin].
  intros A Φ [H]. destruct (H ∅) as [x Hx]; [done|].
  exists x. constructor. by intros h ->.
Qed.

Lemma heapProp_bi_later_mixin :
  BiLaterMixin heapProp_entails hp_pure hp_or hp_impl
    (@hp_forall) (@hp_exist) hp_sep hp_persistently hp_later.
Proof. eapply bi_later_mixin_id; [done|apply heapProp_bi_mixin]. Qed.
End mixin.

Canonical Structure heapPropI : bi :=
  {| bi_ofe_mixin := ofe_mixin_of heapProp; bi_cofe_aux := discrete_cofe heapProp_equivalence;
     bi_bi_mixin := heapProp_bi_mixin;
     bi_bi_persistently_mixin := heapProp_bi_persistently_mixin;
     bi_bi_later_mixin := heapProp_bi_later_mixin |}.

(** ** Points-to and weakest preconditions *)

Definition pointsto (l : loc) (v : val) : heapProp := HeapProp (λ h, h = {[l := v]}).

Notation "l ↦ v" := (pointsto l v) (at level 20, format "l  ↦  v") : bi_scope.

Definition wp {A} (m : M A) (Φ : A → heapProp) : heapProp := HeapProp (λ h,
  ∀ hf, h ##ₘ hf →
  ∃ a h', m (h ∪ hf) = Some (a, h' ∪ hf) ∧ h' ##ₘ hf ∧ Φ a h').

(** Total correctness of [m]: from any heap with [P], in any frame, [m]
    returns and establishes [Q] of its result. *)
Definition triple {A} (P : heapProp) (m : M A) (Q : A → heapProp) : Prop :=
  bi_entails P (wp m Q).

Notation "{{ P } } m {{ v , Q } }" := (triple P%I m%stdpp (λ v, Q%I))
  (at level 20, P, m, Q at level 200, v name,
   format "{{  P  } }  m  {{  v ,  Q  } }") : type_scope.

(** An object with uninitialised fields at [os]. *)
Definition object (l : loc) (os : list Z) : heapProp :=
  ([∗ list] o ∈ os, ∃ v, shift l o ↦ v)%I.

(** ** Rules *)

Lemma heapProp_entails_def (P Q : heapProp) : (P ⊢ Q) ↔ ∀ h, P h → Q h.
Proof. split; [by intros [H] | by constructor]. Qed.

Lemma triple_run {A} (P : heapProp) (m : M A) Q h hf :
  triple P m Q → P h → h ##ₘ hf →
  ∃ a h', m (h ∪ hf) = Some (a, h' ∪ hf) ∧ h' ##ₘ hf ∧ Q a h'.
Proof. intros [H] HP Hd. by apply (H h HP). Qed.

Lemma triple_run_whole {A} (P : heapProp) (m : M A) Q h :
  triple P m Q → P h → ∃ a h', m h = Some (a, h') ∧ Q a h'.
Proof.
  intros Ht HP. destruct (triple_run P m Q h ∅ Ht HP) as (a & h' & Hm & _ & HQ).
  { apply map_disjoint_empty_r. }
  rewrite !right_id_L in Hm. eauto.
Qed.

Lemma wp_ret {A} (a : A) (Φ : A → heapProp) : Φ a ⊢ wp (mret a) Φ.
Proof. apply heapProp_entails_def. intros h HΦ hf Hd. by exists a, h. Qed.

Lemma wp_bind {A B : Type} (m : M A) (k : A → M B) (Φ : B → heapProp) :
  wp m (λ a, wp (k a) Φ) ⊢ wp (m ≫= k) Φ.
Proof.
  apply heapProp_entails_def. intros h H hf Hd.
  destruct (H hf Hd) as (a & h' & Hm & Hd' & H').
  destruct (H' hf Hd') as (b & h'' & Hk & Hd'' & HΦ).
  exists b, h''. by rewrite (st_bind_some _ _ _ _ _ Hm).
Qed.

Lemma wp_wand {A} (m : M A) (Φ Ψ : A → heapProp) :
  wp m Φ -∗ (∀ a, Φ a -∗ Ψ a) -∗ wp m Ψ.
Proof.
  apply bi.entails_wand, bi.wand_intro_r, heapProp_entails_def.
  intros h (h1 & h2 & -> & Hd & H & Hw) hf [Hd1 Hd2]%map_disjoint_union_l.
  destruct (H (h2 ∪ hf)) as (a & h' & Hm & [Hd3 Hd4]%map_disjoint_union_r & HΦ).
  { by apply map_disjoint_union_r. }
  exists a, (h2 ∪ h'). rewrite -assoc_L Hm. split_and!.
  - by rewrite assoc_L (map_union_comm h' h2).
  - by apply map_disjoint_union_l.
  - by apply (Hw a).
Qed.

Lemma wp_load l v (Φ : val → heapProp) :
  l ↦ v -∗ (l ↦ v -∗ Φ v) -∗ wp (load (Vptr l)) Φ.
Proof.
  apply bi.entails_wand, bi.wand_intro_r, heapProp_entails_def.
  intros h (h1 & h2 & -> & Hd & -> & Hw) hf Hd'.
  exists v, (h2 ∪ {[l := v]}). rewrite (map_union_comm h2) //. split_and!; [|done|].
  - unfold load. by rewrite -assoc_L lookup_union_l' ?lookup_singleton_eq.
  - rewrite map_union_comm //. by apply Hw.
Qed.

Lemma wp_store l v w (Φ : unit → heapProp) :
  l ↦ v -∗ (l ↦ w -∗ Φ tt) -∗ wp (store (Vptr l) w) Φ.
Proof.
  apply bi.entails_wand, bi.wand_intro_r, heapProp_entails_def.
  intros h (h1 & h2 & -> & Hd & -> & Hw) hf Hd'.
  assert (h2 !! l = None) as Hl by (by apply map_disjoint_singleton_l in Hd).
  exists tt, (h2 ∪ {[l := w]}). split_and!.
  - unfold store. rewrite -assoc_L lookup_union_l' ?lookup_singleton_eq //.
    by rewrite insert_union_l insert_singleton_eq assoc_L (map_union_comm h2) ?map_disjoint_singleton_r.
  - apply map_disjoint_union_l in Hd' as [Hd1 Hd2]. apply map_disjoint_union_l. split; [done|].
    apply map_disjoint_singleton_l in Hd1. by apply map_disjoint_singleton_l.
  - apply Hw; [by apply map_disjoint_singleton_r | done].
Qed.

Lemma wp_ptr_eq v w (Φ : bool → heapProp) :
  v ≠ Vundef → (∀ n, v ≠ Vint n) → w ≠ Vundef → (∀ n, w ≠ Vint n) →
  Φ (bool_decide (v = w)) ⊢ wp (ptr_eq v w) Φ.
Proof.
  intros. rewrite -> (wp_ret (bool_decide (v = w)) Φ).
  destruct v, w; simpl; naive_solver.
Qed.

Lemma wp_addr_of l o (Φ : val → heapProp) : Φ (Vptr (shift l o)) ⊢ wp (addr_of (Vptr l) o) Φ.
Proof. apply (wp_ret (Vptr (shift l o))). Qed.

(** Allocation hands out a block that occurs nowhere, in the frame either. *)

Lemma shift_inj l o o' : shift l o = shift l o' → o = o'.
Proof. unfold shift. intros [=]. lia. Qed.

Lemma cells_holds l os v : NoDup os → ([∗ list] o ∈ os, shift l o ↦ v)%I (cells l os v).
Proof.
  induction os as [|o os IH]; intros Hnd; [done|].
  apply NoDup_cons in Hnd as [Hin Hnd].
  exists {[shift l o := v]}, (cells l os v). split_and!; [|..|by apply IH].
  - by rewrite -insert_union_singleton_l.
  - apply map_disjoint_singleton_l. apply not_elem_of_list_to_map_1.
    rewrite -list_fmap_compose. intros (o' & Heq & Hin')%list_elem_of_fmap.
    apply shift_inj in Heq as ->. done.
  - done.
Qed.

Lemma cells_fresh (m : mem) os v :
  cells (fresh (blocks m), 0%Z) os v ##ₘ m.
Proof.
  apply map_disjoint_spec. intros l x y Hx Hy.
  apply elem_of_list_to_map_2, list_elem_of_fmap in Hx as (o & [= -> ->] & Ho).
  apply (is_fresh (blocks m)). unfold blocks at 2. apply elem_of_map.
  eexists (shift (fresh (blocks m), 0%Z) o). split; [done|by eapply elem_of_dom_2].
Qed.

Lemma wp_malloc os (Φ : val → heapProp) :
  NoDup os →
  (∀ b, ([∗ list] o ∈ os, shift (b, 0%Z) o ↦ Vundef) -∗ Φ (Vptr (b, 0%Z)))
  ⊢ wp (malloc os true) Φ.
Proof.
  intros Hnd. apply heapProp_entails_def. intros h Hw hf Hd.
  set (b := fresh (blocks (h ∪ hf))).
  pose proof (cells_fresh (h ∪ hf) os Vundef) as [Hc1 Hc2]%map_disjoint_union_r.
  eexists _, (h ∪ cells (b, 0%Z) os Vundef). split_and!.
  - unfold malloc. by rewrite (map_union_comm h (cells _ _ _)) // -assoc_L.
  - by apply map_disjoint_union_l.
  - by apply (Hw b), cells_holds.
Qed.

Lemma wp_malloc_null os (Φ : val → heapProp) : Φ Vnull ⊢ wp (malloc os false) Φ.
Proof. apply heapProp_entails_def. intros h HΦ hf Hd. by exists Vnull, h. Qed.

Lemma free_cells_object l os h hf :
  object l os h → h ##ₘ hf → free_cells l os (h ∪ hf) = Some hf.
Proof.
  revert h. induction os as [|o os IH]; intros h.
  { intros -> _. by rewrite left_id_L. }
  intros (h1 & h2 & -> & Hd & [v ->] & Ho) [Hd1 Hd2]%map_disjoint_union_l. simpl.
  rewrite -assoc_L lookup_union_l' ?lookup_singleton_eq //.
  rewrite -insert_union_singleton_l delete_insert_id; [by apply IH|].
  apply map_disjoint_singleton_l in Hd, Hd1. by apply lookup_union_None.
Qed.

Lemma wp_free l os (Φ : unit → heapProp) :
  object l os -∗ Φ tt -∗ wp (free os (Vptr l)) Φ.
Proof.
  apply bi.entails_wand, bi.wand_intro_r, heapProp_entails_def.
  intros h (h1 & h2 & -> & Hd & Ho & HΦ) hf [Hd1 Hd2]%map_disjoint_union_l.
  exists tt, h2. split_and!; [|done..].
  unfold free. rewrite -assoc_L (free_cells_object l os h1 (h2 ∪ hf)) //.
  by apply map_disjoint_union_r.
Qed.

(** Two points-to facts own different cells. *)
Lemma pointsto_ne l l' v v' : l ↦ v -∗ l' ↦ v' -∗ ⌜l ≠ l'⌝.
Proof.
  apply bi.entails_wand, bi.wand_intro_r, heapProp_entails_def.
  intros h (h1 & h2 & -> & Hd & -> & ->) ->.
  by apply map_disjoint_singleton_l in Hd; rewrite lookup_singleton_eq in Hd.
Qed.

(** Reading an assertion in a concrete heap. *)
Lemma hp_mono (P Q : heapProp) h : (P ⊢ Q) → P h → Q h.
Proof. intros [H]. apply H. Qed.

Lemma pointsto_holds l v : (l ↦ v)%I ({[l := v]} : mem).
Proof. done. Qed.

Lemma sep_holds (P Q : heapProp) h1 h2 : P h1 → Q h2 → h1 ##ₘ h2 → (P ∗ Q)%I (h1 ∪ h2).
Proof. intros. by exists h1, h2. Qed.

Lemma pure_and_holds (φ : Prop) (P : heapProp) h : (⌜φ⌝ ∧ P)%I h → φ ∧ P h.
Proof. done. Qed.

(** The heap of a triple can be cut out of the whole memory. *)
Lemma triple_frame {A} (P R : heapProp) (m : M A) Q :
  triple P m Q → triple (P ∗ R)%I m (λ a, Q a ∗ R)%I.
Proof.
  unfold triple. intros H. iIntros "[HP HR]". iApply (wp_wand with "[HP]"); [by iApply H|].
  iIntros (a) "$". done.
Qed.

Lemma triple_conseq {A} (P P' : heapProp) (m : M A) Q Q' :
  (P ⊢ P') → triple P' m Q' → (∀ a, Q' a ⊢ Q a) → triple P m Q.
Proof.
  unfold triple. intros HP H HQ. rewrite HP H. iIntros "H".
  iApply (wp_wand with "H"). iIntros (a) "H". by iApply HQ.
Qed.

(** ** Symbolic execution

    The tactics consume the head operation of a [wp] goal, looking the cell up
    among the spatial hypotheses. *)

#[global] Arguments hp_holds _ _ : simpl never.
#[global] Typeclasses Opaque pointsto wp object.
#[global] Opaque pointsto wp.

Ltac wp_bind_head := try iApply wp_bind.

(** [wp_load "H"]: read the cell owned by [H]. *)
Tactic Notation "wp_load" constr(H) :=
  wp_bind_head; iApply (wp_load with H); iIntros H; simpl.

(** [wp_store "H"]: overwrite the cell owned by [H]. *)
Tactic Notation "wp_store" constr(H) :=
  wp_bind_head; iApply (wp_store with H); iIntros H; simpl.

Tactic Notation "wp_cmp" :=
  wp_bind_head; iApply wp_ptr_eq; [done..|]; simpl.

Tactic Notation "wp_addr" :=
  wp_bind_head; iApply wp_addr_of; simpl.

Tactic Notation "wp_ret" := wp_bind_head; iApply wp_ret; simpl.

(** Run [tac] on the name of the hypothesis that owns the cell [l]. *)
Ltac with_cell l tac :=
  match goal with
  | |- context [Esnoc _ ?i (pointsto ?l' ?v)] => unify l l'; tac i v
  end.

(** One step of the head operation; the cell is looked up in the context and
    keeps its name. *)
Ltac wp_step :=
  lazymatch goal with
  | |- envs_entails _ (wp (mbind _ _) _) => iApply wp_bind
  | |- envs_entails _ (wp (mret _) _) => iApply wp_ret
  | |- envs_entails _ (wp (addr_of (Vptr _) _) _) => iApply wp_addr_of
  | |- envs_entails _ (wp (ptr_eq _ _) _) => iApply wp_ptr_eq; [done..|]
  | |- envs_entails _ (wp (load (Vptr ?l)) _) =>
      with_cell l ltac:(fun i v => iApply (wp_load l v with i); iIntros i)
  | |- envs_entails _ (wp (store (Vptr ?l) _) _) =>
      with_cell l ltac:(fun i v => iApply (wp_store l v with i); iIntros i)
  end; simpl.

(** Run the code as far as the cells at hand allow. *)
Ltac wp_run := repeat wp_step.
