(* ===== verification/QueueSeg.v ===== *)
(** * Linked segments

    What the list families of queue.h share: the layout of links inside an
    element, the [for (var = FIRST; var; var = NEXT(var))] loop, and the
    representation predicate of a run of linked cells.

    Every family threads the elements through cells that hold a pointer to the
    next element: the head's first field, then the next field of each element.
    [seg p xs] owns these cells from the cell [p] on, up to the cell [cend p
    xs] excluded, together with what [back] says of each element (nothing for
    the singly linked families, the back pointer for the doubly linked ones). *)

From stdpp Require Import base gmap list.
From iris.proofmode Require Import proofmode.
From S2P Require Import Prelude CMem.

(** The link structure is the member [field] of the element, and its next
    pointer is the first word of it. *)
Abbreviation link field x := (shift x field).

(** The second word of a two-word structure (a head's last pointer, an entry's
    previous pointer). *)
Abbreviation second l := (shift l sizeof_ptr).

(** [for (var = first; var; var = next(var)) body], bounded by [fuel]; the
    loop variables of the body are threaded through [A]. *)
Fixpoint for_each {A : Type} (fuel : nat) (next : val → M val) (var : val)
    (body : val → A → M A) (a : A) : M A :=
  match fuel with
  | O => st_fail
  | S fuel =>
      stop ← ptr_eq var Vnull;
      if (stop : bool) then mret a
      else a ← body var a; var ← next var; for_each fuel next var body a
  end.

(** ** The lists the families implement

    Positions are named by elements, as in the macros; an operation at an
    element that is not in the list has no result. *)

Fixpoint insert_after (s e : loc) (xs : list loc) : option (list loc) :=
  match xs with
  | [] => None
  | x :: xs =>
      if decide (x = s) then Some (x :: e :: xs)
      else xs ← insert_after s e xs; Some (x :: xs)
  end.

Fixpoint insert_before (s e : loc) (xs : list loc) : option (list loc) :=
  match xs with
  | [] => None
  | x :: xs =>
      if decide (x = s) then Some (e :: x :: xs)
      else xs ← insert_before s e xs; Some (x :: xs)
  end.

Fixpoint remove_elem (e : loc) (xs : list loc) : option (list loc) :=
  match xs with
  | [] => None
  | x :: xs =>
      if decide (x = e) then Some xs
      else xs ← remove_elem e xs; Some (x :: xs)
  end.

(** What follows the element [e]. *)
Fixpoint drop_until (e : loc) (xs : list loc) : option (list loc) :=
  match xs with
  | [] => None
  | x :: xs => if decide (x = e) then Some xs else drop_until e xs
  end.

(** ** Representation predicate *)

Section seg.
Context (field : Z) (back : loc → loc → heapProp).

Fixpoint seg (p : loc) (xs : list loc) : heapProp :=
  match xs with
  | [] => emp
  | x :: xs => p ↦ Vptr x ∗ back x p ∗ seg (link field x) xs
  end.

Fixpoint cend (p : loc) (xs : list loc) : loc :=
  match xs with
  | [] => p
  | x :: xs => cend (link field x) xs
  end.

Lemma seg_app p xs ys : seg p (xs ++ ys) ⊣⊢ seg p xs ∗ seg (cend p xs) ys.
Proof.
  revert p. induction xs as [|x xs IH]; intros p; simpl; [by rewrite left_id|].
  by rewrite IH -!assoc.
Qed.

Lemma cend_app p xs ys : cend p (xs ++ ys) = cend (cend p xs) ys.
Proof. revert p. induction xs; simpl; auto. Qed.

Lemma cend_snoc p xs x : cend p (xs ++ [x]) = link field x.
Proof. by rewrite cend_app. Qed.

(** The pointer found in a cell that starts the rest [ys] of a list ended by
    the null pointer. *)
Definition first_of (ys : list loc) : val :=
  match ys with [] => Vnull | y :: _ => Vptr y end.

(** A null-terminated list from the cell [p]. *)
Definition clist (p : loc) (xs : list loc) : heapProp :=
  seg p xs ∗ cend p xs ↦ Vnull.

Lemma clist_nil p : clist p [] ⊣⊢ p ↦ Vnull.
Proof. by rewrite /clist /= left_id. Qed.

Lemma clist_cons p x xs :
  clist p (x :: xs) ⊣⊢ p ↦ Vptr x ∗ back x p ∗ clist (link field x) xs.
Proof. by rewrite /clist /= -!assoc. Qed.

Lemma clist_app p xs ys : clist p (xs ++ ys) ⊣⊢ seg p xs ∗ clist (cend p xs) ys.
Proof. by rewrite /clist seg_app cend_app -assoc. Qed.

(** Reading the cell in front of a list. *)
Lemma clist_head p xs :
  clist p xs ⊣⊢ p ↦ first_of xs ∗
    match xs with [] => emp | x :: xs => back x p ∗ clist (link field x) xs end.
Proof.
  destruct xs as [|x xs]; simpl; [by rewrite clist_nil right_id | apply clist_cons].
Qed.

End seg.

(** ** Splitting a list at an element *)

Lemma insert_after_split s e xs xs' :
  insert_after s e xs = Some xs' →
  ∃ ys zs, xs = ys ++ s :: zs ∧ s ∉ ys ∧ xs' = ys ++ s :: e :: zs.
Proof.
  revert xs'. induction xs as [|x xs IH]; intros xs' H; simplify_eq/=.
  case_decide; simplify_eq.
  - exists [], xs. set_solver.
  - apply bind_Some in H as (ws & Hws & [= <-]).
    destruct (IH _ Hws) as (ys & zs & -> & Hn & ->). exists (x :: ys), zs. set_solver.
Qed.

Lemma insert_before_split s e xs xs' :
  insert_before s e xs = Some xs' →
  ∃ ys zs, xs = ys ++ s :: zs ∧ s ∉ ys ∧ xs' = ys ++ e :: s :: zs.
Proof.
  revert xs'. induction xs as [|x xs IH]; intros xs' H; simplify_eq/=.
  case_decide; simplify_eq.
  - exists [], xs. set_solver.
  - apply bind_Some in H as (ws & Hws & [= <-]).
    destruct (IH _ Hws) as (ys & zs & -> & Hn & ->). exists (x :: ys), zs. set_solver.
Qed.

Lemma remove_elem_split e xs xs' :
  remove_elem e xs = Some xs' →
  ∃ ys zs, xs = ys ++ e :: zs ∧ e ∉ ys ∧ xs' = ys ++ zs.
Proof.
  revert xs'. induction xs as [|x xs IH]; intros xs' H; simplify_eq/=.
  case_decide; simplify_eq.
  - exists [], xs'. set_solver.
  - apply bind_Some in H as (ws & Hws & [= <-]).
    destruct (IH _ Hws) as (ys & zs & -> & Hn & ->). exists (x :: ys), zs. set_solver.
Qed.

Lemma drop_until_split e xs xs' :
  drop_until e xs = Some xs' → ∃ ys, xs = ys ++ e :: xs' ∧ e ∉ ys.
Proof.
  induction xs as [|x xs IH]; intros H; simplify_eq/=.
  case_decide; simplify_eq.
  - exists []. set_solver.
  - destruct (IH H) as (ys & -> & Hn). exists (x :: ys). set_solver.
Qed.

(** ** The loop over a list *)

(** A list whose elements carry private resources [R x d] with a datum [d]. *)
Definition payload {D : Type} (R : loc → D → heapProp) (xds : list (loc * D)) : heapProp :=
  ([∗ list] xd ∈ xds, R xd.1 xd.2)%I.

Lemma payload_snoc {D : Type} (R : loc → D → heapProp) xds x d :
  payload R (xds ++ [(x, d)]) ⊣⊢ payload R xds ∗ R x d.
Proof. by rewrite /payload big_sepL_snoc. Qed.

Section for_each.
Context {A D : Type} (R : loc → D → heapProp).
Context (next : val → M val) (body : val → A → M A) (g : A → loc → D → A).
Context (field : Z) (back : loc → loc → heapProp).
Context (Hnext : ∀ x v, triple (link field x ↦ v) (next (Vptr x))
                          (λ w, ⌜w = v⌝ ∧ link field x ↦ v)%I).
Context (Hbody : ∀ x d a, triple (R x d) (body (Vptr x) a)
                          (λ a', ⌜a' = g a x d⌝ ∧ R x d)%I).

(** A body that only works on the payload of the current element visits the
    elements in list order and leaves the list as it was. *)
Lemma for_each_spec fuel p xds a :
  length xds < fuel →
  triple (clist field back p xds.*1 ∗ payload R xds)%I
    (for_each fuel next (first_of xds.*1) body a)
    (λ a', ⌜a' = foldl (λ a xd, g a xd.1 xd.2) a xds⌝ ∧
       clist field back p xds.*1 ∗ payload R xds)%I.
Proof.
  unfold triple. revert p xds a. induction fuel as [|fuel IH]; intros p xds a Hf; [lia|].
  destruct xds as [|[x d] xds]; simpl.
  - iIntros "H". wp_cmp. wp_ret. by iFrame.
  - iIntros "[Hl [HR Hpay]]". iDestruct (clist_cons with "Hl") as "(Hp & Hb & Hl)".
    wp_cmp. iApply wp_bind. iApply (wp_wand with "[HR]"); [by iApply Hbody|].
    iIntros (a') "[-> HR]". iApply wp_bind. iDestruct (clist_head with "Hl") as "[Hc Hl]".
    iApply (wp_wand with "[Hc]"); [by iApply Hnext|]. iIntros (w) "[-> Hc]".
    iApply (wp_wand with "[Hc Hl Hpay]").
    { iApply (IH (link field x)); [simpl in Hf; lia|].
      iFrame "Hpay". iApply clist_head. iFrame. }
    iIntros (r) "[-> [Hl Hpay]]". iSplit; [done|]. iFrame "HR Hpay".
    iApply clist_cons. iFrame.
Qed.
End for_each.

#[global] Typeclasses Opaque clist.
