(* ===== verification/QueueSlist.v ===== *)
(** * Singly-linked lists (SLIST)

    The SLIST macros of queue.h. [slist h xs] says that the head at [h] leads
    to the elements [xs], in order. *)

From stdpp Require Import base gmap list.
From iris.proofmode Require Import proofmode.
From S2P Require Import Prelude CMem QueueSeg.

Section slist.
Context (field : Z).

(** ** Operations *)

(** [&SLIST_FIRST(head)]: [slh_first] is the only member of the head. *)
Definition SLIST_FIRST_addr (head : val) : M val := mret head.

Definition SLIST_FIRST (head : val) : M val := a ← SLIST_FIRST_addr head; load a.

(** [&SLIST_NEXT(elm)] *)
Definition SLIST_NEXT_addr (elm : val) : M val := addr_of elm field.

Definition SLIST_NEXT (elm : val) : M val := a ← SLIST_NEXT_addr elm; load a.

Definition SLIST_EMPTY (head : val) : M bool :=
  f ← SLIST_FIRST head; ptr_eq f Vnull.

Definition SLIST_FOREACH {A : Type} (fuel : nat) (head : val)
    (body : val → A → M A) (a : A) : M A :=
  var ← SLIST_FIRST head; for_each fuel SLIST_NEXT var body a.

Definition SLIST_INIT (head : val) : M unit :=
  a ← SLIST_FIRST_addr head; store a Vnull.

Definition SLIST_INSERT_AFTER (slistelm elm : val) : M unit :=
  n ← SLIST_NEXT slistelm;
  a ← SLIST_NEXT_addr elm; store a n;;
  a ← SLIST_NEXT_addr slistelm; store a elm.

Definition SLIST_INSERT_HEAD (head elm : val) : M unit :=
  f ← SLIST_FIRST head;
  a ← SLIST_NEXT_addr elm; store a f;;
  a ← SLIST_FIRST_addr head; store a elm.

Definition SLIST_REMOVE_HEAD (head : val) : M unit :=
  f ← SLIST_FIRST head; n ← SLIST_NEXT f;
  a ← SLIST_FIRST_addr head; store a n.

(** [while (SLIST_NEXT(curelm) != elm) curelm = SLIST_NEXT(curelm);] *)
Fixpoint SLIST_REMOVE_loop (fuel : nat) (curelm elm : val) : M val :=
  match fuel with
  | O => st_fail
  | S fuel =>
      n ← SLIST_NEXT curelm;
      found ← ptr_eq n elm;
      if (found : bool) then mret curelm
      else n ← SLIST_NEXT curelm; SLIST_REMOVE_loop fuel n elm
  end.

Definition SLIST_REMOVE (fuel : nat) (head elm : val) : M unit :=
  f ← SLIST_FIRST head;
  isfirst ← ptr_eq f elm;
  if (isfirst : bool) then SLIST_REMOVE_HEAD head
  else
    curelm ← SLIST_FIRST head;
    curelm ← SLIST_REMOVE_loop fuel curelm elm;
    n ← SLIST_NEXT curelm; nn ← SLIST_NEXT n;
    a ← SLIST_NEXT_addr curelm; store a nn.

(** The updates of a list, and what each macro does to the list of elements. *)
Inductive slist_op :=
  | SInsertHead (elm : loc)
  | SInsertAfter (slistelm elm : loc)
  | SRemoveHead
  | SRemove (elm : loc).

Definition slist_exec (fuel : nat) (h : loc) (op : slist_op) : M unit :=
  match op with
  | SInsertHead e => SLIST_INSERT_HEAD (Vptr h) (Vptr e)
  | SInsertAfter s e => SLIST_INSERT_AFTER (Vptr s) (Vptr e)
  | SRemoveHead => SLIST_REMOVE_HEAD (Vptr h)
  | SRemove e => SLIST_REMOVE fuel (Vptr h) (Vptr e)
  end.

Definition slist_step (op : slist_op) (xs : list loc) : option (list loc) :=
  match op with
  | SInsertHead e => Some (e :: xs)
  | SInsertAfter s e => insert_after s e xs
  | SRemoveHead => match xs with [] => None | _ :: xs => Some xs end
  | SRemove e => remove_elem e xs
  end.

(** ** Representation *)

Definition no_back (x p : loc) : heapProp := emp%I.

Definition slist (h : loc) (xs : list loc) : heapProp := clist field no_back h xs.

(** An element that is in no list: its link is the element's own. *)
Definition slist_entry (x : loc) : heapProp := (∃ v, link field x ↦ v)%I.

(** The elements an operation takes into the list, and gives back. *)
Definition slist_takes (op : slist_op) : list loc :=
  match op with SInsertHead e | SInsertAfter _ e => [e] | _ => [] end.

Definition slist_gives (op : slist_op) (xs : list loc) : list loc :=
  match op with SRemoveHead => take 1 xs | SRemove e => [e] | _ => [] end.

Definition slist_entries (es : list loc) : heapProp := ([∗ list] e ∈ es, slist_entry e)%I.

(** ** Lemmas *)

Lemma wp_SLIST_NEXT x v (Φ : val → heapProp) :
  link field x ↦ v -∗ (link field x ↦ v -∗ Φ v) -∗ wp (SLIST_NEXT (Vptr x)) Φ.
Proof.
  iIntros "H HΦ". unfold SLIST_NEXT, SLIST_NEXT_addr. wp_addr.
  iApply (wp_load with "H HΦ").
Qed.

(** The loop of SLIST_REMOVE stops at the element in front of the one looked
    for, after as many steps as there are elements before it. *)
Lemma SLIST_REMOVE_loop_spec fuel y ys e (Φ : val → heapProp) :
  e ∉ ys → length ys < fuel →
  seg field no_back (link field y) ys ∗ cend field (link field y) ys ↦ Vptr e ∗
  (∀ c (_ : cend field (link field y) ys = link field c),
     seg field no_back (link field y) ys -∗
     cend field (link field y) ys ↦ Vptr e -∗ Φ (Vptr c))
  ⊢ wp (SLIST_REMOVE_loop fuel (Vptr y) (Vptr e)) Φ.
Proof.
  revert y ys. induction fuel as [|fuel IH]; intros y ys Hin Hf; [lia|].
  iIntros "(Hs & Hc & HΦ)". destruct ys as [|z ys]; simpl.
  - iApply wp_bind. iApply (wp_SLIST_NEXT with "Hc"). iIntros "Hc".
    wp_cmp. rewrite bool_decide_true //. wp_ret. by iApply ("HΦ" $! y eq_refl with "Hs").
  - iDestruct "Hs" as "(Hy & Hb & Hs)". apply not_elem_of_cons in Hin as [Hne Hin].
    iApply wp_bind. iApply (wp_SLIST_NEXT with "Hy"). iIntros "Hy".
    wp_cmp. rewrite bool_decide_false; [|congruence].
    iApply wp_bind. iApply (wp_SLIST_NEXT with "Hy"). iIntros "Hy".
    iApply (IH with "[$Hs $Hc Hy Hb HΦ]"); [done|simpl in Hf; lia|].
    iIntros (c Hc) "Hs Hc". iApply ("HΦ" $! c Hc with "[$] Hc").
Qed.

Lemma SLIST_INIT_spec h v :
  triple (h ↦ v) (SLIST_INIT (Vptr h)) (λ _, slist h []).
Proof.
  unfold triple, slist. iIntros "H".
  unfold SLIST_INIT, SLIST_FIRST_addr. wp_ret. wp_store "H". by rewrite clist_nil.
Qed.

Lemma SLIST_INSERT_HEAD_spec h e xs :
  triple (slist h xs ∗ slist_entry e)%I (SLIST_INSERT_HEAD (Vptr h) (Vptr e))
    (λ _, slist h (e :: xs)).
Proof.
  unfold triple, slist. iIntros "[Hl [%v He]]".
  iDestruct (clist_head with "Hl") as "[Hh Hl]".
  unfold SLIST_INSERT_HEAD, SLIST_FIRST, SLIST_FIRST_addr, SLIST_NEXT_addr.
  iApply wp_bind. wp_ret. wp_load "Hh". wp_addr. wp_store "He". wp_ret. wp_store "Hh".
  rewrite clist_cons. iFrame "Hh". iSplitR; [done|]. iApply clist_head. iFrame.
Qed.

Lemma SLIST_INSERT_AFTER_spec h ys s zs e :
  triple (slist h (ys ++ s :: zs) ∗ slist_entry e)%I (SLIST_INSERT_AFTER (Vptr s) (Vptr e))
    (λ _, slist h (ys ++ s :: e :: zs)).
Proof.
  unfold triple, slist. rewrite clist_app clist_cons. iIntros "[(Hs & Hc & Hb & Hl) [%v He]]".
  iDestruct (clist_head with "Hl") as "[Hn Hl]".
  unfold SLIST_INSERT_AFTER. iApply wp_bind.
  iApply (wp_SLIST_NEXT with "Hn"). iIntros "Hn". unfold SLIST_NEXT_addr.
  wp_addr. wp_store "He". wp_addr. wp_store "Hn".
  rewrite clist_app !clist_cons. iFrame "Hs Hc Hb Hn". iSplitR; [done|].
  iApply clist_head. iFrame.
Qed.

Lemma SLIST_REMOVE_HEAD_spec h e xs :
  triple (slist h (e :: xs)) (SLIST_REMOVE_HEAD (Vptr h)) (λ _, slist h xs ∗ slist_entry e)%I.
Proof.
  unfold triple, slist. rewrite clist_cons. iIntros "(Hh & Hb & Hl)".
  iDestruct (clist_head with "Hl") as "[He Hl]".
  unfold SLIST_REMOVE_HEAD, SLIST_FIRST, SLIST_FIRST_addr.
  iApply wp_bind. wp_ret. wp_load "Hh". iApply wp_bind.
  iApply (wp_SLIST_NEXT with "He"). iIntros "He". wp_ret. wp_store "Hh".
  iSplitR "He"; [iApply clist_head; iFrame|]. by iExists _.
Qed.

Lemma SLIST_REMOVE_spec fuel h ys e zs :
  e ∉ ys → length ys < fuel →
  triple (slist h (ys ++ e :: zs)) (SLIST_REMOVE fuel (Vptr h) (Vptr e))
    (λ _, slist h (ys ++ zs) ∗ slist_entry e)%I.
Proof.
  intros Hin Hf. unfold triple, SLIST_REMOVE. destruct ys as [|y ys]; simpl.
  - unfold slist. rewrite clist_cons. iIntros "(Hh & Hb & Hl)".
    unfold SLIST_FIRST, SLIST_FIRST_addr. iApply wp_bind. wp_ret. wp_load "Hh".
    wp_cmp. rewrite bool_decide_true //. iApply SLIST_REMOVE_HEAD_spec.
    unfold slist. rewrite clist_cons. iFrame.
  - apply not_elem_of_cons in Hin as [Hne Hin]. unfold slist.
    rewrite clist_cons clist_app clist_cons. iIntros "(Hh & Hb & Hs & Hc & Hbe & Hl)".
    unfold SLIST_FIRST, SLIST_FIRST_addr. iApply wp_bind. wp_ret. wp_load "Hh".
    wp_cmp. rewrite bool_decide_false; [|congruence].
    iApply wp_bind. wp_ret. wp_load "Hh". iApply wp_bind.
    iApply (SLIST_REMOVE_loop_spec _ y ys with "[$Hs $Hc Hh Hb Hbe Hl]"); [done|simpl in Hf; lia|].
    iIntros (c Hce) "Hs Hc". rewrite Hce.
    iDestruct (clist_head with "Hl") as "[He Hl]".
    iApply wp_bind. iApply (wp_SLIST_NEXT with "Hc"). iIntros "Hc".
    iApply wp_bind. iApply (wp_SLIST_NEXT with "He"). iIntros "He".
    unfold SLIST_NEXT_addr. wp_addr. wp_store "Hc".
    iSplitR "He"; [|by iExists _]. iApply clist_cons. iFrame "Hh Hb".
    rewrite clist_app Hce. iFrame "Hs". iApply clist_head. iFrame "Hc". iFrame.
Qed.

End slist.

(** ** Properties *)

(** C12: SLIST_INIT makes an empty list, and every SLIST update refines its
    list operation. From a list [xs] and the unlinked elements the operation
    takes, the macro returns (the search loop of SLIST_REMOVE ends within the
    length of the list), leaves the list [slist_step] computes, hands back
    exactly the removed element, and touches nothing else. *)
Theorem SLIST_refines field fuel h :
  (∀ v, triple (h ↦ v)%I (SLIST_INIT (Vptr h)) (λ _, slist field h [])) ∧
  (∀ op xs xs', slist_step op xs = Some xs' → length xs ≤ fuel →
    triple (slist field h xs ∗ slist_entries field (slist_takes op))%I
      (slist_exec field fuel h op)
      (λ _, slist field h xs' ∗ slist_entries field (slist_gives op xs))%I).
Proof.
  split; [apply SLIST_INIT_spec|]. unfold slist_entries. intros op xs xs' Hs Hf.
  destruct op as [e|s e| |e]; simpl in *; simplify_eq.
  - eapply triple_conseq; [|apply (SLIST_INSERT_HEAD_spec field)|]; intros; by rewrite !right_id.
  - apply insert_after_split in Hs as (ys & zs & -> & _ & ->).
    eapply triple_conseq; [|apply (SLIST_INSERT_AFTER_spec field)|]; intros; by rewrite !right_id.
  - destruct xs as [|x xs]; simplify_eq.
    eapply triple_conseq; [|apply (SLIST_REMOVE_HEAD_spec field)|]; intros; by rewrite /= !right_id.
  - apply remove_elem_split in Hs as (ys & zs & -> & Hn & ->).
    eapply triple_conseq; [|apply (SLIST_REMOVE_spec field fuel h ys e zs Hn)|];
      [|rewrite length_app /= in Hf; lia|]; intros; by rewrite !right_id.
Qed.

(** Removing [b] from [a; b; c]. *)
Lemma SLIST_refines_witness :
  let a := (2%positive, 0%Z) in let b := (3%positive, 0%Z) in let c := (4%positive, 0%Z) in
  slist_step (SRemove b) [a; b; c] = Some [a; c] ∧
  triple (slist 0 (1%positive, 0%Z) [a; b; c] ∗ slist_entries 0 [])%I
    (slist_exec 0 3 (1%positive, 0%Z) (SRemove b))
    (λ _, slist 0 (1%positive, 0%Z) [a; c] ∗ slist_entries 0 [b])%I.
Proof.
  intros a b c. split; [reflexivity|].
  apply (proj2 (SLIST_refines 0 3 (1%positive, 0%Z)) (SRemove b) [a; b; c] [a; c]);
    [reflexivity|simpl; lia].
Defined.
