(* ===== verification/QueueStailq.v ===== *)
(** * Singly-linked tail queues (STAILQ)

    The STAILQ macros of queue.h. The head is two words: the first element and
    the address of the last next cell, which is the head's own first word when
    the queue is empty. *)

From stdpp Require Import base gmap list.
From iris.proofmode Require Import proofmode.
From S2P Require Import Prelude CMem QueueSeg QueueSlist.

Section stailq.
Context (field : Z).

(** ** Operations *)

(** [&STAILQ_FIRST(head)] and [&(head)->stqh_last] *)
Definition STAILQ_FIRST_addr (head : val) : M val := mret head.
Definition stqh_last_addr (head : val) : M val := addr_of head sizeof_ptr.

Definition STAILQ_FIRST (head : val) : M val := a ← STAILQ_FIRST_addr head; load a.

(** [&STAILQ_NEXT(elm)] *)
Definition STAILQ_NEXT_addr (elm : val) : M val := addr_of elm field.

Definition STAILQ_NEXT (elm : val) : M val := a ← STAILQ_NEXT_addr elm; load a.

Definition STAILQ_EMPTY (head : val) : M bool := f ← STAILQ_FIRST head; ptr_eq f Vnull.

Definition STAILQ_FOREACH {A : Type} (fuel : nat) (head : val)
    (body : val → A → M A) (a : A) : M A :=
  var ← STAILQ_FIRST head; for_each fuel STAILQ_NEXT var body a.

(** [(head)->stqh_last = v] *)
Definition set_stqh_last (head v : val) : M unit := a ← stqh_last_addr head; store a v.

Definition STAILQ_INIT (head : val) : M unit :=
  a ← STAILQ_FIRST_addr head; store a Vnull;;
  a ← STAILQ_FIRST_addr head; set_stqh_last head a.

Definition STAILQ_INSERT_AFTER (head tqelm elm : val) : M unit :=
  n ← STAILQ_NEXT tqelm;
  a ← STAILQ_NEXT_addr elm; store a n;;
  last ← ptr_eq n Vnull;
  (if (last : bool) then a ← STAILQ_NEXT_addr elm; set_stqh_last head a else mret tt);;
  a ← STAILQ_NEXT_addr tqelm; store a elm.

Definition STAILQ_INSERT_HEAD (head elm : val) : M unit :=
  f ← STAILQ_FIRST head;
  a ← STAILQ_NEXT_addr elm; store a f;;
  last ← ptr_eq f Vnull;
  (if (last : bool) then a ← STAILQ_NEXT_addr elm; set_stqh_last head a else mret tt);;
  a ← STAILQ_FIRST_addr head; store a elm.

Definition STAILQ_INSERT_TAIL (head elm : val) : M unit :=
  a ← STAILQ_NEXT_addr elm; store a Vnull;;
  l ← stqh_last_addr head; p ← load l; store p elm;;
  a ← STAILQ_NEXT_addr elm; set_stqh_last head a.

(** [(struct type * )((char * )(head)->stqh_last - offsetof(struct type, field))] *)
Definition STAILQ_LAST (head : val) : M val :=
  e ← STAILQ_EMPTY head;
  if (e : bool) then mret Vnull
  else l ← stqh_last_addr head; p ← load l; addr_of p (- field).

Definition STAILQ_REMOVE_HEAD (head : val) : M unit :=
  f ← STAILQ_FIRST head; n ← STAILQ_NEXT f;
  a ← STAILQ_FIRST_addr head; store a n;;
  last ← ptr_eq n Vnull;
  if (last : bool) then a ← STAILQ_FIRST_addr head; set_stqh_last head a else mret tt.

Fixpoint STAILQ_REMOVE_loop (fuel : nat) (curelm elm : val) : M val :=
  match fuel with
  | O => st_fail
  | S fuel =>
      n ← STAILQ_NEXT curelm;
      found ← ptr_eq n elm;
      if (found : bool) then mret curelm
      else n ← STAILQ_NEXT curelm; STAILQ_REMOVE_loop fuel n elm
  end.

Definition STAILQ_REMOVE (fuel : nat) (head elm : val) : M unit :=
  f ← STAILQ_FIRST head;
  isfirst ← ptr_eq f elm;
  if (isfirst : bool) then STAILQ_REMOVE_HEAD head
  else
    curelm ← STAILQ_FIRST head;
    curelm ← STAILQ_REMOVE_loop fuel curelm elm;
    n ← STAILQ_NEXT curelm; nn ← STAILQ_NEXT n;
    a ← STAILQ_NEXT_addr curelm; store a nn;;
    last ← ptr_eq nn Vnull;
    if (last : bool) then a ← STAILQ_NEXT_addr curelm; set_stqh_last head a else mret tt.

Definition STAILQ_REMOVE_HEAD_UNTIL (head elm : val) : M unit :=
  n ← STAILQ_NEXT elm;
  a ← STAILQ_FIRST_addr head; store a n;;
  last ← ptr_eq n Vnull;
  if (last : bool) then a ← STAILQ_FIRST_addr head; set_stqh_last head a else mret tt.

(** ** Operations on lists *)

Inductive stailq_op :=
  | QInsertHead (elm : loc)
  | QInsertTail (elm : loc)
  | QInsertAfter (tqelm elm : loc)
  | QRemoveHead
  | QRemove (elm : loc)
  | QRemoveHeadUntil (elm : loc).

Definition stailq_exec (fuel : nat) (h : loc) (op : stailq_op) : M unit :=
  match op with
  | QInsertHead e => STAILQ_INSERT_HEAD (Vptr h) (Vptr e)
  | QInsertTail e => STAILQ_INSERT_TAIL (Vptr h) (Vptr e)
  | QInsertAfter s e => STAILQ_INSERT_AFTER (Vptr h) (Vptr s) (Vptr e)
  | QRemoveHead => STAILQ_REMOVE_HEAD (Vptr h)
  | QRemove e => STAILQ_REMOVE fuel (Vptr h) (Vptr e)
  | QRemoveHeadUntil e => STAILQ_REMOVE_HEAD_UNTIL (Vptr h) (Vptr e)
  end.

Definition stailq_step (op : stailq_op) (xs : list loc) : option (list loc) :=
  match op with
  | QInsertHead e => Some (e :: xs)
  | QInsertTail e => Some (xs ++ [e])
  | QInsertAfter s e => insert_after s e xs
  | QRemoveHead => match xs with [] => None | _ :: xs => Some xs end
  | QRemove e => remove_elem e xs
  | QRemoveHeadUntil e => drop_until e xs
  end.

Definition stailq_takes (op : stailq_op) : list loc :=
  match op with QInsertHead e | QInsertTail e | QInsertAfter _ e => [e] | _ => [] end.

Definition stailq_gives (op : stailq_op) (xs xs' : list loc) : list loc :=
  match op with
  | QRemoveHead => take 1 xs
  | QRemove e => [e]
  | QRemoveHeadUntil _ => take (length xs - length xs') xs
  | _ => []
  end.

(** ** Representation *)

Definition stailq (h : loc) (xs : list loc) : heapProp :=
  (clist field no_back h xs ∗ second h ↦ Vptr (cend field h xs))%I.
(** ** Lemmas *)

Ltac unfold_stailq :=
  unfold STAILQ_INIT, STAILQ_INSERT_AFTER, STAILQ_INSERT_HEAD, STAILQ_INSERT_TAIL,
    STAILQ_LAST, STAILQ_REMOVE_HEAD, STAILQ_REMOVE_HEAD_UNTIL, STAILQ_EMPTY, set_stqh_last,
    stqh_last_addr, STAILQ_FIRST, STAILQ_FIRST_addr, STAILQ_NEXT, STAILQ_NEXT_addr.

Lemma STAILQ_INIT_spec h v w :
  triple (h ↦ v ∗ second h ↦ w)%I (STAILQ_INIT (Vptr h)) (λ _, stailq h []).
Proof.
  unfold triple. iIntros "[H1 H2]". unfold_stailq. wp_run.
  unfold stailq. rewrite clist_nil. iFrame.
Qed.

Lemma STAILQ_INSERT_HEAD_spec h e xs :
  triple (stailq h xs ∗ slist_entry field e)%I (STAILQ_INSERT_HEAD (Vptr h) (Vptr e))
    (λ _, stailq h (e :: xs)).
Proof.
  unfold triple, stailq. iIntros "[[Hl Hq] [%v He]]".
  iDestruct (clist_head with "Hl") as "[Hh Hl]". unfold_stailq.
  destruct xs as [|x xs]; wp_run; rewrite clist_cons (clist_head _ _ (link field e)); iFrame; done.
Qed.

Lemma STAILQ_INSERT_AFTER_spec h ys s zs e :
  triple (stailq h (ys ++ s :: zs) ∗ slist_entry field e)%I
    (STAILQ_INSERT_AFTER (Vptr h) (Vptr s) (Vptr e))
    (λ _, stailq h (ys ++ s :: e :: zs)).
Proof.
  unfold triple, stailq. rewrite !cend_app /= clist_app clist_cons.
  iIntros "[[(Hs & Hc & Hb & Hl) Hq] [%v He]]".
  iDestruct (clist_head with "Hl") as "[Hn Hl]". unfold_stailq.
  destruct zs as [|z zs]; wp_run;
    rewrite clist_app 2!clist_cons (clist_head _ _ (link field e)); iFrame; done.
Qed.

Lemma STAILQ_INSERT_TAIL_spec h xs e :
  triple (stailq h xs ∗ slist_entry field e)%I (STAILQ_INSERT_TAIL (Vptr h) (Vptr e))
    (λ _, stailq h (xs ++ [e])).
Proof.
  unfold triple, stailq. rewrite cend_app {1}/clist /=. iIntros "[[[Hs Hc] Hq] [%v He]]".
  unfold_stailq. wp_run. rewrite clist_app clist_cons clist_nil. iFrame.
Qed.

Lemma STAILQ_REMOVE_HEAD_spec h e xs :
  triple (stailq h (e :: xs)) (STAILQ_REMOVE_HEAD (Vptr h))
    (λ _, stailq h xs ∗ slist_entry field e)%I.
Proof.
  unfold triple, stailq. rewrite clist_cons /=. iIntros "[(Hh & Hb & Hl) Hq]".
  iDestruct (clist_head with "Hl") as "[He Hl]". unfold_stailq.
  destruct xs as [|x xs]; wp_run; rewrite (clist_head _ _ h); iFrame.
Qed.

(** Cutting a run of cells loose: each element gets its own link back. *)
Lemma seg_release p ys v :
  seg field no_back p ys ∗ cend field p ys ↦ v ⊢
  ∃ w, p ↦ w ∗ [∗ list] x ∈ ys, slist_entry field x.
Proof.
  revert p. induction ys as [|y ys IH]; intros p; simpl.
  - iIntros "[_ H]". iExists _. by iFrame.
  - iIntros "[(Hp & _ & Hs) Hc]". iExists _. iFrame "Hp".
    iDestruct (IH with "[$Hs $Hc]") as (w) "[Hy $]". by iExists _.
Qed.

Lemma STAILQ_REMOVE_HEAD_UNTIL_spec h ys e zs :
  triple (stailq h (ys ++ e :: zs)) (STAILQ_REMOVE_HEAD_UNTIL (Vptr h) (Vptr e))
    (λ _, stailq h zs ∗ [∗ list] x ∈ ys ++ [e], slist_entry field x)%I.
Proof.
  unfold triple, stailq. rewrite clist_app clist_cons cend_app /=.
  iIntros "[(Hs & Hc & Hb & Hl) Hq]". iDestruct (clist_head with "Hl") as "[He Hl]".
  iDestruct (seg_release with "[$Hs $Hc]") as (w) "[Hh Hys]". unfold_stailq.
  destruct zs as [|z zs]; wp_run; rewrite (clist_head _ _ h); iFrame; done.
Qed.

Lemma shift_back (x : loc) : shift (shift x field) (- field) = x.
Proof. destruct x as [b o]. unfold shift; simpl. f_equal. lia. Qed.

Lemma STAILQ_LAST_spec h xs :
  triple (stailq h xs) (STAILQ_LAST (Vptr h))
    (λ v, ⌜v = match last xs with Some x => Vptr x | None => Vnull end⌝ ∧ stailq h xs)%I.
Proof.
  unfold triple, stailq. iIntros "[Hl Hq]". iDestruct (clist_head with "Hl") as "[Hh Hl]".
  unfold_stailq. destruct xs as [|x ys] using rev_ind.
  - wp_run. iSplit; [done|]. rewrite clist_nil. iFrame.
  - clear IHys. rewrite cend_snoc last_snoc.
    assert (∃ y zs, ys ++ [x] = y :: zs) as (y & zs & ->) by (destruct ys; eauto).
    wp_run. iSplit; [by rewrite shift_back|]. rewrite (clist_head _ _ h). iFrame.
Qed.

Lemma STAILQ_REMOVE_loop_eq fuel c e :
  STAILQ_REMOVE_loop fuel c e = SLIST_REMOVE_loop field fuel c e.
Proof. reflexivity. Qed.

Lemma STAILQ_REMOVE_spec fuel h ys e zs :
  e ∉ ys → length ys < fuel →
  triple (stailq h (ys ++ e :: zs)) (STAILQ_REMOVE fuel (Vptr h) (Vptr e))
    (λ _, stailq h (ys ++ zs) ∗ slist_entry field e)%I.
Proof.
  intros Hin Hf. unfold triple. destruct ys as [|y ys]; simpl.
  - iIntros "H". unfold STAILQ_REMOVE, stailq. rewrite clist_cons.
    iDestruct "H" as "[(Hh & Hb & Hl) Hq]". unfold STAILQ_FIRST, STAILQ_FIRST_addr.
    wp_run. rewrite bool_decide_true //. iApply STAILQ_REMOVE_HEAD_spec.
    unfold stailq. rewrite clist_cons. iFrame.
  - apply not_elem_of_cons in Hin as [Hne Hin]. unfold stailq.
    rewrite clist_cons clist_app clist_cons /= !cend_app /=.
    iIntros "[(Hh & Hb & Hs & Hc & Hbe & Hl) Hq]".
    unfold STAILQ_REMOVE. unfold_stailq. wp_run.
    rewrite bool_decide_false; [|congruence]. wp_run. rewrite STAILQ_REMOVE_loop_eq.
    iApply (SLIST_REMOVE_loop_spec _ _ y ys with "[$Hs $Hc Hh Hb Hbe Hl Hq]"); [done|simpl in Hf; lia|].
    iIntros (c Hce) "Hs Hc". rewrite Hce. iDestruct (clist_head with "Hl") as "[He Hl]".
    destruct zs as [|z zs]; wp_run;
      rewrite clist_cons clist_app Hce (clist_head _ _ (link field c)); iFrame.
Qed.
End stailq.

(** ** Properties *)

(** C11: STAILQ_INIT makes an empty queue out of an uninitialised head, STAILQ_LAST
    reads the last element (or the null pointer) without changing the queue,
    and every update of an STAILQ refines its list operation: it returns,
    keeps the last pointer of the head on the last next cell, and gives back
    exactly the elements it unlinks. *)
Theorem STAILQ_refines field fuel h :
  (∀ v w, triple (h ↦ v ∗ second h ↦ w)%I (STAILQ_INIT (Vptr h)) (λ _, stailq field h [])) ∧
  (∀ xs, triple (stailq field h xs) (STAILQ_LAST field (Vptr h))
     (λ v, ⌜v = match last xs with Some x => Vptr x | None => Vnull end⌝ ∧
           stailq field h xs)%I) ∧
  (∀ op xs xs', stailq_step op xs = Some xs' → length xs ≤ fuel →
    triple (stailq field h xs ∗ slist_entries field (stailq_takes op))%I
      (stailq_exec field fuel h op)
      (λ _, stailq field h xs' ∗ slist_entries field (stailq_gives op xs xs'))%I).
Proof.
  split; [apply STAILQ_INIT_spec|]. split; [apply STAILQ_LAST_spec|].
  unfold slist_entries. intros op xs xs' Hs Hf.
  destruct op as [e|e|s e| |e|e]; simpl in *; simplify_eq.
  - eapply triple_conseq; [|apply (STAILQ_INSERT_HEAD_spec field)|]; intros; by rewrite !right_id.
  - eapply triple_conseq; [|apply (STAILQ_INSERT_TAIL_spec field)|]; intros; by rewrite !right_id.
  - apply insert_after_split in Hs as (ys & zs & -> & _ & ->).
    eapply triple_conseq; [|apply (STAILQ_INSERT_AFTER_spec field)|]; intros; by rewrite !right_id.
  - destruct xs as [|x xs]; simplify_eq.
    eapply triple_conseq; [|apply (STAILQ_REMOVE_HEAD_spec field)|]; intros; by rewrite /= !right_id.
  - apply remove_elem_split in Hs as (ys & zs & -> & Hn & ->).
    eapply triple_conseq; [|apply (STAILQ_REMOVE_spec field fuel h ys e zs Hn)|];
      [|rewrite length_app /= in Hf; lia|]; intros; by rewrite !right_id.
  - apply drop_until_split in Hs as (ys & -> & _).
    replace (take _ _) with (ys ++ [e]); last first.
    { change (e :: xs') with ([e] ++ xs'). rewrite (assoc_L (++) ys).
      rewrite take_app_length'; [done|]. rewrite !length_app /=. lia. }
    eapply triple_conseq; [|apply (STAILQ_REMOVE_HEAD_UNTIL_spec field)|]; intros; by rewrite ?right_id.
Qed.

(** Removing [a] and [b] from the front of [a; b; c]. *)
Lemma STAILQ_refines_witness :
  let a := (2%positive, 0%Z) in let b := (3%positive, 0%Z) in let c := (4%positive, 0%Z) in
  stailq_step (QRemoveHeadUntil b) [a; b; c] = Some [c] ∧
  triple (stailq 16 (1%positive, 0%Z) [a; b; c] ∗ slist_entries 16 [])%I
    (stailq_exec 16 3 (1%positive, 0%Z) (QRemoveHeadUntil b))
    (λ _, stailq 16 (1%positive, 0%Z) [c] ∗ slist_entries 16 [a; b])%I.
Proof.
  intros a b c. split; [reflexivity|].
  apply (proj2 (proj2 (STAILQ_refines 16 3 (1%positive, 0%Z))) (QRemoveHeadUntil b) [a; b; c] [c]);
    [reflexivity|simpl; lia].
Defined.
