(* ===== verification/QueueDlist.v ===== *)
(** * Doubly-linked lists (DLIST)

    The DLIST macros of queue.h. An entry is two words: the next element and
    the address of the cell that points to this element, so that an element is
    removed without knowing the head. *)

From stdpp Require Import base gmap list.
From iris.proofmode Require Import proofmode.
From S2P Require Import Prelude CMem QueueSeg.

Section dlist.
Context (field : Z).

(** ** Operations *)

(** [&DLIST_FIRST(head)]: [lh_first] is the only member of the head. *)
Definition DLIST_FIRST_addr (head : val) : M val := mret head.

Definition DLIST_FIRST (head : val) : M val := a ← DLIST_FIRST_addr head; load a.

(** [&DLIST_NEXT(elm)] and [&(elm)->field.le_prev] *)
Definition DLIST_NEXT_addr (elm : val) : M val := addr_of elm field.
Definition le_prev_addr (elm : val) : M val := e ← addr_of elm field; addr_of e sizeof_ptr.

Definition DLIST_NEXT (elm : val) : M val := a ← DLIST_NEXT_addr elm; load a.
Definition le_prev (elm : val) : M val := a ← le_prev_addr elm; load a.
Definition set_le_prev (elm v : val) : M unit := a ← le_prev_addr elm; store a v.

Definition DLIST_EMPTY (head : val) : M bool := f ← DLIST_FIRST head; ptr_eq f Vnull.

Definition DLIST_FOREACH {A : Type} (fuel : nat) (head : val)
    (body : val → A → M A) (a : A) : M A :=
  var ← DLIST_FIRST head; for_each fuel DLIST_NEXT var body a.

Definition DLIST_INIT (head : val) : M unit := a ← DLIST_FIRST_addr head; store a Vnull.

Definition DLIST_INSERT_AFTER (listelm elm : val) : M unit :=
  n ← DLIST_NEXT listelm;
  a ← DLIST_NEXT_addr elm; store a n;;
  last ← ptr_eq n Vnull;
  (if (negb last) then
     n ← DLIST_NEXT listelm; a ← DLIST_NEXT_addr elm; set_le_prev n a
   else mret tt);;
  a ← DLIST_NEXT_addr listelm; store a elm;;
  a ← DLIST_NEXT_addr listelm; set_le_prev elm a.

Definition DLIST_INSERT_BEFORE (listelm elm : val) : M unit :=
  p ← le_prev listelm; set_le_prev elm p;;
  a ← DLIST_NEXT_addr elm; store a listelm;;
  p ← le_prev listelm; store p elm;;
  a ← DLIST_NEXT_addr elm; set_le_prev listelm a.

Definition DLIST_INSERT_HEAD (head elm : val) : M unit :=
  f ← DLIST_FIRST head;
  a ← DLIST_NEXT_addr elm; store a f;;
  last ← ptr_eq f Vnull;
  (if (negb last) then
     f ← DLIST_FIRST head; a ← DLIST_NEXT_addr elm; set_le_prev f a
   else mret tt);;
  a ← DLIST_FIRST_addr head; store a elm;;
  a ← DLIST_FIRST_addr head; set_le_prev elm a.

Definition DLIST_REMOVE (elm : val) : M unit :=
  n ← DLIST_NEXT elm;
  last ← ptr_eq n Vnull;
  (if (negb last) then
     n ← DLIST_NEXT elm; p ← le_prev elm; set_le_prev n p
   else mret tt);;
  p ← le_prev elm; n ← DLIST_NEXT elm; store p n.

(** ** Operations on lists *)

Inductive dlist_op :=
  | DInsertHead (elm : loc)
  | DInsertAfter (listelm elm : loc)
  | DInsertBefore (listelm elm : loc)
  | DRemove (elm : loc).

Definition dlist_exec (h : loc) (op : dlist_op) : M unit :=
  match op with
  | DInsertHead e => DLIST_INSERT_HEAD (Vptr h) (Vptr e)
  | DInsertAfter s e => DLIST_INSERT_AFTER (Vptr s) (Vptr e)
  | DInsertBefore s e => DLIST_INSERT_BEFORE (Vptr s) (Vptr e)
  | DRemove e => DLIST_REMOVE (Vptr e)
  end.

Definition dlist_step (op : dlist_op) (xs : list loc) : option (list loc) :=
  match op with
  | DInsertHead e => Some (e :: xs)
  | DInsertAfter s e => insert_after s e xs
  | DInsertBefore s e => insert_before s e xs
  | DRemove e => remove_elem e xs
  end.

Definition dlist_takes (op : dlist_op) : list loc :=
  match op with DRemove _ => [] | DInsertHead e | DInsertAfter _ e | DInsertBefore _ e => [e] end.

Definition dlist_gives (op : dlist_op) : list loc :=
  match op with DRemove e => [e] | _ => [] end.

(** ** Representation *)

(** The back pointer of [x] is the address of the cell that points to it. *)
Definition back_ptr (x p : loc) : heapProp := (second (link field x) ↦ Vptr p)%I.

Definition dlist (h : loc) (xs : list loc) : heapProp := clist field back_ptr h xs.

(** An element that is in no list. *)
Definition dlist_entry (x : loc) : heapProp :=
  (∃ v w, link field x ↦ v ∗ second (link field x) ↦ w)%I.

Definition dlist_entries (es : list loc) : heapProp := ([∗ list] e ∈ es, dlist_entry e)%I.

(** ** Lemmas *)

Ltac unfold_dlist :=
  unfold DLIST_INIT, DLIST_INSERT_AFTER, DLIST_INSERT_BEFORE, DLIST_INSERT_HEAD, DLIST_REMOVE,
    DLIST_EMPTY, DLIST_FIRST, DLIST_FIRST_addr, DLIST_NEXT, le_prev, set_le_prev, le_prev_addr,
    DLIST_NEXT_addr.

Lemma DLIST_INSERT_HEAD_spec h e xs :
  triple (dlist h xs ∗ dlist_entry e)%I (DLIST_INSERT_HEAD (Vptr h) (Vptr e))
    (λ _, dlist h (e :: xs)).
Proof.
  unfold triple, dlist. iIntros "[Hl (%v & %w & He & Hw)]".
  iDestruct (clist_head with "Hl") as "[Hh Hl]". unfold_dlist. unfold back_ptr.
  destruct xs as [|x xs]; [|iDestruct "Hl" as "[Hx Hl]"]; wp_run;
    rewrite clist_cons (clist_head _ _ (link field e)); iFrame.
Qed.

Lemma DLIST_INSERT_AFTER_spec h ys s zs e :
  triple (dlist h (ys ++ s :: zs) ∗ dlist_entry e)%I (DLIST_INSERT_AFTER (Vptr s) (Vptr e))
    (λ _, dlist h (ys ++ s :: e :: zs)).
Proof.
  unfold triple, dlist. rewrite clist_app clist_cons.
  iIntros "[(Hs & Hc & Hb & Hl) (%v & %w & He & Hw)]".
  iDestruct (clist_head with "Hl") as "[Hn Hl]". unfold_dlist. unfold back_ptr.
  destruct zs as [|z zs]; [|iDestruct "Hl" as "[Hz Hl]"]; wp_run;
    rewrite clist_app 2!clist_cons (clist_head _ _ (link field e)); iFrame.
Qed.

Lemma DLIST_INSERT_BEFORE_spec h ys s zs e :
  triple (dlist h (ys ++ s :: zs) ∗ dlist_entry e)%I (DLIST_INSERT_BEFORE (Vptr s) (Vptr e))
    (λ _, dlist h (ys ++ e :: s :: zs)).
Proof.
  unfold triple, dlist. rewrite clist_app clist_cons.
  iIntros "[(Hs & Hc & Hb & Hl) (%v & %w & He & Hw)]". unfold back_ptr. unfold_dlist.
  wp_run. rewrite clist_app 2!clist_cons. iFrame.
Qed.

Lemma DLIST_REMOVE_spec h ys e zs :
  triple (dlist h (ys ++ e :: zs)) (DLIST_REMOVE (Vptr e))
    (λ _, dlist h (ys ++ zs) ∗ dlist_entry e)%I.
Proof.
  unfold triple, dlist. rewrite clist_app clist_cons. iIntros "(Hs & Hc & Hb & Hl)".
  iDestruct (clist_head with "Hl") as "[Hn Hl]". unfold back_ptr. unfold_dlist.
  destruct zs as [|z zs]; [|iDestruct "Hl" as "[Hz Hl]"]; wp_run;
    rewrite clist_app (clist_head _ _ (cend field h ys)); iFrame.
Qed.

End dlist.

(** ** Properties *)

(** C13: DLIST_INIT makes an empty list, and every update of a DLIST refines its
    list operation without the head at hand: insertion before or after an
    element and removal of an element only follow the links of the elements,
    keep every back pointer on the cell in front of its element, and touch
    nothing else. *)
Theorem DLIST_refines field h :
  (∀ v, triple (h ↦ v)%I (DLIST_INIT (Vptr h)) (λ _, dlist field h [])) ∧
  (∀ op xs xs', dlist_step op xs = Some xs' →
    triple (dlist field h xs ∗ dlist_entries field (dlist_takes op))%I
      (dlist_exec field h op)
      (λ _, dlist field h xs' ∗ dlist_entries field (dlist_gives op))%I).
Proof.
  split.
  { intros v. unfold triple, dlist, DLIST_INIT, DLIST_FIRST_addr. iIntros "H". wp_run.
    by rewrite clist_nil. }
  unfold dlist_entries. intros op xs xs' Hs. destruct op as [e|s e|s e|e]; simpl in *; simplify_eq.
  - eapply triple_conseq; [|apply (DLIST_INSERT_HEAD_spec field)|]; intros; by rewrite !right_id.
  - apply insert_after_split in Hs as (ys & zs & -> & _ & ->).
    eapply triple_conseq; [|apply (DLIST_INSERT_AFTER_spec field)|]; intros; by rewrite !right_id.
  - apply insert_before_split in Hs as (ys & zs & -> & _ & ->).
    eapply triple_conseq; [|apply (DLIST_INSERT_BEFORE_spec field)|]; intros; by rewrite !right_id.
  - apply remove_elem_split in Hs as (ys & zs & -> & _ & ->).
    eapply triple_conseq; [|apply (DLIST_REMOVE_spec field)|]; intros; by rewrite !right_id.
Qed.

(** Inserting [d] in front of the last element of [a; b]. *)
Lemma DLIST_refines_witness :
  let a := (2%positive, 0%Z) in let b := (3%positive, 0%Z) in let d := (4%positive, 0%Z) in
  dlist_step (DInsertBefore b d) [a; b] = Some [a; d; b] ∧
  triple (dlist 8 (1%positive, 0%Z) [a; b] ∗ dlist_entries 8 [d])%I
    (dlist_exec 8 (1%positive, 0%Z) (DInsertBefore b d))
    (λ _, dlist 8 (1%positive, 0%Z) [a; d; b] ∗ dlist_entries 8 [])%I.
Proof.
  intros a b d. split; [reflexivity|].
  apply (proj2 (DLIST_refines 8 (1%positive, 0%Z)) (DInsertBefore b d) [a; b] [a; d; b]).
  reflexivity.
Defined.
