(* ===== verification/QueueTailq.v ===== *)
(** * Tail queues (TAILQ)

    The TAILQ macros of queue.h, the family the kernel thread queue and the
    userspace example use. A head and an entry have the same two-word layout,
    which TAILQ_LAST and TAILQ_PREV exploit: they read an entry as if it were
    a head. *)

From stdpp Require Import base gmap list.
From iris.proofmode Require Import proofmode.
From S2P Require Import Prelude CMem QueueSeg QueueDlist.

Section tailq.
Context (field : Z).

(** ** Operations *)

(** [&TAILQ_FIRST(head)] and [&(head)->tqh_last] *)
Definition TAILQ_FIRST_addr (head : val) : M val := mret head.
Definition tqh_last_addr (head : val) : M val := addr_of head sizeof_ptr.

Definition TAILQ_FIRST (head : val) : M val := a ← TAILQ_FIRST_addr head; load a.
Definition tqh_last (head : val) : M val := a ← tqh_last_addr head; load a.
Definition set_tqh_last (head v : val) : M unit := a ← tqh_last_addr head; store a v.

(** [&TAILQ_NEXT(elm)] and [&(elm)->field.tqe_prev] *)
Definition TAILQ_NEXT_addr (elm : val) : M val := addr_of elm field.
Definition tqe_prev_addr (elm : val) : M val := e ← addr_of elm field; addr_of e sizeof_ptr.

Definition TAILQ_NEXT (elm : val) : M val := a ← TAILQ_NEXT_addr elm; load a.
Definition tqe_prev (elm : val) : M val := a ← tqe_prev_addr elm; load a.
Definition set_tqe_prev (elm v : val) : M unit := a ← tqe_prev_addr elm; store a v.

Definition TAILQ_EMPTY (head : val) : M bool := f ← TAILQ_FIRST head; ptr_eq f Vnull.

(** [( *(((struct headname * )((head)->tqh_last))->tqh_last))] *)
Definition TAILQ_LAST (head : val) : M val :=
  l ← tqh_last head; p ← tqh_last l; load p.

(** [( *(((struct headname * )((elm)->field.tqe_prev))->tqh_last))] *)
Definition TAILQ_PREV (elm : val) : M val :=
  l ← tqe_prev elm; p ← tqh_last l; load p.

Definition TAILQ_FOREACH {A : Type} (fuel : nat) (head : val)
    (body : val → A → M A) (a : A) : M A :=
  var ← TAILQ_FIRST head; for_each fuel TAILQ_NEXT var body a.

Definition TAILQ_FOREACH_REVERSE {A : Type} (fuel : nat) (head : val)
    (body : val → A → M A) (a : A) : M A :=
  var ← TAILQ_LAST head; for_each fuel TAILQ_PREV var body a.

(** [(var) ? TAILQ_NEXT(var) : NULL] *)
Definition next_or_null (var : val) : M val :=
  n ← ptr_eq var Vnull;
  if (n : bool) then mret Vnull else TAILQ_NEXT var.

Fixpoint foreach_safe {A : Type} (fuel : nat) (var next : val)
    (body : val → A → M A) (a : A) : M A :=
  match fuel with
  | O => st_fail
  | S fuel =>
      stop ← ptr_eq var Vnull;
      if (stop : bool) then mret a
      else a ← body var a; next' ← next_or_null next; foreach_safe fuel next next' body a
  end.

Definition TAILQ_FOREACH_SAFE {A : Type} (fuel : nat) (head : val)
    (body : val → A → M A) (a : A) : M A :=
  var ← TAILQ_FIRST head;
  next ← next_or_null var;
  foreach_safe fuel var next body a.

(** The initializer of a head variable: both fields, in the order of the struct. *)
Definition TAILQ_HEAD_INITIALIZER (head : val) : M unit :=
  a ← TAILQ_FIRST_addr head; store a Vnull;;
  a ← TAILQ_FIRST_addr head; set_tqh_last head a.

Definition TAILQ_INIT (head : val) : M unit :=
  a ← TAILQ_FIRST_addr head; store a Vnull;;
  a ← TAILQ_FIRST_addr head; set_tqh_last head a.

Definition TAILQ_INSERT_AFTER (head listelm elm : val) : M unit :=
  n ← TAILQ_NEXT listelm;
  a ← TAILQ_NEXT_addr elm; store a n;;
  last ← ptr_eq n Vnull;
  (if (negb last) then
     n ← TAILQ_NEXT elm; a ← TAILQ_NEXT_addr elm; set_tqe_prev n a
   else a ← TAILQ_NEXT_addr elm; set_tqh_last head a);;
  a ← TAILQ_NEXT_addr listelm; store a elm;;
  a ← TAILQ_NEXT_addr listelm; set_tqe_prev elm a.

Definition TAILQ_INSERT_BEFORE (listelm elm : val) : M unit :=
  p ← tqe_prev listelm; set_tqe_prev elm p;;
  a ← TAILQ_NEXT_addr elm; store a listelm;;
  p ← tqe_prev listelm; store p elm;;
  a ← TAILQ_NEXT_addr elm; set_tqe_prev listelm a.

Definition TAILQ_INSERT_HEAD (head elm : val) : M unit :=
  f ← TAILQ_FIRST head;
  a ← TAILQ_NEXT_addr elm; store a f;;
  last ← ptr_eq f Vnull;
  (if (negb last) then
     f ← TAILQ_FIRST head; a ← TAILQ_NEXT_addr elm; set_tqe_prev f a
   else a ← TAILQ_NEXT_addr elm; set_tqh_last head a);;
  a ← TAILQ_FIRST_addr head; store a elm;;
  a ← TAILQ_FIRST_addr head; set_tqe_prev elm a.

Definition TAILQ_INSERT_TAIL (head elm : val) : M unit :=
  a ← TAILQ_NEXT_addr elm; store a Vnull;;
  l ← tqh_last head; set_tqe_prev elm l;;
  l ← tqh_last head; store l elm;;
  a ← TAILQ_NEXT_addr elm; set_tqh_last head a.

Definition TAILQ_REMOVE (head elm : val) : M unit :=
  n ← TAILQ_NEXT elm;
  last ← ptr_eq n Vnull;
  (if (negb last) then
     n ← TAILQ_NEXT elm; p ← tqe_prev elm; set_tqe_prev n p
   else p ← tqe_prev elm; set_tqh_last head p);;
  p ← tqe_prev elm; n ← TAILQ_NEXT elm; store p n.

(** ** Operations on lists *)

Inductive tailq_op :=
  | TInsertHead (elm : loc)
  | TInsertTail (elm : loc)
  | TInsertAfter (listelm elm : loc)
  | TInsertBefore (listelm elm : loc)
  | TRemove (elm : loc).

Definition tailq_exec (h : loc) (op : tailq_op) : M unit :=
  match op with
  | TInsertHead e => TAILQ_INSERT_HEAD (Vptr h) (Vptr e)
  | TInsertTail e => TAILQ_INSERT_TAIL (Vptr h) (Vptr e)
  | TInsertAfter s e => TAILQ_INSERT_AFTER (Vptr h) (Vptr s) (Vptr e)
  | TInsertBefore s e => TAILQ_INSERT_BEFORE (Vptr s) (Vptr e)
  | TRemove e => TAILQ_REMOVE (Vptr h) (Vptr e)
  end.

Definition tailq_step (op : tailq_op) (xs : list loc) : option (list loc) :=
  match op with
  | TInsertHead e => Some (e :: xs)
  | TInsertTail e => Some (xs ++ [e])
  | TInsertAfter s e => insert_after s e xs
  | TInsertBefore s e => insert_before s e xs
  | TRemove e => remove_elem e xs
  end.

Definition tailq_takes (op : tailq_op) : list loc :=
  match op with
  | TRemove _ => []
  | TInsertHead e | TInsertTail e | TInsertAfter _ e | TInsertBefore _ e => [e]
  end.

Definition tailq_gives (op : tailq_op) : list loc :=
  match op with TRemove e => [e] | _ => [] end.

(** ** Representation *)

Definition tailq (h : loc) (xs : list loc) : heapProp :=
  (clist field (back_ptr field) h xs ∗ second h ↦ Vptr (cend field h xs))%I.

(** A pointer to the last element, or the null pointer. *)
Definition last_of (xs : list loc) : val :=
  match last xs with Some x => Vptr x | None => Vnull end.

(** ** Lemmas *)

Ltac unfold_tailq :=
  unfold TAILQ_INIT, TAILQ_INSERT_AFTER, TAILQ_INSERT_BEFORE, TAILQ_INSERT_HEAD,
    TAILQ_INSERT_TAIL, TAILQ_REMOVE, TAILQ_LAST, TAILQ_PREV, TAILQ_EMPTY, TAILQ_FIRST,
    TAILQ_FIRST_addr, tqh_last, set_tqh_last, tqh_last_addr, TAILQ_NEXT, tqe_prev, set_tqe_prev,
    tqe_prev_addr, TAILQ_NEXT_addr.

Lemma TAILQ_HEAD_INITIALIZER_spec h v w :
  triple (h ↦ v ∗ second h ↦ w)%I (TAILQ_HEAD_INITIALIZER (Vptr h)) (λ _, tailq h []).
Proof.
  unfold triple, TAILQ_HEAD_INITIALIZER. iIntros "[H1 H2]". unfold_tailq. wp_run.
  unfold tailq. rewrite clist_nil. iFrame.
Qed.

Lemma TAILQ_INIT_spec h v w :
  triple (h ↦ v ∗ second h ↦ w)%I (TAILQ_INIT (Vptr h)) (λ _, tailq h []).
Proof.
  unfold triple. iIntros "[H1 H2]". unfold_tailq. wp_run.
  unfold tailq. rewrite clist_nil. iFrame.
Qed.

Lemma TAILQ_INSERT_HEAD_spec h e xs :
  triple (tailq h xs ∗ dlist_entry field e)%I (TAILQ_INSERT_HEAD (Vptr h) (Vptr e))
    (λ _, tailq h (e :: xs)).
Proof.
  unfold triple, tailq. iIntros "[[Hl Hq] (%v & %w & He & Hw)]".
  iDestruct (clist_head with "Hl") as "[Hh Hl]". unfold_tailq. unfold back_ptr.
  destruct xs as [|x xs]; [|iDestruct "Hl" as "[Hx Hl]"]; wp_run;
    rewrite clist_cons (clist_head _ _ (link field e)); iFrame.
Qed.

Lemma TAILQ_INSERT_TAIL_spec h e xs :
  triple (tailq h xs ∗ dlist_entry field e)%I (TAILQ_INSERT_TAIL (Vptr h) (Vptr e))
    (λ _, tailq h (xs ++ [e])).
Proof.
  unfold triple, tailq. rewrite cend_app {1}/clist /=.
  iIntros "[[[Hs Hc] Hq] (%v & %w & He & Hw)]". unfold_tailq. wp_run.
  rewrite clist_app clist_cons clist_nil. iFrame.
Qed.

Lemma TAILQ_INSERT_AFTER_spec h ys s zs e :
  triple (tailq h (ys ++ s :: zs) ∗ dlist_entry field e)%I
    (TAILQ_INSERT_AFTER (Vptr h) (Vptr s) (Vptr e))
    (λ _, tailq h (ys ++ s :: e :: zs)).
Proof.
  unfold triple, tailq. rewrite !cend_app /= clist_app clist_cons.
  iIntros "[[(Hs & Hc & Hb & Hl) Hq] (%v & %w & He & Hw)]".
  iDestruct (clist_head with "Hl") as "[Hn Hl]". unfold_tailq. unfold back_ptr.
  destruct zs as [|z zs]; [|iDestruct "Hl" as "[Hz Hl]"]; wp_run;
    rewrite clist_app 2!clist_cons (clist_head _ _ (link field e)); iFrame.
Qed.

Lemma TAILQ_INSERT_BEFORE_spec h ys s zs e :
  triple (tailq h (ys ++ s :: zs) ∗ dlist_entry field e)%I
    (TAILQ_INSERT_BEFORE (Vptr s) (Vptr e))
    (λ _, tailq h (ys ++ e :: s :: zs)).
Proof.
  unfold triple, tailq. rewrite !cend_app /= clist_app clist_cons.
  iIntros "[[(Hs & Hc & Hb & Hl) Hq] (%v & %w & He & Hw)]". unfold back_ptr. unfold_tailq.
  wp_run. rewrite clist_app 2!clist_cons. iFrame.
Qed.

Lemma TAILQ_REMOVE_spec h ys e zs :
  triple (tailq h (ys ++ e :: zs)) (TAILQ_REMOVE (Vptr h) (Vptr e))
    (λ _, tailq h (ys ++ zs) ∗ dlist_entry field e)%I.
Proof.
  unfold triple, tailq. rewrite !cend_app /= clist_app clist_cons.
  iIntros "[(Hs & Hc & Hb & Hl) Hq]".
  iDestruct (clist_head with "Hl") as "[Hn Hl]". unfold back_ptr. unfold_tailq.
  destruct zs as [|z zs]; [|iDestruct "Hl" as "[Hz Hl]"]; wp_run;
    rewrite clist_app (clist_head _ _ (cend field h ys)); iFrame.
Qed.
Lemma last_of_snoc xs x : last_of (xs ++ [x]) = Vptr x.
Proof. unfold last_of. by rewrite last_snoc. Qed.

Lemma TAILQ_LAST_spec h xs :
  triple (tailq h xs) (TAILQ_LAST (Vptr h)) (λ v, ⌜v = last_of xs⌝ ∧ tailq h xs)%I.
Proof.
  unfold triple, tailq. destruct xs as [|x ys _] using rev_ind.
  - rewrite {1}clist_nil. iIntros "[Hh Hq]". unfold_tailq. wp_run.
    iSplit; [done|]. rewrite clist_nil. iFrame.
  - rewrite cend_app last_of_snoc /= {1}clist_app clist_cons clist_nil.
    iIntros "[(Hs & Hc & Hb & Hl) Hq]". unfold back_ptr. unfold_tailq. wp_run.
    iSplit; [done|]. rewrite clist_app clist_cons clist_nil. iFrame.
Qed.

Lemma TAILQ_PREV_spec h ys x zs :
  triple (tailq h (ys ++ x :: zs)) (TAILQ_PREV (Vptr x))
    (λ v, ⌜v = last_of ys⌝ ∧ tailq h (ys ++ x :: zs))%I.
Proof.
  unfold triple, tailq. destruct ys as [|y ys _] using rev_ind; simpl.
  - rewrite {1}/clist /=. iIntros "[[(Hh & Hb & Hs) Hc] Hq]". unfold back_ptr. unfold_tailq.
    wp_run. iSplit; [done|]. rewrite /clist /=. iFrame.
  - rewrite last_of_snoc -!assoc_L /= !cend_app /= {1}clist_app !clist_cons.
    iIntros "[(Hs & Hc & Hb & Hy & Hx & Hl) Hq]". unfold back_ptr. unfold_tailq. wp_run.
    iSplit; [done|]. rewrite clist_app !clist_cons. iFrame.
Qed.

(** The look-ahead of TAILQ_FOREACH_SAFE at the front of the queue. *)
Lemma next_or_null_spec h xs :
  triple (tailq h xs) (next_or_null (first_of xs))
    (λ r, ⌜r = first_of (tail xs)⌝ ∧ tailq h xs)%I.
Proof.
  unfold triple, next_or_null, tailq. iIntros "[Hl Hq]". destruct xs as [|x xs]; simpl; wp_run.
  - iFrame. done.
  - iDestruct (clist_cons with "Hl") as "(Hh & Hb & Hl)".
    iDestruct (clist_head with "Hl") as "[Hx Hl]".
    unfold TAILQ_NEXT, TAILQ_NEXT_addr. wp_run. iSplit; [done|].
    iFrame "Hq". iApply clist_cons. iFrame "Hh Hb". iApply clist_head. iFrame.
Qed.

Lemma TAILQ_FIRST_spec h xs :
  triple (tailq h xs) (TAILQ_FIRST (Vptr h)) (λ r, ⌜r = first_of xs⌝ ∧ tailq h xs)%I.
Proof.
  unfold triple, tailq. iIntros "[Hl Hq]". iDestruct (clist_head with "Hl") as "[Hh Hl]".
  unfold TAILQ_FIRST, TAILQ_FIRST_addr. wp_run. iSplit; [done|]. iFrame "Hq".
  iApply clist_head. iFrame.
Qed.

Section traversal.
Context {A D : Type} (R : loc → D → heapProp) (body : val → A → M A) (g : A → loc → D → A).

Section reverse.
Context (Hbody : ∀ x d a, triple (R x d) (body (Vptr x) a) (λ a', ⌜a' = g a x d⌝ ∧ R x d)%I).

(** The reverse loop, from the element in front of [zs] down to the first. *)
Lemma reverse_loop_spec fuel h xds zs a :
  length xds < fuel →
  triple (tailq h (xds.*1 ++ zs) ∗ payload R xds)%I
    (for_each fuel TAILQ_PREV (last_of xds.*1) body a)
    (λ a', ⌜a' = foldl (λ a xd, g a xd.1 xd.2) a (reverse xds)⌝ ∧
       tailq h (xds.*1 ++ zs) ∗ payload R xds)%I.
Proof.
  unfold triple. revert xds zs a. induction fuel as [|fuel IH]; intros xds zs a Hf; [lia|].
  destruct xds as [|[x d] xds _] using rev_ind; simpl.
  - iIntros "H". wp_run. by iFrame.
  - rewrite fmap_app /= last_of_snoc reverse_snoc -!assoc_L /=.
    iIntros "[Hq Hpay]". iDestruct (payload_snoc with "Hpay") as "[Hpay HR]". wp_run.
    iApply (wp_wand with "[HR]"); [by iApply Hbody|]. iIntros (a') "[-> HR]". wp_run.
    iApply (wp_wand with "[Hq]"); [by iApply TAILQ_PREV_spec|]. iIntros (w) "[-> Hq]".
    iApply (wp_wand with "[Hq Hpay]").
    { iApply IH; [rewrite length_app /= in Hf; lia|]. iFrame. }
    iIntros (r) "[-> [Hq Hpay]]". iSplit; [done|]. iFrame "Hq". iApply payload_snoc. iFrame.
Qed.

Lemma TAILQ_FOREACH_REVERSE_spec fuel h xds a :
  length xds < fuel →
  triple (tailq h xds.*1 ∗ payload R xds)%I (TAILQ_FOREACH_REVERSE fuel (Vptr h) body a)
    (λ a', ⌜a' = foldl (λ a xd, g a xd.1 xd.2) a (reverse xds)⌝ ∧
       tailq h xds.*1 ∗ payload R xds)%I.
Proof.
  intros Hf. unfold triple, TAILQ_FOREACH_REVERSE. iIntros "[Hq Hpay]". wp_run.
  iApply (wp_wand with "[Hq]"); [by iApply TAILQ_LAST_spec|]. iIntros (v) "[-> Hq]".
  rewrite -{1 3}(right_id_L [] (++) xds.*1).
  iApply reverse_loop_spec; [done|]. iFrame.
Qed.
End reverse.

(** A TAILQ_FOREACH_SAFE loop whose body takes the current element out of the
    queue and consumes it: every element is processed, in order, and the queue
    is empty afterwards. *)
Section drain.
Context (h : loc).
Context (Hdrain : ∀ x d xs a,
  triple (tailq h (x :: xs) ∗ R x d)%I (body (Vptr x) a) (λ a', ⌜a' = g a x d⌝ ∧ tailq h xs)%I).

Lemma foreach_safe_drains fuel xds a :
  length xds < fuel →
  triple (tailq h xds.*1 ∗ payload R xds)%I
    (foreach_safe fuel (first_of xds.*1) (first_of (tail xds.*1)) body a)
    (λ a', ⌜a' = foldl (λ a xd, g a xd.1 xd.2) a xds⌝ ∧ tailq h [])%I.
Proof.
  unfold triple. revert xds a. induction fuel as [|fuel IH]; intros xds a Hf; [lia|].
  destruct xds as [|[x d] xds]; csimpl.
  - iIntros "[H _]". wp_run. by iFrame.
  - iIntros "[Hq [HR Hpay]]". wp_run.
    iApply (wp_wand with "[Hq HR]"); [iApply (Hdrain with "[$Hq $HR]")|].
    iIntros (a') "[-> Hq]". iApply wp_bind.
    iApply (wp_wand with "[Hq]"); [by iApply next_or_null_spec|]. iIntros (r) "[-> Hq]".
    iApply IH; [simpl in Hf; lia|]. iFrame.
Qed.

Lemma TAILQ_FOREACH_SAFE_drains fuel xds a :
  length xds < fuel →
  triple (tailq h xds.*1 ∗ payload R xds)%I (TAILQ_FOREACH_SAFE fuel (Vptr h) body a)
    (λ a', ⌜a' = foldl (λ a xd, g a xd.1 xd.2) a xds⌝ ∧ tailq h [])%I.
Proof.
  intros Hf. unfold triple, TAILQ_FOREACH_SAFE. iIntros "[Hq Hpay]". iApply wp_bind.
  iApply (wp_wand with "[Hq]"); [by iApply TAILQ_FIRST_spec|]. iIntros (r) "[-> Hq]".
  iApply wp_bind. iApply (wp_wand with "[Hq]"); [by iApply next_or_null_spec|].
  iIntros (r) "[-> Hq]". iApply foreach_safe_drains; [done|]. iFrame.
Qed.
End drain.
End traversal.
End tailq.

(** ** Properties *)

(** C3: TAILQ_INIT makes an empty queue, TAILQ_LAST and TAILQ_PREV, which read an
    entry through the layout of a head, return the last element and the
    predecessor (the null pointer when there is none) and change nothing, and
    every update of a TAILQ refines its list operation in constant work. *)
Theorem TAILQ_refines field h :
  (∀ v w, triple (h ↦ v ∗ second h ↦ w)%I (TAILQ_INIT (Vptr h)) (λ _, tailq field h [])) ∧
  (∀ xs, triple (tailq field h xs) (TAILQ_LAST (Vptr h))
     (λ v, ⌜v = last_of xs⌝ ∧ tailq field h xs)%I) ∧
  (∀ ys x zs, triple (tailq field h (ys ++ x :: zs)) (TAILQ_PREV field (Vptr x))
     (λ v, ⌜v = last_of ys⌝ ∧ tailq field h (ys ++ x :: zs))%I) ∧
  (∀ op xs xs', tailq_step op xs = Some xs' →
    triple (tailq field h xs ∗ dlist_entries field (tailq_takes op))%I
      (tailq_exec field h op)
      (λ _, tailq field h xs' ∗ dlist_entries field (tailq_gives op))%I).
Proof.
  split; [apply TAILQ_INIT_spec|]. split; [apply TAILQ_LAST_spec|]. split; [apply TAILQ_PREV_spec|].
  unfold dlist_entries. intros op xs xs' Hs. destruct op as [e|e|s e|s e|e]; simpl in *; simplify_eq.
  - eapply triple_conseq; [|apply (TAILQ_INSERT_HEAD_spec field)|]; intros; by rewrite !right_id.
  - eapply triple_conseq; [|apply (TAILQ_INSERT_TAIL_spec field)|]; intros; by rewrite !right_id.
  - apply insert_after_split in Hs as (ys & zs & -> & _ & ->).
    eapply triple_conseq; [|apply (TAILQ_INSERT_AFTER_spec field)|]; intros; by rewrite !right_id.
  - apply insert_before_split in Hs as (ys & zs & -> & _ & ->).
    eapply triple_conseq; [|apply (TAILQ_INSERT_BEFORE_spec field)|]; intros; by rewrite !right_id.
  - apply remove_elem_split in Hs as (ys & zs & -> & _ & ->).
    eapply triple_conseq; [|apply (TAILQ_REMOVE_spec field)|]; intros; by rewrite !right_id.
Qed.

(** Removing the last element of [a; b] moves the last pointer back to [a]. *)
Lemma TAILQ_refines_witness :
  let a := (2%positive, 0%Z) in let b := (3%positive, 0%Z) in
  tailq_step (TRemove b) [a; b] = Some [a] ∧
  triple (tailq 0 (1%positive, 0%Z) [a; b] ∗ dlist_entries 0 [])%I
    (tailq_exec 0 (1%positive, 0%Z) (TRemove b))
    (λ _, tailq 0 (1%positive, 0%Z) [a] ∗ dlist_entries 0 [b])%I.
Proof.
  intros a b. split; [reflexivity|].
  apply (proj2 (proj2 (proj2 (TAILQ_refines 0 (1%positive, 0%Z)))) (TRemove b) [a; b] [a]).
  reflexivity.
Defined.

(** TAILQ_FOREACH_REVERSE visits the elements of the queue last to first,
    each once, when the body works on the payload of the current element and
    leaves the links alone; the loop ends after one round per element. *)
Theorem TAILQ_reverse_visits {A D : Type} (R : loc → D → heapProp) body (g : A → loc → D → A)
    field fuel h xds a :
  (∀ x d a, triple (R x d) (body (Vptr x) a) (λ a', ⌜a' = g a x d⌝ ∧ R x d)%I) →
  length xds < fuel →
  triple (tailq field h xds.*1 ∗ payload R xds)%I
    (TAILQ_FOREACH_REVERSE field fuel (Vptr h) body a)
    (λ a', ⌜a' = foldl (λ a xd, g a xd.1 xd.2) a (reverse xds)⌝ ∧
       tailq field h xds.*1 ∗ payload R xds)%I.
Proof. intros Hb Hf. by apply TAILQ_FOREACH_REVERSE_spec. Qed.

(** A body that reads the word at offset 16 of the element into a trace. *)
Definition trace_datum (x : val) (a : list val) : M (list val) :=
  p ← addr_of x 16; d ← load p; mret (a ++ [d]).

Lemma TAILQ_reverse_visits_witness :
  let R := λ (x : loc) (d : val), (shift x 16 ↦ d)%I in
  let xds := [((2%positive, 0%Z), Vint 7); ((3%positive, 0%Z), Vint 8)] in
  2 < 3 ∧
  triple (tailq 0 (1%positive, 0%Z) xds.*1 ∗ payload R xds)%I
    (TAILQ_FOREACH_REVERSE 0 3 (Vptr (1%positive, 0%Z)) trace_datum [])
    (λ a', ⌜a' = [Vint 8; Vint 7]⌝ ∧ tailq 0 (1%positive, 0%Z) xds.*1 ∗ payload R xds)%I.
Proof.
  intros R xds. split; [lia|].
  apply (TAILQ_reverse_visits R trace_datum (λ a _ d, a ++ [d]) 0 3 (1%positive, 0%Z) xds []
    ltac:(intros x d a; unfold triple, R, trace_datum; iIntros "H"; wp_run; by iFrame)
    ltac:(simpl; lia)).
Defined.
