(* ===== verification/QueueCircleq.v ===== *)
(** * Circular queues (CIRCLEQ)

    The CIRCLEQ macros of queue.h. The elements and the head form a ring: the
    next pointer of the last element and the previous pointer of the first one
    are the head, read as an element, and an empty queue points to itself. *)

From stdpp Require Import base gmap list.
From iris.proofmode Require Import proofmode.
From S2P Require Import Prelude CMem QueueSeg QueueDlist.

Section circleq.
Context (field : Z).

(** ** Operations *)

(** [&CIRCLEQ_FIRST(head)] and [&CIRCLEQ_LAST(head)] *)
Definition CIRCLEQ_FIRST_addr (head : val) : M val := mret head.
Definition CIRCLEQ_LAST_addr (head : val) : M val := addr_of head sizeof_ptr.

Definition CIRCLEQ_FIRST (head : val) : M val := a ← CIRCLEQ_FIRST_addr head; load a.
Definition CIRCLEQ_LAST (head : val) : M val := a ← CIRCLEQ_LAST_addr head; load a.

(** [CIRCLEQ_FIRST(head) = v] and [CIRCLEQ_LAST(head) = v] *)
Definition set_FIRST (head v : val) : M unit := a ← CIRCLEQ_FIRST_addr head; store a v.
Definition set_LAST (head v : val) : M unit := a ← CIRCLEQ_LAST_addr head; store a v.

(** [&CIRCLEQ_NEXT(elm)] and [&CIRCLEQ_PREV(elm)] *)
Definition CIRCLEQ_NEXT_addr (elm : val) : M val := addr_of elm field.
Definition CIRCLEQ_PREV_addr (elm : val) : M val := e ← addr_of elm field; addr_of e sizeof_ptr.

Definition CIRCLEQ_NEXT (elm : val) : M val := a ← CIRCLEQ_NEXT_addr elm; load a.
Definition CIRCLEQ_PREV (elm : val) : M val := a ← CIRCLEQ_PREV_addr elm; load a.

Definition set_NEXT (elm v : val) : M unit := a ← CIRCLEQ_NEXT_addr elm; store a v.
Definition set_PREV (elm v : val) : M unit := a ← CIRCLEQ_PREV_addr elm; store a v.

Definition CIRCLEQ_EMPTY (head : val) : M bool := f ← CIRCLEQ_FIRST head; ptr_eq f head.

(** [for (var = first; var != head || (var = NULL); var = next(var)) body]; the
    loop leaves the null pointer in [var], returned with the body's state. *)
Fixpoint ring_for_each {A : Type} (fuel : nat) (head : val) (next : val → M val) (var : val)
    (body : val → A → M A) (a : A) : M (A * val) :=
  match fuel with
  | O => st_fail
  | S fuel =>
      stop ← ptr_eq var head;
      if (stop : bool) then mret (a, Vnull)
      else a ← body var a; var ← next var; ring_for_each fuel head next var body a
  end.

Definition CIRCLEQ_FOREACH {A : Type} (fuel : nat) (head : val)
    (body : val → A → M A) (a : A) : M (A * val) :=
  var ← CIRCLEQ_FIRST head; ring_for_each fuel head CIRCLEQ_NEXT var body a.

Definition CIRCLEQ_FOREACH_REVERSE {A : Type} (fuel : nat) (head : val)
    (body : val → A → M A) (a : A) : M (A * val) :=
  var ← CIRCLEQ_LAST head; ring_for_each fuel head CIRCLEQ_PREV var body a.

Definition CIRCLEQ_INIT (head : val) : M unit :=
  set_FIRST head head;; set_LAST head head.

Definition CIRCLEQ_INSERT_AFTER (head listelm elm : val) : M unit :=
  n ← CIRCLEQ_NEXT listelm; set_NEXT elm n;;
  set_PREV elm listelm;;
  n ← CIRCLEQ_NEXT listelm; last ← ptr_eq n head;
  (if (last : bool) then set_LAST head elm
   else n ← CIRCLEQ_NEXT listelm; set_PREV n elm);;
  set_NEXT listelm elm.

Definition CIRCLEQ_INSERT_BEFORE (head listelm elm : val) : M unit :=
  set_NEXT elm listelm;;
  p ← CIRCLEQ_PREV listelm; set_PREV elm p;;
  p ← CIRCLEQ_PREV listelm; isfirst ← ptr_eq p head;
  (if (isfirst : bool) then set_FIRST head elm
   else p ← CIRCLEQ_PREV listelm; set_NEXT p elm);;
  set_PREV listelm elm.

Definition CIRCLEQ_INSERT_HEAD (head elm : val) : M unit :=
  f ← CIRCLEQ_FIRST head; set_NEXT elm f;;
  set_PREV elm head;;
  l ← CIRCLEQ_LAST head; empty ← ptr_eq l head;
  (if (empty : bool) then set_LAST head elm
   else f ← CIRCLEQ_FIRST head; set_PREV f elm);;
  set_FIRST head elm.

Definition CIRCLEQ_INSERT_TAIL (head elm : val) : M unit :=
  set_NEXT elm head;;
  l ← CIRCLEQ_LAST head; set_PREV elm l;;
  f ← CIRCLEQ_FIRST head; empty ← ptr_eq f head;
  (if (empty : bool) then set_FIRST head elm
   else l ← CIRCLEQ_LAST head; set_NEXT l elm);;
  set_LAST head elm.

Definition CIRCLEQ_REMOVE (head elm : val) : M unit :=
  n ← CIRCLEQ_NEXT elm; last ← ptr_eq n head;
  (if (last : bool) then p ← CIRCLEQ_PREV elm; set_LAST head p
   else n ← CIRCLEQ_NEXT elm; p ← CIRCLEQ_PREV elm; set_PREV n p);;
  p ← CIRCLEQ_PREV elm; isfirst ← ptr_eq p head;
  (if (isfirst : bool) then n ← CIRCLEQ_NEXT elm; set_FIRST head n
   else p ← CIRCLEQ_PREV elm; n ← CIRCLEQ_NEXT elm; set_NEXT p n).

(** ** Operations on lists *)

Inductive circleq_op :=
  | CInsertHead (elm : loc)
  | CInsertTail (elm : loc)
  | CInsertAfter (listelm elm : loc)
  | CInsertBefore (listelm elm : loc)
  | CRemove (elm : loc).

Definition circleq_exec (h : loc) (op : circleq_op) : M unit :=
  match op with
  | CInsertHead e => CIRCLEQ_INSERT_HEAD (Vptr h) (Vptr e)
  | CInsertTail e => CIRCLEQ_INSERT_TAIL (Vptr h) (Vptr e)
  | CInsertAfter s e => CIRCLEQ_INSERT_AFTER (Vptr h) (Vptr s) (Vptr e)
  | CInsertBefore s e => CIRCLEQ_INSERT_BEFORE (Vptr h) (Vptr s) (Vptr e)
  | CRemove e => CIRCLEQ_REMOVE (Vptr h) (Vptr e)
  end.

Definition circleq_step (op : circleq_op) (xs : list loc) : option (list loc) :=
  match op with
  | CInsertHead e => Some (e :: xs)
  | CInsertTail e => Some (xs ++ [e])
  | CInsertAfter s e => insert_after s e xs
  | CInsertBefore s e => insert_before s e xs
  | CRemove e => remove_elem e xs
  end.

Definition circleq_takes (op : circleq_op) : list loc :=
  match op with
  | CRemove _ => []
  | CInsertHead e | CInsertTail e | CInsertAfter _ e | CInsertBefore _ e => [e]
  end.

Definition circleq_gives (op : circleq_op) : list loc :=
  match op with CRemove e => [e] | _ => [] end.

(** ** Representation *)

(** The first and last element of a run, [d] when it is empty. *)
Definition hd_or (d : loc) (xs : list loc) : loc := default d (head xs).
Definition last_or (d : loc) (xs : list loc) : loc := default d (last xs).

(** The entries of [xs], linked between the nodes [p] and [n]. *)
Fixpoint ring (p : loc) (xs : list loc) (n : loc) : heapProp :=
  match xs with
  | [] => emp
  | x :: xs =>
      link field x ↦ Vptr (hd_or n xs) ∗ second (link field x) ↦ Vptr p ∗ ring x xs n
  end.

(** The head is an object of its own: it is not one of the elements. *)
Definition circleq (h : loc) (xs : list loc) : heapProp :=
  (⌜h ∉ xs⌝ ∧ (h ↦ Vptr (hd_or h xs) ∗ second h ↦ Vptr (last_or h xs) ∗ ring h xs h))%I.

(** ** Lemmas *)

Ltac unfold_circleq :=
  unfold CIRCLEQ_INIT, CIRCLEQ_INSERT_AFTER, CIRCLEQ_INSERT_BEFORE, CIRCLEQ_INSERT_HEAD,
    CIRCLEQ_INSERT_TAIL, CIRCLEQ_REMOVE, CIRCLEQ_EMPTY, set_FIRST, set_LAST, CIRCLEQ_FIRST,
    CIRCLEQ_LAST, CIRCLEQ_FIRST_addr, CIRCLEQ_LAST_addr, set_NEXT, set_PREV, CIRCLEQ_NEXT,
    CIRCLEQ_PREV, CIRCLEQ_NEXT_addr, CIRCLEQ_PREV_addr.

Lemma hd_or_app d xs ys : hd_or d (xs ++ ys) = hd_or (hd_or d ys) xs.
Proof. by destruct xs. Qed.

Lemma last_or_snoc d xs x : last_or d (xs ++ [x]) = x.
Proof. unfold last_or. by rewrite last_snoc. Qed.

Lemma last_or_cons d x xs : last_or d (x :: xs) = last_or x xs.
Proof. unfold last_or. rewrite last_cons. by destruct (last xs). Qed.

Lemma last_or_app d xs ys : last_or d (xs ++ ys) = last_or (last_or d xs) ys.
Proof.
  revert d. induction xs as [|x xs IH]; intros d; [done|].
  simpl. by rewrite !last_or_cons IH.
Qed.

Lemma ring_app p xs ys n :
  ring p (xs ++ ys) n ⊣⊢ ring p xs (hd_or n ys) ∗ ring (last_or p xs) ys n.
Proof.
  revert p. induction xs as [|x xs IH]; intros p; simpl; [by rewrite left_id|].
  by rewrite IH hd_or_app last_or_cons -!assoc.
Qed.

Lemma last_or_elem d xs : last_or d xs ∈ d :: xs.
Proof.
  revert d. induction xs as [|x xs IH]; intros d; [set_solver|].
  rewrite last_or_cons. specialize (IH x). set_solver.
Qed.

Lemma last_or_ne h x xs : h ∉ x :: xs → last_or x xs ≠ h.
Proof. intros Hn <-. apply Hn, last_or_elem. Qed.

(** Decide a comparison of two nodes the context knows equal or different. *)
Ltac same := rewrite bool_decide_true; [|done].
Ltac differ := rewrite bool_decide_false; [|first [congruence | set_solver]].
Ltac fresh_head := iSplit; [iPureIntro; set_solver|].

Lemma CIRCLEQ_INIT_spec h v w :
  triple (h ↦ v ∗ second h ↦ w)%I (CIRCLEQ_INIT (Vptr h)) (λ _, circleq h []).
Proof.
  unfold triple, circleq. iIntros "[H1 H2]". unfold_circleq. wp_run. fresh_head. iFrame.
Qed.

Lemma CIRCLEQ_INSERT_HEAD_spec h e xs :
  h ≠ e →
  triple (circleq h xs ∗ dlist_entry field e)%I (CIRCLEQ_INSERT_HEAD (Vptr h) (Vptr e))
    (λ _, circleq h (e :: xs)).
Proof.
  intros Hne. unfold triple, circleq.
  iIntros "[[%Hh (Hf & Hl & Hr)] (%v & %w & He & Hw)]". rewrite last_or_cons.
  unfold_circleq. destruct xs as [|x xs]; simpl.
  - wp_run. same. wp_run. fresh_head. iFrame.
  - iDestruct "Hr" as "(Hx & Hp & Hr)". rewrite !last_or_cons.
    pose proof (last_or_ne h x xs Hh). wp_run. differ. wp_run. fresh_head. iFrame.
Qed.

Lemma CIRCLEQ_INSERT_TAIL_spec h e xs :
  h ≠ e →
  triple (circleq h xs ∗ dlist_entry field e)%I (CIRCLEQ_INSERT_TAIL (Vptr h) (Vptr e))
    (λ _, circleq h (xs ++ [e])).
Proof.
  intros Hne. unfold triple, circleq.
  iIntros "[[%Hh (Hf & Hl & Hr)] (%v & %w & He & Hw)]". rewrite hd_or_app last_or_snoc.
  unfold_circleq. destruct xs as [|x xs _] using rev_ind; simpl.
  - wp_run. same. wp_run. fresh_head. iFrame.
  - rewrite ring_app hd_or_app last_or_snoc /=. iDestruct "Hr" as "(Hr & Hx & Hp & _)".
    assert (hd_or x xs ≠ h) by (destruct xs; set_solver).
    wp_run. differ. wp_run. fresh_head.
    rewrite ring_app (ring_app _ xs) ?hd_or_app ?last_or_snoc /=. iFrame.
Qed.

Lemma CIRCLEQ_INSERT_AFTER_spec h ys s zs e :
  h ≠ e →
  triple (circleq h (ys ++ s :: zs) ∗ dlist_entry field e)%I
    (CIRCLEQ_INSERT_AFTER (Vptr h) (Vptr s) (Vptr e))
    (λ _, circleq h (ys ++ s :: e :: zs)).
Proof.
  intros Hne. unfold triple, circleq. rewrite !hd_or_app !last_or_app /= !last_or_cons.
  rewrite {1}ring_app /=. iIntros "[[%Hh (Hf & Hl & Hr & Hs & Hp & Hz)] (%v & %w & He & Hw)]".
  unfold_circleq. destruct zs as [|z zs]; simpl.
  - wp_run. same. wp_run. fresh_head. rewrite ring_app /=. iFrame.
  - iDestruct "Hz" as "(Hz & Hq & Hr2)". rewrite !last_or_cons. wp_run. differ. wp_run.
    fresh_head. rewrite ring_app /=. iFrame.
Qed.

Lemma CIRCLEQ_INSERT_BEFORE_spec h ys s zs e :
  h ≠ e →
  triple (circleq h (ys ++ s :: zs) ∗ dlist_entry field e)%I
    (CIRCLEQ_INSERT_BEFORE (Vptr h) (Vptr s) (Vptr e))
    (λ _, circleq h (ys ++ e :: s :: zs)).
Proof.
  intros Hne. unfold triple, circleq. rewrite !hd_or_app !last_or_app /= !last_or_cons.
  rewrite {1}ring_app /=. iIntros "[[%Hh (Hf & Hl & Hr & Hs & Hp & Hz)] (%v & %w & He & Hw)]".
  unfold_circleq. destruct ys as [|y ys _] using rev_ind; simpl.
  - wp_run. same. wp_run. fresh_head. iFrame.
  - rewrite ring_app last_or_snoc !hd_or_app /=. iDestruct "Hr" as "(Hr & Hy & Hq & _)".
    wp_run. differ. wp_run. fresh_head.
    rewrite ring_app (ring_app _ ys) ?hd_or_app ?last_or_snoc /=. iFrame.
Qed.

Lemma CIRCLEQ_REMOVE_spec h ys e zs :
  triple (circleq h (ys ++ e :: zs)) (CIRCLEQ_REMOVE (Vptr h) (Vptr e))
    (λ _, circleq h (ys ++ zs) ∗ dlist_entry field e)%I.
Proof.
  unfold triple, circleq. rewrite !hd_or_app !last_or_app /= !last_or_cons.
  rewrite {1}ring_app /=. iIntros "[%Hh (Hf & Hl & Hr & He & Hp & Hz)]".
  unfold_circleq. destruct ys as [|y ys _] using rev_ind; simpl.
  - destruct zs as [|z zs]; simpl.
    + wp_run. same. wp_run. same. wp_run. iFrame. fresh_head. done.
    + iDestruct "Hz" as "(Hz & Hq & Hr2)". wp_run. differ. wp_run. same. wp_run.
      rewrite !last_or_cons. iFrame. iPureIntro. set_solver.
  - rewrite ring_app last_or_snoc !hd_or_app /=. iDestruct "Hr" as "(Hr & Hy & Hq & _)".
    destruct zs as [|z zs]; simpl.
    + wp_run. same. wp_run. differ. wp_run. iFrame. fresh_head.
      rewrite ring_app (ring_app _ ys) /=. iFrame.
    + iDestruct "Hz" as "(Hz & Hq2 & Hr2)". wp_run. differ. wp_run. differ. wp_run.
      rewrite ring_app (ring_app _ ys) ?last_or_snoc !last_or_cons /=. iFrame.
      iPureIntro. set_solver.
Qed.

Section traversal.
Context {A D : Type} (R : loc → D → heapProp) (body : val → A → M A) (g : A → loc → D → A).
Context (Hbody : ∀ x d a, triple (R x d) (body (Vptr x) a) (λ a', ⌜a' = g a x d⌝ ∧ R x d)%I).

Lemma ring_forward_spec fuel h p xds a :
  h ∉ xds.*1 → length xds < fuel →
  triple (ring p xds.*1 h ∗ payload R xds)%I
    (ring_for_each fuel (Vptr h) CIRCLEQ_NEXT (Vptr (hd_or h xds.*1)) body a)
    (λ r, ⌜r = (foldl (λ a xd, g a xd.1 xd.2) a xds, Vnull)⌝ ∧
       ring p xds.*1 h ∗ payload R xds)%I.
Proof.
  unfold triple. revert p xds a. induction fuel as [|fuel IH]; intros p xds a Hh Hf; [lia|].
  destruct xds as [|[x d] xds]; csimpl in *.
  - iIntros "H". wp_run. same. wp_run. by iFrame.
  - iIntros "[(Hx & Hp & Hr) [HR Hpay]]". wp_run. differ. wp_run.
    iApply (wp_wand with "[HR]"); [by iApply Hbody|]. iIntros (a') "[-> HR]".
    unfold CIRCLEQ_NEXT at 2, CIRCLEQ_NEXT_addr. wp_run.
    iApply (wp_wand with "[Hr Hpay]"); [iApply (IH x); [set_solver|lia|iFrame]|].
    iIntros (r) "[-> [Hr Hpay]]". iFrame. done.
Qed.

Lemma ring_backward_spec fuel h xds n a :
  h ∉ xds.*1 → length xds < fuel →
  triple (ring h xds.*1 n ∗ payload R xds)%I
    (ring_for_each fuel (Vptr h) CIRCLEQ_PREV (Vptr (last_or h xds.*1)) body a)
    (λ r, ⌜r = (foldl (λ a xd, g a xd.1 xd.2) a (reverse xds), Vnull)⌝ ∧
       ring h xds.*1 n ∗ payload R xds)%I.
Proof.
  unfold triple. revert xds n a. induction fuel as [|fuel IH]; intros xds n a Hh Hf; [lia|].
  destruct xds as [|[x d] xds _] using rev_ind; csimpl in *.
  - iIntros "H". wp_run. same. wp_run. by iFrame.
  - rewrite fmap_app in Hh. rewrite length_app /= in Hf.
    rewrite fmap_app /= last_or_snoc reverse_snoc /=. iIntros "[Hr Hpay]".
    iDestruct (ring_app with "Hr") as "(Hr & Hx & Hp & _)".
    iDestruct (payload_snoc with "Hpay") as "[Hpay HR]". wp_run. differ. wp_run.
    iApply (wp_wand with "[HR]"); [by iApply Hbody|]. iIntros (a') "[-> HR]".
    unfold CIRCLEQ_PREV at 2, CIRCLEQ_PREV_addr. wp_run.
    iApply (wp_wand with "[Hr Hpay]"); [iApply IH; [set_solver|lia|iFrame]|].
    iIntros (r) "[-> [Hr Hpay]]". iSplit; [done|].
    rewrite ring_app payload_snoc /=. iFrame.
Qed.
End traversal.
End circleq.

(** ** insque and remque

    The older interface: every node of the ring, the head included, starts with
    a [struct quehead], so the ring is a CIRCLEQ with the link at offset 0. *)

(** [&a->qh_rlink]; [qh_link] is the first member. *)
Definition qh_rlink_addr (a : val) : M val := addr_of a sizeof_ptr.

Definition insque (a b : val) : M unit :=
  l ← load b; store a l;;
  r ← qh_rlink_addr a; store r b;;
  store b a;;
  l ← load a; r ← qh_rlink_addr l; store r a.

Definition remque (a : val) : M unit :=
  l ← load a; ar ← qh_rlink_addr a; r ← load ar; lr ← qh_rlink_addr l; store lr r;;
  ar ← qh_rlink_addr a; r ← load ar; l ← load a; store r l;;
  ar ← qh_rlink_addr a; store ar Vnull.

Lemma shift_0 (l : loc) : shift l 0 = l.
Proof. destruct l as [b o]. unfold shift; simpl. f_equal. lia. Qed.

Lemma insque_spec h e xs :
  triple (circleq 0 h xs ∗ dlist_entry 0 e)%I (insque (Vptr e) (Vptr h))
    (λ _, circleq 0 h (e :: xs)).
Proof.
  unfold triple, circleq, dlist_entry. rewrite last_or_cons shift_0.
  iIntros "[[%Hh (Hf & Hl & Hr)] (%v & %w & He & Hw)]".
  iAssert ⌜h ≠ e⌝%I as %Hne; [iApply (pointsto_ne with "Hf He")|].
  unfold insque, qh_rlink_addr. destruct xs as [|x xs]; simpl.
  - wp_run. iSplit; [iPureIntro; set_solver|]. rewrite shift_0. iFrame.
  - rewrite !last_or_cons. iDestruct "Hr" as "(Hx & Hp & Hr)". rewrite shift_0. wp_run.
    iSplit; [iPureIntro; set_solver|]. rewrite !shift_0. iFrame.
Qed.

Lemma remque_spec h ys e zs :
  triple (circleq 0 h (ys ++ e :: zs)) (remque (Vptr e))
    (λ _, circleq 0 h (ys ++ zs) ∗ e ↦ Vptr (hd_or h zs) ∗ second e ↦ Vnull)%I.
Proof.
  unfold triple, circleq. rewrite !hd_or_app !last_or_app /= !last_or_cons.
  rewrite {1}ring_app /= shift_0. iIntros "[%Hh (Hf & Hl & Hr & He & Hp & Hz)]".
  unfold remque, qh_rlink_addr. destruct ys as [|y ys _] using rev_ind; simpl.
  - destruct zs as [|z zs]; simpl.
    + wp_run. iFrame. iPureIntro. set_solver.
    + rewrite !last_or_cons shift_0. iDestruct "Hz" as "(Hz & Hq & Hr2)". wp_run.
      rewrite ?last_or_cons ?shift_0. iFrame. iPureIntro. set_solver.
  - rewrite ring_app last_or_snoc !hd_or_app /= shift_0. iDestruct "Hr" as "(Hr & Hy & Hq & _)".
    destruct zs as [|z zs]; simpl.
    + wp_run. rewrite ring_app (ring_app _ _ ys) ?hd_or_app /= ?shift_0. iFrame.
      iPureIntro. set_solver.
    + rewrite shift_0. iDestruct "Hz" as "(Hz & Hq2 & Hr2)". wp_run.
      rewrite ring_app (ring_app _ _ ys) ?last_or_snoc !last_or_cons /= !shift_0. iFrame.
      iPureIntro. set_solver.
Qed.

(** ** Properties *)

(** C14: CIRCLEQ_INIT closes the ring on the head, and every update of a CIRCLEQ
    whose elements are not the head refines its list operation: both
    directions of the ring, and the head's two ends, stay in step. *)
Theorem CIRCLEQ_refines field h :
  (∀ v w, triple (h ↦ v ∗ second h ↦ w)%I (CIRCLEQ_INIT (Vptr h)) (λ _, circleq field h [])) ∧
  (∀ op xs xs', circleq_step op xs = Some xs' → h ∉ circleq_takes op →
    triple (circleq field h xs ∗ dlist_entries field (circleq_takes op))%I
      (circleq_exec field h op)
      (λ _, circleq field h xs' ∗ dlist_entries field (circleq_gives op))%I).
Proof.
  split; [apply CIRCLEQ_INIT_spec|]. unfold dlist_entries. intros op xs xs' Hs Hh.
  destruct op as [e|e|s e|s e|e]; simpl in *; simplify_eq.
  - eapply triple_conseq; [|apply (CIRCLEQ_INSERT_HEAD_spec field); set_solver|];
      intros; by rewrite !right_id.
  - eapply triple_conseq; [|apply (CIRCLEQ_INSERT_TAIL_spec field); set_solver|];
      intros; by rewrite !right_id.
  - apply insert_after_split in Hs as (ys & zs & -> & _ & ->).
    eapply triple_conseq; [|apply (CIRCLEQ_INSERT_AFTER_spec field); set_solver|];
      intros; by rewrite !right_id.
  - apply insert_before_split in Hs as (ys & zs & -> & _ & ->).
    eapply triple_conseq; [|apply (CIRCLEQ_INSERT_BEFORE_spec field); set_solver|];
      intros; by rewrite !right_id.
  - apply remove_elem_split in Hs as (ys & zs & -> & _ & ->).
    eapply triple_conseq; [|apply (CIRCLEQ_REMOVE_spec field)|]; intros; by rewrite !right_id.
Qed.

(** Inserting [d] after the last element of [a; b]. *)
Lemma CIRCLEQ_refines_witness :
  let h := (1%positive, 0%Z) in
  let a := (2%positive, 0%Z) in let b := (3%positive, 0%Z) in let d := (4%positive, 0%Z) in
  circleq_step (CInsertAfter b d) [a; b] = Some [a; b; d] ∧ h ∉ [d] ∧
  triple (circleq 8 h [a; b] ∗ dlist_entries 8 [d])%I
    (circleq_exec 8 h (CInsertAfter b d))
    (λ _, circleq 8 h [a; b; d] ∗ dlist_entries 8 [])%I.
Proof.
  intros h a b d. split; [reflexivity|]. assert (h ∉ [d]) by set_solver. split; [done|].
  by apply (proj2 (CIRCLEQ_refines 8 h) (CInsertAfter b d) [a; b] [a; b; d]).
Defined.

(** CIRCLEQ_FOREACH and CIRCLEQ_FOREACH_REVERSE go once around the ring, in
    list order and in reverse, stop at the head and leave the null pointer in
    the loop variable. *)
Theorem CIRCLEQ_traversals {A D : Type} (R : loc → D → heapProp) body (g : A → loc → D → A)
    field fuel h xds a :
  (∀ x d a, triple (R x d) (body (Vptr x) a) (λ a', ⌜a' = g a x d⌝ ∧ R x d)%I) →
  length xds < fuel →
  triple (circleq field h xds.*1 ∗ payload R xds)%I (CIRCLEQ_FOREACH field fuel (Vptr h) body a)
    (λ r, ⌜r = (foldl (λ a xd, g a xd.1 xd.2) a xds, Vnull)⌝ ∧
       circleq field h xds.*1 ∗ payload R xds)%I ∧
  triple (circleq field h xds.*1 ∗ payload R xds)%I
    (CIRCLEQ_FOREACH_REVERSE field fuel (Vptr h) body a)
    (λ r, ⌜r = (foldl (λ a xd, g a xd.1 xd.2) a (reverse xds), Vnull)⌝ ∧
       circleq field h xds.*1 ∗ payload R xds)%I.
Proof.
  intros Hb Hf. unfold triple, circleq. split; iIntros "[[%Hh (Hh & Hl & Hr)] Hpay]".
  - unfold CIRCLEQ_FOREACH, CIRCLEQ_FIRST, CIRCLEQ_FIRST_addr. wp_run.
    iApply (wp_wand with "[Hr Hpay]"); [by iApply (ring_forward_spec field R body g Hb); [..|iFrame]|].
    iIntros (r) "[-> [Hr Hpay]]". iSplit; [done|]. iFrame. done.
  - unfold CIRCLEQ_FOREACH_REVERSE, CIRCLEQ_LAST, CIRCLEQ_LAST_addr. wp_run.
    iApply (wp_wand with "[Hr Hpay]"); [by iApply (ring_backward_spec field R body g Hb); [..|iFrame]|].
    iIntros (r) "[-> [Hr Hpay]]". iSplit; [done|]. iFrame. done.
Qed.

Lemma CIRCLEQ_traversals_witness :
  let R := λ (x : loc) (d : unit), emp%I : heapProp in
  let body := λ (x : val) (a : list val), mret (x :: a) : M (list val) in
  let xds := [((2%positive, 0%Z), tt); ((3%positive, 0%Z), tt)] in
  2 < 3 ∧
  triple (circleq 8 (1%positive, 0%Z) xds.*1 ∗ payload R xds)%I
    (CIRCLEQ_FOREACH 8 3 (Vptr (1%positive, 0%Z)) body [])
    (λ r, ⌜r = ([Vptr (3%positive, 0%Z); Vptr (2%positive, 0%Z)], Vnull)⌝ ∧
       circleq 8 (1%positive, 0%Z) xds.*1 ∗ payload R xds)%I.
Proof.
  intros R body xds. split; [lia|].
  apply (proj1 (CIRCLEQ_traversals R body (λ a x _, Vptr x :: a) 8 3 (1%positive, 0%Z) xds []
    ltac:(intros x d a; unfold triple, R, body; iIntros "H"; wp_run; by iFrame)
    ltac:(simpl; lia))).
Defined.

(** Insque links an element right after the head of a ring of [struct
    quehead] nodes and remque unlinks an element from anywhere in it, clearing
    only the element's rlink pointer: its link pointer still leads into the
    ring. *)
Theorem insque_remque h :
  (∀ e xs, triple (circleq 0 h xs ∗ dlist_entry 0 e)%I (insque (Vptr e) (Vptr h))
     (λ _, circleq 0 h (e :: xs))) ∧
  (∀ ys e zs, triple (circleq 0 h (ys ++ e :: zs)) (remque (Vptr e))
     (λ _, circleq 0 h (ys ++ zs) ∗ e ↦ Vptr (hd_or h zs) ∗ second e ↦ Vnull)%I).
Proof. split; [intros; apply insque_spec | apply remque_spec]. Qed.
