(* ===== verification/QueueIface.v ===== *)
(** * The forward-list interface

    What SLIST, STAILQ, DLIST and TAILQ promise a reader: a first macro, a next
    macro and a null-terminated chain of cells they walk. The loop and emptiness
    macros are verified once, against the interface; the instances discharge it
    for the four families. *)

From stdpp Require Import base gmap list.
From iris.proofmode Require Import proofmode.
From S2P Require Import Prelude CMem QueueSeg QueueSlist QueueStailq QueueDlist QueueTailq.

(** ** The interface *)

Class FwdList (field : Z) := {
  fl_first : val → M val;
  fl_next : val → M val;
  fl_back : loc → loc → heapProp;
  fl_rest : loc → list loc → heapProp;
  fl_rep : loc → list loc → heapProp;
  fl_rep_open h xs : fl_rep h xs ⊣⊢ clist field fl_back h xs ∗ fl_rest h xs;
  fl_first_reads h v : triple (h ↦ v)%I (fl_first (Vptr h)) (λ w, ⌜w = v⌝ ∧ h ↦ v)%I;
  fl_next_reads x v :
    triple (link field x ↦ v)%I (fl_next (Vptr x)) (λ w, ⌜w = v⌝ ∧ link field x ↦ v)%I;
}.
Arguments fl_first {field} _ _.
Arguments fl_next {field} _ _.
Arguments fl_rep {field} _ _ _.

(** The loop and the emptiness test of a family. *)
Definition fl_foreach {field : Z} (F : FwdList field) {A : Type} (fuel : nat) (head : val)
    (body : val → A → M A) (a : A) : M A :=
  var ← fl_first F head; for_each fuel (fl_next F) var body a.

Definition fl_empty {field : Z} (F : FwdList field) (head : val) : M bool :=
  f ← fl_first F head; ptr_eq f Vnull.

(** ** Instances *)

#[global] Program Instance slist_fwd field : FwdList field := {|
  fl_first := SLIST_FIRST; fl_next := SLIST_NEXT field; fl_back := no_back;
  fl_rest _ _ := emp%I; fl_rep := slist field |}.
Next Obligation. intros. by rewrite right_id. Qed.
Next Obligation.
  intros. unfold triple, SLIST_FIRST, SLIST_FIRST_addr. iIntros "H". wp_run. by iFrame.
Qed.
Next Obligation.
  intros. unfold triple, SLIST_NEXT, SLIST_NEXT_addr. iIntros "H". wp_run. by iFrame.
Qed.

#[global] Program Instance stailq_fwd field : FwdList field := {|
  fl_first := STAILQ_FIRST; fl_next := STAILQ_NEXT field; fl_back := no_back;
  fl_rest h xs := (second h ↦ Vptr (cend field h xs))%I; fl_rep := stailq field |}.
Next Obligation. done. Qed.
Next Obligation.
  intros. unfold triple, STAILQ_FIRST, STAILQ_FIRST_addr. iIntros "H". wp_run. by iFrame.
Qed.
Next Obligation.
  intros. unfold triple, STAILQ_NEXT, STAILQ_NEXT_addr. iIntros "H". wp_run. by iFrame.
Qed.

#[global] Program Instance dlist_fwd field : FwdList field := {|
  fl_first := DLIST_FIRST; fl_next := DLIST_NEXT field; fl_back := back_ptr field;
  fl_rest _ _ := emp%I; fl_rep := dlist field |}.
Next Obligation. intros. by rewrite right_id. Qed.
Next Obligation.
  intros. unfold triple, DLIST_FIRST, DLIST_FIRST_addr. iIntros "H". wp_run. by iFrame.
Qed.
Next Obligation.
  intros. unfold triple, DLIST_NEXT, DLIST_NEXT_addr. iIntros "H". wp_run. by iFrame.
Qed.

#[global] Program Instance tailq_fwd field : FwdList field := {|
  fl_first := TAILQ_FIRST; fl_next := TAILQ_NEXT field; fl_back := back_ptr field;
  fl_rest h xs := (second h ↦ Vptr (cend field h xs))%I; fl_rep := tailq field |}.
Next Obligation. done. Qed.
Next Obligation.
  intros. unfold triple, TAILQ_FIRST, TAILQ_FIRST_addr. iIntros "H". wp_run. by iFrame.
Qed.
Next Obligation.
  intros. unfold triple, TAILQ_NEXT, TAILQ_NEXT_addr. iIntros "H". wp_run. by iFrame.
Qed.

(** ** What the interface gives *)

Section client.
Context {field : Z} (F : FwdList field).
Context {A D : Type} (R : loc → D → heapProp) (body : val → A → M A) (g : A → loc → D → A).
Context (Hbody : ∀ x d a, triple (R x d) (body (Vptr x) a) (λ a', ⌜a' = g a x d⌝ ∧ R x d)%I).

Lemma fl_foreach_spec fuel h xds a :
  length xds < fuel →
  triple (fl_rep F h xds.*1 ∗ payload R xds)%I (fl_foreach F fuel (Vptr h) body a)
    (λ a', ⌜a' = foldl (λ a xd, g a xd.1 xd.2) a xds⌝ ∧ fl_rep F h xds.*1 ∗ payload R xds)%I.
Proof.
  intros Hf. unfold triple, fl_foreach. rewrite {1}fl_rep_open. iIntros "[[Hl Hr] Hpay]".
  iDestruct (clist_head with "Hl") as "[Hh Hl]". iApply wp_bind.
  iApply (wp_wand with "[Hh]"); [iApply (fl_first_reads with "Hh")|]. iIntros (w) "[-> Hh]".
  iApply (wp_wand with "[Hh Hl Hpay]").
  { iApply (for_each_spec R (fl_next F) body g field fl_back fl_next_reads Hbody); [done|].
    iFrame "Hpay". iApply clist_head. iFrame. }
  iIntros (r) "[-> [Hl Hpay]]". iSplit; [done|]. rewrite fl_rep_open. iFrame.
Qed.

Lemma fl_empty_spec h xs :
  triple (fl_rep F h xs) (fl_empty F (Vptr h))
    (λ b, ⌜b = bool_decide (xs = [])⌝ ∧ fl_rep F h xs)%I.
Proof.
  unfold triple, fl_empty. rewrite {1}fl_rep_open. iIntros "[Hl Hr]".
  iDestruct (clist_head with "Hl") as "[Hh Hl]". iApply wp_bind.
  iApply (wp_wand with "[Hh]"); [iApply (fl_first_reads with "Hh")|]. iIntros (w) "[-> Hh]".
  destruct xs as [|x xs]; wp_run; (iSplit; [done|]); rewrite fl_rep_open (clist_head _ _ h); iFrame.
Qed.
End client.

(** ** Properties *)

(** C39: the FOREACH loops of SLIST, STAILQ, DLIST and TAILQ visit the elements
    first to last, each once, and leave the list as it was, and the EMPTY
    macros tell whether the list has an element; proved once for the
    interface the four families share. *)
Theorem FOREACH_visits {A D : Type} (R : loc → D → heapProp) body (g : A → loc → D → A)
    field fuel h xds a :
  (∀ x d a, triple (R x d) (body (Vptr x) a) (λ a', ⌜a' = g a x d⌝ ∧ R x d)%I) →
  length xds < fuel →
  let visited (rep : loc → list loc → heapProp) (loop : M A) :=
    triple (rep h xds.*1 ∗ payload R xds)%I loop
      (λ a', ⌜a' = foldl (λ a xd, g a xd.1 xd.2) a xds⌝ ∧ rep h xds.*1 ∗ payload R xds)%I in
  let emptiness (rep : loc → list loc → heapProp) (test : M bool) :=
    triple (rep h xds.*1) test (λ b, ⌜b = bool_decide (xds.*1 = [])⌝ ∧ rep h xds.*1)%I in
  (visited (slist field) (SLIST_FOREACH field fuel (Vptr h) body a) ∧
   visited (stailq field) (STAILQ_FOREACH field fuel (Vptr h) body a) ∧
   visited (dlist field) (DLIST_FOREACH field fuel (Vptr h) body a) ∧
   visited (tailq field) (TAILQ_FOREACH field fuel (Vptr h) body a)) ∧
  (emptiness (slist field) (SLIST_EMPTY (Vptr h)) ∧
   emptiness (stailq field) (STAILQ_EMPTY (Vptr h)) ∧
   emptiness (dlist field) (DLIST_EMPTY (Vptr h)) ∧
   emptiness (tailq field) (TAILQ_EMPTY (Vptr h))).
Proof.
  intros Hb Hf visited emptiness. split_and!.
  - by apply (fl_foreach_spec (slist_fwd field) R body g Hb).
  - by apply (fl_foreach_spec (stailq_fwd field) R body g Hb).
  - by apply (fl_foreach_spec (dlist_fwd field) R body g Hb).
  - by apply (fl_foreach_spec (tailq_fwd field) R body g Hb).
  - apply (fl_empty_spec (slist_fwd field)).
  - apply (fl_empty_spec (stailq_fwd field)).
  - apply (fl_empty_spec (dlist_fwd field)).
  - apply (fl_empty_spec (tailq_fwd field)).
Qed.

Lemma FOREACH_visits_witness :
  let R := λ (x : loc) (d : val), (shift x 16 ↦ d)%I in
  let xds := [((2%positive, 0%Z), Vint 7); ((3%positive, 0%Z), Vint 8)] in
  2 < 3 ∧
  triple (stailq 0 (1%positive, 0%Z) xds.*1 ∗ payload R xds)%I
    (STAILQ_FOREACH 0 3 (Vptr (1%positive, 0%Z)) trace_datum [])
    (λ a', ⌜a' = [Vint 7; Vint 8]⌝ ∧ stailq 0 (1%positive, 0%Z) xds.*1 ∗ payload R xds)%I.
Proof.
  intros R xds. split; [lia|].
  apply (proj1 (proj2 (proj1 (FOREACH_visits R trace_datum (λ a _ d, a ++ [d]) 0 3
    (1%positive, 0%Z) xds []
    ltac:(intros x d a; unfold triple, R, trace_datum; iIntros "H"; wp_run; by iFrame)
    ltac:(simpl; lia))))).
Defined.
