(* ===== verification/KthreadQueue.v ===== *)
(** * The kernel thread queue (Kthread_Queue/thread.c)

    Two kernel threads share a TAILQ under a spin lock: [test_thread1] appends
    one record per round, [test_thread2] drains the queue. The module is a
    transition system: one step per statement that another thread can observe,
    the critical sections of thread.c between the lock and unlock steps. The
    scheduler, the allocator and the arrival of signals are the label of a step;
    the queue operations are the TAILQ macros run on the C memory, so that a wild
    or freed pointer shows as the outcome [Fault]. *)

From stdpp Require Import base gmap list relations sorting.
From iris.proofmode Require Import proofmode.
From S2P Require Import Prelude CMem QueueSeg QueueDlist QueueTailq.

(** ** Data *)

(** [struct scanRecord]: the TAILQ entry [link] at offset 0, [datum] after it. *)
Definition link_field : Z := 0.
Definition datum_field : Z := 16.
Definition scanRecord_fields : list Z := [0; 8; 16]%Z.

(** The global [scanQueue]. *)
Definition scanQueue : positive * Z := (1%positive, 0%Z).

(** [TAILQ_HEAD_INITIALIZER(scanQueue)] *)
Definition scanQueue_initializer (h : positive * Z) : gmap (positive * Z) val :=
  {[h := Vnull; second h := Vptr h]}.

(** Where each thread is: never created because kthread_run failed (its variable is an error pointer),
    created and not yet run, at a statement, or returned. The local [tempInsert] of the
    producer, and [tempInsert] and [tmp] of the consumer's loop, are arguments. *)
Inductive pc1 :=
  | T1None
  | T1New
  | T1Wait
  | T1Signal
  | T1Alloc
  | T1Datum (tempInsert : val)
  | T1Lock (tempInsert : val)
  | T1Insert (tempInsert : val)
  | T1Unlock
  | T1Count
  | T1Stop
  | T1Done.

Inductive pc2 :=
  | T2None
  | T2New
  | T2Wait
  | T2Signal
  | T2Count
  | T2Lock
  | T2First
  | T2Loop (tempInsert tmp : val)
  | T2Unlock
  | T2Stop
  | T2Done.

(** The statements of [test_exit]. *)
Inductive pcx :=
  | XIdle
  | XStop1
  | XJoin1
  | XStatus2
  | XStop2
  | XJoin2
  | XDone.

(** The state of the module. [removed] is what the consumer printed; [queued] is
    the history of the data linked into the queue. *)
Record kq := KQ {
  kmem : gmap (positive * Z) val;
  scanQueueLock : option bool;
  status1 : Z;
  status2 : Z;
  should_stop1 : bool;
  should_stop2 : bool;
  signal1 : bool;
  signal2 : bool;
  at1 : pc1;
  at2 : pc2;
  atx : pcx;
  count1 : Z;
  count2 : Z;
  removed : list Z;
  queued : list Z;
}.

(** Field updates. *)
Definition with_mem (m : gmap (positive * Z) val) (s : kq) : kq :=
  KQ m (scanQueueLock s) (status1 s) (status2 s) (should_stop1 s) (should_stop2 s)
    (signal1 s) (signal2 s) (at1 s) (at2 s) (atx s) (count1 s) (count2 s) (removed s) (queued s).
Definition with_lock (l : option bool) (s : kq) : kq :=
  KQ (kmem s) l (status1 s) (status2 s) (should_stop1 s) (should_stop2 s)
    (signal1 s) (signal2 s) (at1 s) (at2 s) (atx s) (count1 s) (count2 s) (removed s) (queued s).
Definition with_1 (p : pc1) (s : kq) : kq :=
  KQ (kmem s) (scanQueueLock s) (status1 s) (status2 s) (should_stop1 s) (should_stop2 s)
    (signal1 s) (signal2 s) p (at2 s) (atx s) (count1 s) (count2 s) (removed s) (queued s).
Definition with_2 (p : pc2) (s : kq) : kq :=
  KQ (kmem s) (scanQueueLock s) (status1 s) (status2 s) (should_stop1 s) (should_stop2 s)
    (signal1 s) (signal2 s) (at1 s) p (atx s) (count1 s) (count2 s) (removed s) (queued s).
Definition with_x (p : pcx) (s : kq) : kq :=
  KQ (kmem s) (scanQueueLock s) (status1 s) (status2 s) (should_stop1 s) (should_stop2 s)
    (signal1 s) (signal2 s) (at1 s) (at2 s) p (count1 s) (count2 s) (removed s) (queued s).
Definition with_counts (c1 c2 : Z) (s : kq) : kq :=
  KQ (kmem s) (scanQueueLock s) (status1 s) (status2 s) (should_stop1 s) (should_stop2 s)
    (signal1 s) (signal2 s) (at1 s) (at2 s) (atx s) c1 c2 (removed s) (queued s).
Definition with_trace (r q : list Z) (s : kq) : kq :=
  KQ (kmem s) (scanQueueLock s) (status1 s) (status2 s) (should_stop1 s) (should_stop2 s)
    (signal1 s) (signal2 s) (at1 s) (at2 s) (atx s) (count1 s) (count2 s) r q.
Definition with_flags (st1 st2 : Z) (ss1 ss2 g1 g2 : bool) (s : kq) : kq :=
  KQ (kmem s) (scanQueueLock s) st1 st2 ss1 ss2 g1 g2
    (at1 s) (at2 s) (atx s) (count1 s) (count2 s) (removed s) (queued s).

(** What a step does: a next state, not enabled now (a lock taken, a thread that
    has not ended), or undefined behaviour. *)
Inductive outcome :=
  | Next (s : kq)
  | Blocked
  | Fault.

Inductive label :=
  | Run1 (kmalloc_ok : bool)
  | Run2
  | RunExit
  | Signal1
  | Signal2.

Definition run_mem {A : Type} (m : ST (gmap (positive * Z) val) A) (s : kq)
    (k : A → kq → outcome) : outcome :=
  match m (kmem s) with
  | Some (a, mem') => k a (with_mem mem' s)
  | None => Fault
  end.

(** ** Steps *)

(** [p->datum = v] and [p->datum] *)
Definition set_datum (p : val) (v : Z) : ST (gmap (positive * Z) val) unit :=
  a ← addr_of p datum_field; store a (Vint v).

Definition get_datum (p : val) : ST (gmap (positive * Z) val) Z :=
  a ← addr_of p datum_field; v ← load a;
  match v with Vint n => mret n | _ => st_fail end.

(** One statement of [test_thread1]. The kernel does not enter the function of a thread that was told to
    stop before it ran. *)
Definition test_thread1 (kmalloc_ok : bool) (s : kq) : outcome :=
  match at1 s with
  | T1None => Blocked
  | T1New => Next (with_1 (if should_stop1 s then T1Done else T1Wait) s)
  | T1Wait => Next (with_1 T1Signal s)
  | T1Signal => Next (with_1 (if signal1 s then T1Done else T1Alloc) s)
  | T1Alloc =>
      run_mem (malloc scanRecord_fields kmalloc_ok) s (λ p s,
        Next (with_1 (if decide (p = Vnull) then T1Count else T1Datum p) s))
  | T1Datum p =>
      run_mem (set_datum p (count1 s)) s (λ _ s, Next (with_1 (T1Lock p) s))
  | T1Lock p =>
      match scanQueueLock s with
      | None => Next (with_1 (T1Insert p) (with_lock (Some true) s))
      | Some _ => Blocked
      end
  | T1Insert p =>
      run_mem (TAILQ_INSERT_TAIL link_field (Vptr scanQueue) p) s
        (λ _ s, Next (with_1 T1Unlock (with_trace (removed s) (queued s ++ [count1 s]) s)))
  | T1Unlock => Next (with_1 T1Count (with_lock None s))
  | T1Count => Next (with_1 T1Stop (with_counts (s32 (count1 s + 1)) (count2 s) s))
  | T1Stop => Next (with_1 (if should_stop1 s then T1Done else T1Wait) s)
  | T1Done => Blocked
  end.

(** The loop body of [test_thread2]: print, unlink, free. *)
Definition remove_record (p : val) : ST (gmap (positive * Z) val) Z :=
  d ← get_datum p;
  TAILQ_REMOVE link_field (Vptr scanQueue) p;;
  isnull ← ptr_eq p Vnull;
  (if (negb isnull) then free scanRecord_fields p else mret tt);;
  mret d.

(** One statement of [test_thread2]; the TAILQ_FOREACH_SAFE loop is a step per
    round. *)
Definition test_thread2 (s : kq) : outcome :=
  match at2 s with
  | T2None => Blocked
  | T2New => Next (with_2 (if should_stop2 s then T2Done else T2Wait) s)
  | T2Wait => Next (with_2 T2Signal s)
  | T2Signal => Next (with_2 (if signal2 s then T2Done else T2Count) s)
  | T2Count => Next (with_2 T2Lock (with_counts (count1 s) (s32 (count2 s + 1)) s))
  | T2Lock =>
      match scanQueueLock s with
      | None => Next (with_2 T2First (with_lock (Some false) s))
      | Some _ => Blocked
      end
  | T2First =>
      run_mem (var ← TAILQ_FIRST (Vptr scanQueue); next ← next_or_null link_field var;
               mret (var, next)) s
        (λ r s, Next (with_2 (T2Loop r.1 r.2) s))
  | T2Loop var next =>
      if decide (var = Vnull) then Next (with_2 T2Unlock s)
      else
        run_mem (d ← remove_record var; next' ← next_or_null link_field next; mret (d, next')) s
          (λ r s, Next (with_2 (T2Loop next r.2)
                          (with_trace (removed s ++ [r.1]) (queued s) s)))
  | T2Unlock => Next (with_2 T2Stop (with_lock None s))
  | T2Stop => Next (with_2 (if should_stop2 s then T2Done else T2Wait) s)
  | T2Done => Blocked
  end.

(** There is no task behind the variable [thread1]: it is an error pointer, or the thread has
    returned by itself and nothing keeps its task. *)
Definition gone1 (p : pc1) : bool := match p with T1None | T1Done => true | _ => false end.
Definition gone2 (p : pc2) : bool := match p with T2None | T2Done => true | _ => false end.

(** One statement of [test_exit]; kthread_stop sets the stop flag of the task and waits for
    the thread to end. Without a task it is undefined. *)
Definition test_exit (s : kq) : outcome :=
  match atx s with
  | XIdle =>
      Next (with_x XStop1 (with_flags 0 (status2 s) (should_stop1 s) (should_stop2 s)
                             (signal1 s) (signal2 s) s))
  | XStop1 =>
      if gone1 (at1 s) then Fault
      else Next (with_x XJoin1 (with_flags (status1 s) (status2 s) true (should_stop2 s)
                                  (signal1 s) (signal2 s) s))
  | XJoin1 => match at1 s with T1Done => Next (with_x XStatus2 s) | _ => Blocked end
  | XStatus2 =>
      Next (with_x XStop2 (with_flags (status1 s) 0 (should_stop1 s) (should_stop2 s)
                             (signal1 s) (signal2 s) s))
  | XStop2 =>
      if gone2 (at2 s) then Fault
      else Next (with_x XJoin2 (with_flags (status1 s) (status2 s) (should_stop1 s) true
                                  (signal1 s) (signal2 s) s))
  | XJoin2 => match at2 s with T2Done => Next (with_x XDone s) | _ => Blocked end
  | XDone => Blocked
  end.

Definition step (l : label) (s : kq) : outcome :=
  match l with
  | Run1 ok => test_thread1 ok s
  | Run2 => test_thread2 s
  | RunExit => test_exit s
  | Signal1 => Next (with_flags (status1 s) (status2 s) (should_stop1 s) (should_stop2 s)
                       true (signal2 s) s)
  | Signal2 => Next (with_flags (status1 s) (status2 s) (should_stop1 s) (should_stop2 s)
                       (signal1 s) true s)
  end.

(** [test_init], with the answers of the two calls of kthread_run, whose results are stored without a
    check. *)
Definition test_init (ok1 ok2 : bool) : kq :=
  KQ (scanQueue_initializer scanQueue) None 1 1 false false false false
    (if ok1 then T1New else T1None) (if ok2 then T2New else T2None) XIdle 0 0 [] [].

Inductive reachable : kq → Prop :=
  | reach_init ok1 ok2 : reachable (test_init ok1 ok2)
  | reach_step l s s' : reachable s → step l s = Next s' → reachable s'.

(** Run a schedule; [None] when a step is blocked or faults. *)
Fixpoint run (ls : list label) (s : kq) : option kq :=
  match ls with
  | [] => Some s
  | l :: ls => match step l s with Next s => run ls s | _ => None end
  end.

(** ** Invariant *)

(** The queue with the data of its records, as (record, datum) pairs. *)
Definition datum_cell (x : loc) (d : Z) : heapProp := (shift x datum_field ↦ Vint d)%I.

Definition scanq (items : list (loc * Z)) : heapProp :=
  (tailq link_field scanQueue items.*1 ∗ payload datum_cell items)%I.

(** The record the producer has allocated and not yet queued. *)
Definition private1 (p : pc1) (count : Z) : heapProp :=
  match p with
  | T1Datum v => ∃ l w, ⌜v = Vptr l⌝ ∧ dlist_entry link_field l ∗ shift l datum_field ↦ w
  | T1Lock v | T1Insert v => ∃ l, ⌜v = Vptr l⌝ ∧ dlist_entry link_field l ∗ datum_cell l count
  | _ => emp
  end%I.

Definition in_cs1 (p : pc1) : bool := match p with T1Insert _ | T1Unlock => true | _ => false end.

Definition in_cs2 (p : pc2) : bool :=
  match p with T2First | T2Loop _ _ | T2Unlock => true | _ => false end.

(** The lock is held exactly by the thread in its critical section. *)
Definition lock_ok (s : kq) : Prop :=
  scanQueueLock s =
    (if in_cs1 (at1 s) then Some true else if in_cs2 (at2 s) then Some false else None) ∧
  in_cs1 (at1 s) && in_cs2 (at2 s) = false.

(** The consumer's loop is at the front of the queue. *)
Definition loop_ok (items : list (loc * Z)) (p : pc2) : Prop :=
  match p with
  | T2Loop var next => var = first_of items.*1 ∧ next = first_of (tail items.*1)
  | _ => True
  end.

(** [queued] lists counter values in the order of the rounds they come from: the
    round number of each record is below the current one, or is the current one
    once it has been inserted. *)
Definition in_order (queued : list Z) (count : Z) (p : pc1) : Prop :=
  ∃ (r : nat) (ns : list nat),
    count = s32 (Z.of_nat r) ∧ queued = (λ n, s32 (Z.of_nat n)) <$> ns ∧
    StronglySorted lt ns ∧
    Forall (λ n, n < r ∨ n = r ∧ (p = T1Unlock ∨ p = T1Count)) ns.

Record kinv (s : kq) (items : list (loc * Z)) : Prop := {
  kinv_heap : (scanq items ∗ private1 (at1 s) (count1 s))%I (kmem s);
  kinv_fifo : queued s = removed s ++ items.*2;
  kinv_lock : lock_ok s;
  kinv_loop : loop_ok items (at2 s);
  kinv_order : in_order (queued s) (count1 s) (at1 s);
}.

(** ** Lemmas *)

Lemma run_mem_triple {A : Type} (P : heapProp) (m : ST (gmap (positive * Z) val) A) Q
    (s : kq) (k : A → kq → outcome) :
  triple P m Q → P (kmem s) →
  ∃ a m', Q a m' ∧ run_mem m s k = k a (with_mem m' s).
Proof.
  intros Ht HP. destruct (triple_run_whole _ _ _ _ Ht HP) as (a & m' & Hm & HQ).
  exists a, m'. unfold run_mem. by rewrite Hm.
Qed.

Lemma shift_shift l o o' : shift (shift l o) o' = shift l (o + o').
Proof. destruct l. unfold shift; simpl. f_equal. lia. Qed.

Lemma insert_spec items l c :
  triple (scanq items ∗ dlist_entry link_field l ∗ datum_cell l c)%I
    (TAILQ_INSERT_TAIL link_field (Vptr scanQueue) (Vptr l))
    (λ _, scanq (items ++ [(l, c)])).
Proof.
  unfold triple, scanq. iIntros "[[Hq Hpay] [He Hd]]". iApply (wp_wand with "[Hq He]").
  { iApply TAILQ_INSERT_TAIL_spec. iFrame. }
  iIntros (_) "Hq". rewrite fmap_app payload_snoc. iFrame.
Qed.

Lemma scanq_next items :
  triple (scanq items) (next_or_null link_field (first_of items.*1))
    (λ r, ⌜r = first_of (tail items.*1)⌝ ∧ scanq items)%I.
Proof.
  unfold triple, scanq. iIntros "[Hq Hpay]".
  iApply (wp_wand with "[Hq]"); [by iApply next_or_null_spec|]. iIntros (r) "[-> Hq]". by iFrame.
Qed.

Lemma scanq_first items :
  triple (scanq items)
    (var ← TAILQ_FIRST (Vptr scanQueue); next ← next_or_null link_field var; mret (var, next))
    (λ r, ⌜r = (first_of items.*1, first_of (tail items.*1))⌝ ∧ scanq items)%I.
Proof.
  unfold triple, scanq. iIntros "[Hq Hpay]". iApply wp_bind.
  iApply (wp_wand with "[Hq]"); [by iApply TAILQ_FIRST_spec|]. iIntros (r) "[-> Hq]".
  iApply wp_bind. iApply (wp_wand with "[Hq]"); [by iApply next_or_null_spec|].
  iIntros (r) "[-> Hq]". wp_run. by iFrame.
Qed.

Lemma drain_record_spec x d items :
  triple (scanq ((x, d) :: items)) (remove_record (Vptr x)) (λ r, ⌜r = d⌝ ∧ scanq items)%I.
Proof.
  unfold triple, scanq, remove_record, get_datum. csimpl. iIntros "[Hq [Hd Hpay]]".
  unfold datum_cell at 1; simpl. wp_run. iApply (wp_wand with "[Hq]").
  { iApply (TAILQ_REMOVE_spec link_field scanQueue [] x items.*1). iFrame. }
  iIntros (_) "[Hq (%v & %w & He & Hw)]". wp_run. iApply (wp_free with "[He Hw Hd]").
  - unfold object, scanRecord_fields. rewrite shift_shift. simpl. iFrame.
  - wp_run. by iFrame.
Qed.

Lemma alloc_spec :
  triple emp%I (malloc scanRecord_fields true)
    (λ v, ∃ l w, ⌜v = Vptr l⌝ ∧ dlist_entry link_field l ∗ shift l datum_field ↦ w)%I.
Proof.
  unfold triple. iIntros "H". iApply wp_malloc.
  { unfold scanRecord_fields. repeat constructor; set_solver. }
  iIntros (b) "(H0 & H8 & H16 & _)". iExists _, _. iSplit; [done|]. iFrame "H16".
  unfold dlist_entry. rewrite shift_shift. iFrame.
Qed.

Lemma datum_spec l w c :
  triple (dlist_entry link_field l ∗ shift l datum_field ↦ w)%I (set_datum (Vptr l) c)
    (λ _, dlist_entry link_field l ∗ datum_cell l c)%I.
Proof. unfold triple, set_datum, datum_cell. iIntros "[He H]". wp_run. iFrame. Qed.


(** *** The invariant holds initially and every step keeps it *)

Lemma test_init_inv ok1 ok2 : kinv (test_init ok1 ok2) [].
Proof.
  split; [|done|by destruct ok1, ok2|by destruct ok2|].
  - replace (kmem (test_init ok1 ok2)) with
      ({[scanQueue := Vnull]} ∪ {[second scanQueue := Vptr scanQueue]} : gmap (positive * Z) val)
      by (symmetry; apply insert_union_singleton_l).
    eapply hp_mono, (sep_holds (scanQueue ↦ Vnull) (second scanQueue ↦ Vptr scanQueue));
      [|apply pointsto_holds..|by apply map_disjoint_singleton_l, lookup_singleton_ne].
    unfold scanq, tailq. rewrite clist_nil. iIntros "[H1 H2]". iFrame.
    unfold payload. destruct ok1; simpl; by iSplit.
  - exists 0, []. split_and!; [done..|constructor|constructor].
Qed.

(** Steps of the producer that leave the memory and the queue alone. *)
Lemma in_order_next q c p p' :
  in_order q c p → p ≠ T1Unlock → p ≠ T1Count → in_order q c p'.
Proof.
  intros (r & ns & Hc & Hq & Hs & Hn) Hp1 Hp2. exists r, ns. split_and!; [done..|].
  eapply Forall_impl; [exact Hn|]. simpl. naive_solver.
Qed.

Lemma in_order_insert q c v :
  in_order q c (T1Insert v) → in_order (q ++ [c]) c T1Unlock.
Proof.
  intros (r & ns & -> & -> & Hs & Hn). exists r, (ns ++ [r]). split_and!; [done|..].
  - by rewrite fmap_app.
  - induction Hs as [|n ns Hs IH Hlt]; simpl; [repeat constructor|].
    apply Forall_cons in Hn as [Hn1 Hn2]. constructor; [by apply IH|].
    apply Forall_app. split; [done|]. repeat constructor. naive_solver.
  - apply Forall_app. split; [|repeat constructor; right; eauto].
    eapply Forall_impl; [exact Hn|]. simpl. naive_solver.
Qed.

Lemma in_order_count q c : in_order q c T1Count → in_order q (s32 (c + 1)) T1Stop.
Proof.
  intros (r & ns & -> & -> & Hs & Hn). exists (S r), ns. split_and!; [|done..|].
  - rewrite s32_succ. f_equal. lia.
  - eapply Forall_impl; [exact Hn|]. simpl. intros. lia.
Qed.

Definition good (o : outcome) : Prop :=
  match o with
  | Next s => ∃ items, kinv s items
  | Blocked => True
  | Fault => False
  end.

(** A step that runs a memory operation with a triple from the invariant. *)
Lemma good_run {A : Type} (P : heapProp) (m : ST (gmap (positive * Z) val) A) Q
    (s : kq) (k : A → kq → outcome) :
  triple P m Q → P (kmem s) →
  (∀ a m', Q a m' → good (k a (with_mem m' s))) → good (run_mem m s k).
Proof.
  intros Ht HP Hk. destruct (run_mem_triple P m Q s k Ht HP) as (a & m' & HQ & ->). by apply Hk.
Qed.

Lemma frame_l {A : Type} (P R : heapProp) (m : ST (gmap (positive * Z) val) A) Q :
  triple P m Q → triple (R ∗ P)%I m (λ a, R ∗ Q a)%I.
Proof.
  intros H. eapply triple_conseq; [|apply (triple_frame P R m Q H)|]; intros; by rewrite comm.
Qed.

Lemma lock_1 s p :
  lock_ok s → in_cs1 p = in_cs1 (at1 s) → lock_ok (with_1 p s).
Proof. unfold lock_ok. simpl. by intros [-> Hx] ->. Qed.

Lemma lock_2 s p :
  lock_ok s → in_cs2 p = in_cs2 (at2 s) → lock_ok (with_2 p s).
Proof. unfold lock_ok. simpl. by intros [-> Hx] ->. Qed.

Lemma test_thread1_good ok s items : kinv s items → good (test_thread1 ok s).
Proof.
  intros [Hh Hf Hl Hlp Ho]. unfold test_thread1.
  destruct (at1 s) as [| | | | |v|v|v| | | |] eqn:Hp; simpl; try done.
  - exists items. destruct (should_stop1 s); (split; simpl; rewrite ?Hp; try done;
      [by apply lock_1; rewrite ?Hp|by eapply in_order_next]).
  - exists items. split; simpl; rewrite ?Hp; try done; [by apply lock_1; rewrite ?Hp|].
    by eapply in_order_next.
  - exists items. destruct (signal1 s); (split; simpl; rewrite ?Hp; try done;
      [by apply lock_1; rewrite ?Hp|by eapply in_order_next]).
  - destruct ok.
    + eapply good_run; [apply (frame_l _ (scanq items) _ _ alloc_spec)|exact Hh|].
      intros v m' HQ. exists items.
      assert (v ≠ Vnull) as Hv by (destruct HQ as (? & ? & _ & _ & _ & l & w & -> & _); done).
      rewrite decide_False //. split; simpl; [done..|by apply lock_1; rewrite ?Hp|done|].
      by eapply in_order_next.
    + eapply (good_run _ _ (λ v, ⌜v = Vnull⌝ ∧ scanq items ∗ emp)%I);
        [|exact Hh|]; [by iIntros "H"; iApply wp_malloc_null; iFrame|].
      intros v m' [-> HQ]. exists items. simpl.
      split; simpl; [done..|by apply lock_1; rewrite ?Hp|done|by eapply in_order_next].
  - destruct Hh as (h1 & h2 & Hm & Hd & Hq & l & w & -> & He).
    eapply good_run; [apply (frame_l _ (scanq items) _ _ (datum_spec l w (count1 s)))|by exists h1, h2|].
    intros [] m' (h1' & h2' & ? & ? & Hq' & He'). exists items.
    split; simpl; [|done|by apply lock_1; rewrite ?Hp|done|by eapply in_order_next].
    exists h1', h2'. split_and!; [done..|]. by exists l.
  - destruct (scanQueueLock s) eqn:Hk; [done|]. exists items.
    destruct Hl as [Hl Hx]. rewrite Hp Hk /= in Hl.
    split; simpl; [done..| |done|by eapply in_order_next].
    unfold lock_ok; simpl. by destruct (in_cs2 (at2 s)).
  - destruct Hh as (h1 & h2 & Hm & Hd & Hq & l & -> & He).
    eapply good_run; [apply (insert_spec items l (count1 s))|by exists h1, h2|].
    intros [] m' HQ. exists (items ++ [(l, count1 s)]).
    destruct Hl as [Hl Hx]. rewrite Hp /= in Hl, Hx. split; simpl.
    + by eapply hp_mono; [|exact HQ]; rewrite right_id.
    + by rewrite Hf fmap_app assoc_L.
    + done.
    + by destruct (at2 s).
    + by eapply in_order_insert.
  - exists items. destruct Hl as [Hl Hx]. rewrite Hp /= in Hx.
    split; simpl; [done..| |done|].
    + unfold lock_ok; simpl. by rewrite Hx.
    + destruct Ho as (r & ns & ? & ? & ? & Hn). exists r, ns. split_and!; [done..|].
      eapply Forall_impl; [exact Hn|]. simpl. naive_solver.
  - exists items. split; simpl; [done..|by apply lock_1; rewrite ?Hp|done|by apply in_order_count].
  - exists items. destruct (should_stop1 s); (split; simpl;
      [done..|by apply lock_1; rewrite ?Hp|done|by eapply in_order_next]).
Qed.

Lemma test_thread2_good s items : kinv s items → good (test_thread2 s).
Proof.
  intros [Hh Hf Hl Hlp Ho]. unfold test_thread2.
  destruct (at2 s) as [| | | | | | |var next| | |] eqn:Hp; simpl; try done.
  - exists items. destruct (should_stop2 s); (split; simpl;
      [done..|by apply lock_2; rewrite ?Hp|done|done]).
  - exists items. split; simpl; [done..|by apply lock_2; rewrite ?Hp|done|done].
  - exists items. destruct (signal2 s); (split; simpl;
      [done..|by apply lock_2; rewrite ?Hp|done|done]).
  - exists items. split; simpl; [done..|by apply lock_2; rewrite ?Hp|done|done].
  - destruct (scanQueueLock s) eqn:Hk; [done|]. exists items.
    destruct Hl as [Hl Hx]. rewrite Hp Hk /= in Hl.
    split; simpl; [done..| |done|done].
    unfold lock_ok; simpl. by destruct (in_cs1 (at1 s)).
  - eapply good_run; [apply (triple_frame _ (private1 (at1 s) (count1 s)) _ _ (scanq_first items))|exact Hh|].
    intros r m' (h1 & h2 & Hm & Hd & [-> Hq] & Hpr). exists items.
    split; simpl; [by exists h1, h2|done|by apply lock_2; rewrite ?Hp|done|done].
  - destruct Hlp as [-> ->]. destruct items as [|[x d] items]; csimpl.
    + exists []. split; simpl; [done..|by apply lock_2; rewrite ?Hp|done|done].
    + eapply (good_run _ _ (λ r, ⌜r = (d, first_of (tail items.*1))⌝ ∧
        (scanq items ∗ private1 (at1 s) (count1 s)))%I); [|exact Hh|].
      { unfold triple. iIntros "[Hq Hpr]". iApply wp_bind.
        iApply (wp_wand with "[Hq]"); [by iApply drain_record_spec|]. iIntros (r) "[-> Hq]".
        iApply wp_bind. iApply (wp_wand with "[Hq]"); [by iApply scanq_next|].
        iIntros (r) "[-> Hq]". wp_run. by iFrame. }
      intros r m' [-> HQ]%pure_and_holds. exists items. split; simpl.
      * done.
      * by rewrite Hf /= -assoc_L.
      * by apply (lock_2 s (T2Loop Vnull Vnull)); rewrite ?Hp.
      * done.
      * done.
  - exists items. destruct Hl as [Hl Hx]. rewrite Hp in Hl, Hx.
    split; simpl; [done..| |done|done].
    unfold lock_ok; simpl. by destruct (in_cs1 (at1 s)).
  - exists items. destruct (should_stop2 s); (split; simpl;
      [done..|by apply lock_2; rewrite ?Hp|done|done]).
Qed.

(** The only undefined steps: [kthread_stop] without a task. *)
Definition stops_nothing (l : label) (s : kq) : Prop :=
  l = RunExit ∧ (atx s = XStop1 ∧ gone1 (at1 s) = true ∨ atx s = XStop2 ∧ gone2 (at2 s) = true).

Lemma step_good l s items : kinv s items → good (step l s) ∨ stops_nothing l s ∧ step l s = Fault.
Proof.
  intros Hi. destruct l as [ok| | | |]; simpl.
  - left. by eapply test_thread1_good.
  - left. by eapply test_thread2_good.
  - destruct Hi as [Hh Hf Hl Hlp Ho]. unfold test_exit, stops_nothing.
    destruct (atx s); try (left; exists items; by split); try (left; done).
    + destruct (gone1 (at1 s)); [right; eauto|]. left. exists items. by split.
    + left. destruct (at1 s) eqn:Hp; simpl; try done. exists items. split; simpl; by rewrite ?Hp.
    + destruct (gone2 (at2 s)); [right; eauto|]. left. exists items. by split.
    + left. destruct (at2 s) eqn:Hp; simpl; try done. exists items. split; simpl; by rewrite ?Hp.
  - left. destruct Hi. exists items. by split.
  - left. destruct Hi. exists items. by split.
Qed.

Lemma step_fault l s items : kinv s items → step l s = Fault ↔ stops_nothing l s.
Proof.
  intros Hi. split.
  - intros E. destruct (step_good l s items Hi) as [Hg|[H _]]; [by rewrite E in Hg|done].
  - intros [-> [[Hx Hg]|[Hx Hg]]]; simpl; unfold test_exit; by rewrite Hx Hg.
Qed.

Lemma reachable_inv s : reachable s → ∃ items, kinv s items.
Proof.
  induction 1 as [|l s s' _ [items Hi] Hs]; [exists []; apply test_init_inv|].
  destruct (step_good l s items Hi) as [Hg|[_ E]]; [by rewrite Hs in Hg|by rewrite Hs in E].
Qed.

(** *** Why a thread has ended *)

Lemma run_mem_next {A : Type} (m : ST (gmap (positive * Z) val) A) s k s' :
  run_mem m s k = Next s' → ∃ a m', k a (with_mem m' s) = Next s'.
Proof. unfold run_mem. destruct (m (kmem s)) as [[a m']|]; [eauto|done]. Qed.

(** The stop flags are set by [test_exit] at its calls of kthread_stop, on threads that were started;
    a thread that has returned had a signal or its stop flag. *)
Record stop_inv (s : kq) : Prop := {
  stop_1 : should_stop1 s = true → at1 s ≠ T1None ∧ atx s ≠ XIdle ∧ atx s ≠ XStop1;
  stop_2 : should_stop2 s = true → at2 s ≠ T2None ∧ (atx s = XJoin2 ∨ atx s = XDone);
  done_1 : at1 s = T1Done → signal1 s = true ∨ should_stop1 s = true;
  done_2 : at2 s = T2Done → signal2 s = true ∨ should_stop2 s = true;
}.

(** Case analysis on a step that gave a state. *)
Ltac next_cases :=
  repeat match goal with
  | H : run_mem _ _ _ = Next _ |- _ => apply run_mem_next in H as (? & ? & H)
  | H : Next _ = Next _ |- _ => injection H as <-
  | H : context [match scanQueueLock ?s with _ => _ end] |- _ => destruct (scanQueueLock s); [done|]
  | H : context [decide _] |- _ => case_decide
  | H : (if ?b then _ else _) = Next _ |- _ => destruct b eqn:?
  end.

(** What the steps of a thread leave alone. *)
Definition same_control (s s' : kq) : Prop :=
  should_stop1 s' = should_stop1 s ∧ should_stop2 s' = should_stop2 s ∧ signal1 s' = signal1 s ∧
  signal2 s' = signal2 s ∧ atx s' = atx s.

Lemma test_thread1_control ok s s' :
  test_thread1 ok s = Next s' →
  same_control s s' ∧ at2 s' = at2 s ∧ at1 s' ≠ T1None ∧
  (at1 s' = T1Done → signal1 s = true ∨ should_stop1 s = true).
Proof.
  intros Hs. unfold test_thread1 in Hs.
  destruct (at1 s) eqn:E1; next_cases; try done; (split; [done|]; split; [done|]); simpl;
    try (case_match; subst); (split; [done|]; intros; first [done|by left|by right]).
Qed.

Lemma test_thread2_control s s' :
  test_thread2 s = Next s' →
  same_control s s' ∧ at1 s' = at1 s ∧ at2 s' ≠ T2None ∧
  (at2 s' = T2Done → signal2 s = true ∨ should_stop2 s = true).
Proof.
  intros Hs. unfold test_thread2 in Hs.
  destruct (at2 s) eqn:E2; next_cases; try done; (split; [done|]; split; [done|]); simpl;
    try (case_match; subst); (split; [done|]; intros; first [done|by left|by right]).
Qed.

Lemma step_stop_inv l s s' : stop_inv s → step l s = Next s' → stop_inv s'.
Proof.
  intros [H1 H2 D1 D2] Hs. destruct l as [ok| | | |]; simpl in Hs.
  - destruct (test_thread1_control ok s s' Hs) as ((E1 & E2 & E3 & E4 & E5) & E6 & Hn & Hd).
    split; rewrite ?E1 ?E2 ?E3 ?E4 ?E5 ?E6; try done. intros H. by destruct (H1 H).
  - destruct (test_thread2_control s s' Hs) as ((E1 & E2 & E3 & E4 & E5) & E6 & Hn & Hd).
    split; rewrite ?E1 ?E2 ?E3 ?E4 ?E5 ?E6; try done. intros H. by destruct (H2 H).
  - unfold test_exit in Hs. destruct (atx s) eqn:Ex; next_cases; try done.
    + split; simpl; [intros H; by destruct (H1 H) as (_ & ? & _)|intros H; by destruct (H2 H) as [_ [?|?]]|done..].
    + split; simpl; [|intros H; by destruct (H2 H) as [_ [?|?]]|by right|done].
      intros _. split; [by intros E; rewrite E in Heqb|done].
    + destruct (at1 s) eqn:E1; simplify_eq.
      split; simpl; rewrite ?E1; [done|intros H; by destruct (H2 H) as [_ [?|?]]|done..].
    + split; simpl; [intros H; by destruct (H1 H)|intros H; by destruct (H2 H) as [_ [?|?]]|done..].
    + split; simpl; [intros H; by destruct (H1 H)| |done|by right].
      intros _. split; [by intros E; rewrite E in Heqb|by left].
    + destruct (at2 s) eqn:E2; simplify_eq.
      split; simpl; rewrite ?E2; [intros H; by destruct (H1 H)|intros H; split; [done|by right]|done..].
  - simplify_eq. split; simpl; [done|done|by left|done].
  - simplify_eq. split; simpl; [done..|by left].
Qed.

Lemma reachable_stop_inv s : reachable s → stop_inv s.
Proof.
  induction 1 as [ok1 ok2|l s s' _ IH Hs]; [|by eapply step_stop_inv].
  split; simpl; [done|done|by destruct ok1|by destruct ok2].
Qed.

Lemma run_reachable ls s s' : reachable s → run ls s = Some s' → reachable s'.
Proof.
  revert s. induction ls as [|l ls IH]; intros s Hr H; simplify_eq/=; [done|].
  destruct (step l s) eqn:Hs; [|done..]. eapply IH; [by econstructor|done].
Qed.

(** *** Stopping the producer *)

(** Statements the producer still has to execute once it is told to stop. *)
Definition rank1 (p : pc1) : nat :=
  match p with
  | T1None => 0 | T1New => 1 | T1Wait => 9 | T1Signal => 8 | T1Alloc => 7 | T1Datum _ => 6 | T1Lock _ => 5
  | T1Insert _ => 4 | T1Unlock => 3 | T1Count => 2 | T1Stop => 1 | T1Done => 0
  end.

Definition is_run1 (l : label) : bool := match l with Run1 _ => true | _ => false end.

Definition count_run1 (ls : list label) : nat := length (filter (λ l, is_run1 l = true) ls).

Lemma step_rank l s s' :
  step l s = Next s' → should_stop1 s = true →
  should_stop1 s' = true ∧ rank1 (at1 s') + (if is_run1 l then 1 else 0) ≤ rank1 (at1 s).
Proof.
  intros Hs Hst. destruct l as [ok| | | |]; simpl in *.
  - unfold test_thread1 in Hs. destruct (at1 s) eqn:Hp; next_cases; simpl in *; try rewrite Hst; simpl; try done;
      try (split; [done|]; lia).
    + destruct (signal1 s); simpl; split; (done || lia).
    + case_decide; simpl; split; (done || lia).
  - unfold test_thread2 in Hs. destruct (at2 s); next_cases; simpl; try done; split; (done || lia).
  - unfold test_exit in Hs. destruct (atx s); next_cases; simplify_eq/=; try (split; [done|lia]).
    + destruct (at1 s) eqn:Hp; simplify_eq/=. split; [done|]. rewrite Hp. simpl. lia.
    + destruct (at2 s); simplify_eq/=. split; [done|lia].
  - simplify_eq/=. split; [done|lia].
  - simplify_eq/=. split; [done|lia].
Qed.

Lemma run_rank ls s s' :
  run ls s = Some s' → should_stop1 s = true → count_run1 ls + rank1 (at1 s') ≤ rank1 (at1 s).
Proof.
  revert s. induction ls as [|l ls IH]; intros s H Hst; simplify_eq/=; [done|].
  destruct (step l s) as [s1| |] eqn:Hs; [|done..].
  destruct (step_rank l s s1 Hs Hst) as [Hst1 Hr]. specialize (IH s1 H Hst1).
  unfold count_run1 in *. rewrite filter_cons. destruct (is_run1 l); simpl in *; lia.
Qed.

Lemma run_stopping ls s s' : run ls s = Some s' → should_stop1 s = true → should_stop1 s' = true.
Proof.
  revert s. induction ls as [|l ls IH]; intros s H Hst; simplify_eq/=; [done|].
  destruct (step l s) as [s1| |] eqn:Hs; [|done..]. eapply IH; [done|]. by apply (step_rank l s s1 Hs Hst).
Qed.

(** The producer waits for the lock only while the consumer can run. *)
Lemma producer_progress s items :
  kinv s items → at1 s ≠ T1Done → at1 s ≠ T1None →
  (∃ s', step (Run1 true) s = Next s') ∨
  (scanQueueLock s = Some false ∧ in_cs2 (at2 s) = true ∧ ∃ s', step Run2 s = Next s').
Proof.
  intros Hi Hd Hn. destruct (step_good (Run1 true) s items Hi) as [Hg|[[? _] _]]; [|done].
  destruct (step (Run1 true) s) as [s'| |] eqn:Hs; [by left; exists s'| |done]. right.
  simpl in Hs. unfold test_thread1 in Hs. destruct (kinv_lock s items Hi) as [Hl Hx].
  destruct (at1 s) eqn:Hp; try done.
  - exfalso. unfold run_mem in Hs. by destruct (set_datum _ _ _) as [[? ?]|].
  - simpl in Hl. destruct (in_cs2 (at2 s)) eqn:Hc; [|by rewrite Hl in Hs].
    split_and!; [done..|]. destruct (step_good Run2 s items Hi) as [Hg2|[[? _] _]]; [|done]. simpl in *.
    destruct (test_thread2 s) as [s'| |] eqn:Ht; [by exists s'| |done]. exfalso.
    unfold test_thread2, run_mem in Ht. destruct (at2 s); try done.
    + by destruct ((TAILQ_FIRST _ ≫= _) _) as [[? ?]|].
    + case_decide; [done|]. by destruct ((remove_record _ ≫= _) _) as [[? ?]|].
  - exfalso. unfold run_mem in Hs. by destruct (TAILQ_INSERT_TAIL _ _ _ _) as [[? ?]|].
Qed.

(** ** Properties *)

(** C4: in every reachable state of the module, whatever the schedule of the two threads and of the
    unloading, the answers of kmalloc and kthread_run and the signals, the queue code touches
    no null, wild or freed pointer: the only step that can be undefined is a call of kthread_stop in
    test_exit for a thread without a task, because kthread_run failed or the thread has returned by
    itself, and that step is undefined. A thread returns by itself only on a signal; so while both threads
    were started and no signal has come, no step is undefined. *)
Theorem kthread_no_fault s l :
  reachable s →
  (step l s = Fault ↔
     l = RunExit ∧ (atx s = XStop1 ∧ (at1 s = T1None ∨ at1 s = T1Done) ∨
                    atx s = XStop2 ∧ (at2 s = T2None ∨ at2 s = T2Done))) ∧
  (at1 s ≠ T1None → at2 s ≠ T2None → signal1 s = false → signal2 s = false → step l s ≠ Fault).
Proof.
  intros Hr. pose proof (reachable_stop_inv s Hr) as [H1 H2 D1 D2].
  apply reachable_inv in Hr as [items Hi]. pose proof (step_fault l s items Hi) as Hf.
  assert (∀ p, gone1 p = true ↔ p = T1None ∨ p = T1Done) as G1 by (intros []; naive_solver).
  assert (∀ p, gone2 p = true ↔ p = T2None ∨ p = T2Done) as G2 by (intros []; naive_solver).
  split; [by rewrite Hf /stops_nothing G1 G2|]. intros N1 N2 S1 S2 E.
  apply Hf in E as [_ [[Hx Hg]|[Hx Hg]]].
  - apply G1 in Hg as [?|Hg]; [done|]. destruct (D1 Hg) as [?|Hst]; [congruence|]. by destruct (H1 Hst) as (_ & _ & ?).
  - apply G2 in Hg as [?|Hg]; [done|]. destruct (D2 Hg) as [?|Hst]; [congruence|].
    destruct (H2 Hst) as [_ [?|?]]; congruence.
Qed.

(** The module with both threads, and the state after one full round of the producer. *)
Definition both : kq := test_init true true.
Definition after_round : kq := default both (run (replicate 10 (Run1 true)) both).

Lemma after_round_reachable : reachable after_round.
Proof.
  apply (run_reachable (replicate 10 (Run1 true)) both); [constructor|vm_compute; reflexivity].
Qed.

Lemma kthread_no_fault_witness : at1 after_round = T1Wait ∧ step Run2 after_round ≠ Fault.
Proof.
  split; [vm_compute; reflexivity|].
  apply (proj2 (kthread_no_fault after_round Run2 after_round_reachable)); vm_compute; done.
Defined.

(** A signal ends the producer; unloading then stops a thread that is gone. *)
Definition signal_schedule : list label := Run1 true :: Signal1 :: Run1 true :: Run1 true :: [RunExit].

Theorem unload_after_signal_faults :
  (∃ s, reachable s ∧ signal1 s = true ∧ step RunExit s = Fault) ∧
  ∃ s, reachable s ∧ at1 s = T1None ∧ step RunExit s = Fault.
Proof.
  split.
  - exists (default both (run signal_schedule both)). split; [|vm_compute; by split].
    apply (run_reachable signal_schedule both); [constructor|vm_compute; reflexivity].
  - exists (default both (run [RunExit] (test_init false true))). split; [|vm_compute; by split].
    apply (run_reachable [RunExit] (test_init false true)); [constructor|vm_compute; reflexivity].
Qed.

(** C5: in every reachable state the memory is exactly the queue, its records and
    the one record the producer holds back (nothing is leaked or shared), the
    lock is held by the thread inside its critical section and by no other, the
    data ever queued are the data removed so far followed by the data in the
    queue, and they are the producer's counter values in the order of the
    rounds. *)
Theorem kthread_fifo s :
  reachable s →
  ∃ items : list (loc * Z),
    (scanq items ∗ private1 (at1 s) (count1 s))%I (kmem s) ∧
    lock_ok s ∧ queued s = removed s ++ items.*2 ∧
    ∃ ns : list nat, queued s = (λ n, s32 (Z.of_nat n)) <$> ns ∧ StronglySorted lt ns.
Proof.
  intros [items [Hh Hf Hl _ (r & ns & _ & Hq & Hs & _)]]%reachable_inv.
  exists items. split_and!; [done..|]. by exists ns.
Qed.

Lemma kthread_fifo_witness :
  queued after_round = [0%Z] ∧
  ∃ items : list (loc * Z),
    (scanq items ∗ private1 (at1 after_round) (count1 after_round))%I (kmem after_round) ∧
    lock_ok after_round ∧ queued after_round = removed after_round ++ items.*2 ∧
    ∃ ns : list nat, queued after_round = (λ n, s32 (Z.of_nat n)) <$> ns ∧ StronglySorted lt ns.
Proof.
  split; [vm_compute; reflexivity|]. apply (kthread_fifo after_round after_round_reachable).
Defined.

(** C40: once kthread_stop has set its flag the producer executes at most nine more
    statements whatever the schedule, and it is never stuck on the way: it can
    run, or it waits for the lock while the consumer, inside its critical
    section, can run. *)
Theorem producer_stops s ls s' :
  reachable s → should_stop1 s = true → run ls s = Some s' →
  count_run1 ls ≤ 9 ∧
  (at1 s' ≠ T1Done →
   (∃ s'', step (Run1 true) s' = Next s'') ∨
   (scanQueueLock s' = Some false ∧ in_cs2 (at2 s') = true ∧ ∃ s'', step Run2 s' = Next s'')).
Proof.
  intros Hr Hst Hrun. split.
  - pose proof (run_rank ls s s' Hrun Hst).
    assert (rank1 (at1 s) ≤ 9) by (destruct (at1 s); simpl; lia). lia.
  - pose proof (run_reachable ls s s' Hr Hrun) as Hr'. intros Hd.
    destruct (reachable_inv s' Hr') as [items Hi]. eapply producer_progress; [done..|].
    apply (stop_1 s' (reachable_stop_inv s' Hr')). by eapply run_stopping.
Qed.

(** The module exit has told the producer, in the middle of a wait, to stop. *)
Definition stopping : kq := default both (run (Run1 true :: [RunExit; RunExit]) both).

Lemma producer_stops_witness :
  should_stop1 stopping = true ∧ ∃ s', run (replicate 9 (Run1 true)) stopping = Some s' ∧
  count_run1 (replicate 9 (Run1 true)) ≤ 9.
Proof.
  split; [vm_compute; reflexivity|].
  exists (default both (run (replicate 9 (Run1 true)) stopping)).
  assert (run (replicate 9 (Run1 true)) stopping =
          Some (default both (run (replicate 9 (Run1 true)) stopping))) as Hrun
    by (vm_compute; reflexivity).
  split; [exact Hrun|].
  apply (proj1 (producer_stops stopping (replicate 9 (Run1 true)) _
    ltac:(apply (run_reachable (Run1 true :: [RunExit; RunExit]) both); [constructor|vm_compute; reflexivity])
    ltac:(vm_compute; reflexivity) Hrun)).
Defined.

(** The consumer drains the empty queue, the exit stops the producer, which
    queues its last record, and the consumer ends without another round. *)
Definition leak_schedule : list label :=
  replicate 8 Run2 ++ Run1 true :: [RunExit; RunExit] ++ replicate 9 (Run1 true) ++
  replicate 3 RunExit ++ [Run2; RunExit].

(** Unloading the module can leave a record behind. When the consumer has
    drained the queue and not yet looked at its stop flag, the producer's last
    record is queued, both threads end and test_exit returns with the record
    still linked and allocated. *)
Theorem unload_leaks_record :
  ∃ s, reachable s ∧ atx s = XDone ∧ at1 s = T1Done ∧ at2 s = T2Done ∧
    queued s = [0%Z] ∧ removed s = [] ∧
    kmem s !! scanQueue = Some (Vptr (2%positive, 0%Z)) ∧
    kmem s !! (2%positive, datum_field) = Some (Vint 0).
Proof.
  exists (default both (run leak_schedule both)).
  split; [|vm_compute; split_and!; reflexivity].
  apply (run_reachable leak_schedule both); [constructor|vm_compute; reflexivity].
Qed.
