(* ===== verification/UserQueue.v ===== *)
(** * The userspace TAILQ example (queue_test_userspace.c)

    [main] builds a queue of three elements, prints it, then removes and frees
    every element. The program's output is the list of lines it prints, and the
    answers of malloc are arguments. *)

From stdpp Require Import base gmap list.
From iris.proofmode Require Import proofmode.
From S2P Require Import Prelude CMem QueueSeg QueueDlist QueueTailq QueueIface.

(** ** Data *)

(** [struct foo]: the TAILQ entry [tailq] at offset 0, [datum] after it. *)
Definition foo_tailq : Z := 0.
Definition foo_datum : Z := 16.
Definition foo_fields : list Z := [0; 8; 16]%Z.

(** The lines [" %d"], the empty one, ["Removing the Entry from Queue"] and
    ["Removing %d"]. *)
Inductive line :=
  | Datum (n : Z)
  | Blank
  | Banner
  | Removing (n : Z).

(** ** The program *)

(** [p = malloc(sizeof( *p)); p->datum = n;], with no check of the result *)
Definition new_foo (ok : bool) (n : Z) : ST (gmap (positive * Z) val) val :=
  p ← malloc foo_fields ok;
  a ← addr_of p foo_datum; store a (Vint n);;
  mret p.

Definition read_datum (p : val) : ST (gmap (positive * Z) val) Z :=
  a ← addr_of p foo_datum; v ← load a;
  match v with Vint n => mret n | _ => st_fail end.

Definition print_foo (p : val) (out : list line) : ST (gmap (positive * Z) val) (list line) :=
  n ← read_datum p; mret (out ++ [Datum n]).

Definition remove_foo (q p : val) (out : list line) : ST (gmap (positive * Z) val) (list line) :=
  n ← read_datum p;
  TAILQ_REMOVE foo_tailq q p;;
  free foo_fields p;;
  mret (out ++ [Removing n]).

(** [main], with the queue head at [q] and the loops bounded by [fuel]. *)
Definition main (fuel : nat) (q : val) (ok1 ok2 ok3 : bool) :
    ST (gmap (positive * Z) val) (list line) :=
  TAILQ_HEAD_INITIALIZER q;;
  data1 ← new_foo ok1 1;
  data2 ← new_foo ok2 2;
  data3 ← new_foo ok3 3;
  TAILQ_INSERT_TAIL foo_tailq q data1;;
  TAILQ_INSERT_TAIL foo_tailq q data2;;
  TAILQ_INSERT_TAIL foo_tailq q data3;;
  out ← TAILQ_FOREACH foo_tailq fuel q print_foo [];
  TAILQ_FOREACH_SAFE foo_tailq fuel q (remove_foo q) (out ++ [Blank; Banner]).

(** ** Lemmas *)

Definition datum_at (x : loc) (n : Z) : heapProp := (shift x foo_datum ↦ Vint n)%I.

Lemma shift_twice l o o' : shift (shift l o) o' = shift l (o + o').
Proof. destruct l. unfold shift; simpl. f_equal. lia. Qed.

Lemma new_foo_spec n :
  triple emp%I (new_foo true n)
    (λ v, ∃ l, ⌜v = Vptr l⌝ ∧ dlist_entry foo_tailq l ∗ datum_at l n)%I.
Proof.
  unfold triple, new_foo. iIntros "H". iApply wp_bind. iApply wp_malloc.
  { unfold foo_fields. repeat constructor; set_solver. }
  iIntros (b) "(H0 & H8 & H16 & _)". wp_run. iExists _. iSplit; [done|]. iFrame "H16".
  unfold dlist_entry. rewrite shift_twice. iFrame.
Qed.

Lemma print_foo_spec x n out :
  triple (datum_at x n) (print_foo (Vptr x) out)
    (λ out', ⌜out' = out ++ [Datum n]⌝ ∧ datum_at x n)%I.
Proof. unfold triple, print_foo, read_datum, datum_at. iIntros "H". wp_run. by iFrame. Qed.

Lemma remove_foo_spec q x n xs out :
  triple (tailq foo_tailq q (x :: xs) ∗ datum_at x n)%I (remove_foo (Vptr q) (Vptr x) out)
    (λ out', ⌜out' = out ++ [Removing n]⌝ ∧ tailq foo_tailq q xs)%I.
Proof.
  unfold triple, remove_foo, read_datum, datum_at. iIntros "[Hq Hd]". wp_run.
  iApply (wp_wand with "[Hq]").
  { iApply (TAILQ_REMOVE_spec foo_tailq q [] x xs). iFrame. }
  iIntros (_) "[Hq (%v & %w & He & Hw)]". wp_run. iApply (wp_free with "[He Hw Hd]").
  - unfold object, foo_fields. rewrite shift_twice. simpl. iFrame.
  - wp_run. by iFrame.
Qed.

(** A refused allocation: the store of the datum goes through a null pointer. *)
Lemma new_foo_null n m : new_foo false n m = None.
Proof. reflexivity. Qed.

(** Appending an element with its datum. *)
Lemma append_spec q xds l n :
  triple ((tailq foo_tailq q xds.*1 ∗ payload datum_at xds) ∗ dlist_entry foo_tailq l ∗ datum_at l n)%I
    (TAILQ_INSERT_TAIL foo_tailq (Vptr q) (Vptr l))
    (λ _, tailq foo_tailq q (xds ++ [(l, n)]).*1 ∗ payload datum_at (xds ++ [(l, n)]))%I.
Proof.
  unfold triple. iIntros "[[Hq Hpay] [He Hd]]". iApply (wp_wand with "[Hq He]").
  { iApply TAILQ_INSERT_TAIL_spec. iFrame. }
  iIntros (_) "Hq". rewrite fmap_app payload_snoc. iFrame.
Qed.

(** ** Properties *)

(** when malloc answers, the example prints the three data in the order they
    were appended, removes them in the same order, and returns with an empty
    queue and every element freed: the memory it ends with is the queue head
    alone. *)
Theorem main_output q v w fuel :
  3 < fuel →
  triple (q ↦ v ∗ second q ↦ w)%I (main fuel (Vptr q) true true true)
    (λ out, ⌜out = [Datum 1; Datum 2; Datum 3; Blank; Banner; Removing 1; Removing 2; Removing 3]⌝ ∧
       tailq foo_tailq q [])%I.
Proof.
  intros Hf. unfold triple, main. iIntros "Hq". iApply wp_bind.
  iApply (wp_wand with "[Hq]"); [by iApply TAILQ_HEAD_INITIALIZER_spec|]. iIntros (_) "Hq".
  iApply wp_bind. iApply wp_wand; [by iApply new_foo_spec|]. iIntros (?) "(%l1 & -> & He1 & Hd1)".
  iApply wp_bind. iApply wp_wand; [by iApply new_foo_spec|]. iIntros (?) "(%l2 & -> & He2 & Hd2)".
  iApply wp_bind. iApply wp_wand; [by iApply new_foo_spec|]. iIntros (?) "(%l3 & -> & He3 & Hd3)".
  iApply wp_bind. iApply (wp_wand with "[Hq He1 Hd1]").
  { iApply (append_spec q [] l1 1). simpl. iFrame. unfold payload. done. }
  iIntros (_) "Hq". iApply wp_bind. iApply (wp_wand with "[Hq He2 Hd2]").
  { iApply (append_spec q _ l2 2). iFrame. }
  iIntros (_) "Hq". iApply wp_bind. iApply (wp_wand with "[Hq He3 Hd3]").
  { iApply (append_spec q _ l3 3). iFrame. }
  iIntros (_) "Hq". simpl app. iApply wp_bind. iApply (wp_wand with "[Hq]").
  { iApply (fl_foreach_spec (tailq_fwd foo_tailq) datum_at print_foo
      (λ out _ n, out ++ [Datum n]) print_foo_spec fuel q [(l1, 1); (l2, 2); (l3, 3)]%Z);
      [simpl; lia | done]. }
  iIntros (out) "[-> Hq]". iApply (wp_wand with "[Hq]").
  { iApply (TAILQ_FOREACH_SAFE_drains foo_tailq datum_at (remove_foo (Vptr q))
      (λ out _ n, out ++ [Removing n]) q (λ x n xs, remove_foo_spec q x n xs) fuel
      [(l1, 1); (l2, 2); (l3, 3)]%Z); [simpl; lia | done]. }
  iIntros (?) "[-> Hq]". by iFrame.
Qed.

Lemma main_output_witness :
  3 < 4 ∧
  triple ((1%positive, 0%Z) ↦ Vundef ∗ second (1%positive, 0%Z) ↦ Vundef)%I
    (main 4 (Vptr (1%positive, 0%Z)) true true true)
    (λ out, ⌜out = [Datum 1; Datum 2; Datum 3; Blank; Banner; Removing 1; Removing 2; Removing 3]⌝ ∧
       tailq foo_tailq (1%positive, 0%Z) [])%I.
Proof. split; [lia | apply (main_output (1%positive, 0%Z) Vundef Vundef 4); lia]. Defined.

(** The results of malloc are not checked: whichever of the three
    allocations is refused, the run gets stuck on the store through the null
    pointer, whatever the memory holds. *)
Theorem main_null_deref fuel q ok1 ok2 ok3 m :
  ok1 && ok2 && ok3 = false → main fuel q ok1 ok2 ok3 m = None.
Proof.
  intros H. unfold main. apply st_bind_stuck. intros [] m1.
  destruct ok1; [|by apply st_bind_none, new_foo_null]. apply st_bind_stuck. intros v1 m2.
  destruct ok2; [|by apply st_bind_none, new_foo_null]. apply st_bind_stuck. intros v2 m3.
  destruct ok3; [done|]. by apply st_bind_none, new_foo_null.
Qed.

Lemma main_null_deref_witness :
  true && false && true = false ∧
  main 4 (Vptr (1%positive, 0%Z)) true false true
    {[ (1%positive, 0%Z) := Vundef; (1%positive, 8%Z) := Vundef ]} = None.
Proof. split; [reflexivity | apply main_null_deref; reflexivity]. Defined.
