(* ===== verification/CString.v ===== *)
(** * Characters, C strings and decimal numbers

    A [char] is a [Z]; the contents of a C string is the list of characters
    before its terminator. [dec z] is the text of ["%ld"]; [number] reads a
    decimal number back. *)

From Stdlib Require Import ZArith Lia ssreflect.
From stdpp Require Import base list numbers sets.
From S2P Require Import Prelude.

(** ** Characters *)

Definition ch_nl : Z := 10.
Definition ch_space : Z := 32.
Definition ch_minus : Z := 45.
Definition ch_dot : Z := 46.
Definition ch_slash : Z := 47.
Definition ch_0 : Z := 48.
Definition ch_underscore : Z := 95.

Definition is_digit (c : Z) : bool := ((48 <=? c) && (c <=? 57))%Z.

(** ** Buffers

    A buffer is the list of its bytes; a store outside it is stuck. *)

Definition buf_set {S : Type} (b : list Z) (i : nat) (c : Z) : ST S (list Z) :=
  if bool_decide (i < length b) then mret (<[i := c]> b) else st_fail.

(** The C string at the start of a buffer: the bytes before the first 0, or stuck
    without one. *)
Fixpoint c_string (b : list Z) : option (list Z) :=
  match b with
  | [] => None
  | c :: b => if (c =? 0)%Z then Some [] else cons c <$> c_string b
  end.

Lemma c_string_app s rest : Forall (λ c, c ≠ 0%Z) s → c_string (s ++ 0%Z :: rest) = Some s.
Proof.
  induction 1 as [|c s Hc Hs IH]; [done|]. simpl. rewrite IH. destruct (Z.eqb_spec c 0); done.
Qed.

(** The bytes before the first 0, if there is one. *)
Fixpoint until_zero (bs : list Z) : list Z :=
  match bs with
  | [] => []
  | b :: bs => if (b =? 0)%Z then [] else b :: until_zero bs
  end.

Lemma until_zero_id bs : Forall (λ c, c ≠ 0%Z) bs → until_zero bs = bs.
Proof.
  induction 1 as [|c bs Hc _ IH]; [done|]. simpl. rewrite IH. by destruct (Z.eqb_spec c 0).
Qed.

(** ** Lines and words *)

(** [fgets] with room for [n] characters: the line and the rest of the file; nothing
    at the end of the file. *)
Fixpoint take_line (n : nat) (file : list Z) : list Z * list Z :=
  match n, file with
  | S n, c :: file =>
      if (c =? ch_nl)%Z then ([c], file)
      else let '(l, r) := take_line n file in (c :: l, r)
  | _, _ => ([], file)
  end.

Definition fgets (n : nat) (file : list Z) : option (list Z * list Z) :=
  match file with [] => None | _ => Some (take_line n file) end.

Lemma take_line_run n l file :
  ch_nl ∉ l → length l < n → take_line n (l ++ ch_nl :: file) = (l ++ [ch_nl], file).
Proof.
  revert n. induction l as [|c l IH]; intros [|n] Hl Hn; simpl in *; try lia; [done|].
  destruct (Z.eqb_spec c ch_nl); [set_solver|]. rewrite IH; [set_solver|lia|done].
Qed.

(** One step of [strtok(str, sep)]: the next word and what follows its end. *)
Fixpoint token_end (sep : Z) (s : list Z) : list Z * list Z :=
  match s with
  | c :: s => if (c =? sep)%Z then ([], s) else let '(w, r) := token_end sep s in (c :: w, r)
  | [] => ([], [])
  end.

Fixpoint strtok (sep : Z) (s : list Z) : option (list Z * list Z) :=
  match s with
  | c :: s' => if (c =? sep)%Z then strtok sep s' else Some (token_end sep s)
  | [] => None
  end.

(** [strstr(s, t) != NULL]. *)
Fixpoint starts_with (s t : list Z) : bool :=
  match t, s with
  | [], _ => true
  | c :: t, d :: s => (c =? d)%Z && starts_with s t
  | _, [] => false
  end.

Fixpoint strstr (s t : list Z) : bool :=
  starts_with s t || match s with [] => false | _ :: s => strstr s t end.

Lemma token_end_spec sep s : ∀ w r, token_end sep s = (w, r) →
  sep ∉ w ∧ length r ≤ length s ∧ (s ≠ [] → length r < length s) ∧
  filter (.≠ sep) s = w ++ filter (.≠ sep) r.
Proof.
  induction s as [|c s IH]; intros w r E; simpl in E; [simplify_eq; split_and!; set_solver|].
  destruct (Z.eqb_spec c sep) as [->|Hc].
  - simplify_eq. split_and!; [apply not_elem_of_nil|simpl; lia..|]. rewrite filter_cons_False; [naive_solver|done].
  - destruct (token_end sep s) as [w' r'] eqn:E'. simplify_eq. destruct (IH w' r eq_refl) as (H1 & H2 & _ & H4).
    split_and!; [by rewrite not_elem_of_cons|simpl; lia..|]. rewrite filter_cons_True; [done|]. by rewrite H4.
Qed.

Lemma strtok_none sep s : strtok sep s = None → filter (.≠ sep) s = [].
Proof.
  induction s as [|c s IH]; intros E; simpl in E; [done|]. destruct (Z.eqb_spec c sep) as [->|]; [|done].
  rewrite filter_cons_False; [naive_solver|]. by apply IH.
Qed.

Lemma strtok_some sep s w r : strtok sep s = Some (w, r) →
  sep ∉ w ∧ w ≠ [] ∧ length r < length s ∧ filter (.≠ sep) s = w ++ filter (.≠ sep) r.
Proof.
  induction s as [|c s IH]; intros E; simpl in E; [done|]. destruct (Z.eqb_spec c sep) as [->|Hc].
  - destruct (IH E) as (H1 & H2 & H3 & H4). rewrite filter_cons_False; [naive_solver|].
    split_and!; [done..|simpl; lia|done].
  - destruct (token_end sep s) as [w' r'] eqn:E'. simplify_eq.
    destruct (token_end_spec sep s w' r E') as (H1 & H2 & _ & H4).
    split_and!; [by rewrite not_elem_of_cons|done|simpl; lia|]. rewrite filter_cons_True; [done|]. by rewrite H4.
Qed.

(** *** Words *)

Section words.
Context (sep : Z).

(** The words of a text: the maximal pieces without the separator. [words_of] cuts the text into separators, a word,
    at least one separator before the next word, and so on. *)
Definition gaps (gap : list Z) : Prop := Forall (.= sep) gap.

Inductive words_of : list Z → list (list Z) → Prop :=
  | words_none gap : gaps gap → words_of gap []
  | words_last gap w : gaps gap → w ≠ [] → sep ∉ w → words_of (gap ++ w) [w]
  | words_more gap w rest ws : gaps gap → w ≠ [] → sep ∉ w → words_of rest ws →
      words_of (gap ++ w ++ sep :: rest) (w :: ws).

Lemma token_end_word w : sep ∉ w → token_end sep w = (w, []).
Proof.
  induction w as [|c w IH]; intros H; [done|]. apply not_elem_of_cons in H as [Hc Hw]. simpl.
  rewrite (proj2 (Z.eqb_neq c sep) (not_eq_sym Hc)). by rewrite IH.
Qed.

Lemma token_end_app w rest : sep ∉ w → token_end sep (w ++ sep :: rest) = (w, rest).
Proof.
  induction w as [|c w IH]; intros H; [by rewrite /= Z.eqb_refl|]. apply not_elem_of_cons in H as [Hc Hw]. simpl.
  rewrite (proj2 (Z.eqb_neq c sep) (not_eq_sym Hc)). by rewrite IH.
Qed.

Lemma strtok_gap gap s : gaps gap → strtok sep (gap ++ s) = strtok sep s.
Proof. induction 1 as [|c gap -> _ IH]; [done|]. simpl. by rewrite Z.eqb_refl. Qed.

Lemma strtok_word w s : w ≠ [] → sep ∉ w → strtok sep (w ++ s) = Some (token_end sep (w ++ s)).
Proof.
  destruct w as [|c w]; [done|]. intros _ [Hc _]%not_elem_of_cons. simpl.
  by rewrite (proj2 (Z.eqb_neq c sep) (not_eq_sym Hc)).
Qed.

(** Every text has words, and only one list of them. *)
Lemma words_exist line : ∃ ws, words_of line ws.
Proof.
  induction line as [|c line [ws IH]]; [exists []; apply words_none; constructor|].
  destruct (decide (c = sep)) as [->|Hc].
  - exists ws. destruct IH as [gap Hg|gap w Hg Hw Hs|gap w rest ws Hg Hw Hs H].
    + apply words_none. by constructor.
    + apply (words_last (sep :: gap)); [by constructor|done..].
    + apply (words_more (sep :: gap)); [by constructor|done..].
  - assert (∀ w, sep ∉ w → c :: w ≠ [] ∧ sep ∉ c :: w) as Hcw
      by (intros w Hw; split; [done|]; by rewrite not_elem_of_cons).
    destruct IH as [gap Hg|gap w Hg Hw Hs|gap w rest ws Hg Hw Hs H].
    + destruct Hg as [|? gap -> Hg]; [exists [[c]]; by apply (words_last [] [c]); [constructor|apply Hcw, not_elem_of_nil..]|].
      exists [[c]]. apply (words_more [] [c] gap []); [constructor|apply Hcw, not_elem_of_nil..|by apply words_none].
    + destruct Hg as [|? gap -> Hg]; [exists [c :: w]; by apply (words_last [] (c :: w)); [constructor|apply Hcw..]|].
      exists [[c]; w]. apply (words_more [] [c] (gap ++ w)); [constructor|apply Hcw, not_elem_of_nil..|by apply words_last].
    + destruct Hg as [|? gap -> Hg].
      * exists ((c :: w) :: ws). by apply (words_more [] (c :: w)); [constructor|apply Hcw..|].
      * exists ([c] :: w :: ws). apply (words_more [] [c] (gap ++ w ++ sep :: rest)); [constructor|apply Hcw, not_elem_of_nil..|].
        by apply words_more.
Qed.

(** All words that strtok gives from a text on. *)
Lemma strtok_words text ws :
  words_of text ws →
  match ws with
  | [] => strtok sep text = None
  | w :: ws => ∃ rest, strtok sep text = Some (w, rest) ∧ length rest < length text ∧ words_of rest ws
  end.
Proof.
  intros [gap Hg|gap w Hg Hw Hs|gap w rest ws' Hg Hw Hs H].
  - by rewrite -(app_nil_r gap) strtok_gap.
  - exists []. rewrite strtok_gap // -{1}(app_nil_r w) strtok_word // app_nil_r token_end_word //.
    split_and!; [done| |apply words_none; constructor]. rewrite length_app. destruct w; simpl; [done|lia].
  - exists rest. rewrite strtok_gap // strtok_word // token_end_app //. split_and!; [done| |done].
    rewrite !length_app /=. lia.
Qed.

Lemma words_unique text ws ws' : words_of text ws → words_of text ws' → ws = ws'.
Proof.
  revert text ws'. induction ws as [|w ws IH]; intros text ws' H H'; apply strtok_words in H, H'.
  - destruct ws' as [|w' ws']; [done|]. destruct H' as (? & H' & _). congruence.
  - destruct H as (rest & E & _ & H). destruct ws' as [|w' ws']; [congruence|].
    destruct H' as (rest' & E' & _ & H'). simplify_eq. f_equal. by eapply IH.
Qed.

End words.

(** ** Decimal numbers *)

Fixpoint digits (fuel : nat) (n : Z) : list Z :=
  match fuel with
  | 0 => []
  | S fuel => if (n <? 10)%Z then [ch_0 + n]%Z else digits fuel (n / 10) ++ [ch_0 + n mod 10]%Z
  end.

(** The text of a natural number; 20 digits are enough for 64 bits. *)
Definition dec_nat (n : Z) : list Z := digits 20 n.

(** The text of ["%ld"]. *)
Definition dec (z : Z) : list Z :=
  if (z <? 0)%Z then ch_minus :: dec_nat (- z) else dec_nat z.

(** Read the digits at the start of a text, as [acc * 10 + digit]. *)
Fixpoint number (acc : Z) (s : list Z) : Z :=
  match s with
  | c :: s => if is_digit c then number (acc * 10 + (c - ch_0)) s else acc
  | [] => acc
  end.

(** Base 10 conversion with an optional minus sign. *)
Definition strtol10 (s : list Z) : Z :=
  match s with
  | c :: s' => if (c =? ch_minus)%Z then (- number 0 s')%Z else number 0 s
  | [] => 0
  end.

Lemma number_app acc s t :
  Forall (λ c, is_digit c = true) s → number acc (s ++ t) = number (number acc s) t.
Proof. intros H. revert acc. induction H as [|c s Hc Hs IH]; intros acc; simpl; [done|]. by rewrite Hc IH. Qed.

(** A text that does not start with a digit. *)
Definition no_digit (s : list Z) : Prop := ∀ c, head s = Some c → is_digit c = false.

Lemma number_stop acc s : no_digit s → number acc s = acc.
Proof. destruct s as [|c s]; [done|]. intros H. simpl. by rewrite (H c eq_refl). Qed.

Lemma digits_spec fuel n :
  (0 <= n < 10 ^ Z.of_nat fuel)%Z →
  Forall (λ c, is_digit c = true) (digits fuel n) ∧ number 0 (digits fuel n) = n.
Proof.
  revert n. induction fuel as [|fuel IH]; intros n Hn; [simpl in *; split; [done|lia]|].
  rewrite Nat2Z.inj_succ Z.pow_succ_r in Hn; [lia|]. simpl.
  destruct (Z.ltb_spec n 10) as [Hlt|Hge].
  - assert (is_digit (ch_0 + n) = true) as Hd by (unfold is_digit, ch_0; lia).
    split; [by constructor|]. simpl. rewrite Hd. lia.
  - pose proof (Z.mod_pos_bound n 10). destruct (IH (n / 10)%Z) as [Hf Hnum].
    { split; [apply Z.div_pos; lia|apply Z.div_lt_upper_bound; lia]. }
    assert (is_digit (ch_0 + n mod 10) = true) as Hd by (unfold is_digit, ch_0; lia).
    split; [apply Forall_app; by repeat constructor|].
    rewrite number_app // Hnum. simpl. rewrite Hd. pose proof (Z.div_mod n 10). lia.
Qed.

Lemma digits_nonempty fuel n : digits (S fuel) n ≠ [].
Proof. simpl. case_match; [done|]. intros E. by apply app_eq_nil in E as [_ ?]. Qed.

Lemma digits_length fuel n k :
  (0 <= n < 10 ^ Z.of_nat k)%Z → 0 < k → length (digits fuel n) ≤ k.
Proof.
  revert n k. induction fuel as [|fuel IH]; intros n k Hn Hk; simpl; [lia|].
  destruct (Z.ltb_spec n 10); simpl; [lia|]. rewrite length_app /=.
  destruct k as [|[|k]]; [lia|simpl in Hn; lia|].
  rewrite Nat2Z.inj_succ Z.pow_succ_r in Hn; [lia|].
  assert (length (digits fuel (n / 10)) ≤ S k); [|lia]. apply IH; [|lia].
  split; [apply Z.div_pos; lia|apply Z.div_lt_upper_bound; lia].
Qed.

Lemma dec_nat_spec n :
  in_u64 n → Forall (λ c, is_digit c = true) (dec_nat n) ∧ number 0 (dec_nat n) = n.
Proof. intros H. apply digits_spec. unfold in_u64 in H. lia. Qed.

(** Printing and reading back. *)
Lemma strtol10_dec z rest : in_s64 z → no_digit rest → strtol10 (dec z ++ rest) = z.
Proof.
  intros Hz Hrest. unfold dec. destruct (Z.ltb_spec z 0).
  - destruct (dec_nat_spec (- z)) as [Hf Hn]; [int_solve|]. simpl.
    rewrite number_app // Hn number_stop //. lia.
  - destruct (dec_nat_spec z) as [Hf Hn]; [int_solve|].
    assert (strtol10 (dec_nat z ++ rest) = number 0 (dec_nat z ++ rest)) as ->.
    { destruct (dec_nat z) as [|c s] eqn:E.
      - by destruct (digits_nonempty 19 z).
      - simpl. inversion Hf as [|? ? Hc _]; subst. destruct (Z.eqb_spec c ch_minus) as [->|]; [done|].
        done. }
    by rewrite number_app // Hn number_stop.
Qed.

(** The longest text of a 64-bit number has 20 characters. *)
Lemma dec_length z : in_s64 z → length (dec z) ≤ 20.
Proof.
  intros Hz. unfold dec, dec_nat. destruct (Z.ltb_spec z 0).
  - rewrite length_cons. assert (length (digits 20 (- z)) ≤ 19); [|lia]. apply digits_length; [unfold in_s64 in Hz|]; lia.
  - apply (digits_length 20 z 20); [unfold in_s64 in Hz|]; lia.
Qed.

Lemma is_digit_nonzero c : is_digit c = true → c ≠ 0%Z.
Proof. unfold is_digit. intros H ->. done. Qed.

Lemma dec_nat_nonzero n : in_u64 n → Forall (λ c, c ≠ 0%Z) (dec_nat n).
Proof.
  intros H. destruct (dec_nat_spec n H) as [Hf _]. rewrite !Forall_forall in Hf |- *.
  intros c Hc. by apply is_digit_nonzero, Hf.
Qed.

Lemma dec_nonzero z : in_s64 z → Forall (λ c, c ≠ 0%Z) (dec z).
Proof.
  intros Hz. unfold dec. destruct (Z.ltb_spec z 0); [constructor; [done|]|];
    apply dec_nat_nonzero; int_solve.
Qed.

(** A number of at most [k] characters is small. *)
Lemma digits_lower fuel n k :
  (10 ^ Z.of_nat k <= n < 10 ^ Z.of_nat fuel)%Z → k < length (digits fuel n).
Proof.
  revert n k. induction fuel as [|fuel IH]; intros n k Hn.
  { simpl in Hn. assert (0 < 10 ^ Z.of_nat k)%Z by lia. lia. }
  rewrite Nat2Z.inj_succ Z.pow_succ_r in Hn; [lia|]. simpl.
  destruct k as [|k]; [destruct (n <? 10)%Z; rewrite ?length_app /=; lia|].
  rewrite Nat2Z.inj_succ Z.pow_succ_r in Hn; [lia|].
  destruct (Z.ltb_spec n 10); [assert (0 < 10 ^ Z.of_nat k)%Z by lia; lia|].
  rewrite length_app /=. assert (k < length (digits fuel (n / 10))); [|lia]. apply IH.
  split; [apply Z.div_le_lower_bound; lia|apply Z.div_lt_upper_bound; lia].
Qed.

(** A number of at most nine characters fits an [int]. *)
Lemma dec_short z : in_s64 z → length (dec z) ≤ 9 → in_s32 z.
Proof.
  intros Hz Hl. unfold dec, dec_nat in Hl.
  assert (∀ n, in_u64 n → length (digits 20 n) ≤ 9 → (n < 10 ^ 9)%Z) as Hs.
  { intros n Hn Hd. destruct (Z.lt_ge_cases n (10 ^ 9)) as [|Hge]; [done|].
    pose proof (digits_lower 20 n 9). unfold in_u64 in Hn. lia. }
  destruct (Z.ltb_spec z 0).
  - rewrite length_cons in Hl. pose proof (Hs (- z)%Z). unfold in_s64, in_u64, in_s32 in *. lia.
  - pose proof (Hs z). unfold in_s64, in_u64, in_s32 in *. lia.
Qed.
