(* ===== verification/Bytes.v ===== *)
(** * Bytes of memory and little-endian numbers

    Memory that may be uninitialised is a list of cells, [None] being an
    indeterminate byte. [le_split] and [le_join] are the little-endian bytes
    of a number and back, [text] the characters of a literal. *)

From Stdlib Require Import ZArith Lia ssreflect Ascii.
From stdpp Require Import base list numbers strings.
From S2P Require Import Prelude CString.

Abbreviation cell := (option Z) (only parsing).

(** ** Literals *)

Fixpoint text (s : string) : list Z :=
  match s with
  | EmptyString => []
  | String a s => Z.of_nat (nat_of_ascii a) :: text s
  end.

(** ** Stores into a buffer *)

(** The bytes [bs] written at [off]; outside the buffer it is stuck. *)
Definition buf_store (b : list cell) (off : nat) (bs : list cell) : option (list cell) :=
  if bool_decide (off + length bs ≤ length b)
  then Some (take off b ++ bs ++ drop (off + length bs) b)
  else None.

(** [strcpy], [strncpy] and [memset] at the offset [off] of a buffer. *)
Definition strcpy (b : list cell) (off : nat) (s : list Z) : option (list cell) :=
  buf_store b off (Some <$> (s ++ [0%Z])).

Definition strncpy (b : list cell) (off : nat) (s : list Z) (n : nat) : option (list cell) :=
  buf_store b off (Some <$> take n (s ++ replicate n 0%Z)).

Definition memset (b : list cell) (off : nat) (c : Z) (n : nat) : option (list cell) :=
  buf_store b off (replicate n (Some c)).

(** The C string at the start of a buffer: stuck at an indeterminate byte and at
    the end of the buffer. *)
Fixpoint cell_string (b : list cell) : option (list Z) :=
  match b with
  | Some c :: b => if (c =? 0)%Z then Some [] else cons c <$> cell_string b
  | _ => None
  end.

(** The bytes of a buffer that is initialised throughout. *)
Definition known (b : list cell) : option (list Z) := mapM id b.

(** The number of indeterminate bytes. *)
Definition unknown (b : list cell) : nat := length (filter (λ c, c = None) b).

(** ** Little-endian numbers *)

Fixpoint le_split (n : nat) (z : Z) : list Z :=
  match n with
  | O => []
  | S n => (z mod 256)%Z :: le_split n (z / 256)
  end.

Fixpoint le_join (bs : list Z) : Z :=
  match bs with
  | [] => 0
  | b :: bs => (b + 256 * le_join bs)%Z
  end.

Definition is_byte (b : Z) : Prop := (0 <= b < 256)%Z.

(** ** Lemmas *)

Lemma buf_store_length b off bs b' : buf_store b off bs = Some b' → length b' = length b.
Proof.
  unfold buf_store. case_bool_decide; intros; simplify_eq.
  rewrite !length_app length_take length_drop. lia.
Qed.

Lemma buf_store_some b off bs :
  off + length bs ≤ length b →
  buf_store b off bs = Some (take off b ++ bs ++ drop (off + length bs) b).
Proof. intros. unfold buf_store. by rewrite bool_decide_true. Qed.

(** Bytes in the middle of a buffer are replaced. *)
Lemma buf_store_at pre old bs rest off :
  off = length pre → length old = length bs →
  buf_store (pre ++ old ++ rest) off bs = Some (pre ++ bs ++ rest).
Proof.
  intros -> Hl. rewrite buf_store_some; [rewrite !length_app; lia|].
  rewrite take_app_length -drop_drop drop_app_length drop_app_length'; [lia|done].
Qed.

Lemma buf_store_none b off bs : length b < off + length bs → buf_store b off bs = None.
Proof. intros. unfold buf_store. rewrite bool_decide_false //. lia. Qed.

Lemma cell_string_app s rest :
  Forall (λ c, c ≠ 0%Z) s → cell_string ((Some <$> (s ++ [0%Z])) ++ rest) = Some s.
Proof.
  induction 1 as [|c s Hc _ IH]; [done|]. simpl in *. rewrite IH.
  by rewrite (proj2 (Z.eqb_neq _ _) Hc).
Qed.

Lemma unknown_app b1 b2 : unknown (b1 ++ b2) = unknown b1 + unknown b2.
Proof. unfold unknown. by rewrite filter_app length_app. Qed.

Lemma unknown_known (bs : list Z) : unknown (Some <$> bs) = 0.
Proof. induction bs as [|b bs IH]; [done|]. exact IH. Qed.

Lemma unknown_replicate n : unknown (replicate n None) = n.
Proof. induction n as [|n IH]; [done|]. unfold unknown in *. simpl. by rewrite IH. Qed.

Lemma known_fmap (bs : list Z) : known (Some <$> bs) = Some bs.
Proof. unfold known. induction bs as [|b bs IH]; [done|]. simpl in *. by rewrite IH. Qed.

Lemma le_split_length n z : length (le_split n z) = n.
Proof. revert z. induction n as [|n IH]; intros z; simpl; [done|]. by rewrite IH. Qed.

Lemma le_split_bytes n z : Forall is_byte (le_split n z).
Proof.
  revert z. induction n as [|n IH]; intros z; constructor; [|apply IH].
  apply Z.mod_pos_bound. lia.
Qed.

(** Splitting and joining keeps the number modulo its width. *)
Lemma le_join_split n z : le_join (le_split n z) = (z mod 256 ^ Z.of_nat n)%Z.
Proof.
  revert z. induction n as [|n IH]; intros z; [by rewrite Z.mod_1_r|].
  simpl le_split. simpl le_join. rewrite IH Nat2Z.inj_succ Z.pow_succ_r; [lia|].
  rewrite Z.rem_mul_r; lia.
Qed.

Lemma le_join_bound bs : Forall is_byte bs → (0 <= le_join bs < 256 ^ Z.of_nat (length bs))%Z.
Proof.
  induction 1 as [|b bs Hb _ IH]; [simpl; lia|].
  simpl le_join. rewrite length_cons Nat2Z.inj_succ Z.pow_succ_r; [lia|].
  unfold is_byte in Hb. lia.
Qed.

Lemma le_split_join bs : Forall is_byte bs → le_split (length bs) (le_join bs) = bs.
Proof.
  induction 1 as [|b bs Hb _ IH]; [done|]. simpl. unfold is_byte in Hb.
  rewrite (Z.mul_comm 256) Z_mod_plus_full Z.mod_small; [lia|].
  rewrite Z.div_add; [lia|]. rewrite Z.div_small; [lia|]. by rewrite Z.add_0_l IH.
Qed.

Lemma le_join_split_u32 z : in_u32 z → le_join (le_split 4 z) = z.
Proof. intros H. rewrite le_join_split. apply Z.mod_small. unfold in_u32 in H. lia. Qed.

Lemma le_join_split_u64 z : in_u64 z → le_join (le_split 8 z) = z.
Proof. intros H. rewrite le_join_split. apply Z.mod_small. unfold in_u64 in H. lia. Qed.

Lemma s32_le_split z : in_s32 z → s32 (le_join (le_split 4 z)) = z.
Proof.
  intros H. rewrite le_join_split. change (256 ^ Z.of_nat 4)%Z with (2 ^ 32)%Z.
  unfold s32. rewrite Z.add_mod_idemp_l; [lia|]. by apply s32_id.
Qed.

(** The bytes of a number depend on its residue only. *)
Lemma le_split_mod n z : le_split n (z mod 256 ^ Z.of_nat n) = le_split n z.
Proof.
  rewrite -le_join_split -{1}(le_split_length n z).
  by rewrite le_split_join; [apply le_split_bytes|].
Qed.

Lemma le_split_s32 z : le_split 4 (s32 z) = le_split 4 z.
Proof.
  rewrite -(le_split_mod 4 (s32 z)) -(le_split_mod 4 z). f_equal.
  change (256 ^ Z.of_nat 4)%Z with (2 ^ 32)%Z. unfold s32.
  rewrite -Zminus_mod_idemp_l Z.mod_mod; [lia|]. rewrite Zminus_mod_idemp_l. f_equal. lia.
Qed.

(** Four bytes are the encoding of an [int]. *)
Lemma bytes_s32 bs : Forall is_byte bs → length bs = 4 → bs = le_split 4 (s32 (le_join bs)).
Proof. intros Hb Hl. rewrite le_split_s32 -Hl. by rewrite le_split_join. Qed.

#[export] Hint Rewrite le_join_split_u32 le_join_split_u64 s32_le_split using int_solve : kint.
#[export] Hint Resolve le_split_bytes : kint.

#[global] Opaque le_split.
