(* ===== verification/Procfs.v ===== *)
(** * The procfs example (procfs.c)

    A module that exports one [long] under /proc, with the handlers for kernels
    from 3.10 on ([procfs_read_long], [procfs_write_long]) and for older ones
    ([*_old]). [simple_strtol] is the kernel's; the class [Strtol] states the
    part of its documentation the code relies on. A user buffer is the list of the
    user's bytes from its address on, up to the first unmapped one, so that a copy past the size the
    caller gave shows. *)

From Stdlib Require Import ZArith Lia ssreflect.
From stdpp Require Import base list numbers strings.
From S2P Require Import Prelude CString.

(** ** The kernel *)

Class Strtol := { simple_strtol : list Z → Z }.

Class StrtolLaws (K : Strtol) := {
  simple_strtol_dec z rest : in_s64 z → no_digit rest → simple_strtol (dec z ++ rest) = z;
}.

Definition sample_strtol : Strtol := {| simple_strtol := strtol10 |}.

Lemma sample_strtol_laws : StrtolLaws sample_strtol.
Proof. split. exact strtol10_dec. Qed.

(** ** State *)

Definition ROOT_PROCFS : string := "ashish".
Definition LONG_BUF_LEN : nat := 21.
Definition sizeof_char_ptr : Z := 8.
Definition PAGE_SIZE : nat := 4096.
Definition EINVAL : Z := 22.
Definition ENOMEM : Z := 12.
Definition S_IFREG : Z := 32768.
Definition S_IRUSR : Z := 256.
Definition S_IWUSR : Z := 128.

(** An entry of /proc: its parent directory ([None] for /proc itself), name and
    mode. *)
Record proc_dir_entry := ProcEntry {
  pe_parent : option string; pe_name : string; pe_mode : Z }.

Record procfs := ProcFS {
  proc_dir_root : bool;               (* the pointer is not NULL *)
  test_proc : Z;
  proc_entries : list proc_dir_entry;
  live_buffers : nat }.               (* kzalloc'ed and not freed *)

Definition set_root (b : bool) (s : procfs) : procfs :=
  ProcFS b (test_proc s) (proc_entries s) (live_buffers s).
Definition set_long (z : Z) (s : procfs) : procfs :=
  ProcFS (proc_dir_root s) z (proc_entries s) (live_buffers s).
Definition set_entries (es : list proc_dir_entry) (s : procfs) : procfs :=
  ProcFS (proc_dir_root s) (test_proc s) es (live_buffers s).
Definition set_live (n : nat) (s : procfs) : procfs :=
  ProcFS (proc_dir_root s) (test_proc s) (proc_entries s) n.

Definition kfree_buffer : ST procfs unit := λ s,
  match live_buffers s with S n => Some (tt, set_live n s) | 0 => None end.

(** [kzalloc(LONG_BUF_LEN, GFP_KERNEL)] *)
Definition kzalloc_buffer (ok : bool) : ST procfs (option (list Z)) := λ s,
  if ok then Some (Some (replicate LONG_BUF_LEN 0%Z), set_live (S (live_buffers s)) s)
  else Some (None, s).

(** [snprintf(buf, size, "%ld\n", v)]: the buffer afterwards. *)
Definition snprintf_ld (buf : list Z) (size : nat) (v : Z) : list Z :=
  let text := take (size - 1) (dec v ++ [ch_nl]) in
  text ++ 0%Z :: drop (S (length text)) buf.

(** [copy_to_user(to, from, n)]: the bytes not copied and the user's memory. *)
Definition copy_to_user (umem from : list Z) (n : nat) : nat * list Z :=
  (n - length umem, take (length umem) (take n from) ++ drop n umem).

(** [copy_from_user(to, from, n)]: the bytes not copied and the buffer, whose tail is
    kept. *)
Definition copy_from_user (to umem : list Z) (n : nat) : nat * list Z :=
  (n - length umem, take n umem ++ drop (n `min` length umem) to).

Section handlers.
Context `{K : Strtol}.

(** ** Kernels from 3.10 on *)

(** The result of a read: the return value, the new offset and the user's
    memory. *)
Definition procfs_read_long (ok : bool) (umem : list Z) (count ppos : Z) :
    ST procfs (Z * Z * list Z) :=
  if (count <=? u64 ppos)%Z then mret (0, ppos, umem)%Z
  else
    data ← kzalloc_buffer ok;
    match data with
    | Some data =>
        s ← st_get;
        let data := snprintf_ld data LONG_BUF_LEN (test_proc s) in
        let '(rem, umem) := copy_to_user umem data LONG_BUF_LEN in
        if (0 <? rem)%nat then mret (0, ppos, umem)%Z
        else
          kfree_buffer;;
          mret (s32 count, s64 (ppos + count), umem)
    | None => mret (0, ppos, umem)%Z
    end.

Definition procfs_write_long (ok : bool) (umem : list Z) (count : Z) : ST procfs Z :=
  data ← kzalloc_buffer ok;
  match data with
  | Some data =>
      if (sizeof_char_ptr - 1 <? count)%Z then kfree_buffer;; mret (- EINVAL)%Z
      else
        let '(rem, data) := copy_from_user data umem (Z.to_nat count) in
        if (0 <? rem)%nat then kfree_buffer;; mret (- EINVAL)%Z
        else
          data ← buf_set data (Z.to_nat count) 0;
          text ← st_opt (c_string data);
          let intVal := s32 (simple_strtol text) in
          st_modify (set_long intVal);;
          kfree_buffer;;
          mret (s32 count)
  | None => mret (- ENOMEM)%Z
  end.

(** ** Older kernels *)

(** The return value, the page, the offset of [*start] in it, and whether [*eof]
    was set. *)
Definition procfs_read_long_old (page : list Z) (off count : Z) : ST procfs (Z * list Z * Z * bool) :=
  s ← st_get;
  let page := snprintf_ld page PAGE_SIZE (test_proc s) in
  let length := Z.of_nat (length (dec (test_proc s) ++ [ch_nl])) in
  let eof := (length <=? off + count)%Z in
  let start := off in
  let length := s32 (length - off) in
  mret (if (length <? 0)%Z then 0%Z else length, page, start, eof).

Definition procfs_write_long_old (stack umem : list Z) (count : Z) : ST procfs Z :=
  if (Z.of_nat LONG_BUF_LEN - 1 <? count)%Z then mret (- EINVAL)%Z
  else
    let '(rem, buff_long) := copy_from_user stack umem (Z.to_nat count) in
    if (0 <? rem)%nat then mret (- EINVAL)%Z
    else
      buff_long ← buf_set buff_long (Z.to_nat count) 0;
      text ← st_opt (c_string buff_long);
      st_modify (set_long (simple_strtol text));;
      mret (s32 count).
End handlers.

(** ** The /proc entries *)

Definition init_procfs (ok : bool) : ST procfs Z := λ s,
  let s := set_root ok s in
  if ok then Some (0%Z, set_entries (ProcEntry None ROOT_PROCFS 0 :: proc_entries s) s)
  else Some ((- ENOMEM)%Z, s).

(** [remove_proc_entry(name, parent)] *)
Definition remove_proc_entry (name : string) (parent : option string) (s : procfs) : procfs :=
  set_entries (filter (λ e, ¬ (pe_name e = name ∧ pe_parent e = parent)) (proc_entries s)) s.

Definition term_procfs : ST procfs unit := λ s,
  Some (tt, if proc_dir_root s then remove_proc_entry ROOT_PROCFS None s else s).

Definition PF_getDir : ST procfs bool := λ s, Some (proc_dir_root s, s).

Definition dummy_proc_open : Z := 0.

(** The parent pointer [proc_dir_root] passed to the kernel: NULL is /proc. *)
Definition root_name (s : procfs) : option string :=
  if proc_dir_root s then Some ROOT_PROCFS else None.

Definition entry_mode (read write : bool) : Z :=
  let mode := S_IFREG in
  let mode := if read then Z.lor mode S_IRUSR else mode in
  if write then Z.lor mode S_IWUSR else mode.

(** Both variants register [name] under [proc_dir_root], [ok] being the kernel's
    answer. *)
Definition procfs_create_entry (ok : bool) (name : string) (read write : bool) : ST procfs unit := λ s,
  let mode := entry_mode read write in
  Some (tt, if ok then set_entries (ProcEntry (root_name s) name mode :: proc_entries s) s else s).

Definition procfs_remove_entry (name : string) : ST procfs unit := λ s,
  Some (tt, if proc_dir_root s then remove_proc_entry name (root_name s) s else s).

Definition procfs_init (mkdir_ok create_ok : bool) : ST procfs Z :=
  init_procfs mkdir_ok;;
  procfs_create_entry create_ok "Test_PROCFS" true true;;
  mret 0%Z.

Definition procfs_cleanup : ST procfs unit :=
  procfs_remove_entry "Test_PROCFS";;
  term_procfs.

(** ** Lemmas *)

(** The text of a read: at most 20 characters and the terminator. *)
Definition long_text (v : Z) : list Z := take 20 (dec v ++ [ch_nl]).

Definition long_buffer (v : Z) : list Z :=
  long_text v ++ replicate (21 - length (long_text v)) 0%Z.

Lemma long_text_length v : length (long_text v) ≤ 20.
Proof. unfold long_text. rewrite length_take. lia. Qed.

Lemma snprintf_long v : snprintf_ld (replicate LONG_BUF_LEN 0%Z) LONG_BUF_LEN v = long_buffer v.
Proof.
  unfold snprintf_ld, long_buffer, LONG_BUF_LEN. fold (long_text v). pose proof (long_text_length v).
  f_equal. rewrite drop_replicate. replace (21 - length (long_text v)) with (S (21 - S (length (long_text v)))) by lia.
  done.
Qed.

Lemma long_buffer_length v : length (long_buffer v) = 21.
Proof.
  unfold long_buffer. rewrite length_app length_replicate. pose proof (long_text_length v). lia.
Qed.

Lemma long_text_nonzero v : in_s64 v → Forall (λ c, c ≠ 0%Z) (long_text v).
Proof.
  intros Hv. apply Forall_take, Forall_app. split; [by apply dec_nonzero|by repeat constructor].
Qed.

(** A successful read replaces the first 21 bytes of the user's memory. *)
Lemma read_long_run (s : procfs) umem count ppos :
  (u64 ppos < count)%Z → 21 ≤ length umem →
  procfs_read_long true umem count ppos s =
    Some ((s32 count, s64 (ppos + count), long_buffer (test_proc s) ++ drop 21 umem), s).
Proof.
  intros Hp Hu. unfold procfs_read_long. rewrite (proj2 (Z.leb_gt _ _) Hp).
  unfold mbind, ST_bind, kzalloc_buffer, st_get. cbn [test_proc set_live].
  rewrite snprintf_long. unfold copy_to_user. unfold LONG_BUF_LEN.
  replace (21 - length umem) with 0 by lia. simpl.
  rewrite (take_ge (long_buffer _) 21); [rewrite long_buffer_length; lia|].
  rewrite take_ge; [rewrite long_buffer_length; lia|]. by destruct s.
Qed.

Lemma read_long_first (s : procfs) umem count :
  (0 < count < 2 ^ 31)%Z → 21 ≤ length umem →
  procfs_read_long true umem count 0 s =
    Some ((count, count, long_buffer (test_proc s) ++ drop 21 umem), s).
Proof.
  intros Hc Hu. rewrite read_long_run; [change (u64 0) with 0%Z; lia|done|]. rewrite Z.add_0_l.
  rewrite s32_id; [unfold in_s32; lia|]. rewrite s64_id; [unfold in_s64; lia|done].
Qed.

(** A write of a text without a terminator in it. *)
Lemma buffer_text text buf k :
  length buf = 21 → k = length text → k ≤ 20 → Forall (λ c, c ≠ 0%Z) text →
  c_string (<[k := 0%Z]> (text ++ drop k buf)) = Some text.
Proof.
  intros Hb -> Hk Hnz. rewrite insert_app_r_alt // Nat.sub_diag.
  destruct (drop (length text) buf) as [|c rest] eqn:E; [|by apply c_string_app].
  apply (f_equal length) in E. rewrite length_drop Hb /= in E. lia.
Qed.

Section write_lemmas.
Context `{K : Strtol}.

Lemma write_long_run (s : procfs) text rest :
  length text ≤ 7 → Forall (λ c, c ≠ 0%Z) text →
  procfs_write_long true (text ++ rest) (Z.of_nat (length text)) s =
    Some (Z.of_nat (length text), set_long (s32 (simple_strtol text)) s).
Proof.
  intros Hl Hnz. unfold procfs_write_long, mbind, ST_bind, kzalloc_buffer, sizeof_char_ptr.
  rewrite (proj2 (Z.ltb_ge _ _)); [lia|]. unfold copy_from_user. rewrite !Nat2Z.id.
  rewrite length_app. replace (length text - (length text + length rest)) with 0 by lia. cbn [Nat.ltb Nat.leb].
  rewrite take_app_length Nat.min_l; [lia|]. unfold buf_set.
  rewrite bool_decide_true; [rewrite length_app length_drop length_replicate /LONG_BUF_LEN; lia|].
  unfold mret, ST_ret, st_opt. rewrite buffer_text //; [lia|].
  rewrite (s32_id (Z.of_nat (length text))); [unfold in_s32; lia|]. by destruct s.
Qed.

Lemma write_long_old_run (s : procfs) stack text rest :
  length stack = 21 → length text ≤ 20 → Forall (λ c, c ≠ 0%Z) text →
  procfs_write_long_old stack (text ++ rest) (Z.of_nat (length text)) s =
    Some (Z.of_nat (length text), set_long (simple_strtol text) s).
Proof.
  intros Hst Hl Hnz. unfold procfs_write_long_old, LONG_BUF_LEN.
  rewrite (proj2 (Z.ltb_ge _ _)); [lia|]. unfold copy_from_user. rewrite !Nat2Z.id.
  rewrite length_app. replace (length text - (length text + length rest)) with 0 by lia. cbn [Nat.ltb Nat.leb].
  rewrite take_app_length Nat.min_l; [lia|]. unfold buf_set, mbind, ST_bind.
  rewrite bool_decide_true; [rewrite length_app length_drop Hst; lia|].
  unfold mret, ST_ret, st_opt. rewrite buffer_text //.
  rewrite (s32_id (Z.of_nat (length text))); [unfold in_s32; lia|]. by destruct s.
Qed.
End write_lemmas.

(** ** Properties *)

(** reading. A read of at least 21 bytes from offset 0 puts the decimal text of the
    value and a newline in the user's buffer, terminated, leaves the bytes
    after the first 21 alone and moves the offset so that the next read reports the end
    of the file. A value whose text has 20 characters loses the newline: the
    buffer of 21 bytes has no room for it. *)
Theorem read_delivers (s : procfs) umem count :
  in_s64 (test_proc s) → (21 <= count < 2 ^ 31)%Z → (count <= Z.of_nat (length umem))%Z →
  ∃ umem', procfs_read_long true umem count 0 s = Some ((count, count, umem'), s) ∧
    c_string umem' = Some (if (length (dec (test_proc s)) <=? 19)%nat
                           then dec (test_proc s) ++ [ch_nl] else dec (test_proc s)) ∧
    drop 21 umem' = drop 21 umem ∧ length umem' = length umem ∧
    procfs_read_long true umem' count count s = Some ((0%Z, count, umem'), s).
Proof.
  intros Hv Hc Hu. exists (long_buffer (test_proc s) ++ drop 21 umem). split_and!.
  - rewrite read_long_first //; lia.
  - unfold long_buffer. pose proof (long_text_length (test_proc s)).
    replace (21 - length (long_text (test_proc s))) with (S (20 - length (long_text (test_proc s)))) by lia.
    rewrite -app_assoc. simpl. rewrite c_string_app; [by apply long_text_nonzero|]. f_equal.
    unfold long_text. pose proof (dec_length _ Hv). destruct (Nat.leb_spec (length (dec (test_proc s))) 19).
    + rewrite take_ge // length_app /=. lia.
    + rewrite take_app_le; [lia|]. by rewrite take_ge; [lia|].
  - rewrite drop_app_ge; [rewrite long_buffer_length; lia|]. by rewrite long_buffer_length.
  - rewrite length_app long_buffer_length length_drop. lia.
  - unfold procfs_read_long. rewrite u64_id; [unfold in_u64; lia|]. by rewrite Z.leb_refl.
Qed.

Lemma read_delivers_witness :
  let s := ProcFS true (-12) [] 0 in
  in_s64 (test_proc s) ∧
  ∃ umem', procfs_read_long true (replicate 30 255%Z) 30 0 s = Some ((30, 30, umem')%Z, s) ∧
    c_string umem' = Some [45; 49; 50; 10]%Z.
Proof.
  intros s. split; [unfold in_s64; simpl; lia|].
  destruct (read_delivers s (replicate 30 255%Z) 30) as (umem' & E & Hc & _);
    [unfold in_s64; simpl; lia|lia|rewrite length_replicate; lia|].
  exists umem'. split; [exact E|]. rewrite Hc. reflexivity.
Defined.

(** A short read overruns. The handler copies 21 bytes whatever size the
    caller asked for: a read of fewer bytes reports [count] bytes but overwrites the
    user's memory after them, up to the terminator at index 20. When fewer than 21
    bytes are mapped, the copy fails, the read reports 0 bytes as at the end of the
    file, and the kernel buffer is not freed. *)
Theorem read_overruns (s : procfs) umem count :
  (0 < count <= 20)%Z → (count <= Z.of_nat (length umem))%Z →
  (21 ≤ length umem →
   ∃ umem', procfs_read_long true umem count 0 s = Some ((count, count, umem'), s) ∧
     take 21 umem' = long_buffer (test_proc s) ∧ umem' !! 20 = Some 0%Z) ∧
  (length umem < 21 →
   ∃ umem', procfs_read_long true umem count 0 s =
     Some ((0%Z, 0%Z, umem'), set_live (S (live_buffers s)) s)).
Proof.
  intros Hc Hn. split; intros Hu.
  - exists (long_buffer (test_proc s) ++ drop 21 umem).
    pose proof (long_buffer_length (test_proc s)) as Hl. split_and!.
    + rewrite read_long_first //; lia.
    + rewrite take_app_le; [lia|]. by rewrite take_ge; [lia|].
    + rewrite lookup_app_l; [lia|]. unfold long_buffer. pose proof (long_text_length (test_proc s)).
      rewrite lookup_app_r; [lia|]. apply lookup_replicate_2. lia.
  - unfold procfs_read_long. change (u64 0) with 0%Z. rewrite (proj2 (Z.leb_gt _ _)); [lia|].
    unfold mbind, ST_bind, kzalloc_buffer, st_get, copy_to_user, LONG_BUF_LEN.
    rewrite (proj2 (Nat.ltb_lt 0 _)); [lia|]. by eexists.
Qed.

Lemma read_overruns_witness :
  let s := ProcFS true 5 [] 0 in
  ∃ umem', procfs_read_long true (replicate 30 255%Z) 2 0 s = Some ((2, 2, umem')%Z, s) ∧
    take 21 umem' = long_buffer 5 ∧ umem' !! 20 = Some 0%Z.
Proof. intros s. apply (read_overruns s (replicate 30 255%Z) 2); simpl; lia. Defined.

(** C31: round trips. On a kernel before 3.10, writing the decimal text of any
    [long] stores it and a read then shows that text and a newline; from 3.10 on the
    same holds for texts of at most seven characters. *)
Theorem write_read_roundtrip `{K : Strtol} {laws : StrtolLaws K} (s : procfs) z rest stack page :
  in_s64 z → length stack = 21 → length page = 4096 →
  (∃ s' page', procfs_write_long_old stack (dec z ++ rest) (Z.of_nat (length (dec z))) s =
       Some (Z.of_nat (length (dec z)), s') ∧ test_proc s' = z ∧
     procfs_read_long_old page 0 4096 s' = Some ((Z.of_nat (length (dec z) + 1), page', 0%Z, true), s') ∧
     c_string page' = Some (dec z ++ [ch_nl])) ∧
  (length (dec z) ≤ 7 →
   ∃ s' umem', procfs_write_long true (dec z ++ rest) (Z.of_nat (length (dec z))) s =
       Some (Z.of_nat (length (dec z)), s') ∧ test_proc s' = z ∧
     procfs_read_long true (replicate 21 0%Z) 21 0 s' = Some ((21, 21, umem')%Z, s') ∧
     c_string umem' = Some (dec z ++ [ch_nl])).
Proof.
  intros Hz Hst Hpg. pose proof (dec_length z Hz) as Hl. pose proof (dec_nonzero z Hz) as Hnz.
  assert (simple_strtol (dec z) = z) as Hs.
  { rewrite -{1}(app_nil_r (dec z)). by apply simple_strtol_dec. }
  split.
  - eexists (set_long z s), _. split_and!.
    + rewrite write_long_old_run // Hs. done.
    + done.
    + unfold procfs_read_long_old, mbind, ST_bind, st_get. cbn [test_proc set_long].
      rewrite length_app. cbn [length]. rewrite s32_id; [unfold in_s32; lia|].
      rewrite Z.sub_0_r (proj2 (Z.ltb_ge _ _)); [lia|]. rewrite (proj2 (Z.leb_le _ _)); [lia|]. reflexivity.
    + unfold snprintf_ld, PAGE_SIZE. rewrite take_ge; [rewrite length_app; cbn [length]; lia|].
      apply c_string_app. apply Forall_app. split; [done|by repeat constructor].
  - intros H7. eexists (set_long z s), _. split_and!.
    + rewrite write_long_run // Hs s32_id //. apply dec_short; [done|]. lia.
    + done.
    + rewrite read_long_first; [lia|simpl; lia|]. reflexivity.
    + cbn [test_proc set_long]. unfold long_buffer, long_text.
      rewrite take_ge; [rewrite length_app; cbn [length]; lia|]. rewrite length_app. cbn [length].
      replace (21 - (length (dec z) + 1)) with (S (19 - length (dec z))) by lia.
      rewrite -!app_assoc. simpl. rewrite (app_assoc (dec z) [ch_nl]).
      apply c_string_app. apply Forall_app. split; [done|by repeat constructor].
Qed.

Lemma write_read_roundtrip_witness :
  let K := sample_strtol in
  ∃ s', procfs_write_long_old (replicate 21 7%Z) (dec (- 2 ^ 63) ++ [10%Z]) 20 (ProcFS true 0 [] 0) =
    Some (20%Z, s') ∧ test_proc s' = (- 2 ^ 63)%Z.
Proof.
  intros K.
  destruct (@write_read_roundtrip K sample_strtol_laws (ProcFS true 0 [] 0) (- 2 ^ 63) [10%Z]
    (replicate 21 7%Z) (replicate 4096 0%Z)) as [(s' & page' & E & Hs & _) _];
    [unfold in_s64; lia|reflexivity|apply length_replicate|].
  exists s'. split; [exact E|exact Hs].
Defined.

(** The size limits differ. From 3.10 on a write of more than seven bytes is
    refused with -EINVAL and changes nothing, since the limit is the size of a
    pointer and not of the buffer it points to; so of the numbers whose text has eight
    characters or more, none can be stored, and older kernels store them all. *)
Theorem write_limit `{K : Strtol} {laws : StrtolLaws K} (s : procfs) z rest stack :
  in_s64 z → 7 < length (dec z) → length stack = 21 →
  procfs_write_long true (dec z ++ rest) (Z.of_nat (length (dec z))) s = Some ((- EINVAL)%Z, s) ∧
  procfs_write_long_old stack (dec z ++ rest) (Z.of_nat (length (dec z))) s =
    Some (Z.of_nat (length (dec z)), set_long z s).
Proof.
  intros Hz H7 Hst. split.
  - unfold procfs_write_long, mbind, ST_bind, kzalloc_buffer, sizeof_char_ptr.
    rewrite (proj2 (Z.ltb_lt _ _)); [lia|]. by destruct s.
  - rewrite write_long_old_run; [done|by apply dec_length|by apply dec_nonzero|]. do 2 f_equal.
    rewrite -{1}(app_nil_r (dec z)). by rewrite simple_strtol_dec.
Qed.

Lemma write_limit_witness :
  let K := sample_strtol in
  procfs_write_long true (dec 12345678 ++ [10%Z]) 8 (ProcFS true 0 [] 0) =
    Some ((- EINVAL)%Z, ProcFS true 0 [] 0).
Proof.
  intros K. apply (@write_limit K sample_strtol_laws (ProcFS true 0 [] 0) 12345678 [10%Z] (replicate 21 0%Z));
    [unfold in_s64; lia|vm_compute; lia|reflexivity].
Defined.

(** Loading and unloading. When the directory is created, unloading the
    module removes every entry it registered. When it is refused, loading still
    succeeds, the entry is registered in /proc itself, and unloading leaves it there, with
    handlers that are gone. *)
Theorem unload_entries (s : procfs) create_ok :
  Forall (λ e, pe_name e ≠ ROOT_PROCFS ∧ pe_name e ≠ "Test_PROCFS"%string) (proc_entries s) →
  (∃ s', (r ← procfs_init true create_ok; procfs_cleanup) s = Some (tt, s') ∧
     proc_entries s' = proc_entries s) ∧
  (∃ s', (r ← procfs_init false true; procfs_cleanup) s = Some (tt, s') ∧
     proc_entries s' = ProcEntry None "Test_PROCFS" 33152 :: proc_entries s).
Proof.
  intros H. split; [|by eexists].
  assert (∀ name parent es, Forall (λ e, pe_name e ≠ name) es →
    filter (λ e, ¬ (pe_name e = name ∧ pe_parent e = parent)) es = es) as Hkeep.
  { intros name parent es. induction 1 as [|e es He _ IH]; [done|].
    rewrite filter_cons_True; [tauto|]. by rewrite IH. }
  assert (Forall (λ e, pe_name e ≠ "Test_PROCFS"%string) (proc_entries s)) as H1
    by (rewrite !Forall_forall in H |- *; naive_solver).
  assert (Forall (λ e, pe_name e ≠ ROOT_PROCFS) (proc_entries s)) as H2
    by (rewrite !Forall_forall in H |- *; naive_solver).
  destruct create_ok; (eexists; split; [reflexivity|]); cbn -[filter].
  - rewrite filter_cons_False; [simpl; tauto|]. rewrite filter_cons_True; [by intros [? ?]|].
    rewrite filter_cons_False; [simpl; tauto|]. by rewrite !Hkeep.
  - rewrite filter_cons_True; [by intros [? ?]|].
    rewrite filter_cons_False; [simpl; tauto|]. by rewrite !Hkeep.
Qed.

Lemma unload_entries_witness :
  let s := ProcFS false 0 [ProcEntry None "modules" 0] 0 in
  ∃ s', (r ← procfs_init false true; procfs_cleanup) s = Some (tt, s') ∧
    proc_entries s' = [ProcEntry None "Test_PROCFS" 33152; ProcEntry None "modules" 0].
Proof. intros s. apply (unload_entries s true). by repeat constructor. Defined.
