(* ===== verification/Rmmod.v ===== *)
(** * The rmmod example (rmmod_code.c)

    [filename2modname], which turns a path into a module name in a buffer of the path's
    size, the scan of /proc/modules in [check_usage], and [rmmod] on top of
    both. The library functions used (strrchr, fgets, sscanf with
    ["%s %lu %lu"]) are modelled; the [delete_module] system call is a parameter.
    [None] is undefined behaviour. *)

From Stdlib Require Import ZArith Lia ssreflect.
From stdpp Require Import base list numbers sets.
From S2P Require Import Prelude CString.

(** ** Library functions *)

(** The index of the last [c]. *)
Fixpoint strrchr (s : list Z) (c : Z) : option nat :=
  match s with
  | [] => None
  | x :: s =>
      match strrchr s c with
      | Some i => Some (S i)
      | None => if (x =? c)%Z then Some 0 else None
      end
  end.

Definition is_space (c : Z) : bool := ((c =? 32) || ((9 <=? c) && (c <=? 13)))%Z.

Fixpoint skip_spaces (s : list Z) : list Z :=
  match s with c :: s' => if is_space c then skip_spaces s' else s | [] => [] end.

Fixpoint word (s : list Z) : list Z * list Z :=
  match s with
  | c :: s' => if is_space c then ([], s) else let '(w, r) := word s' in (c :: w, r)
  | [] => ([], [])
  end.

Fixpoint digit_run (s : list Z) : list Z * list Z :=
  match s with
  | c :: s' => if is_digit c then let '(w, r) := digit_run s' in (c :: w, r) else ([], s)
  | [] => ([], [])
  end.

(** A ["%lu"] conversion: an optional sign and digits, saturated at [ULONG_MAX]. *)
Definition scan_lu (s : list Z) : option (Z * list Z) :=
  let s := skip_spaces s in
  let '(neg, s) := match s with
                   | c :: s' => if (c =? 45)%Z then (true, s') else if (c =? 43)%Z then (false, s') else (false, s)
                   | [] => (false, s)
                   end in
  let '(w, r) := digit_run s in
  match w with
  | [] => None
  | _ =>
      let n := number 0 w in
      Some (if (2 ^ 64 <=? n)%Z then (2 ^ 64 - 1)%Z else if neg : bool then u64 (- n) else n, r)
  end.

(** The variables [sscanf] writes; [None] is indeterminate. *)
Record scanned := Scanned { sc_name : option (list Z); sc_size : option Z; sc_refs : option Z }.

(** [sscanf(line, "%s %lu %lu", name, &size, &refs)] with [char name[64]]: the number of
    conversions (-1 at the end of the input). *)
Definition sscanf_module (line : list Z) (v : scanned) : option (Z * scanned) :=
  let '(w, r) := word (skip_spaces line) in
  match w with
  | [] => Some ((-1)%Z, v)
  | _ =>
      if (64 <=? length w)%nat then None   (* name[64] overflows *)
      else
        let v := Scanned (Some w) (sc_size v) (sc_refs v) in
        match scan_lu r with
        | None => Some (1%Z, v)
        | Some (size, r) =>
            let v := Scanned (sc_name v) (Some size) (sc_refs v) in
            match scan_lu r with
            | None => Some (2%Z, v)
            | Some (refs, _) => Some (3%Z, Scanned (sc_name v) (sc_size v) (Some refs))
            end
        end
  end.

(** ** The program *)

Definition EINVAL : Z := 22.
Definition ENOENT : Z := 2.
Definition O_NONBLOCK : Z := 2048.
Definition O_EXCL : Z := 128.
Definition O_TRUNC : Z := 512.

Definition basename (path : list Z) : list Z :=
  match strrchr path ch_slash with
  | Some i => drop (S i) path
  | None => path
  end.

(** The loop of [filename2modname] at the 32-bit index [i]; [afterslash] includes its
    terminator. *)
Fixpoint modname_loop (fuel : nat) (afterslash : list Z) (i : Z) : ST (list Z) Z := λ modname,
  match fuel with
  | 0 => None
  | S fuel =>
      match afterslash !! Z.to_nat i with
      | None => None
      | Some c =>
          if (c =? 0)%Z || (c =? ch_dot)%Z then Some (i, modname)
          else
            match buf_set (S:=unit) modname (Z.to_nat i) (if (c =? ch_minus)%Z then ch_underscore else c) tt with
            | Some (modname, _) => modname_loop fuel afterslash (u32 (i + 1)) modname
            | None => None
            end
      end
  end.

Definition filename2modname (fuel : nat) (modname filename : list Z) : option (list Z) :=
  let afterslash := basename filename ++ [0%Z] in
  match modname_loop fuel afterslash 0 modname with
  | Some (i, modname) => fst <$> buf_set (S:=unit) modname (Z.to_nat i) 0%Z tt
  | None => None
  end.

(** Return values and [exit]. *)
Inductive outcome := Ret (z : Z) | Exit (status : Z).

(** The characters [fgets(line, sizeof(line)-1, ...)] reads at most, [char line[10240]]. *)
Definition line_room : nat := Z.to_nat 10238.

(** The loop of [check_usage]. A module that is not listed is reported through the
    undeclared function [error], called with a string where the library's function
    of that name takes a status: undefined. *)
Fixpoint usage_loop (fuel : nat) (modname : list Z) (file : list Z) (v : scanned) : option outcome :=
  match fuel with
  | 0 => None
  | S fuel =>
      match fgets line_room file with
      | None => None
      | Some (line, file) =>
          if bool_decide (ch_nl ∉ line) then Some (Exit 1)
          else
            match sscanf_module line v with
            | None => None
            | Some (n, v) =>
                match sc_name v with
                | None => None   (* strcmp on an indeterminate name *)
                | Some name =>
                    if bool_decide (name ≠ modname) then usage_loop fuel modname file v
                    else
                      match sc_refs v with
                      | None => None   (* an indeterminate refs *)
                      | Some refs => Some (Ret (if (refs =? 0)%Z then 0 else - EINVAL)%Z)
                      end
                end
            end
      end
  end.

(** /proc/modules as [fopen] finds it: its contents, or the error number. *)
Definition check_usage (fuel : nat) (modname : list Z) (proc : list Z + Z) : option outcome :=
  match proc with
  | inl file => usage_loop fuel modname file (Scanned None None None)
  | inr errno => if (errno =? ENOENT)%Z then Some (Ret 0) else None   (* fgets on a null stream *)
  end.

(** [rmmod] (the [long] result is returned as an [int]), with the answer of [delete_module(name, flags)] as a parameter; the
    second component tells whether it was called, and with which name. *)
Definition rmmod (fuel : nat) (delete_module : list Z → Z → Z) (proc : list Z + Z)
    (stack path : list Z) (flags : Z) : option (outcome * option (list Z)) :=
  match filename2modname fuel stack path with
  | None => None
  | Some buf =>
      match c_string buf with
      | None => None
      | Some name =>
          let delete := Some (Ret (s32 (delete_module name flags)), Some name) in
          if negb (Z.land flags O_NONBLOCK =? 0)%Z && (Z.land flags O_TRUNC =? 0)%Z then
            match check_usage fuel name proc with
            | Some (Ret z) => if (z =? 0)%Z then delete else Some (Ret 1, None)
            | Some (Exit n) => Some (Exit n, None)
            | None => None
            end
          else delete
      end
  end.

(** [main] for one path; the program's exit status. *)
Definition main (fuel : nat) (delete_module : list Z → Z → Z) (proc : list Z + Z)
    (stack path : list Z) : option Z :=
  match rmmod fuel delete_module proc stack path (Z.lor O_NONBLOCK O_EXCL) with
  | Some (Ret ret, _) => Some (if (ret =? 0)%Z then 0 else 1)%Z
  | Some (Exit n, _) => Some n
  | None => None
  end.

(** ** The module name of a path *)

Fixpoint until_dot (s : list Z) : list Z :=
  match s with
  | [] => []
  | c :: s => if (c =? ch_dot)%Z then [] else c :: until_dot s
  end.

Definition dash (c : Z) : Z := if (c =? ch_minus)%Z then ch_underscore else c.

(** [name] is the module name of [path]: the path is a directory part, which is empty or ends with a slash,
    a stem without slash and dot, and a rest that is empty or begins with a dot and has no slash; the name is
    the stem with underscores for dashes. *)
Definition module_name (path name : list Z) : Prop :=
  ∃ dir stem ext : list Z, path = dir ++ stem ++ ext ∧
    (dir = [] ∨ last dir = Some 47%Z) ∧ 47%Z ∉ stem ++ ext ∧ 46%Z ∉ stem ∧ (ext = [] ∨ head ext = Some 46%Z) ∧
    Forall2 (λ c d : Z, d = if (c =? 45)%Z then 95%Z else c) stem name.

(** The same as a function of the code's own parts. *)
Definition modname_of (path : list Z) : list Z := dash <$> until_dot (basename path).

(** ** Lemmas *)

Lemma until_dot_length s : length (until_dot s) ≤ length s.
Proof. induction s as [|c s IH]; simpl; [done|]. case_match; simpl; lia. Qed.

Lemma basename_suffix path : ∃ dir, path = dir ++ basename path.
Proof.
  unfold basename. destruct (strrchr path ch_slash) as [i|].
  - exists (take (S i) path). by rewrite take_drop.
  - by exists [].
Qed.

Lemma modname_loop_run r pre buf fuel :
  Forall (λ c, c ≠ 0%Z) r → length r < fuel → (Z.of_nat (length (pre ++ r)) < 2 ^ 32)%Z →
  length (pre ++ r) < length buf →
  modname_loop fuel (pre ++ r ++ [0%Z]) (Z.of_nat (length pre)) buf =
    Some (Z.of_nat (length pre + length (until_dot r)),
          take (length pre) buf ++ (dash <$> until_dot r) ++ drop (length pre + length (until_dot r)) buf).
Proof.
  revert pre buf fuel. induction r as [|c r IH]; intros pre buf [|fuel] Hnz Hf H32 Hb; simpl in Hf; try lia.
  - simpl. rewrite Nat2Z.id lookup_app_r // Nat.sub_diag /=. by rewrite Nat.add_0_r take_drop.
  - inversion Hnz as [|? ? Hc Hr]; subst. simpl modname_loop.
    rewrite Nat2Z.id lookup_app_r // Nat.sub_diag /=. rewrite (proj2 (Z.eqb_neq _ _) Hc). simpl.
    destruct (Z.eqb_spec c ch_dot); simpl.
    { by rewrite Nat.add_0_r take_drop. }
    rewrite !length_app /= in H32, Hb. unfold buf_set. rewrite bool_decide_true; [lia|]. simpl.
    rewrite u32_id; [unfold in_u32; lia|].
    replace (Z.of_nat (length pre) + 1)%Z with (Z.of_nat (length (pre ++ [c]))) by (rewrite length_app /=; lia).
    replace (pre ++ c :: r ++ [0%Z]) with ((pre ++ [c]) ++ r ++ [0%Z]) by by rewrite -app_assoc.
    rewrite IH //; [lia|rewrite -app_assoc length_app /=; lia|rewrite length_insert -app_assoc length_app /=; lia|].
    rewrite length_app /=. do 2 f_equal; [lia|].
    fold (dash c). rewrite drop_insert_lt; [lia|].
    assert (take (length pre + 1) (<[length pre:=dash c]> buf) = take (length pre) buf ++ [dash c]) as ->.
    { rewrite Nat.add_1_r (take_S_r _ _ (dash c)); [|by rewrite take_insert_ge].
      apply list_lookup_insert_eq. lia. }
    rewrite -app_assoc. simpl. do 3 f_equal. f_equal. lia.
Qed.

Lemma strrchr_absent s c : c ∉ s → strrchr s c = None.
Proof.
  intros H. induction s as [|x s IH]; [done|]. simpl. rewrite IH; [set_solver|].
  destruct (Z.eqb_spec x c); [set_solver|done].
Qed.

Lemma strrchr_char s c i : strrchr s c = Some i → s !! i = Some c.
Proof.
  revert i. induction s as [|x s IH]; intros i H; [done|]. simpl in H.
  destruct (strrchr s c) as [j|]; simplify_eq; [by apply IH|]. destruct (Z.eqb_spec x c); by simplify_eq.
Qed.

Lemma basename_no_slash s : ch_slash ∉ s → basename s = s.
Proof. intros H. unfold basename. by rewrite strrchr_absent. Qed.

Lemma strrchr_last s c i : strrchr s c = Some i → c ∉ drop (S i) s.
Proof.
  revert i. induction s as [|x s IH]; intros i H; [done|]. simpl in *.
  destruct (strrchr s c) as [j|] eqn:E; [simplify_eq; by apply IH|].
  destruct (Z.eqb_spec x c); simplify_eq. clear IH. simpl.
  induction s as [|y s IH]; [set_solver|]. simpl in E. destruct (strrchr s c); [done|].
  destruct (Z.eqb_spec y c); [done|]. rewrite drop_0 in IH |- *. set_solver.
Qed.

Lemma strrchr_none s c : strrchr s c = None → c ∉ s.
Proof.
  induction s as [|x s IH]; intros H; [set_solver|]. simpl in H.
  destruct (strrchr s c); [done|]. destruct (Z.eqb_spec x c); [done|]. set_solver.
Qed.

Lemma basename_slash path : ch_slash ∉ basename path.
Proof.
  unfold basename. destruct (strrchr path ch_slash) as [i|] eqn:E; [by eapply strrchr_last|by apply strrchr_none].
Qed.

Lemma until_dot_sub s : until_dot s ⊆ s.
Proof. induction s as [|c s IH]; simpl; [done|]. case_match; set_solver. Qed.

Lemma until_dot_id s : ch_dot ∉ s → until_dot s = s.
Proof.
  induction s as [|c s IH]; intros H; [done|]. simpl. destruct (Z.eqb_spec c ch_dot); [set_solver|].
  rewrite IH; [set_solver|done].
Qed.

Lemma until_dot_no_dot s : ch_dot ∉ until_dot s.
Proof. induction s as [|c s IH]; simpl; [set_solver|]. case_match; [set_solver|]. destruct (Z.eqb_spec c ch_dot); set_solver. Qed.

(** A module name has no slash, no dot and no dash. *)
Lemma modname_of_clean path :
  ch_slash ∉ modname_of path ∧ ch_dot ∉ modname_of path ∧ ch_minus ∉ modname_of path.
Proof.
  unfold modname_of. pose proof (basename_slash path) as Hs. pose proof (until_dot_sub (basename path)) as Hsub.
  pose proof (until_dot_no_dot (basename path)) as Hd.
  split_and!; intros (c & E & Hc)%list_elem_of_fmap; unfold dash in E; case_match; try done.
  - subst. by apply Hs, Hsub.
  - by subst.
  - apply Z.eqb_neq in H. congruence.
Qed.

Lemma dash_id (s : list Z) : ch_minus ∉ s → dash <$> s = s.
Proof.
  induction s as [|c s IH]; intros H; [done|]. rewrite fmap_cons IH; [set_solver|]. f_equal.
  unfold dash. destruct (Z.eqb_spec c ch_minus); [set_solver|done].
Qed.

(** ** /proc/modules *)

(** A line of /proc/modules: module name, size, reference count, and what follows. *)
Record mod_line := ModLine { ml_name : list Z; ml_size : Z; ml_refs : Z; ml_rest : list Z }.

Definition line_text (l : mod_line) : list Z :=
  ml_name l ++ ch_space :: dec_nat (ml_size l) ++ ch_space :: dec_nat (ml_refs l) ++ ml_rest l ++ [ch_nl].

Record line_ok (l : mod_line) : Prop := {
  lo_name : ml_name l ≠ [];
  lo_word : Forall (λ c, is_space c = false) (ml_name l);
  lo_name64 : length (ml_name l) < 64;
  lo_size : in_u64 (ml_size l);
  lo_refs : in_u64 (ml_refs l);
  lo_rest : no_digit (ml_rest l) ∧ ch_nl ∉ ml_rest l;
  lo_length : length (line_text l) ≤ line_room }.

Lemma word_run w r :
  Forall (λ c, is_space c = false) w → word (w ++ ch_space :: r) = (w, ch_space :: r).
Proof. induction 1 as [|c w Hc Hw IH]; simpl; [done|]. by rewrite Hc IH. Qed.

Lemma digit_run_run w r :
  Forall (λ c, is_digit c = true) w → no_digit r → digit_run (w ++ r) = (w, r).
Proof.
  intros Hw Hr. induction Hw as [|c w Hc Hw IH]; simpl; [|by rewrite Hc IH].
  destruct r as [|c r]; [done|]. simpl. by rewrite (Hr c eq_refl).
Qed.

Lemma digit_not_space c : is_digit c = true → is_space c = false ∧ (c =? 45)%Z = false ∧ (c =? 43)%Z = false.
Proof. unfold is_digit, is_space. lia. Qed.

Lemma scan_lu_run n r :
  in_u64 n → no_digit r → scan_lu (ch_space :: dec_nat n ++ r) = Some (n, r).
Proof.
  intros Hn Hr. destruct (dec_nat_spec n Hn) as [Hd Hnum].
  pose proof (digits_nonempty 19 n) as Hne. fold (dec_nat n) in Hne.
  unfold scan_lu. simpl skip_spaces.
  destruct (dec_nat n) as [|c w] eqn:E; [done|]. inversion Hd as [|? ? Hc Hw]; subst.
  destruct (digit_not_space c Hc) as (Hs & H45 & H43). simpl skip_spaces. rewrite Hs H45 H43.
  rewrite app_comm_cons digit_run_run //. rewrite (proj2 (Z.leb_gt _ _)) //.
  unfold in_u64 in Hn. lia.
Qed.

Lemma dec_nat_no_nl n : in_u64 n → ch_nl ∉ dec_nat n.
Proof.
  intros H Hin. destruct (dec_nat_spec n H) as [Hd _]. rewrite Forall_forall in Hd. by apply Hd in Hin.
Qed.

Lemma line_scan l v :
  line_ok l →
  sscanf_module (line_text l) v = Some (3%Z, Scanned (Some (ml_name l)) (Some (ml_size l)) (Some (ml_refs l))).
Proof.
  intros [Hne Hw H64 Hs Hr [Hrest Hnl] Hlen]. unfold sscanf_module, line_text.
  destruct (ml_name l) as [|c w] eqn:E; [done|]. inversion Hw as [|? ? Hc Hw']; subst.
  simpl skip_spaces. rewrite Hc app_comm_cons word_run //.
  rewrite (proj2 (Nat.leb_gt _ _) H64). rewrite scan_lu_run //; [by intros ? [= <-]|].
  rewrite scan_lu_run //. destruct (ml_rest l) as [|x rest]; [by intros ? [= <-]|].
  intros y [= <-]. by apply Hrest.
Qed.

Lemma line_fgets l file :
  line_ok l → fgets line_room (line_text l ++ file) = Some (line_text l, file).
Proof.
  intros [Hne Hw H64 Hs Hr [Hrest Hnl] Hlen]. generalize dependent line_room. intros n Hlen.
  assert (∃ body, line_text l = body ++ [ch_nl] ∧ ch_nl ∉ body) as (body & E & Hb).
  { exists (ml_name l ++ ch_space :: dec_nat (ml_size l) ++ ch_space :: dec_nat (ml_refs l) ++ ml_rest l).
    split; [unfold line_text; by rewrite -!app_assoc /= -!app_assoc /= -!app_assoc|].
    pose proof (dec_nat_no_nl _ Hs). pose proof (dec_nat_no_nl _ Hr).
    rewrite !(elem_of_app, elem_of_cons). intros [Hin|[?|[?|[?|[?|?]]]]]; try done.
    rewrite Forall_forall in Hw. by apply Hw in Hin. }
  rewrite E in Hlen |- *. rewrite length_app /= in Hlen. rewrite -app_assoc.
  change ([ch_nl] ++ file) with (ch_nl :: file). unfold fgets. rewrite take_line_run; [done|lia|]. by destruct body.
Qed.

(** The reference count that /proc/modules lists first for a name. *)
Fixpoint first_refs (modname : list Z) (ls : list mod_line) : option Z :=
  match ls with
  | [] => None
  | l :: ls => if bool_decide (ml_name l = modname) then Some (ml_refs l) else first_refs modname ls
  end.

Lemma usage_loop_run modname ls v fuel :
  Forall line_ok ls → length ls < fuel →
  usage_loop fuel modname (concat (line_text <$> ls)) v =
    match first_refs modname ls with
    | Some refs => Some (Ret (if (refs =? 0)%Z then 0 else - EINVAL)%Z)
    | None => None
    end.
Proof.
  intros Hok. revert v fuel. induction Hok as [|l ls Hl Hls IH]; intros v [|fuel] Hf; simpl in Hf; try lia; [done|].
  rewrite fmap_cons. cbn [concat usage_loop first_refs]. rewrite line_fgets // bool_decide_false.
  { unfold line_text. set_solver. }
  rewrite line_scan //. cbn [sc_name sc_refs].
  destruct (decide (ml_name l = modname)) as [->|Hne].
  - rewrite bool_decide_false; [by intros []|]. by rewrite bool_decide_true.
  - rewrite bool_decide_true // bool_decide_false //. apply IH. lia.
Qed.

Lemma filename2modname_run fuel stack path :
  Forall (λ c, c ≠ 0%Z) path → (Z.of_nat (length path) < 2 ^ 32)%Z →
  length stack = S (length path) → length path < fuel →
  ∃ buf, filename2modname fuel stack path = Some buf ∧ length buf = length stack ∧
    c_string buf = Some (modname_of path).
Proof.
  intros Hnz H32 Hst Hf. destruct (basename_suffix path) as [dir E].
  assert (length (basename path) ≤ length path) as Hb by (rewrite {2}E length_app; lia).
  assert (Forall (λ c, c ≠ 0%Z) (basename path)) as Hnb by (rewrite E Forall_app in Hnz; tauto).
  pose proof (until_dot_length (basename path)) as Hu.
  unfold filename2modname.
  rewrite (modname_loop_run (basename path) [] stack fuel) //; simpl; try lia.
  unfold buf_set. rewrite Nat2Z.id bool_decide_true; [rewrite length_app length_fmap length_drop; lia|].
  simpl. eexists. split; [reflexivity|]. split.
  - rewrite length_insert length_app length_fmap length_drop. lia.
  - rewrite insert_app_r_alt; [rewrite length_fmap; lia|]. rewrite length_fmap Nat.sub_diag.
    destruct (drop (length (until_dot (basename path))) stack) as [|c rest] eqn:Ed.
    { apply (f_equal length) in Ed. rewrite length_drop /= in Ed. lia. }
    apply c_string_app. rewrite Forall_fmap. rewrite !Forall_forall in Hnb |- *.
    intros x Hx. unfold compose, dash. case_match; [done|]. apply Hnb. by apply until_dot_sub.
Qed.

(** *** The module name of a path *)

Lemma modname_of_length path : length (modname_of path) ≤ length path.
Proof.
  unfold modname_of. rewrite length_fmap. destruct (basename_suffix path) as [dir E].
  rewrite {2}E length_app. pose proof (until_dot_length (basename path)). lia.
Qed.

Lemma modname_of_nonzero path : Forall (λ c, c ≠ 0%Z) path → Forall (λ c, c ≠ 0%Z) (modname_of path).
Proof.
  intros H. unfold modname_of. apply Forall_fmap, Forall_forall. intros c Hc%until_dot_sub.
  destruct (basename_suffix path) as [dir E]. rewrite E Forall_app in H. destruct H as [_ H].
  rewrite Forall_forall in H. unfold compose, dash. case_match; [done|]. by apply H.
Qed.

Lemma strrchr_app d t c : c ∉ t → strrchr (d ++ c :: t) c = Some (length d).
Proof.
  intros H. induction d as [|x d IH]; simpl; [|by rewrite IH].
  by rewrite strrchr_absent // Z.eqb_refl.
Qed.

Lemma basename_last dir t :
  (dir = [] ∨ last dir = Some ch_slash) → ch_slash ∉ t → basename (dir ++ t) = t.
Proof.
  intros [->|Hd] Ht; [by apply basename_no_slash|]. apply last_Some in Hd as [d ->].
  unfold basename. rewrite -app_assoc strrchr_app //. rewrite (app_assoc d [_] t) drop_app_length' //.
  rewrite length_app /=. lia.
Qed.

Lemma until_dot_app s ext : ch_dot ∉ s → (ext = [] ∨ head ext = Some ch_dot) → until_dot (s ++ ext) = s.
Proof.
  intros Hs Hx. induction s as [|c s IH]; simpl.
  - destruct Hx as [->|Hx]; [done|]. destruct ext; simplify_eq/=. done.
  - apply not_elem_of_cons in Hs as [Hc Hs]. rewrite (proj2 (Z.eqb_neq c ch_dot) (not_eq_sym Hc)). by rewrite IH.
Qed.

Lemma module_name_is path name : module_name path name → name = modname_of path.
Proof.
  intros (dir & stem & ext & -> & Hdir & Hs & Hd & Hx & H2). unfold modname_of.
  rewrite basename_last // until_dot_app //. clear -H2.
  induction H2 as [|c d s t -> _ IH]; [done|]. by rewrite fmap_cons -IH.
Qed.

Lemma until_dot_split s : ∃ ext, s = until_dot s ++ ext ∧ (ext = [] ∨ head ext = Some ch_dot).
Proof.
  induction s as [|c s (ext & E & H)]; [exists []; auto|]. simpl. destruct (Z.eqb_spec c ch_dot) as [->|].
  - exists (ch_dot :: s). auto.
  - exists ext. by rewrite {1}E.
Qed.

Lemma basename_split path : ∃ dir, path = dir ++ basename path ∧ (dir = [] ∨ last dir = Some ch_slash).
Proof.
  unfold basename. destruct (strrchr path ch_slash) as [i|] eqn:E; [|exists []; auto].
  exists (take (S i) path). rewrite take_drop. split; [done|]. right.
  apply strrchr_char in E. by rewrite (take_S_r _ _ _ E) last_snoc.
Qed.

Lemma modname_of_is path : module_name path (modname_of path).
Proof.
  destruct (basename_split path) as (dir & E & Hdir). destruct (until_dot_split (basename path)) as (ext & E2 & Hx).
  exists dir, (until_dot (basename path)), ext. rewrite -E2. split_and!; [done|done|apply basename_slash|apply until_dot_no_dot|done|].
  unfold modname_of. apply Forall2_fmap_r, Forall2_same_length_lookup. split; [done|]. intros i c d H1 H2. by simplify_eq.
Qed.

(** ** Properties *)

(** C30: [filename2modname] stays inside a buffer of the path's length plus one, always terminates it,
    and leaves there the module name of the path: what follows the last slash, up to the first dot
    behind that, with an underscore for each dash. Every path has exactly one module name;
    it has no slash, dot or dash, and converting it gives it again, as the comment says. *)
Theorem filename2modname_correct fuel stack path :
  Forall (λ c, c ≠ 0%Z) path → (Z.of_nat (length path) < 2 ^ 32)%Z →
  length stack = S (length path) → length path < fuel →
  ∃ buf name, filename2modname fuel stack path = Some buf ∧ length buf = length stack ∧
    c_string buf = Some name ∧ module_name path name ∧ (∀ name', module_name path name' → name' = name) ∧
    ch_slash ∉ name ∧ ch_dot ∉ name ∧ ch_minus ∉ name ∧
    ∀ stack', length stack' = S (length name) →
      ∃ buf', filename2modname fuel stack' name = Some buf' ∧ c_string buf' = Some name.
Proof.
  intros Hnz H32 Hst Hf. destruct (filename2modname_run fuel stack path) as (buf & E & Hl & Hc); [done..|].
  destruct (modname_of_clean path) as (Hs & Hd & Hm). pose proof (modname_of_length path) as Hlen.
  exists buf, (modname_of path). split_and!; [done|done|done|apply modname_of_is|intros name'; apply module_name_is|done|done|done|].
  intros stack' Hst'. destruct (filename2modname_run fuel stack' (modname_of path)) as (buf' & E' & _ & Hc');
    [by apply modname_of_nonzero|lia|done|lia|].
  exists buf'. split; [done|]. rewrite Hc' {1}/modname_of basename_no_slash // until_dot_id // dash_id //.
Qed.

Lemma filename2modname_correct_witness :
  (* "a/b-c.ko" *)
  ∃ buf, filename2modname 10 (replicate 9 7%Z) [97; 47; 98; 45; 99; 46; 107; 111]%Z = Some buf ∧
    length buf = 9 ∧ c_string buf = Some [98; 95; 99]%Z.
Proof.
  destruct (filename2modname_correct 10 (replicate 9 7%Z) [97; 47; 98; 45; 99; 46; 107; 111]%Z)
    as (buf & name & E & Hl & Hc & _ & Hu & _); [by repeat constructor|simpl; lia|reflexivity|simpl; lia|].
  exists buf. split_and!; [done..|]. rewrite Hc. f_equal. symmetry. apply Hu.
  exists [97; 47]%Z, [98; 45; 99]%Z, [46; 107; 111]%Z. split_and!; [done|by right|apply (bool_decide_unpack _); by vm_compute|apply (bool_decide_unpack _); by vm_compute|by right|].
  by repeat constructor.
Defined.

(** C29: [rmmod] consults /proc/modules. When the file lists the module (its lines
    as the kernel writes them), a module in use is not removed and [rmmod]
    returns 1; an unused one is passed to [delete_module] under its converted name
    and its result is returned. When no line has the name, the run ends in the call of
    the undeclared [error]. When /proc/modules does not exist, [delete_module] is called without
    a check, as intended; when it exists but cannot be opened, the run ends in a read
    of a null stream. *)
Theorem rmmod_checks_usage fuel delete_module ls stack path name errno flags :
  module_name path name →
  Forall (λ c, c ≠ 0%Z) path → (Z.of_nat (length path) < 2 ^ 32)%Z →
  length stack = S (length path) → length path < fuel →
  Forall line_ok ls → length ls < fuel → errno ≠ ENOENT →
  flags = Z.lor O_NONBLOCK O_EXCL →
  rmmod fuel delete_module (inl (concat (line_text <$> ls))) stack path flags =
    match first_refs name ls with
    | Some refs =>
        if (refs =? 0)%Z then Some (Ret (s32 (delete_module name flags)), Some name)
        else Some (Ret 1, None)
    | None => None
    end ∧
  rmmod fuel delete_module (inr errno) stack path flags = None ∧
  rmmod fuel delete_module (inr ENOENT) stack path flags =
    Some (Ret (s32 (delete_module name flags)), Some name).
Proof.
  intros ->%module_name_is Hnz H32 Hst Hf Hls Hfl Herr ->.
  destruct (filename2modname_run fuel stack path) as (buf & E & _ & Hc); [done..|].
  unfold rmmod. rewrite E Hc. cbn -[modname_of usage_loop]. unfold check_usage.
  split_and!; [|by rewrite (proj2 (Z.eqb_neq _ _) Herr)|done].
  rewrite usage_loop_run //. destruct (first_refs _ ls) as [refs|]; [|done].
  by destruct (Z.eqb_spec refs 0).
Qed.

Lemma rmmod_checks_usage_witness :
  (* "b_c" listed with 2 references *)
  rmmod 10 (λ _ _, 0%Z) (inl (concat (line_text <$> [ModLine [98; 95; 99] 16384 2 [32; 45]])))%Z
    (replicate 7 7%Z) [98; 45; 99; 46; 107; 111]%Z 2176 = Some (Ret 1, None).
Proof.
  destruct (rmmod_checks_usage 10 (λ _ _, 0%Z) [ModLine [98; 95; 99]%Z 16384 2 [32; 45]%Z]
    (replicate 7 7%Z) [98; 45; 99; 46; 107; 111]%Z [98; 95; 99]%Z 13 2176) as [E _];
    [exists [], [98; 45; 99]%Z, [46; 107; 111]%Z; split_and!; [done|by left|apply (bool_decide_unpack _); by vm_compute|apply (bool_decide_unpack _); by vm_compute|by right|by repeat constructor]|by repeat constructor|simpl; lia|reflexivity|simpl; lia| |simpl; lia|done|reflexivity|exact E].
  constructor; [|constructor]. split; simpl.
  - done.
  - by repeat constructor.
  - lia.
  - unfold in_u64; lia.
  - unfold in_u64; lia.
  - split; [by intros c [= <-]|]. rewrite !elem_of_cons. unfold ch_nl. intros [?|[?|?%elem_of_nil]]; [lia..|done].
  - unfold line_room. vm_compute. lia.
Defined.
