(* ===== verification/Insmod.v ===== *)
(** * The insmod example (insmod_code.c)

    [module_image_size] reads a whole module file into a buffer that doubles when it is
    full; [main] joins the options and calls [init_module], a parameter
    here. The answers of read, malloc and realloc are given as plans; stores outside
    an allocation and the use of a freed one get stuck ([None]). *)

From Stdlib Require Import ZArith Lia ssreflect.
From stdpp Require Import base list numbers strings.
From S2P Require Import Prelude CString.

(** ** System calls *)

(** How the reads of a file go: [None] is an error, [Some k] gives at most [k + 1] bytes; when
    the plan is used up a read gives all it can. *)
Definition read_plan : Type := list (option nat).

Record file := File { f_content : list Z; f_plan : read_plan }.

(** [read(fd, buf, n)]: the bytes ([None] on error; none at the end of the
    file) and the file afterwards. *)
Definition read (f : file) (n : nat) : option (list Z) * file :=
  match f_plan f with
  | None :: plan => (None, File (f_content f) plan)
  | Some k :: plan => (Some (take (n `min` S k) (f_content f)), File (drop (n `min` S k) (f_content f)) plan)
  | [] => (Some (take n (f_content f)), File (drop n (f_content f)) [])
  end.

(** The answers of the allocator; it answers [NULL] when the plan is used
    up. *)
Definition next_ok (oks : list bool) : bool * list bool :=
  match oks with ok :: oks => (ok, oks) | [] => (false, []) end.

(** ** moderror *)

Definition ENOEXEC : Z := 8.
Definition ENOENT : Z := 2.
Definition ESRCH : Z := 3.
Definition EINVAL : Z := 22.

Definition moderror (strerror : Z → string) (err : Z) : string :=
  if (err =? ENOEXEC)%Z then "Invalid module format"
  else if (err =? ENOENT)%Z then "Unknown symbol in module"
  else if (err =? ESRCH)%Z then "Module has wrong symbol version"
  else if (err =? EINVAL)%Z then "Invalid parameters"
  else strerror err.

(** ** module_image_size *)

(** The value returned: [NULL], or the buffer's bytes up to [*size]; the buffers still
    allocated and whether the file is still open. *)
Record image := Image { im_bytes : option (list Z); im_live : nat; im_open : bool }.

(** [out_error]: the buffer is freed and the file closed. *)
Definition out_error : image := Image None 0 false.

(** The loop, with [data] the bytes stored so far ([*size] of them) in an allocation of [max]
    bytes. *)
Fixpoint image_loop (fuel : nat) (f : file) (oks : list bool) (max : Z) (data : list Z) : option image :=
  match fuel with
  | 0 => None
  | S fuel =>
      let size := Z.of_nat (length data) in
      let '(bs, f) := read f (Z.to_nat (u64 (max - size))) in
      match bs with
      | None => Some out_error
      | Some [] => Some (Image (Some data) 1 false)
      | Some bs =>
          let data := data ++ bs in
          let size := Z.of_nat (length data) in
          if (max <? size)%Z then None          (* a store past the allocation *)
          else if (size =? max)%Z then
            let max := u32 (max * 2) in
            if (max =? 0)%Z then None           (* realloc to size 0 frees the buffer *)
            else
              let '(ok, oks) := next_ok oks in
              if ok : bool then image_loop fuel f oks max data else Some out_error
          else image_loop fuel f oks max data
      end
  end.

Definition module_image_size (fuel : nat) (f : option file) (oks : list bool) : option image :=
  match f with
  | None => Some (Image None 0 false)
  | Some f =>
      let '(ok, oks) := next_ok oks in
      if ok : bool then image_loop fuel f oks 16384 [] else Some out_error
  end.

(** ** main *)

(** [strcat] into an allocation of [cap] bytes. *)
Definition strcat (cap : nat) (s t : list Z) : option (list Z) :=
  if bool_decide (length s + length t + 1 ≤ cap) then Some (s ++ t) else None.

(** The option loop: the joined options, or [inr 1] for [exit(1)]. *)
Fixpoint join_options (args : list (list Z)) (oks : list bool) (options : list Z) :
    option (list Z * list bool + Z) :=
  match args with
  | [] => Some (inl (options, oks))
  | arg :: args =>
      let '(ok, oks) := next_ok oks in
      if ok : bool then
        let cap := length options + 1 + length arg + 1 in
        match strcat cap options arg with
        | None => None
        | Some options =>
            match strcat cap options [ch_space] with
            | None => None
            | Some options => join_options args oks options
            end
        end
      else Some (inr 1%Z)
  end.

(** The exit status of [main], and the call of [init_module(file, len, options)] it
    made. *)
Definition main (fuel : nat) (init_module : list Z → Z → list Z → Z) (f : option file)
    (args : list (list Z)) (oks : list bool) : option (Z * option (list Z * Z * list Z)) :=
  let '(ok, oks) := next_ok oks in
  if negb ok then Some (1, None)%Z
  else
    match join_options args oks [] with
    | None => None
    | Some (inr st) => Some (st, None)
    | Some (inl (options, oks)) =>
        match module_image_size fuel f oks with
        | None => None
        | Some (Image None _ _) => Some (1, None)%Z
        | Some (Image (Some bytes) _ _) =>
            let len := Z.of_nat (length bytes) in
            let ret := init_module bytes len options in
            Some (if (ret =? 0)%Z then 0 else 1, Some (bytes, len, options))%Z
        end
    end.

(** ** Lemmas *)

(** What a read of a non-empty request gives. *)
Lemma read_spec f n bs f' :
  0 < n → read f n = (Some bs, f') →
  f_content f = bs ++ f_content f' ∧ length bs ≤ n ∧ (bs = [] → f_content f = []).
Proof.
  intros Hn E. unfold read in E.
  assert (∀ k, 0 < k → ∀ c : list Z, take k c = [] → c = []) as Hk.
  { intros [|k] H [|x c] Ht; by try lia. }
  destruct (f_plan f) as [|[k|] plan]; simplify_eq/=.
  - rewrite take_drop length_take. split_and!; [done|lia|by apply Hk].
  - rewrite take_drop length_take. split_and!; [done|lia|apply Hk; lia].
Qed.

(** The plan never fails. *)
Definition all_ok (f : file) (oks : list bool) (n : nat) : Prop :=
  Forall (λ o, o ≠ None) (f_plan f) ∧ Forall (λ ok, ok = true) oks ∧ n ≤ length oks.

Lemma read_plan_ok f n : Forall (λ o, o ≠ None) (f_plan f) →
  ∃ bs f', read f n = (Some bs, f') ∧ Forall (λ o, o ≠ None) (f_plan f').
Proof.
  intros H. unfold read. destruct (f_plan f) as [|[k|] plan]; [by eauto| |].
  - inversion H; subst. eauto.
  - inversion H; subst. done.
Qed.

Lemma next_ok_true oks n :
  Forall (λ ok, ok = true) oks → S n ≤ length oks →
  ∃ oks', next_ok oks = (true, oks') ∧ Forall (λ ok, ok = true) oks' ∧ n ≤ length oks'.
Proof.
  intros H Hl. destruct oks as [|ok oks]; simpl in Hl; [lia|]. inversion H; subst.
  exists oks. split_and!; [done..|lia].
Qed.

(** From a buffer with room: the loop ends, with the whole file or in [out_error]. *)
Lemma image_loop_run fuel f oks max data :
  (Z.of_nat (length data) < max < 2 ^ 32)%Z →
  (Z.of_nat (length data + length (f_content f)) < 2 ^ 31)%Z → length (f_content f) < fuel →
  ∃ im, image_loop fuel f oks max data = Some im ∧
    (im = out_error ∨ im = Image (Some (data ++ f_content f)) 1 false) ∧
    (all_ok f oks (length (f_content f)) → im = Image (Some (data ++ f_content f)) 1 false).
Proof.
  revert f oks max data. induction fuel as [|fuel IH]; intros f oks max data Hmax Htot Hf; [lia|].
  cbn [image_loop]. rewrite u64_id; [unfold in_u64; lia|].
  destruct (read f (Z.to_nat (max - Z.of_nat (length data)))) as [[bs|] f'] eqn:E.
  2:{ eexists. split; [done|]. split; [by left|]. intros (Hp & _).
      destruct (read_plan_ok f (Z.to_nat (max - Z.of_nat (length data))) Hp) as (? & ? & E' & _).
      by rewrite E in E'. }
  assert (0 < Z.to_nat (max - Z.of_nat (length data))) as Hroom by lia.
  destruct (read_spec _ _ _ _ Hroom E) as (Hc & Hlen & Hnil).
  destruct bs as [|b bs].
  { eexists. split; [done|]. rewrite (Hnil eq_refl) app_nil_r. auto. }
  assert (length (f_content f) = length (b :: bs) + length (f_content f')) as Hl by by rewrite Hc length_app.
  assert (all_ok f oks (length (f_content f)) → Forall (λ o, o ≠ None) (f_plan f')) as Hplan.
  { intros (Hp & _). destruct (read_plan_ok f (Z.to_nat (max - Z.of_nat (length data))) Hp) as (? & ? & E' & Hp').
    rewrite E in E'. by simplify_eq. }
  assert (data ++ f_content f = (data ++ b :: bs) ++ f_content f') as -> by by rewrite Hc app_assoc.
  rewrite (length_app data). cbn [length] in *.
  rewrite (proj2 (Z.ltb_ge _ _)); [lia|].
  destruct (Z.eqb_spec (Z.of_nat (length data + S (length bs))) max) as [Heq|Hne].
  - rewrite u32_id; [unfold in_u32; lia|]. rewrite (proj2 (Z.eqb_neq _ _)); [lia|].
    destruct (next_ok oks) as [ok oks'] eqn:Eok. destruct ok.
    + destruct (IH f' oks' (max * 2)%Z (data ++ b :: bs)) as (im & Ei & Ho & Hok);
        [rewrite length_app /=; lia|rewrite length_app /=; lia|lia|].
      exists im. split_and!; [done..|]. intros Ha. apply Hok. pose proof (Hplan Ha). destruct Ha as (_ & Hoks & Hn).
      destruct (next_ok_true oks (length bs + length (f_content f')) Hoks) as (o & Eo & Ho' & Hn'); [lia|].
      rewrite Eok in Eo. simplify_eq. split_and!; [done..|lia].
    + eexists. split; [done|]. split; [by left|]. intros (_ & Hoks & Hn).
      destruct (next_ok_true oks 0 Hoks) as (o & Eo & _); [lia|]. by rewrite Eok in Eo.
  - destruct (IH f' oks max (data ++ b :: bs)) as (im & Ei & Ho & Hok);
      [rewrite length_app /=; lia|rewrite length_app /=; lia|lia|].
    exists im. split_and!; [done..|]. intros Ha. apply Hok. pose proof (Hplan Ha). destruct Ha as (_ & Hoks & Hn).
    split_and!; [done..|lia].
Qed.

(** A file of 2^31 bytes or more: the buffer has reached 2^31 bytes when it is full, and its doubled size
    is 0 in 32 bits. *)
Lemma image_loop_wraps fuel f oks j data :
  (14 <= j <= 31)%Z → (Z.of_nat (length data) < 2 ^ j)%Z →
  (2 ^ 31 <= Z.of_nat (length data + length (f_content f)))%Z → all_ok f oks (length (f_content f)) →
  image_loop fuel f oks (2 ^ j) data = None.
Proof.
  revert f oks j data. induction fuel as [|fuel IH]; intros f oks j data Hj Hlt Htot (Hp & Hoks & Hn); [done|].
  assert (2 ^ j <= 2 ^ 31)%Z as Hmax by (apply Z.pow_le_mono_r; lia).
  cbn [image_loop]. rewrite u64_id; [unfold in_u64; lia|].
  set (n := Z.to_nat (2 ^ j - Z.of_nat (length data))).
  destruct (read_plan_ok f n Hp) as (bs & f' & E & Hp'). rewrite E.
  destruct (read_spec f n bs f' ltac:(unfold n; lia) E) as (Hc & Hlen & Hnil).
  destruct bs as [|b bs]; [rewrite (Hnil eq_refl) Nat.add_0_r in Htot; lia|].
  rewrite Hc in Htot, Hn. rewrite length_app in Htot, Hn. rewrite (length_app data). cbn [length] in *.
  rewrite (proj2 (Z.ltb_ge _ _)); [unfold n in *; lia|].
  destruct (Z.eqb_spec (Z.of_nat (length data + S (length bs))) (2 ^ j)) as [Heq|Hne].
  - destruct (decide (j = 31%Z)) as [->|Hj']; [done|].
    assert (2 ^ j * 2 = 2 ^ (j + 1))%Z as -> by (rewrite Z.pow_add_r; lia).
    assert (0 < 2 ^ (j + 1) <= 2 ^ 31)%Z as Hb by (split; [apply Z.pow_pos_nonneg; lia|apply Z.pow_le_mono_r; lia]).
    rewrite u32_id; [unfold in_u32; lia|]. rewrite (proj2 (Z.eqb_neq _ _)); [lia|].
    destruct (next_ok_true oks (length bs + length (f_content f')) Hoks ltac:(lia)) as (oks' & -> & Ho' & Hn').
    apply IH; [lia|rewrite length_app /= Heq; apply Z.pow_lt_mono_r; lia|rewrite length_app /=; lia|].
    split_and!; [done..|lia].
  - apply IH; [lia|rewrite length_app /=; unfold n in *; lia|rewrite length_app /=; lia|]. split_and!; [done..|lia].
Qed.

(** The text that [main] passes as options. *)
Definition options_text (args : list (list Z)) : list Z := concat ((λ a, a ++ [ch_space]) <$> args).

Lemma join_options_run args oks options :
  (∃ oks', join_options args oks options = Some (inl (options ++ options_text args, oks'))) ∨
  join_options args oks options = Some (inr 1%Z).
Proof.
  revert oks options. induction args as [|arg args IH]; intros oks options; cbn [join_options].
  { left. exists oks. unfold options_text. simpl. by rewrite app_nil_r. }
  destruct (next_ok oks) as [[] oks']; [|by right]. unfold strcat.
  rewrite bool_decide_true; [lia|]. rewrite bool_decide_true; [rewrite length_app /=; lia|].
  destruct (IH oks' ((options ++ arg) ++ [ch_space])) as [[o Eo]|Eo]; [left|by right].
  exists o. rewrite Eo. unfold options_text. rewrite fmap_cons. simpl. by rewrite -!app_assoc.
Qed.

Lemma join_options_ok args oks options n :
  Forall (λ ok, ok = true) oks → length args + n ≤ length oks →
  ∃ oks', join_options args oks options = Some (inl (options ++ options_text args, oks')) ∧
    Forall (λ ok, ok = true) oks' ∧ n ≤ length oks'.
Proof.
  revert oks options. induction args as [|arg args IH]; intros oks options Hoks Hn; cbn [join_options].
  { exists oks. unfold options_text. simpl in *. by rewrite app_nil_r. }
  simpl in Hn. destruct (next_ok_true oks (length args + n) Hoks ltac:(lia)) as (oks' & -> & Hoks' & Hn').
  unfold strcat. rewrite bool_decide_true; [lia|]. rewrite bool_decide_true; [rewrite length_app /=; lia|].
  destruct (IH oks' ((options ++ arg) ++ [ch_space]) Hoks' Hn') as (o & Eo & ? & ?).
  exists o. rewrite Eo. split_and!; [|done..]. unfold options_text. rewrite fmap_cons. simpl. by rewrite -!app_assoc.
Qed.

(** ** Properties *)

(** C27: reading a module file of less than 2^31 bytes terminates without a store
    outside the buffer, however the reads are split and whatever the allocator
    answers: [module_image_size] returns either the exact contents of the file, or NULL after
    freeing the buffer and closing the file; and it returns the contents when no
    read fails and memory lasts. *)
Theorem image_complete fuel f oks :
  (Z.of_nat (length (f_content f)) < 2 ^ 31)%Z → length (f_content f) < fuel →
  ∃ im, module_image_size fuel (Some f) oks = Some im ∧ im_open im = false ∧
    ((im_bytes im = None ∧ im_live im = 0) ∨ (im_bytes im = Some (f_content f) ∧ im_live im = 1)) ∧
    (all_ok f oks (S (length (f_content f))) → im_bytes im = Some (f_content f)).
Proof.
  intros H31 Hf. unfold module_image_size. destruct (next_ok oks) as [[] oks'] eqn:Eok.
  - destruct (image_loop_run fuel f oks' 16384 []) as (im & E & Ho & Hok); [simpl; lia|simpl; lia|done|].
    exists im. split; [done|]. split; [by destruct Ho as [->| ->]|].
    split; [destruct Ho as [->| ->]; [by left|by right]|].
    intros (Hp & Hoks & Hn). rewrite Hok //. destruct (next_ok_true oks _ Hoks Hn) as (o & Eo & ? & ?).
    rewrite Eok in Eo. by simplify_eq.
  - eexists. split; [done|]. split; [done|]. split; [by left|]. intros (_ & Hoks & Hn).
    destruct (next_ok_true oks 0 Hoks) as (o & Eo & _); [lia|]. by rewrite Eok in Eo.
Qed.

Lemma image_complete_witness :
  ∃ im, module_image_size 10 (Some (File [127; 69; 76; 70]%Z [Some 0; Some 5])) (replicate 9 true) = Some im ∧
    im_bytes im = Some [127; 69; 76; 70]%Z.
Proof.
  destruct (image_complete 10 (File [127; 69; 76; 70]%Z [Some 0; Some 5]) (replicate 9 true))
    as (im & E & _ & _ & Hok); [simpl; lia|simpl; lia|].
  exists im. split; [exact E|]. apply Hok. split; [by repeat constructor|]. split; [by repeat constructor|simpl; lia].
Defined.

(** The bound on the size is needed: for a file of 2^31 bytes or more, when no read fails and memory lasts, the
    run is undefined whatever the bound of the loop. The size that is doubled
    is an unsigned int and becomes 0, so that realloc frees the buffer that is still used; every round
    reads at least one byte, so it is not the bound of the loop that is missing. *)
Theorem image_wraps fuel f oks :
  (2 ^ 31 <= Z.of_nat (length (f_content f)))%Z → all_ok f oks (S (length (f_content f))) →
  module_image_size fuel (Some f) oks = None.
Proof.
  intros H31 (Hp & Hoks & Hn). unfold module_image_size.
  destruct (next_ok_true oks _ Hoks Hn) as (oks' & -> & Ho' & Hn').
  apply (image_loop_wraps fuel f oks' 14 []); [lia|simpl; lia|simpl; lia|by split_and!].
Qed.

(** C28: insmod passes the kernel what it was asked to. With memory for
    everything and reads that succeed, [init_module] is called once, with the exact bytes of
    the file, their number, and the arguments joined with a space after each;
    the exit status is 0 exactly when it returns 0. On every other answer of the
    allocator or of read the run still ends without a store outside the
    options or image buffers, and a call that is made has those arguments. *)
Theorem insmod_passes_image fuel init_module f args oks :
  (Z.of_nat (length (f_content f)) < 2 ^ 31)%Z → length (f_content f) < fuel →
  let len := Z.of_nat (length (f_content f)) in
  let call := (f_content f, len, options_text args) in
  let status := (if (init_module (f_content f) len (options_text args) =? 0)%Z then 0 else 1)%Z in
  (main fuel init_module (Some f) args oks = Some (1%Z, None) ∨
   main fuel init_module (Some f) args oks = Some (status, Some call)) ∧
  (all_ok f oks (length args + length (f_content f) + 2) →
   main fuel init_module (Some f) args oks = Some (status, Some call)).
Proof.
  intros H31 Hf len call status. unfold main. split.
  - destruct (next_ok oks) as [[] oks1]; [|by left]. simpl negb.
    destruct (join_options_run args oks1 []) as [[oks2 ->]| ->]; [|by left].
    assert (∃ im, module_image_size fuel (Some f) oks2 = Some im ∧
      (im = out_error ∨ im = Image (Some (f_content f)) 1 false)) as (im & -> & [->| ->]); [|by left|by right].
    unfold module_image_size. destruct (next_ok oks2) as [[] oks3]; [|by eauto].
    destruct (image_loop_run fuel f oks3 16384 []) as (im & E & Ho & _); [simpl; lia|simpl; lia|done|]. eauto.
  - intros (Hp & Hoks & Hn).
    destruct (next_ok_true oks (length args + S (length (f_content f))) Hoks) as (oks1 & -> & Ho1 & Hn1); [lia|].
    simpl negb. destruct (join_options_ok args oks1 [] (S (length (f_content f))) Ho1 Hn1) as (oks2 & -> & Ho2 & Hn2).
    unfold module_image_size. destruct (next_ok_true oks2 _ Ho2 Hn2) as (oks3 & -> & Ho3 & Hn3).
    destruct (image_loop_run fuel f oks3 16384 []) as (im & -> & _ & Hok); [simpl; lia|simpl; lia|done|].
    by rewrite Hok.
Qed.

Lemma insmod_passes_image_witness :
  main 10 (λ _ _ _, 0%Z) (Some (File [127; 69]%Z [])) [[97; 61; 49]%Z; [98]%Z] (replicate 9 true) =
    Some (0%Z, Some ([127; 69], 2, [97; 61; 49; 32; 98; 32])%Z).
Proof.
  apply (insmod_passes_image 10 (λ _ _ _, 0%Z) (File [127; 69]%Z []) [[97; 61; 49]%Z; [98]%Z] (replicate 9 true));
    [simpl; lia|simpl; lia|].
  split; [by repeat constructor|]. split; [by repeat constructor|simpl; lia].
Defined.
