(* ===== verification/Logger.v ===== *)
(** * The logger macros (log.h)

    The log level of a module and the lines it prints. A message is the text of
    its format and arguments after expansion. *)

From Stdlib Require Import ZArith Lia ssreflect.
From stdpp Require Import base list numbers strings.
From S2P Require Import Prelude.

Local Open Scope string_scope.
Local Open Scope list_scope.

(** ** State *)

Definition LOG_LEVEL_NONE : Z := 0.
Definition LOG_LEVEL_CRITICAL : Z := 1.
Definition LOG_LEVEL_ERROR : Z := 2.
Definition LOG_LEVEL_WARNING : Z := 3.
Definition LOG_LEVEL_NOTICE : Z := 4.
Definition LOG_LEVEL_INFO : Z := 5.
Definition LOG_LEVEL_DEBUG : Z := 6.

Record logger := Logger { module_log_level : Z; printed : list string }.

(** ** Macros *)

Definition SET_LOG_LEVEL (num : Z) : ST logger unit := λ s,
  Some (tt, Logger
    (if (num <=? LOG_LEVEL_NONE)%Z then LOG_LEVEL_NONE
     else if (LOG_LEVEL_DEBUG <=? num)%Z then LOG_LEVEL_DEBUG
     else num) (printed s)).

Definition GET_LOG_LEVEL : ST logger Z := λ s, Some (module_log_level s, s).

Definition log_printk (line : string) : ST logger unit := λ s,
  Some (tt, Logger (module_log_level s) (printed s ++ [line])).

Definition LOG_MSG (level : Z) (msg : string) : ST logger unit := λ s,
  (if (level <=? module_log_level s)%Z then
     if (level =? LOG_LEVEL_DEBUG)%Z then log_printk ("MODULE_DEBUG   : " +:+ msg)
     else if (level =? LOG_LEVEL_INFO)%Z then log_printk ("MODULE_INFO    : " +:+ msg)
     else if (level =? LOG_LEVEL_NOTICE)%Z then log_printk ("MODULE_NOTICE  : " +:+ msg)
     else if (level =? LOG_LEVEL_WARNING)%Z then log_printk ("MODULE_WARNING : " +:+ msg)
     else if (level =? LOG_LEVEL_ERROR)%Z then log_printk ("MODULE_ERROR   : " +:+ msg)
     else if (level =? LOG_LEVEL_CRITICAL)%Z then log_printk ("MODULE_CRITICAL: " +:+ msg)
     else mret tt
   else mret tt) s.

(** ** A module's log *)

(** The events of a module: messages, and changes of the level. *)
Inductive log_event := Msg (level : Z) (msg : string) | SetLevel (num : Z).

Definition log_event_exec (e : log_event) : ST logger unit :=
  match e with Msg l m => LOG_MSG l m | SetLevel n => SET_LOG_LEVEL n end.

Fixpoint log_exec (es : list log_event) : ST logger unit :=
  match es with
  | [] => mret tt
  | e :: es => log_event_exec e;; log_exec es
  end.

(** The prefix of each level; there is none for other numbers. *)
Definition log_prefix (level : Z) : option string :=
  ["MODULE_CRITICAL: "; "MODULE_ERROR   : "; "MODULE_WARNING : "; "MODULE_NOTICE  : ";
   "MODULE_INFO    : "; "MODULE_DEBUG   : "] !! Z.to_nat (level - 1).

(** What the log should hold: the messages whose level is from 1 to the level in force,
    which is always between 0 and 6, in order and with their prefix. *)
Fixpoint log_filter (current : Z) (es : list log_event) : list string :=
  match es with
  | [] => []
  | Msg l m :: es =>
      (if ((1 <=? l) && (l <=? current))%Z
       then match log_prefix l with Some p => [p +:+ m] | None => [] end else []) ++ log_filter current es
  | SetLevel n :: es => log_filter (0 `max` n `min` 6)%Z es
  end.

(** ** Lemmas *)

Lemma SET_LOG_LEVEL_clamps n s :
  SET_LOG_LEVEL n s = Some (tt, Logger (0 `max` n `min` 6)%Z (printed s)).
Proof.
  unfold SET_LOG_LEVEL, LOG_LEVEL_NONE, LOG_LEVEL_DEBUG. do 3 f_equal.
  repeat case_match; lia.
Qed.

Lemma LOG_MSG_prints l m s :
  (0 <= module_log_level s <= 6)%Z →
  LOG_MSG l m s = Some (tt, Logger (module_log_level s)
    (printed s ++ (if ((1 <=? l) && (l <=? module_log_level s))%Z
       then match log_prefix l with Some p => [p +:+ m] | None => [] end else []))).
Proof.
  intros Hr. unfold LOG_MSG. destruct (Z.leb_spec l (module_log_level s)) as [Hle|Hgt].
  2:{ rewrite andb_false_r app_nil_r. by destruct s. }
  rewrite andb_true_r. destruct (Z.leb_spec 1 l) as [H1|H0].
  - assert (l = 1 ∨ l = 2 ∨ l = 3 ∨ l = 4 ∨ l = 5 ∨ l = 6)%Z as Hl by lia.
    destruct Hl as [->|[->|[->|[->|[->| ->]]]]]; reflexivity.
  - rewrite app_nil_r. unfold LOG_LEVEL_DEBUG, LOG_LEVEL_INFO, LOG_LEVEL_NOTICE, LOG_LEVEL_WARNING,
      LOG_LEVEL_ERROR, LOG_LEVEL_CRITICAL. repeat case_match; try lia. by destruct s.
Qed.

(** ** Properties *)

(** whatever sequence of level changes and messages a module makes from a
    level between 0 and 6, the level stays in that range and the log gains exactly the messages whose
    level was enabled when they were logged, in order, each with the prefix of its level; messages of
    level 0 or below, or above 6, never appear. *)
Theorem log_exec_filters es s :
  (0 <= module_log_level s <= 6)%Z →
  ∃ s', log_exec es s = Some (tt, s') ∧ (0 <= module_log_level s' <= 6)%Z ∧
    printed s' = printed s ++ log_filter (module_log_level s) es.
Proof.
  revert s. induction es as [|[l m|n] es IH]; intros s Hr; simpl.
  - exists s. by rewrite app_nil_r.
  - destruct (IH (Logger (module_log_level s) (printed s ++
      (if ((1 <=? l) && (l <=? module_log_level s))%Z
       then match log_prefix l with Some p => [p +:+ m] | None => [] end else []))) Hr) as (s' & E & Hr' & Hp).
    exists s'. unfold mbind, ST_bind. rewrite LOG_MSG_prints // E Hp. simpl. by rewrite app_assoc.
  - destruct (IH (Logger (0 `max` n `min` 6)%Z (printed s))) as (s' & E & Hr' & Hp); [simpl; lia|].
    exists s'. unfold mbind, ST_bind. by rewrite SET_LOG_LEVEL_clamps E Hp.
Qed.

Lemma log_exec_filters_witness :
  ∃ s', log_exec [SetLevel 3; Msg 2 "disk"; Msg 4 "note"; SetLevel 99; Msg 6 "dbg"; Msg 7 "x"] (Logger 0 []) = Some (tt, s') ∧
    printed s' = ["MODULE_ERROR   : disk"; "MODULE_DEBUG   : dbg"].
Proof.
  destruct (log_exec_filters [SetLevel 3; Msg 2 "disk"; Msg 4 "note"; SetLevel 99; Msg 6 "dbg"; Msg 7 "x"] (Logger 0 []))
    as (s' & E & _ & Hp); [simpl; lia|].
  exists s'. split; [exact E|]. rewrite Hp. reflexivity.
Defined.
