(* ===== verification/RbTree.v ===== *)
(** * Red-black trees and the RB macros (cache.h, linux/rbtree.h)

    The intrusive trees of the scan cache as trees of record pointers
    ([container_of] from a node to its record is then the identity). The functions
    of linux/rbtree.h are the operations of the class [RbLib]; [RbLaws] states
    their documented effect on the in-order sequence of nodes and that they keep
    the tree a red-black tree. [reference_rb] is a concrete library
    with the insertion fix-up, which shows the laws can hold. The macros of
    cache.h are defined on top of the interface. *)

From Stdlib Require Import ZArith Lia ssreflect.
From stdpp Require Import base list numbers gmap sorting.
From S2P Require Import Prelude.

(** ** Trees *)

Inductive color := Red | Black.

Inductive tree :=
  | Leaf
  | Node (c : color) (l : tree) (p : positive) (r : tree).

(** A link [n] of the insertion loop: the fields followed from the root. *)
Inductive side := Left | Right.

Fixpoint inorder (t : tree) : list positive :=
  match t with
  | Leaf => []
  | Node _ l p r => inorder l ++ p :: inorder r
  end.

(** The subtree a link points to. *)
Fixpoint slot (n : list side) (t : tree) : option tree :=
  match n, t with
  | [], _ => Some t
  | Left :: n, Node _ l _ _ => slot n l
  | Right :: n, Node _ _ _ r => slot n r
  | _ :: _, Leaf => None
  end.

(** The nodes that precede and follow a link in the in-order sequence. *)
Fixpoint before (n : list side) (t : tree) : list positive :=
  match n, t with
  | Left :: n, Node _ l _ _ => before n l
  | Right :: n, Node _ l p r => inorder l ++ p :: before n r
  | _, _ => []
  end.

Fixpoint after (n : list side) (t : tree) : list positive :=
  match n, t with
  | Left :: n, Node _ l p r => after n l ++ p :: inorder r
  | Right :: n, Node _ _ _ r => after n r
  | _, _ => []
  end.

(** [rb t c h]: [t] has a root of colour [c] (the empty tree is black), black
    height [h], and no red node has a red child. *)
Inductive rb : tree → color → nat → Prop :=
  | rb_leaf : rb Leaf Black 0
  | rb_red l p r h : rb l Black h → rb r Black h → rb (Node Red l p r) Red h
  | rb_black l p r c c' h : rb l c h → rb r c' h → rb (Node Black l p r) Black (S h).

Definition rb_valid (t : tree) : Prop := ∃ h, rb t Black h.

(** ** The interface of linux/rbtree.h *)

Class RbLib := {
  rb_link_node : positive → list side → tree → tree;
  rb_insert_color : positive → tree → tree;
  rb_erase : positive → tree → tree;
  rb_replace_node : positive → positive → tree → tree;
  rb_first : tree → option positive;
  rb_last : tree → option positive;
  rb_next : positive → tree → option positive;
  rb_prev : positive → tree → option positive;
}.

Class RbLaws (L : RbLib) := {
  rb_insert_inorder p n t :
    slot n t = Some Leaf → p ∉ inorder t →
    inorder (rb_insert_color p (rb_link_node p n t)) = before n t ++ p :: after n t;
  rb_insert_valid p n t :
    rb_valid t → slot n t = Some Leaf → p ∉ inorder t →
    rb_valid (rb_insert_color p (rb_link_node p n t));
  rb_erase_inorder p t l r :
    NoDup (inorder t) → inorder t = l ++ p :: r → inorder (rb_erase p t) = l ++ r;
  rb_erase_valid p t :
    rb_valid t → NoDup (inorder t) → p ∈ inorder t → rb_valid (rb_erase p t);
  rb_replace_inorder old new t l r :
    NoDup (inorder t) → new ∉ inorder t → inorder t = l ++ old :: r →
    inorder (rb_replace_node old new t) = l ++ new :: r;
  rb_replace_valid old new t : rb_valid t → rb_valid (rb_replace_node old new t);
  rb_first_inorder t : rb_first t = head (inorder t);
  rb_last_inorder t : rb_last t = last (inorder t);
  rb_next_inorder p t l r :
    NoDup (inorder t) → inorder t = l ++ p :: r → rb_next p t = head r;
  rb_prev_inorder p t l r :
    NoDup (inorder t) → inorder t = l ++ p :: r → rb_prev p t = last l;
}.

(** ** The macros of cache.h *)

Section macros.
Context `{L : RbLib} {S : Type}.

(** [RB_EMPTY_ROOT(root)] *)
Definition RB_EMPTY_ROOT (root : tree) : bool :=
  match root with Leaf => true | Node _ _ _ _ => false end.

(** The [while ( *n)] loop of RB_INSERT: the link it ends with, or [None] for
    the jump to [dup]. [cmp this] is [cmp(new, this)]. *)
Fixpoint rb_insert_walk (cmp : positive → ST S Z) (t : tree) : ST S (option (list side)) :=
  match t with
  | Leaf => mret (Some [])
  | Node _ l this r =>
      res ← cmp this;
      if (res =? 0)%Z then mret None
      else if (res <? 0)%Z then n ← rb_insert_walk cmp l; mret ((cons Left) <$> n)
      else n ← rb_insert_walk cmp r; mret ((cons Right) <$> n)
  end.

(** The new root and the result: 0, or -1 when an equal key is present. *)
Definition RB_INSERT (root : tree) (new : positive) (cmp : positive → ST S Z) : ST S (tree * Z) :=
  n ← rb_insert_walk cmp root;
  match n with
  | Some n => mret (rb_insert_color new (rb_link_node new n root), 0%Z)
  | None => mret (root, (-1)%Z)
  end.

(** [RB_SEARCH]: the record found; [None] leaves [search_record] as it was. *)
Fixpoint RB_SEARCH (root : tree) (cmp : positive → ST S Z) : ST S (option positive) :=
  match root with
  | Leaf => mret None
  | Node _ l this r =>
      res ← cmp this;
      if (res =? 0)%Z then mret (Some this)
      else if (res <? 0)%Z then RB_SEARCH l cmp
      else RB_SEARCH r cmp
  end.

(** Erasing or replacing a node that is not in the tree is undefined. *)
Definition RB_REMOVE (root : tree) (removeRecord : positive) : ST S tree :=
  if bool_decide (removeRecord ∈ inorder root)
  then mret (rb_erase removeRecord root) else st_fail.

Definition RB_REPLACE (root : tree) (old new : positive) : ST S tree :=
  if bool_decide (old ∈ inorder root)
  then mret (rb_replace_node old new root) else st_fail.

Definition RB_FIRST (root : tree) : option positive := rb_first root.

Definition RB_LAST (root : tree) : option positive := rb_last root.

Definition RB_NEXT (root : tree) (ptr : positive) : ST S (option positive) :=
  if bool_decide (ptr ∈ inorder root) then mret (rb_next ptr root) else st_fail.

Definition RB_PREV (root : tree) (ptr : positive) : ST S (option positive) :=
  if bool_decide (ptr ∈ inorder root) then mret (rb_prev ptr root) else st_fail.
End macros.

(** ** The reference library *)

(** A frame of the path from a node up to the root: the side the node is on,
    and its parent's colour, element and other child. *)
Record frame := Frame { f_side : side; f_col : color; f_elt : positive; f_sib : tree }.

Definition plug1 (t : tree) (f : frame) : tree :=
  match f_side f with
  | Left => Node (f_col f) t (f_elt f) (f_sib f)
  | Right => Node (f_col f) (f_sib f) (f_elt f) t
  end.

Definition plug (t : tree) (k : list frame) : tree := foldl plug1 t k.

Definition blacken (t : tree) : tree :=
  match t with Leaf => Leaf | Node _ l p r => Node Black l p r end.

(** The rotations at a black grandparent [y] with a black uncle [u]. *)
Definition rotate (s s' : side) (t : tree) (x : positive) (sib : tree) (y : positive) (u : tree)
    : tree :=
  match s, s', t with
  | Left, Left, _ => Node Black t x (Node Red sib y u)
  | Right, Right, _ => Node Black (Node Red u y sib) x t
  | Right, Left, Node _ a p b => Node Black (Node Red sib x a) p (Node Red b y u)
  | Left, Right, Node _ a p b => Node Black (Node Red u y a) p (Node Red b x sib)
  | _, _, Leaf => Leaf
  end.

(** The fix-up loop from a red node [t] with the path [k] above it. *)
Fixpoint fixup (t : tree) (k : list frame) : tree :=
  match k with
  | [] => blacken t
  | Frame s Red x sib :: Frame s' c y u :: k' =>
      match u with
      | Node Red _ _ _ => fixup (plug1 (plug1 t (Frame s Black x sib)) (Frame s' Red y (blacken u))) k'
      | _ => plug (rotate s s' t x sib y u) k'
      end
  | _ => plug t k
  end.

(** The path to a node. *)
Fixpoint locate (p : positive) (t : tree) (k : list frame) : option (tree * list frame) :=
  match t with
  | Leaf => None
  | Node c l q r =>
      if bool_decide (p = q) then Some (t, k)
      else if bool_decide (p ∈ inorder l) then locate p l (Frame Left c q r :: k)
      else locate p r (Frame Right c q l :: k)
  end.

Fixpoint link_at (p : positive) (n : list side) (t : tree) : tree :=
  match n, t with
  | [], _ => Node Red Leaf p Leaf
  | Left :: n, Node c l q r => Node c (link_at p n l) q r
  | Right :: n, Node c l q r => Node c l q (link_at p n r)
  | _ :: _, Leaf => Leaf
  end.

Definition insert_fixup (p : positive) (t : tree) : tree :=
  match locate p t [] with Some (s, k) => fixup s k | None => t end.

(** The link after the last node. *)
Fixpoint rightmost (t : tree) : list side :=
  match t with Leaf => [] | Node _ _ _ r => Right :: rightmost r end.

Definition insert_last (t : tree) (p : positive) : tree :=
  insert_fixup p (link_at p (rightmost t) t).

(** Erasing rebuilds the tree from the other nodes. *)
Definition erase (p : positive) (t : tree) : tree :=
  foldl insert_last Leaf (filter (λ q, q ≠ p) (inorder t)).

Fixpoint replace (old new : positive) (t : tree) : tree :=
  match t with
  | Leaf => Leaf
  | Node c l q r =>
      Node c (replace old new l) (if bool_decide (q = old) then new else q) (replace old new r)
  end.

(** The element after [p], and the one before it. *)
Fixpoint next_in (p : positive) (xs : list positive) : option positive :=
  match xs with
  | [] => None
  | x :: xs => if bool_decide (x = p) then head xs else next_in p xs
  end.

Definition reference_rb : RbLib := {|
  rb_link_node := link_at;
  rb_insert_color := insert_fixup;
  rb_erase := erase;
  rb_replace_node := replace;
  rb_first t := head (inorder t);
  rb_last t := last (inorder t);
  rb_next p t := next_in p (inorder t);
  rb_prev p t := next_in p (reverse (inorder t));
|}.

(** ** Lemmas on the loops of the macros *)

(** Decide the tests on the sign of a comparison. *)
Ltac turn :=
  repeat match goal with
  | |- context [Z.eqb ?x 0] => destruct (Z.eqb_spec x 0) as [Hz|Hz]; try lia; clear Hz
  | |- context [Z.ltb ?x 0] => destruct (Z.ltb_spec x 0) as [Hz|Hz]; try lia; clear Hz
  end.

Section walks.
Context {S : Type} (cmp : positive → ST S Z) (c : positive → Z) (s : S).

(** Every comparison of the walk runs, and leaves the state alone. *)
Definition compares (t : tree) : Prop := ∀ q, q ∈ inorder t → cmp q s = Some (c q, s).

Lemma compares_node col l p r :
  compares (Node col l p r) → compares l ∧ cmp p s = Some (c p, s) ∧ compares r.
Proof. unfold compares. intros H. split; [|split]; intros; apply H; set_solver. Qed.

(** A key between two neighbours [a] and [b] of the sequence, or equal to none:
    where the search turns at a node of the sequence. *)
Lemma cut_node (l r : list positive) p a b :
  l ++ p :: r = a ++ b → Forall (λ q, 0 < c q)%Z a → Forall (λ q, c q < 0)%Z b →
  (c p < 0 ∧ ∃ b', l = a ++ b' ∧ b = b' ++ p :: r)%Z ∨
  (0 < c p ∧ ∃ a', a = l ++ p :: a' ∧ r = a' ++ b)%Z.
Proof.
  intros E Ha Hb. apply app_eq_inv in E as [(k & -> & E)|(k & -> & E)].
  - left. subst. rewrite Forall_app Forall_cons in Hb. split; [tauto|by exists k].
  - destruct k as [|q k]; simplify_eq/=.
    + left. rewrite Forall_cons in Hb. split; [tauto|exists []]. by rewrite !app_nil_r.
    + right. rewrite Forall_app Forall_cons in Ha. split; [tauto|by exists k].
Qed.

(** The key is absent: the search fails, and the insertion loop ends on the
    empty link between the smaller and the greater nodes. *)
Lemma RB_SEARCH_miss t a b :
  compares t → inorder t = a ++ b → Forall (λ q, 0 < c q)%Z a → Forall (λ q, c q < 0)%Z b →
  RB_SEARCH t cmp s = Some (None, s).
Proof.
  revert a b. induction t as [|col l IHl p r IHr]; intros a b Hc E Ha Hb; [done|].
  apply compares_node in Hc as (Hl & Hp & Hr). simpl. rewrite (st_bind_some _ _ _ _ _ Hp).
  destruct (cut_node _ _ _ _ _ E Ha Hb) as [[Hs (b' & E1 & ->)]|[Hs (a' & -> & E1)]].
  - turn.
    rewrite Forall_app in Hb. apply (IHl a b'); tauto.
  - turn.
    rewrite Forall_app Forall_cons in Ha. apply (IHr a' b); tauto.
Qed.

Lemma rb_insert_walk_miss t a b :
  compares t → inorder t = a ++ b → Forall (λ q, 0 < c q)%Z a → Forall (λ q, c q < 0)%Z b →
  ∃ n, rb_insert_walk cmp t s = Some (Some n, s) ∧
    slot n t = Some Leaf ∧ before n t = a ∧ after n t = b.
Proof.
  revert a b. induction t as [|col l IHl p r IHr]; intros a b Hc E Ha Hb.
  { exists []. destruct a, b; done. }
  apply compares_node in Hc as (Hl & Hp & Hr). simpl. rewrite (st_bind_some _ _ _ _ _ Hp).
  destruct (cut_node _ _ _ _ _ E Ha Hb) as [[Hs (b' & E1 & ->)]|[Hs (a' & -> & E1)]].
  - turn.
    rewrite Forall_app in Hb. destruct (IHl a b') as (n & Hn & ? & ? & ?); try tauto.
    exists (Left :: n). rewrite (st_bind_some _ _ _ _ _ Hn). simpl. split_and!; by f_equal.
  - turn.
    rewrite Forall_app Forall_cons in Ha. destruct (IHr a' b) as (n & Hn & ? & ? & ?); try tauto.
    exists (Right :: n). rewrite (st_bind_some _ _ _ _ _ Hn). simpl. split_and!; by repeat f_equal.
Qed.

(** The key is that of the node [x]: the search finds it and the insertion
    loop jumps to [dup]. *)
Lemma hit_node (l r : list positive) p a x b :
  l ++ p :: r = a ++ x :: b → Forall (λ q, 0 < c q)%Z a → c x = 0%Z →
  Forall (λ q, c q < 0)%Z b →
  (p = x ∧ c p = 0%Z) ∨
  (c p < 0 ∧ ∃ b', l = a ++ x :: b' ∧ b = b' ++ p :: r)%Z ∨
  (0 < c p ∧ ∃ a', a = l ++ p :: a' ∧ r = a' ++ x :: b)%Z.
Proof.
  intros E Ha Hx Hb. apply app_eq_inv in E as [(k & -> & E)|(k & -> & E)].
  - destruct k as [|q k]; simplify_eq/=; [by left|]. right; left.
    rewrite Forall_app Forall_cons in Hb. split; [tauto|by exists k].
  - destruct k as [|q k]; simplify_eq/=; [by left|]. right; right.
    rewrite Forall_app Forall_cons in Ha. split; [tauto|by exists k].
Qed.

Lemma RB_walks_hit t a x b :
  compares t → inorder t = a ++ x :: b → Forall (λ q, 0 < c q)%Z a → c x = 0%Z →
  Forall (λ q, c q < 0)%Z b →
  RB_SEARCH t cmp s = Some (Some x, s) ∧ rb_insert_walk cmp t s = Some (None, s).
Proof.
  revert a b. induction t as [|col l IHl p r IHr]; intros a b Hc E Ha Hx Hb; [by destruct a|].
  apply compares_node in Hc as (Hl & Hp & Hr). simpl. rewrite !(st_bind_some _ _ _ _ _ Hp).
  destruct (hit_node _ _ _ _ _ _ E Ha Hx Hb)
    as [[-> Hs]|[[Hs (b' & E1 & ->)]|[Hs (a' & -> & E1)]]].
  - by rewrite Hs.
  - turn.
    rewrite Forall_app in Hb. destruct (IHl a b') as [? Hw]; try tauto.
    by rewrite (st_bind_some _ _ _ _ _ Hw).
  - turn.
    rewrite Forall_app Forall_cons in Ha. destruct (IHr a' b) as [? Hw]; try tauto.
    by rewrite (st_bind_some _ _ _ _ _ Hw).
Qed.
End walks.

(** ** The reference library satisfies the laws *)

(** The nodes before and after the hole of a path. *)
Fixpoint k_before (k : list frame) : list positive :=
  match k with
  | [] => []
  | Frame Left _ _ _ :: k => k_before k
  | Frame Right _ x sib :: k => k_before k ++ inorder sib ++ [x]
  end.

Fixpoint k_after (k : list frame) : list positive :=
  match k with
  | [] => []
  | Frame Left _ x sib :: k => x :: inorder sib ++ k_after k
  | Frame Right _ _ _ :: k => k_after k
  end.

Lemma plug_inorder t k : inorder (plug t k) = k_before k ++ inorder t ++ k_after k.
Proof.
  revert t. unfold plug. induction k as [|[[] c x sib] k IH]; intros t; simpl.
  - by rewrite app_nil_r.
  - rewrite IH. simpl. by rewrite -!app_assoc.
  - rewrite IH. simpl. by rewrite -!app_assoc.
Qed.

Lemma blacken_inorder t : inorder (blacken t) = inorder t.
Proof. by destruct t. Qed.

Lemma rotate_inorder s s' t x sib y u c c' :
  inorder t ≠ [] →
  inorder (rotate s s' t x sib y u) = inorder (plug1 (plug1 t (Frame s c x sib)) (Frame s' c' y u)).
Proof. destruct s, s', t; simpl; intros; try done; by rewrite -?app_assoc /= -?app_assoc. Qed.

Lemma fixup_inorder t k :
  inorder t ≠ [] → inorder (fixup t k) = k_before k ++ inorder t ++ k_after k.
Proof.
  remember (length k) as n eqn:Hn. revert t k Hn.
  induction n as [n IH] using lt_wf_ind. intros t k Hn Ht.
  destruct k as [|[s c x sib] k]; [by rewrite /= blacken_inorder app_nil_r|].
  destruct c; [|by rewrite -plug_inorder].
  destruct k as [|[s' c' y u] k]; [by rewrite -plug_inorder|].
  assert (inorder (fixup t (Frame s Red x sib :: Frame s' c' y u :: k)) =
    k_before k ++ inorder (plug1 (plug1 t (Frame s Red x sib)) (Frame s' c' y u)) ++ k_after k) as ->.
  { simpl. destruct u as [|[] ul q ur].
    1,3: rewrite plug_inorder; f_equal; f_equal; by apply rotate_inorder.
    rewrite (IH (length k)) //; [simpl in Hn; lia|..].
    - destruct s'; simpl; intros E; by apply app_eq_nil in E as [_ ?].
    - by destruct s, s'. }
  rewrite -plug_inorder. by rewrite -(plug_inorder t).
Qed.

(** [fits k c h]: a tree of colour [c] and black height [h] fits the hole. *)
Inductive fits : list frame → color → nat → Prop :=
  | fits_root h : fits [] Black h
  | fits_black s x sib c c' k h :
      rb sib c' h → fits k Black (S h) → fits (Frame s Black x sib :: k) c h
  | fits_red s x sib k h :
      rb sib Black h → fits k Red h → fits (Frame s Red x sib :: k) Black h.

#[local] Hint Constructors rb fits : kdb.

Lemma plug_valid t k c h : rb t c h → fits k c h → rb_valid (plug t k).
Proof.
  intros Ht Hk. revert t Ht. unfold plug.
  induction Hk as [h|s x sib c c' k h|s x sib k h]; intros t Ht; simpl.
  - by exists h.
  - apply IHHk. destruct s; unfold plug1; simpl; eauto with kdb.
  - apply IHHk. destruct s; unfold plug1; simpl; eauto with kdb.
Qed.

Lemma fixup_valid t k h : rb t Red h → fits k Black h → rb_valid (fixup t k).
Proof.
  remember (length k) as n eqn:Hn. revert t k h Hn.
  induction n as [n IH] using lt_wf_ind. intros t k h Hn Ht Hk.
  inversion Hk as [h' E|s x sib c c' k' h' Hs Hk' E|s x sib k' h' Hs Hk' E]; subst.
  - inversion Ht; subst. eexists. simpl. eauto with kdb.
  - simpl. eapply (plug_valid t (Frame s Black x sib :: k')); eauto with kdb.
  - inversion Hk' as [|s' y u c c' k'' h'' Hu Hk'' E|]; subst. simpl.
    inversion Ht; subst. destruct Hu as [|ul q ur hu Hul Hur|ul q ur c1 c2 hu Hul Hur].
    + eapply plug_valid; [|done]. destruct s, s'; simpl; eauto with kdb.
    + eapply IH; [|reflexivity| |done]; [simpl; lia|].
      destruct s, s'; unfold plug1; simpl; eauto 6 with kdb.
    + eapply plug_valid; [|done]. destruct s, s'; simpl; eauto 6 with kdb.
Qed.

(** The path above a link. *)
Fixpoint frames (n : list side) (t : tree) (k : list frame) : list frame :=
  match n, t with
  | Left :: n, Node c l q r => frames n l (Frame Left c q r :: k)
  | Right :: n, Node c l q r => frames n r (Frame Right c q l :: k)
  | _, _ => k
  end.

Lemma link_at_mem p n t : slot n t = Some Leaf → p ∈ inorder (link_at p n t).
Proof.
  revert t. induction n as [|[] n IH]; intros [|c l q r] H; simplify_eq/=; set_solver.
Qed.

Lemma locate_link p n t k :
  slot n t = Some Leaf → p ∉ inorder t →
  locate p (link_at p n t) k = Some (Node Red Leaf p Leaf, frames n t k).
Proof.
  revert t k. induction n as [|s n IH]; intros t k Hs Hp; simplify_eq/=.
  { by rewrite bool_decide_true. }
  destruct s, t as [|c l q r]; simplify_eq/=.
  - rewrite bool_decide_false; [set_solver|]. rewrite bool_decide_true; [by apply link_at_mem|].
    apply IH; set_solver.
  - rewrite bool_decide_false; [set_solver|]. rewrite bool_decide_false; [set_solver|].
    apply IH; set_solver.
Qed.

Lemma frames_inorder n t k :
  slot n t = Some Leaf →
  k_before (frames n t k) = k_before k ++ before n t ∧
  k_after (frames n t k) = after n t ++ k_after k.
Proof.
  revert t k. induction n as [|s n IH]; intros t k Hs; simplify_eq/=.
  { by rewrite app_nil_r. }
  destruct s, t as [|c l q r]; simplify_eq/=.
  - destruct (IH l (Frame Left c q r :: k) Hs) as [-> ->]. simpl. by rewrite -app_assoc.
  - destruct (IH r (Frame Right c q l :: k) Hs) as [-> ->]. simpl. by rewrite -!app_assoc.
Qed.

Lemma frames_fit n t k c h :
  rb t c h → fits k c h → slot n t = Some Leaf → fits (frames n t k) Black 0.
Proof.
  revert t k c h. induction n as [|s n IH]; intros t k c h Ht Hk Hs; simplify_eq/=.
  { by inversion Ht; subst. }
  destruct Ht; [destruct s; done|destruct s; simpl in *; eapply IH; eauto with kdb..].
Qed.

Lemma insert_fixup_inorder p n t :
  slot n t = Some Leaf → p ∉ inorder t →
  inorder (insert_fixup p (link_at p n t)) = before n t ++ p :: after n t.
Proof.
  intros Hs Hp. unfold insert_fixup. rewrite locate_link // fixup_inorder //.
  destruct (frames_inorder n t [] Hs) as [-> ->]. by rewrite app_nil_r.
Qed.

Lemma insert_fixup_valid p n t :
  rb_valid t → slot n t = Some Leaf → p ∉ inorder t → rb_valid (insert_fixup p (link_at p n t)).
Proof.
  intros [h Ht] Hs Hp. unfold insert_fixup. rewrite locate_link //.
  eapply fixup_valid; [eauto with kdb|]. eapply frames_fit; eauto with kdb.
Qed.

Lemma rightmost_slot t :
  slot (rightmost t) t = Some Leaf ∧ before (rightmost t) t = inorder t ∧ after (rightmost t) t = [].
Proof. induction t as [|c l IHl p r (IH1 & IH2 & IH3)]; [done|]. simpl. by rewrite IH2. Qed.

Lemma insert_last_spec t p :
  rb_valid t → p ∉ inorder t → rb_valid (insert_last t p) ∧ inorder (insert_last t p) = inorder t ++ [p].
Proof.
  intros Ht Hp. destruct (rightmost_slot t) as (Hs & Hb & Ha). unfold insert_last. split.
  - by apply insert_fixup_valid.
  - by rewrite insert_fixup_inorder // Hb Ha.
Qed.

Lemma rebuild_spec ps t :
  rb_valid t → NoDup (inorder t ++ ps) →
  rb_valid (foldl insert_last t ps) ∧ inorder (foldl insert_last t ps) = inorder t ++ ps.
Proof.
  revert t. induction ps as [|p ps IH]; intros t Ht Hnd; simpl; [by rewrite app_nil_r|].
  destruct (insert_last_spec t p Ht) as [Hv Hi].
  { apply NoDup_app in Hnd as (_ & Hd & _). intros Hp. apply (Hd p Hp). set_solver. }
  destruct (IH (insert_last t p) Hv) as [Hv' Hi']; [by rewrite Hi -app_assoc|].
  split; [done|]. by rewrite Hi' Hi -app_assoc.
Qed.

Lemma erase_spec p t :
  NoDup (inorder t) →
  rb_valid (erase p t) ∧ inorder (erase p t) = filter (λ q, q ≠ p) (inorder t).
Proof.
  intros Hnd. apply (rebuild_spec _ Leaf); [exists 0; constructor|]. simpl. by apply NoDup_filter.
Qed.

Lemma filter_out (p : positive) l r :
  NoDup (l ++ p :: r) → filter (λ q, q ≠ p) (l ++ p :: r) = l ++ r.
Proof.
  intros Hnd. apply NoDup_app in Hnd as (_ & Hd & [Hr _]%NoDup_cons).
  assert (∀ xs : list positive, p ∉ xs → filter (λ q, q ≠ p) xs = xs) as Hid.
  { induction xs as [|x xs IH]; intros Hx; [done|]. rewrite filter_cons_True; [set_solver|].
    by rewrite IH; [set_solver|]. }
  rewrite filter_app filter_cons_False; [by intros []|]. rewrite !Hid //.
  intros H. apply (Hd p H). set_solver.
Qed.

Lemma replace_inorder old new t :
  inorder (replace old new t) = (λ q, if bool_decide (q = old) then new else q) <$> inorder t.
Proof. induction t as [|c l IHl q r IHr]; [done|]. simpl. by rewrite fmap_app IHl IHr. Qed.

Lemma replace_rb old new t c h : rb t c h → rb (replace old new t) c h.
Proof. induction 1; simpl; eauto with kdb. Qed.

Lemma next_in_split p l r : p ∉ l → next_in p (l ++ p :: r) = head r.
Proof.
  induction l as [|x l IH]; simpl; intros H; [by rewrite bool_decide_true|].
  rewrite bool_decide_false; [set_solver|]. apply IH. set_solver.
Qed.

#[global] Instance reference_rb_laws : RbLaws reference_rb.
Proof.
  split; simpl.
  - apply insert_fixup_inorder.
  - apply insert_fixup_valid.
  - intros p t l r Hnd E. destruct (erase_spec p t Hnd) as [_ ->]. rewrite E in Hnd |- *.
    by apply filter_out.
  - intros p t _ Hnd _. by apply erase_spec.
  - intros old new t l r Hnd Hnew E. rewrite replace_inorder. rewrite E in Hnd |- *.
    apply NoDup_app in Hnd as (_ & Hd & [Ho _]%NoDup_cons).
    rewrite fmap_app fmap_cons bool_decide_true //.
    assert (∀ xs : list positive, old ∉ xs → (λ q, if bool_decide (q = old) then new else q) <$> xs = xs) as Hid.
    { induction xs as [|x xs IH]; intros Hx; [done|]. rewrite fmap_cons IH; [set_solver|].
      by rewrite bool_decide_false; [set_solver|]. }
    rewrite !Hid //. intros H. apply (Hd old H). set_solver.
  - intros old new t [h Ht]. exists h. by apply replace_rb.
  - done.
  - done.
  - intros p t l r Hnd E. rewrite E in Hnd |- *. apply next_in_split.
    apply NoDup_app in Hnd as (_ & Hd & _). intros H. apply (Hd p H). set_solver.
  - intros p t l r Hnd E. rewrite E in Hnd |- *. rewrite reverse_app reverse_cons -app_assoc /=.
    rewrite next_in_split; [|by rewrite head_reverse].
    apply NoDup_app in Hnd as (_ & _ & [H _]%NoDup_cons). by rewrite elem_of_reverse.
Qed.
