(* ===== verification/Cache.v ===== *)
(** * The scan cache: data and operations (cache.h, cache.c)

    The scan cache keeps one record per file in a tree ordered by device and
    inode, and one record per cached file in a second tree ordered by time
    stamp (the LRU tree). This file translates every function of cache.c. What
    the kernel supplies is the class [Kernel]: the red-black tree library, the
    answers of the slab allocator (with the address and the indeterminate contents of a
    fresh object) and the clock; [KernelLaws] is what the code relies on. The state holds the two slabs as maps from live
    pointers to records, so a use after free, a double free, taking a held spin
    lock and allocating with GFP_KERNEL under a spin lock get stuck. *)

From Stdlib Require Import ZArith Lia.
From stdpp Require Import base gmap list numbers.
From S2P Require Import Prelude RbTree.

(** ** Data *)

Inductive scan_state := STATE_UNKNOWN | STATE_CLEAN | STATE_INFECTED.

Record timespec := Timespec { tv_sec : Z; tv_nsec : Z }.

Record scan_cache_record := ScanRec {
  s_dev_id : Z;
  s_inode_number : Z;
  s_inode_generation : Z;
  s_status : scan_state;
  s_time_stamp : timespec }.

Record scan_cache_record_compare := ScanKey {
  k_dev_id : Z;
  k_inode_number : Z;
  k_inode_generation : Z }.

Record lru_cache_record := LruRec {
  l_time_stamp : timespec;
  l_dev_id : Z;
  l_inode_number : Z;
  l_inode_generation : Z }.

Record lru_cache_record_compare := LruKey { lk_time_stamp : timespec }.

Record fileInfo := FileInfo {
  f_dev_id : Z;
  f_inode_number : Z;
  f_inode_generation : Z }.

#[global] Instance timespec_eq_dec : EqDecision timespec.
Proof. solve_decision. Defined.

#[global] Instance lru_cache_record_eq_dec : EqDecision lru_cache_record.
Proof. solve_decision. Defined.

Definition ENOMEM : Z := 12.

(** The lines printed, with the numbers they show. *)
Inductive kmsg :=
  | MsgNoScan | MsgNoLru | MsgNoScanIn | MsgLru (ts : timespec) (dev ino : Z)
  | MsgPresent (dev ino gen : Z) | MsgNoOld | MsgLruUpdate | MsgInside | MsgNotFound
  | MsgNoLruRecord | MsgSearch (dev ino gen : Z) | MsgSearchFailed (dev ino gen : Z)
  | MsgRemoving (dev ino gen : Z) | MsgRemovingLru (dev ino : Z) | MsgEvicting (dev ino : Z)
  | MsgNoScanSlab | MsgNoLruSlab
  | MsgTestInit | MsgInsertFailed (ino : Z) | MsgFirst (dev ino gen : Z) | MsgLast (dev ino gen : Z)
  | MsgNext (dev ino gen : Z) | MsgDeleteFailed (dev ino gen : Z) | MsgAfterDelete | MsgCleanup
  | MsgKey (dev ino gen : Z) | MsgResult (res : Z).

(** ** The kernel *)

(** The address of a new object given the live ones, the [n]-th reading of the
    clock, and the answer to the [n]-th request for an object or for a slab: an
    object comes with its old contents. *)
Class Kernel := {
  k_rb :: RbLib;
  k_address : gset positive → positive;
  k_clock : nat → timespec;
  k_scan_object : nat → option scan_cache_record;
  k_lru_object : nat → option lru_cache_record;
  k_slab : nat → bool;
}.

(** A reading of the clock: seconds since the epoch and nanoseconds. *)
Definition ts_ok (t : timespec) : Prop :=
  (0 <= tv_sec t < 2 ^ 63)%Z ∧ (0 <= tv_nsec t < 1000000000)%Z.

(** What the kernel promises: the laws of the tree library, objects that are not live
    already, and a clock in range. *)
Class KernelLaws (K : Kernel) := {
  kl_rb :: RbLaws k_rb;
  kl_address X : k_address X ∉ X;
  kl_clock n : ts_ok (k_clock n);
}.

(** ** State

    The scan cache and the LRU cache have the same make-up: a slab and its live
    objects, a tree and a spin lock. [half A] is one of the two. *)

Record half (A : Type) := Half {
  slab : bool;                       (* the slab pointer is not NULL *)
  objects : gmap positive A;         (* live objects of the slab *)
  root : tree;
  lock : bool;
  requests : nat }.
Arguments Half {A} _ _ _ _ _.
Arguments slab {A} _.
Arguments objects {A} _.
Arguments root {A} _.
Arguments lock {A} _.
Arguments requests {A} _.

Record cache := Cache {
  scan : half scan_cache_record;     (* ptr_scan_cache_slab, scan_cache_rb_tree, scan_cache_lock *)
  lru : half lru_cache_record;       (* ptr_lru_cache_slab, lru_cache_rb_tree, lru_cache_lock *)
  ticks : nat;
  slab_requests : nat;
  klog : list kmsg }.

(** The globals before [init_scan_cache]. *)
Definition cache_globals : cache :=
  Cache (Half false ∅ Leaf false 0) (Half false ∅ Leaf false 0) 0 0 [].

Definition on_scan {A : Type} (m : ST (half scan_cache_record) A) : ST cache A := λ s,
  match m (scan s) with
  | Some (a, h) => Some (a, Cache h (lru s) (ticks s) (slab_requests s) (klog s))
  | None => None
  end.

Definition on_lru {A : Type} (m : ST (half lru_cache_record) A) : ST cache A := λ s,
  match m (lru s) with
  | Some (a, h) => Some (a, Cache (scan s) h (ticks s) (slab_requests s) (klog s))
  | None => None
  end.

Definition printk (m : kmsg) : ST cache unit := λ s,
  Some (tt, Cache (scan s) (lru s) (ticks s) (slab_requests s) (klog s ++ [m])).

(** Stuck when the caller holds a spin lock. *)
Definition might_sleep : ST cache unit := λ s,
  if lock (scan s) || lock (lru s) then None else Some (tt, s).

(** *** Kernel calls on one half *)

Section half_ops.
Context `{K : Kernel} {A : Type}.

Definition spin_lock : ST (half A) unit := λ h,
  if lock h then None else Some (tt, Half (slab h) (objects h) (root h) true (requests h)).

Definition spin_unlock : ST (half A) unit := λ h,
  if lock h then Some (tt, Half (slab h) (objects h) (root h) false (requests h)) else None.

Definition get_root : ST (half A) tree := λ h, Some (root h, h).

Definition put_root (t : tree) : ST (half A) unit := λ h,
  Some (tt, Half (slab h) (objects h) t (lock h) (requests h)).

(** [*p], for a live object. *)
Definition deref (p : positive) : ST (half A) A := λ h,
  match objects h !! p with Some a => Some (a, h) | None => None end.

(** A field assignment through [p]. *)
Definition assign (p : positive) (f : A → A) : ST (half A) unit := λ h,
  match objects h !! p with
  | Some a => Some (tt, Half (slab h) (<[p := f a]> (objects h)) (root h) (lock h) (requests h))
  | None => None
  end.

(** [kmem_cache_alloc(slab, GFP_KERNEL)] *)
Definition kmem_cache_alloc (answer : nat → option A) : ST (half A) (option positive) := λ h,
  if slab h then
    match answer (requests h) with
    | Some a =>
        let p := k_address (dom (objects h)) in
        Some (Some p,
          Half (slab h) (<[p := a]> (objects h)) (root h) (lock h) (S (requests h)))
    | None => Some (None, Half (slab h) (objects h) (root h) (lock h) (S (requests h)))
    end
  else None.

Definition kmem_cache_free (p : positive) : ST (half A) unit := λ h,
  match slab h, objects h !! p with
  | true, Some _ =>
      Some (tt, Half (slab h) (delete p (objects h)) (root h) (lock h) (requests h))
  | _, _ => None
  end.

Definition set_slab (b : bool) : ST (half A) unit := λ h,
  Some (tt, Half b (objects h) (root h) (lock h) (requests h)).

(** [kmem_cache_destroy(slab); slab = NULL;] under its test *)
Definition destroy_slab : ST (half A) unit := λ h,
  Some (tt, if slab h then Half false (objects h) (root h) (lock h) (requests h) else h).
End half_ops.

Section operations.
Context `{K : Kernel}.

(** [getnstimeofday] *)
Definition get_time_stamp : ST cache timespec := λ s,
  Some (k_clock (ticks s), Cache (scan s) (lru s) (S (ticks s)) (slab_requests s) (klog s)).

(** ** Comparisons *)

(** One level of a comparison: the sign of [difference], or the next level. *)
Definition level (difference next : Z) : Z :=
  if (0 <? difference)%Z then 1 else if (difference <? 0)%Z then -1 else next.

(** Differences are computed in the type of the fields ([dev_t] and [__u32]: 32
    bits unsigned; [unsigned long]: 64 bits unsigned; the fields of a timespec: 64 bits
    signed) and then converted to [int64_t]. *)
Definition diff_u32 (a b : Z) : Z := s64 (u32 (a - b)).
Definition diff_u64 (a b : Z) : Z := s64 (u64 (a - b)).
Definition diff_s64 (a b : Z) : Z := s64 (a - b).

Definition scan_insert_order (a b : scan_cache_record) : Z :=
  level (diff_u32 (s_dev_id a) (s_dev_id b))
    (level (diff_u64 (s_inode_number a) (s_inode_number b)) 0).

Definition scan_cache_insert_compare_table (first_ptr second_ptr : option positive) :
    ST (half scan_cache_record) Z :=
  match first_ptr, second_ptr with
  | Some p, Some q => a ← deref p; b ← deref q; mret (scan_insert_order a b)
  | _, _ => mret 0%Z
  end.

Definition scan_find_order (k : scan_cache_record_compare) (b : scan_cache_record) : Z :=
  level (diff_u32 (k_dev_id k) (s_dev_id b))
    (level (diff_u64 (k_inode_number k) (s_inode_number b))
      (level (diff_u32 (k_inode_generation k) (s_inode_generation b)) 0)).

Definition scan_cache_find_compare_table (key : option scan_cache_record_compare)
    (record_ptr : option positive) : ST (half scan_cache_record) Z :=
  match record_ptr, key with
  | Some q, Some k => b ← deref q; mret (scan_find_order k b)
  | _, _ => mret 0%Z
  end.

Definition time_order (a b : timespec) : Z :=
  level (diff_s64 (tv_sec a) (tv_sec b)) (level (diff_s64 (tv_nsec a) (tv_nsec b)) 0).

Definition lru_cache_insert_compare_table (first_ptr second_ptr : positive) :
    ST (half lru_cache_record) Z :=
  a ← deref first_ptr; b ← deref second_ptr;
  mret (time_order (l_time_stamp a) (l_time_stamp b)).

Definition lru_cache_find_compare_table (key : lru_cache_record_compare) (second_ptr : positive) :
    ST (half lru_cache_record) Z :=
  b ← deref second_ptr; mret (time_order (lk_time_stamp key) (l_time_stamp b)).

(** ** Allocation *)

Definition scan_cache_alloc : ST cache (option positive) :=
  might_sleep;;
  p ← on_scan (kmem_cache_alloc k_scan_object);
  (if p is None then printk MsgNoScan else mret tt);;
  mret p.

Definition lru_cache_alloc : ST cache (option positive) :=
  might_sleep;;
  p ← on_lru (kmem_cache_alloc k_lru_object);
  (if p is None then printk MsgNoLru else mret tt);;
  mret p.

(** ** Removal of a record *)

(** The tree and the slab of one half: the node is unlinked under the lock,
    then the record is freed. *)
Definition remove_record {A : Type} (p : positive) : ST (half A) unit :=
  spin_lock;;
  t ← get_root; t' ← RB_REMOVE t p; put_root t';;
  spin_unlock;;
  kmem_cache_free p.

Definition remove_lru_cache_record (p : option positive) : ST cache unit :=
  match p with Some p => on_lru (remove_record p) | None => mret tt end.

Definition remove_scan_cache_record (p : option positive) : ST cache unit :=
  match p with Some p => on_scan (remove_record p) | None => mret tt end.

(** A search of one tree under its lock. *)
Definition search_record {A : Type} (cmp : positive → ST (half A) Z) :
    ST (half A) (option positive) :=
  spin_lock;;
  t ← get_root; r ← RB_SEARCH t cmp;
  spin_unlock;;
  mret r.

(** An insertion in one tree under its lock. *)
Definition insert_record {A : Type} (new : positive) (cmp : positive → ST (half A) Z) :
    ST (half A) Z :=
  spin_lock;;
  t ← get_root; r ← RB_INSERT t new cmp; put_root r.1;;
  spin_unlock;;
  mret r.2.

(** ** The LRU cache *)

Definition set_l_time_stamp v (r : lru_cache_record) :=
  LruRec v (l_dev_id r) (l_inode_number r) (l_inode_generation r).
Definition set_l_dev_id v (r : lru_cache_record) :=
  LruRec (l_time_stamp r) v (l_inode_number r) (l_inode_generation r).
Definition set_l_inode_number v (r : lru_cache_record) :=
  LruRec (l_time_stamp r) (l_dev_id r) v (l_inode_generation r).
Definition set_l_inode_generation v (r : lru_cache_record) :=
  LruRec (l_time_stamp r) (l_dev_id r) (l_inode_number r) v.

Definition insert_lru_cache_record (time_stamp : timespec) (dev_id inode_number : Z)
    (inode_generation : Z) : ST cache Z :=
  p ← lru_cache_alloc;
  match p with
  | Some p =>
      on_lru (assign p (set_l_time_stamp time_stamp));;
      on_lru (assign p (set_l_dev_id dev_id));;
      on_lru (assign p (set_l_inode_number inode_number));;
      on_lru (assign p (set_l_inode_generation inode_generation));;
      r ← on_lru (deref p);
      printk (MsgLru (l_time_stamp r) (l_dev_id r) (l_inode_number r));;
      on_lru (insert_record p (lru_cache_insert_compare_table p))
  | None => mret (-1)%Z
  end.

Definition find_and_update_lru_cache_record (old_ptr new_ptr : positive) : ST cache Z :=
  old ← on_scan (deref old_ptr);
  let lru_cache_key := LruKey (s_time_stamp old) in
  search_ptr ← on_lru (search_record (lru_cache_find_compare_table lru_cache_key));
  match search_ptr with
  | Some p =>
      remove_lru_cache_record (Some p);;
      new ← on_scan (deref new_ptr);
      ret ← insert_lru_cache_record (s_time_stamp new) (s_dev_id new) (s_inode_number new)
              (s_inode_generation new);
      (if (ret =? 0)%Z then mret tt else printk MsgLruUpdate);;
      mret ret
  | None => mret (-1)%Z
  end.

(** ** The scan cache *)

Definition replace_record {A : Type} (old new : positive) : ST (half A) unit :=
  spin_lock;;
  t ← get_root; t' ← RB_REPLACE t old new; put_root t';;
  spin_unlock.

Definition find_and_update_scan_cache_record (new_ptr : option positive) : ST cache Z :=
  match new_ptr with
  | None => mret (-1)%Z
  | Some new =>
      search_ptr ← on_scan (search_record
        (λ this, scan_cache_insert_compare_table (Some new) (Some this)));
      match search_ptr with
      | Some old =>
          on_scan (replace_record old new);;
          ret ← find_and_update_lru_cache_record old new;
          (if (ret =? 0)%Z then mret tt else remove_scan_cache_record (Some new));;
          on_scan (kmem_cache_free old);;
          mret ret
      | None =>
          on_scan (kmem_cache_free new);;
          printk MsgNoOld;;
          mret (-1)%Z
      end
  end.

Definition set_s_dev_id v (r : scan_cache_record) :=
  ScanRec v (s_inode_number r) (s_inode_generation r) (s_status r) (s_time_stamp r).
Definition set_s_inode_number v (r : scan_cache_record) :=
  ScanRec (s_dev_id r) v (s_inode_generation r) (s_status r) (s_time_stamp r).
Definition set_s_inode_generation v (r : scan_cache_record) :=
  ScanRec (s_dev_id r) (s_inode_number r) v (s_status r) (s_time_stamp r).
Definition set_s_time_stamp v (r : scan_cache_record) :=
  ScanRec (s_dev_id r) (s_inode_number r) (s_inode_generation r) (s_status r) v.

Definition insert_scan_cache_record (filp : fileInfo) : ST cache Z :=
  p ← scan_cache_alloc;
  match p with
  | None => printk MsgNoScanIn;; mret (- ENOMEM)%Z
  | Some p =>
      on_scan (assign p (set_s_dev_id (f_dev_id filp)));;
      on_scan (assign p (set_s_inode_number (f_inode_number filp)));;
      on_scan (assign p (set_s_inode_generation (f_inode_generation filp)));;
      ts ← get_time_stamp;
      on_scan (assign p (set_s_time_stamp ts));;
      ret ← on_scan (insert_record p
        (λ this, scan_cache_insert_compare_table (Some p) (Some this)));
      if (ret =? 0)%Z then
        r ← on_scan (deref p);
        ret ← insert_lru_cache_record (s_time_stamp r) (s_dev_id r) (s_inode_number r)
                (s_inode_generation r);
        (if (ret =? 0)%Z then mret tt else remove_scan_cache_record (Some p));;
        mret ret
      else
        (if (ret =? -1)%Z then
           r ← on_scan (deref p);
           printk (MsgPresent (s_dev_id r) (s_inode_number r) (s_inode_generation r))
         else mret tt);;
        find_and_update_scan_cache_record (Some p)
  end.

Definition find_scan_cache_record (keyPtr : option scan_cache_record_compare) :
    ST cache (option positive) :=
  printk MsgInside;;
  p ← match keyPtr with
      | Some key => on_scan (search_record
          (λ this, scan_cache_find_compare_table (Some key) (Some this)))
      | None => mret None
      end;
  (if p is None then printk MsgNotFound else mret tt);;
  mret p.

Definition find_lru_cache_record (key : option lru_cache_record_compare) :
    ST cache (option positive) :=
  p ← match key with
      | Some key => on_lru (search_record (lru_cache_find_compare_table key))
      | None => mret None
      end;
  (if p is None then printk MsgNoLruRecord else mret tt);;
  mret p.

Definition find_remove_lru_cache_record (time_stamp : timespec) : ST cache bool :=
  p ← find_lru_cache_record (Some (LruKey time_stamp));
  match p with
  | Some p => remove_lru_cache_record (Some p);; mret true
  | None => mret false
  end.

Definition find_remove_scan_cache_record (filp : fileInfo) : ST cache bool :=
  printk MsgInside;;
  let key := ScanKey (f_dev_id filp) (f_inode_number filp) (f_inode_generation filp) in
  p ← find_scan_cache_record (Some key);
  match p with
  | Some p =>
      r ← on_scan (deref p);
      printk (MsgSearch (s_dev_id r) (s_inode_number r) (s_inode_generation r));;
      r ← on_scan (deref p);
      find_remove_lru_cache_record (s_time_stamp r);;
      remove_scan_cache_record (Some p);;
      mret true
  | None =>
      printk (MsgSearchFailed (k_dev_id key) (k_inode_number key) (k_inode_generation key));;
      mret false
  end.

(** ** Purging and eviction; the loops are bounded by [fuel]. *)

Fixpoint purge_scan_cache (fuel : nat) : ST cache unit :=
  match fuel with
  | 0 => st_fail
  | S fuel =>
      t ← on_scan get_root;
      if RB_EMPTY_ROOT t then mret tt
      else
        p ← st_opt (RB_FIRST t);
        r ← on_scan (deref p);
        printk (MsgRemoving (s_dev_id r) (s_inode_number r) (s_inode_generation r));;
        remove_scan_cache_record (Some p);;
        purge_scan_cache fuel
  end.

Fixpoint purge_lru_cache (fuel : nat) : ST cache unit :=
  match fuel with
  | 0 => st_fail
  | S fuel =>
      t ← on_lru get_root;
      if RB_EMPTY_ROOT t then mret tt
      else
        p ← st_opt (RB_FIRST t);
        r ← on_lru (deref p);
        printk (MsgRemovingLru (l_dev_id r) (l_inode_number r));;
        remove_lru_cache_record (Some p);;
        purge_lru_cache fuel
  end.

Definition purge_cache (fuel : nat) : ST cache unit :=
  purge_scan_cache fuel;; purge_lru_cache fuel.

Fixpoint evict (fuel : nat) (count remove_count : Z) : ST cache unit :=
  match fuel with
  | 0 => st_fail
  | S fuel =>
      t ← on_lru get_root;
      if RB_EMPTY_ROOT t then mret tt
      else
        match RB_FIRST t with
        | None => mret tt
        | Some l =>
            r ← on_lru (deref l);
            printk (MsgEvicting (l_dev_id r) (l_inode_number r));;
            let key := ScanKey (l_dev_id r) (l_inode_number r) (l_inode_generation r) in
            p ← find_scan_cache_record (Some key);
            match p with
            | None => mret tt
            | Some p =>
                remove_lru_cache_record (Some l);;
                remove_scan_cache_record (Some p);;
                let remove_count := s32 (remove_count + 1) in
                if (count <=? remove_count)%Z then mret tt else evict fuel count remove_count
            end
        end
  end.

Definition remove_cache_entry (fuel : nat) (count : Z) : ST cache unit :=
  if (count <=? 0)%Z then mret tt else evict fuel count 0.

(** ** Module set-up and tear-down *)

Definition kmem_cache_create : ST cache bool := λ s,
  Some (k_slab (slab_requests s),
    Cache (scan s) (lru s) (ticks s) (S (slab_requests s)) (klog s)).

Definition init_scan_cache : ST cache Z :=
  b ← kmem_cache_create; on_scan (set_slab b);;
  ret ← (if b : bool then mret 0%Z else printk MsgNoScanSlab;; mret (- ENOMEM)%Z);
  b ← kmem_cache_create; on_lru (set_slab b);;
  (if b : bool then mret ret else printk MsgNoLruSlab;; mret (- ENOMEM)%Z).

Definition exit_scan_cache (fuel : nat) : ST cache unit :=
  remove_cache_entry fuel 2;;
  purge_cache fuel;;
  on_scan destroy_slab;;
  on_lru destroy_slab.
End operations.
