(* ===== verification/CacheHalf.v ===== *)
(** * One half of the scan cache: representation and operation lemmas

    A half represents the records [xs] linked in its tree, in order, and the
    records [zs] that are allocated but not linked (a record under construction,
    one that was replaced, or one that leaked). The lemmas say what the kernel
    calls and the locked tree operations of cache.c do to [xs] and [zs]; both the
    scan cache and the LRU cache are instances. *)

From Stdlib Require Import ZArith Lia ssreflect.
From stdpp Require Import base list numbers gmap sorting.
From S2P Require Import Prelude RbTree Cache.

Section half_proofs.
Context `{K : Kernel} {laws : KernelLaws K} {A : Type}.
Implicit Types (h : half A) (xs ys zs : list (positive * A)).

(** The tree and the objects, the lock aside. *)
Record linked h xs zs : Prop := {
  linked_slab : slab h = true;
  linked_valid : rb_valid (root h);
  linked_root : inorder (root h) = xs.*1;
  linked_objects : map_to_list (objects h) ≡ₚ xs ++ zs }.

(** Between two operations the lock is free. *)
Definition half_rep h (n : nat) xs zs : Prop :=
  linked h xs zs ∧ lock h = false ∧ requests h = n.

(** ** Facts on represented halves *)

Lemma linked_nodup h xs zs : linked h xs zs → NoDup (xs ++ zs).*1.
Proof. intros [_ _ _ Hp]. rewrite -Hp. apply NoDup_fst_map_to_list. Qed.

Lemma linked_inorder_nodup h xs zs : linked h xs zs → NoDup (inorder (root h)).
Proof.
  intros H. rewrite (linked_root _ _ _ H). apply linked_nodup in H.
  rewrite fmap_app in H. by apply NoDup_app in H as [? _].
Qed.

Lemma linked_lookup h xs zs p a :
  linked h xs zs → (p, a) ∈ xs ++ zs → objects h !! p = Some a.
Proof. intros [_ _ _ Hp] Hin. apply elem_of_map_to_list. by rewrite Hp. Qed.

(** An unlinked record is not in the tree. *)
Lemma linked_fresh h xs p a zs :
  linked h xs ((p, a) :: zs) → p ∉ inorder (root h).
Proof.
  intros H. rewrite (linked_root _ _ _ H). apply linked_nodup in H.
  rewrite fmap_app fmap_cons in H. apply NoDup_app in H as (_ & Hd & _).
  intros Hin. apply (Hd p Hin). set_solver.
Qed.

(** ** Searching *)

Section walks.
Context (cmp : positive → ST (half A) Z) (c : A → Z).

(** The comparison of the walk reads live objects. *)
Definition reads h : Prop :=
  ∀ p a, objects h !! p = Some a → cmp p h = Some (c a, h).

(** The comparison as a function of the pointer, in the state [h]. *)
Definition cmp_at h (p : positive) : Z :=
  match objects h !! p with Some a => c a | None => 0 end.

Lemma compares_linked h xs zs : linked h xs zs → reads h → compares cmp (cmp_at h) h (root h).
Proof.
  intros H Hr q Hq. rewrite (linked_root _ _ _ H) in Hq.
  apply list_elem_of_fmap in Hq as ([p a] & -> & Hin).
  assert (objects h !! p = Some a) as Ho by (eapply linked_lookup; set_solver).
  unfold cmp_at. simpl. rewrite Ho. by apply Hr.
Qed.

Lemma cmp_at_forall h xs zs ys (P : Z → Prop) :
  linked h xs zs → ys ⊆ xs → Forall (λ r, P (c r.2)) ys → Forall (λ q, P (cmp_at h q)) ys.*1.
Proof.
  intros H Hs Hf. rewrite Forall_fmap. apply Forall_forall. intros [p a] Hin.
  rewrite Forall_forall in Hf. specialize (Hf _ Hin). unfold cmp_at. simpl.
  rewrite (linked_lookup h xs zs p a) //. set_solver.
Qed.

Lemma search_miss h xs zs l r :
  linked h xs zs → reads h → xs = l ++ r →
  Forall (λ x, 0 < c x.2)%Z l → Forall (λ x, c x.2 < 0)%Z r →
  RB_SEARCH (root h) cmp h = Some (None, h) ∧
  ∃ n, rb_insert_walk cmp (root h) h = Some (Some n, h) ∧ slot n (root h) = Some Leaf ∧
    before n (root h) = l.*1 ∧ after n (root h) = r.*1.
Proof.
  intros H Hr E Hl Hg. pose proof (compares_linked _ _ _ H Hr) as Hc.
  assert (inorder (root h) = l.*1 ++ r.*1) as Ei by by rewrite (linked_root _ _ _ H) E fmap_app.
  assert (Forall (λ q, 0 < cmp_at h q)%Z l.*1) as Hl'.
  { apply (cmp_at_forall h xs zs l (λ z, 0 < z)%Z); [done|set_solver|done]. }
  assert (Forall (λ q, cmp_at h q < 0)%Z r.*1) as Hg'.
  { apply (cmp_at_forall h xs zs r (λ z, z < 0)%Z); [done|set_solver|done]. }
  split; [by eapply RB_SEARCH_miss|by eapply rb_insert_walk_miss].
Qed.

Lemma search_hit h xs zs l p a r :
  linked h xs zs → reads h → xs = l ++ (p, a) :: r →
  Forall (λ x, 0 < c x.2)%Z l → c a = 0%Z → Forall (λ x, c x.2 < 0)%Z r →
  RB_SEARCH (root h) cmp h = Some (Some p, h) ∧ rb_insert_walk cmp (root h) h = Some (None, h).
Proof.
  intros H Hr E Hl Ha Hg. pose proof (compares_linked _ _ _ H Hr) as Hc.
  apply (RB_walks_hit _ (cmp_at h) _ _ l.*1 _ r.*1); [done|..].
  - by rewrite (linked_root _ _ _ H) E fmap_app.
  - apply (cmp_at_forall h xs zs l (λ z, 0 < z)%Z); [done|set_solver|done].
  - unfold cmp_at. rewrite (linked_lookup h xs zs p a) //. set_solver.
  - apply (cmp_at_forall h xs zs r (λ z, z < 0)%Z); [done|set_solver|done].
Qed.
End walks.

(** ** Operations *)

(** The half with its lock taken. *)
Definition locked h : half A := Half (slab h) (objects h) (root h) true (requests h).

Lemma locked_linked h xs zs : linked h xs zs → linked (locked h) xs zs.
Proof. by intros []. Qed.

Lemma half_unlocked h :
  lock h = false → Half (slab h) (objects h) (root h) false (requests h) = h.
Proof. destruct h. simpl. by intros ->. Qed.

Lemma deref_spec h n xs zs p a :
  half_rep h n xs zs → (p, a) ∈ xs ++ zs → deref p h = Some (a, h).
Proof. intros (H & _) Hin. unfold deref. by rewrite (linked_lookup _ _ _ _ _ H Hin). Qed.

(** [cmp] compares with [c] as long as the objects are those of [h]. *)
Definition compares_as (cmp : positive → ST (half A) Z) (c : A → Z) h : Prop :=
  ∀ h', objects h' = objects h → reads cmp c h'.

Lemma search_record_run cmp h r :
  lock h = false → RB_SEARCH (root h) cmp (locked h) = Some (r, locked h) →
  search_record cmp h = Some (r, h).
Proof.
  intros Hl Hs. unfold search_record, mbind, ST_bind, spin_lock. rewrite Hl /=.
  change (Half (slab h) (objects h) (root h) true (requests h)) with (locked h). rewrite Hs /=.
  by rewrite /mret /ST_ret half_unlocked.
Qed.

Lemma search_record_miss cmp c h n xs zs l r :
  half_rep h n xs zs → compares_as cmp c h → xs = l ++ r →
  Forall (λ x, 0 < c x.2)%Z l → Forall (λ x, c x.2 < 0)%Z r →
  search_record cmp h = Some (None, h).
Proof.
  intros (H & Hl & _) Hc E Hlt Hgt. apply search_record_run; [done|].
  by eapply (search_miss cmp c (locked h)); [apply locked_linked|apply Hc|..].
Qed.

Lemma search_record_hit cmp c h n xs zs l p a r :
  half_rep h n xs zs → compares_as cmp c h → xs = l ++ (p, a) :: r →
  Forall (λ x, 0 < c x.2)%Z l → c a = 0%Z → Forall (λ x, c x.2 < 0)%Z r →
  search_record cmp h = Some (Some p, h).
Proof.
  intros (H & Hl & _) Hc E Hlt Ha Hgt. apply search_record_run; [done|].
  by eapply (search_hit cmp c (locked h)); [apply locked_linked|apply Hc|..].
Qed.

Lemma insert_record_new cmp c h n p a l r zs :
  half_rep h n (l ++ r) ((p, a) :: zs) → compares_as cmp c h →
  Forall (λ x, 0 < c x.2)%Z l → Forall (λ x, c x.2 < 0)%Z r →
  ∃ h', insert_record p cmp h = Some (0%Z, h') ∧ half_rep h' n (l ++ (p, a) :: r) zs.
Proof.
  intros (H & Hl & Hn) Hc Hlt Hgt.
  destruct (search_miss cmp c (locked h) (l ++ r) ((p, a) :: zs) l r)
    as (_ & k & Hw & Hs & Hb & Ha); [by apply locked_linked|by apply Hc|done..|].
  unfold insert_record, mbind, ST_bind, spin_lock. rewrite Hl /=.
  change (Half (slab h) (objects h) (root h) true (requests h)) with (locked h).
  unfold RB_INSERT, mbind, ST_bind. rewrite Hw /=. eexists. split; [reflexivity|].
  split_and!; [|done..]. split; simpl.
  - by destruct H.
  - apply rb_insert_valid; [by destruct H|done|by eapply linked_fresh].
  - rewrite rb_insert_inorder //; [by eapply linked_fresh|].
    simpl in *. by rewrite Hb Ha fmap_app.
  - rewrite (linked_objects _ _ _ H) -!app_assoc. simpl. f_equiv. by rewrite -Permutation_middle.
Qed.

Lemma insert_record_dup cmp c h n xs zs p l q b r :
  half_rep h n xs zs → compares_as cmp c h → xs = l ++ (q, b) :: r →
  Forall (λ x, 0 < c x.2)%Z l → c b = 0%Z → Forall (λ x, c x.2 < 0)%Z r →
  insert_record p cmp h = Some ((-1)%Z, h).
Proof.
  intros (H & Hl & Hn) Hc E Hlt Hb Hgt.
  destruct (search_hit cmp c (locked h) xs zs l q b r) as (_ & Hw);
    [by apply locked_linked|by apply Hc|done..|].
  unfold insert_record, mbind, ST_bind, spin_lock. rewrite Hl /=.
  change (Half (slab h) (objects h) (root h) true (requests h)) with (locked h).
  unfold RB_INSERT, mbind, ST_bind. rewrite Hw /=.
  by rewrite /mret /ST_ret half_unlocked.
Qed.

Lemma free_spec h n xs p a zs :
  half_rep h n xs ((p, a) :: zs) →
  ∃ h', kmem_cache_free p h = Some (tt, h') ∧ half_rep h' n xs zs.
Proof.
  intros (H & Hl & Hn). unfold kmem_cache_free.
  assert (objects h !! p = Some a) as Ho by (eapply linked_lookup; [done|set_solver]).
  rewrite Ho (linked_slab _ _ _ H). eexists. split; [reflexivity|].
  split_and!; [|done..]. split; simpl; [done|by destruct H..|].
  apply (Permutation_cons_inv (a:=(p, a))). rewrite map_to_list_delete //.
  rewrite (linked_objects _ _ _ H). by rewrite -Permutation_middle.
Qed.

Lemma unlink_spec h n l p a r zs :
  half_rep h n (l ++ (p, a) :: r) zs →
  ∃ h', (spin_lock ≫= λ _, get_root ≫= λ t, RB_REMOVE t p ≫= λ t',
           put_root t' ≫= λ _, spin_unlock) h = Some (tt, h') ∧
    half_rep h' n (l ++ r) ((p, a) :: zs).
Proof.
  intros (H & Hl & Hn). pose proof (linked_inorder_nodup _ _ _ H) as Hnd.
  assert (inorder (root h) = l.*1 ++ p :: r.*1) as E by by rewrite (linked_root _ _ _ H) fmap_app.
  unfold mbind, ST_bind, spin_lock, RB_REMOVE. rewrite Hl /=.
  rewrite bool_decide_true; [rewrite E; set_solver|]. simpl.
  eexists. split; [reflexivity|]. split_and!; [|done..]. split; simpl.
  - by destruct H.
  - apply rb_erase_valid; [by destruct H|done|rewrite E; set_solver].
  - by rewrite (rb_erase_inorder _ _ _ _ Hnd E) fmap_app.
  - rewrite (linked_objects _ _ _ H) -!app_assoc. simpl. f_equiv. by rewrite Permutation_middle.
Qed.

Lemma remove_record_spec h n l p a r zs :
  half_rep h n (l ++ (p, a) :: r) zs →
  ∃ h', remove_record p h = Some (tt, h') ∧ half_rep h' n (l ++ r) zs.
Proof.
  intros H. destruct (unlink_spec _ _ _ _ _ _ _ H) as (h1 & E & H1).
  destruct (free_spec _ _ _ _ _ _ H1) as (h2 & E2 & H2). exists h2. split; [|done].
  revert E. unfold remove_record, mbind, ST_bind. repeat case_match; try done.
  intros. simplify_eq. done.
Qed.

Lemma replace_record_spec h n l old a r new b zs :
  half_rep h n (l ++ (old, a) :: r) ((new, b) :: zs) →
  ∃ h', replace_record old new h = Some (tt, h') ∧
    half_rep h' n (l ++ (new, b) :: r) ((old, a) :: zs).
Proof.
  intros (H & Hl & Hn). pose proof (linked_inorder_nodup _ _ _ H) as Hnd.
  assert (inorder (root h) = l.*1 ++ old :: r.*1) as E by by rewrite (linked_root _ _ _ H) fmap_app.
  unfold replace_record, mbind, ST_bind, spin_lock, RB_REPLACE. rewrite Hl /=.
  rewrite bool_decide_true; [rewrite E; set_solver|]. simpl.
  eexists. split; [reflexivity|]. split_and!; [|done..]. split; simpl.
  - by destruct H.
  - apply rb_replace_valid. by destruct H.
  - rewrite (rb_replace_inorder _ _ _ _ _ Hnd _ E); [by eapply linked_fresh|by rewrite fmap_app].
  - rewrite (linked_objects _ _ _ H) -!app_assoc. simpl. f_equiv.
    rewrite -Permutation_middle. rewrite Permutation_swap. f_equiv. by rewrite Permutation_middle.
Qed.

Lemma alloc_some h n xs zs answer a :
  half_rep h n xs zs → answer n = Some a →
  ∃ p h', kmem_cache_alloc answer h = Some (Some p, h') ∧ half_rep h' (S n) xs ((p, a) :: zs).
Proof.
  intros (H & Hl & Hn) Ha. unfold kmem_cache_alloc.
  rewrite (linked_slab _ _ _ H) Hn Ha. eexists _, _. split; [reflexivity|].
  split_and!; [|done..]. split; simpl; [done|by destruct H..|].
  rewrite map_to_list_insert; [|by rewrite (linked_objects _ _ _ H) Permutation_middle].
  apply not_elem_of_dom, kl_address.
Qed.

Lemma alloc_none h n xs zs answer :
  half_rep h n xs zs → answer n = None →
  ∃ h', kmem_cache_alloc answer h = Some (None, h') ∧ half_rep h' (S n) xs zs.
Proof.
  intros (H & Hl & Hn) Ha. unfold kmem_cache_alloc.
  rewrite (linked_slab _ _ _ H) Hn Ha. eexists. split; [reflexivity|].
  split_and!; [|done..]. split; simpl; [done|by destruct H..].
Qed.

Lemma assign_spec h n xs p a zs f :
  half_rep h n xs ((p, a) :: zs) →
  ∃ h', assign p f h = Some (tt, h') ∧ half_rep h' n xs ((p, f a) :: zs).
Proof.
  intros (H & Hl & Hn). unfold assign.
  assert (objects h !! p = Some a) as Ho by (eapply linked_lookup; [done|set_solver]).
  rewrite Ho. eexists. split; [reflexivity|]. split_and!; [|done..].
  split; simpl; [by destruct H..|].
  rewrite -insert_delete_eq map_to_list_insert; [apply lookup_delete_eq|].
  rewrite -Permutation_middle. f_equiv. apply (Permutation_cons_inv (a:=(p, a))).
  rewrite map_to_list_delete // (linked_objects _ _ _ H). by rewrite -Permutation_middle.
Qed.

(** An empty root is an empty list of records. *)
Lemma half_rep_empty h n xs zs :
  half_rep h n xs zs → RB_EMPTY_ROOT (root h) = bool_decide (xs = []).
Proof.
  intros (H & _). pose proof (linked_root _ _ _ H) as E. destruct (root h) as [|c l p r], xs; simpl in *.
  - done.
  - done.
  - by destruct (inorder l).
  - done.
Qed.

Lemma half_rep_first h n p a xs zs :
  half_rep h n ((p, a) :: xs) zs → RB_FIRST (root h) = Some p.
Proof. intros (H & _). unfold RB_FIRST. by rewrite rb_first_inorder (linked_root _ _ _ H). Qed.
End half_proofs.

Arguments linked {A} _ _ _.
Arguments half_rep {A} _ _ _ _.
Arguments compares_as {A} _ _ _.
