(* ===== verification/CacheOrder.v ===== *)
(** * The orders of the scan cache

    What the four comparison functions of cache.c compute. On records of one
    device with inode numbers below 2^63 they are the sign of a difference of
    integer keys, which makes the trees search trees; on records of different
    devices they are not an order at all. *)

From Stdlib Require Import ZArith Lia ssreflect.
From stdpp Require Import base list numbers gmap sorting.
From S2P Require Import Prelude RbTree Cache.

(** ** Ranges *)

(** Nanoseconds since the epoch. *)
Definition ts_key (t : timespec) : Z := (tv_sec t * 1000000000 + tv_nsec t)%Z.

Definition ino_ok (i : Z) : Prop := (0 <= i < 2 ^ 63)%Z.

Definition scan_ok (d : Z) (r : scan_cache_record) : Prop :=
  s_dev_id r = d ∧ ino_ok (s_inode_number r) ∧ in_u32 (s_inode_generation r) ∧
  ts_ok (s_time_stamp r).

Definition lru_ok (d : Z) (r : lru_cache_record) : Prop :=
  l_dev_id r = d ∧ ts_ok (l_time_stamp r).

Definition file_ok (d : Z) (f : fileInfo) : Prop :=
  f_dev_id f = d ∧ ino_ok (f_inode_number f) ∧ in_u32 (f_inode_generation f).

(** ** Levels and differences *)

Lemma level_sgn x next : level x next = if (x =? 0)%Z then next else Z.sgn x.
Proof.
  unfold level. destruct (Z.ltb_spec 0 x), (Z.ltb_spec x 0), (Z.eqb_spec x 0); lia.
Qed.

Lemma diff_u32_same a : diff_u32 a a = 0%Z.
Proof. unfold diff_u32. by rewrite Z.sub_diag. Qed.

Lemma diff_u32_pos a b : in_u32 a → in_u32 b → a ≠ b → (0 < diff_u32 a b)%Z.
Proof.
  intros Ha Hb Hne. unfold diff_u32. rewrite s64_id.
  - pose proof (u32_range (a - b)). int_solve.
  - unfold u32, in_u32 in *. pose proof (Z.mod_pos_bound (a - b) (2 ^ 32)).
    destruct (Z.lt_trichotomy a b) as [?|[?|?]]; [|done|].
    + rewrite -(Z.mod_add _ 1) //. rewrite Z.mod_small; lia.
    + rewrite Z.mod_small; lia.
Qed.

Lemma diff_u64_small a b : ino_ok a → ino_ok b → diff_u64 a b = (a - b)%Z.
Proof. unfold ino_ok. intros. apply s64_sub_small. lia. Qed.

Lemma diff_u64_wrap a b : diff_u64 (u64 a) (u64 b) = s64 (a - b).
Proof. unfold diff_u64. rewrite s64_u64. unfold s64, u64. f_equal.
  rewrite -(Z.add_mod_idemp_l (a mod _ - _)) // -Zminus_mod Z.add_mod_idemp_l //.
Qed.

Lemma diff_s64_small a b :
  (0 <= a < 2 ^ 63)%Z → (0 <= b < 2 ^ 63)%Z → diff_s64 a b = (a - b)%Z.
Proof. intros. apply s64_id. int_solve. Qed.

(** ** The comparisons as signs *)

Lemma scan_insert_order_sgn d a b :
  scan_ok d a → scan_ok d b →
  scan_insert_order a b = Z.sgn (s_inode_number a - s_inode_number b).
Proof.
  intros (Ha & Hia & _) (Hb & Hib & _). unfold scan_insert_order.
  rewrite Ha Hb diff_u32_same diff_u64_small // !level_sgn /=. case_match; lia.
Qed.

(** A lookup asks for the generation too: a stale one is never equal. *)
Lemma scan_find_order_sgn d i g b :
  scan_ok d b → ino_ok i → in_u32 g →
  scan_find_order (ScanKey d i g) b =
    (if i =? s_inode_number b then if g =? s_inode_generation b then 0 else 1
     else Z.sgn (i - s_inode_number b))%Z.
Proof.
  intros (Hb & Hib & Hgb & _) Hi Hg. unfold scan_find_order. simpl.
  rewrite Hb diff_u32_same diff_u64_small // !level_sgn /=.
  destruct (Z.eqb_spec i (s_inode_number b)) as [->|Hne].
  - rewrite Z.sub_diag /=. destruct (Z.eqb_spec g (s_inode_generation b)) as [->|Hn].
    + by rewrite diff_u32_same.
    + pose proof (diff_u32_pos g _ Hg Hgb Hn). case_match; lia.
  - case_match; lia.
Qed.

Lemma time_order_sgn a b : ts_ok a → ts_ok b → time_order a b = Z.sgn (ts_key a - ts_key b).
Proof.
  intros [Ha1 Ha2] [Hb1 Hb2]. unfold time_order, ts_key.
  rewrite diff_s64_small // diff_s64_small; [lia..|]. rewrite !level_sgn.
  repeat case_match; lia.
Qed.

Lemma ts_key_inj a b : ts_ok a → ts_ok b → ts_key a = ts_key b → a = b.
Proof.
  destruct a as [s n], b as [s' n']. unfold ts_ok, ts_key. simpl. intros. f_equal; lia.
Qed.

(** ** Sequences of records sorted by a key *)

Section sorted.
Context {A : Type} (key : A → Z).
Implicit Types (xs l r : list (positive * A)).

Definition sorted_by xs : Prop := StronglySorted (λ x y, key x.2 < key y.2)%Z xs.

Lemma sorted_by_app l r :
  sorted_by (l ++ r) ↔
  sorted_by l ∧ sorted_by r ∧ (∀ x y, x ∈ l → y ∈ r → (key x.2 < key y.2)%Z).
Proof.
  unfold sorted_by. induction l as [|x l IH]; simpl.
  - split; [intros; split_and!; [constructor|done|set_solver]|tauto].
  - split.
    + intros H. inversion H as [|? ? Hs Hf]; subst. apply IH in Hs as (Hl & Hr & Hlr).
      apply Forall_app in Hf as [Hf1 Hf2]. split_and!; [by constructor|done|].
      rewrite Forall_forall in Hf2. intros a b [->|]%elem_of_cons; auto.
    + intros (H & Hr & Hlr). inversion H as [|? ? Hs Hf]; subst. constructor.
      * apply IH. split_and!; [done..|]. intros. apply Hlr; set_solver.
      * apply Forall_app. split; [done|]. apply Forall_forall. intros. apply Hlr; set_solver.
Qed.

Lemma sorted_by_remove l x r : sorted_by (l ++ x :: r) → sorted_by (l ++ r).
Proof.
  rewrite !sorted_by_app. intros (Hl & Hr & Hlr). inversion Hr; subst.
  split_and!; [done..|]. intros. apply Hlr; set_solver.
Qed.

Lemma sorted_by_insert l p a r :
  sorted_by (l ++ r) → Forall (λ x, key x.2 < key a)%Z l → Forall (λ x, key a < key x.2)%Z r →
  sorted_by (l ++ (p, a) :: r).
Proof.
  rewrite !sorted_by_app. intros (Hl & Hr & Hlr) Hfl Hfr. split_and!; [done|by constructor|].
  rewrite Forall_forall in Hfl. intros x y Hx [->|Hy]%elem_of_cons; [by apply Hfl|by apply Hlr].
Qed.

Lemma sorted_by_inj xs x y :
  sorted_by xs → x ∈ xs → y ∈ xs → key x.2 = key y.2 → x = y.
Proof.
  intros Hs Hx Hy E. apply list_elem_of_split in Hx as (l & r & ->).
  rewrite sorted_by_app in Hs. destruct Hs as (_ & Hr & Hlr). inversion Hr as [|? ? _ Hf]; subst.
  rewrite Forall_forall in Hf. apply elem_of_app in Hy as [Hy|[->|Hy]%elem_of_cons]; [|done|].
  - assert (key y.2 < key x.2)%Z by (apply Hlr; set_solver). lia.
  - specialize (Hf y Hy). simpl in Hf. lia.
Qed.

(** Where a key falls in a sorted sequence. *)
Lemma sorted_cut k xs :
  sorted_by xs →
  (∃ l r, xs = l ++ r ∧ Forall (λ x, key x.2 < k)%Z l ∧ Forall (λ x, k < key x.2)%Z r) ∨
  (∃ l p a r, xs = l ++ (p, a) :: r ∧ key a = k ∧
     Forall (λ x, key x.2 < k)%Z l ∧ Forall (λ x, k < key x.2)%Z r).
Proof.
  induction xs as [|[p a] xs IH]; intros H; [left; by exists [], []|].
  inversion H as [|? ? Hs Hf]; subst. simpl in Hf.
  destruct (Z.lt_trichotomy (key a) k) as [Hlt|[Heq|Hgt]].
  - destruct (IH Hs) as [(l & r & -> & ? & ?)|(l & q & b & r & -> & ? & ? & ?)].
    + left. exists ((p, a) :: l), r. split_and!; [done|by constructor|done].
    + right. exists ((p, a) :: l), q, b, r. split_and!; [done|done|by constructor|done].
  - right. exists [], p, a, xs. split_and!; [done|done|done|].
    eapply Forall_impl; [done|]. simpl. lia.
  - left. exists [], ((p, a) :: xs). split_and!; [done|done|].
    constructor; [done|]. eapply Forall_impl; [done|]. simpl. lia.
Qed.

(** The sequence around a record, as keys on both sides. *)
Lemma sorted_around l p a r :
  sorted_by (l ++ (p, a) :: r) →
  Forall (λ x, key x.2 < key a)%Z l ∧ Forall (λ x, key a < key x.2)%Z r.
Proof.
  rewrite sorted_by_app. intros (_ & Hr & Hlr). inversion Hr; subst.
  split; [|done]. apply Forall_forall. intros x Hx. apply (Hlr x (p, a)); set_solver.
Qed.
End sorted.

(** ** Properties *)

(** On live records of one device with inode numbers below 2^63 and clock
    readings as time stamps, the comparison functions return the sign of the
    difference of inode numbers, or of time stamps in nanoseconds, and leave the
    state alone; a lookup key equals a record exactly when inode number and
    generation both match, and a stale generation compares as greater. *)
Theorem comparisons_one_device d p q a b g (h : half scan_cache_record) :
  objects h !! p = Some a → objects h !! q = Some b →
  scan_ok d a → scan_ok d b → in_u32 g →
  scan_cache_insert_compare_table (Some p) (Some q) h =
    Some (Z.sgn (s_inode_number a - s_inode_number b), h) ∧
  scan_cache_find_compare_table (Some (ScanKey d (s_inode_number a) g)) (Some q) h =
    Some (if s_inode_number a =? s_inode_number b
          then if g =? s_inode_generation b then 0 else 1
          else Z.sgn (s_inode_number a - s_inode_number b), h)%Z ∧
  time_order (s_time_stamp a) (s_time_stamp b) =
    Z.sgn (ts_key (s_time_stamp a) - ts_key (s_time_stamp b)).
Proof.
  intros Hp Hq Ha Hb Hg. split_and!.
  - unfold scan_cache_insert_compare_table, mbind, ST_bind, deref. rewrite Hp Hq.
    by rewrite (scan_insert_order_sgn d).
  - unfold scan_cache_find_compare_table, mbind, ST_bind, deref. rewrite Hq.
    rewrite (scan_find_order_sgn d) //. apply Ha.
  - apply time_order_sgn; [apply Ha|apply Hb].
Qed.

Lemma comparisons_one_device_witness :
  let a := ScanRec 100 1001 12345 STATE_CLEAN (Timespec 5 7) in
  let b := ScanRec 100 1009 12346 STATE_CLEAN (Timespec 5 6) in
  let h := Half true {[ 1%positive := a; 2%positive := b ]} Leaf false 0 in
  scan_cache_insert_compare_table (Some 1%positive) (Some 2%positive) h = Some ((-1)%Z, h).
Proof.
  intros a b h.
  apply (comparisons_one_device 100 1%positive 2%positive a b 7 h);
    [reflexivity|reflexivity|..]; unfold scan_ok, ino_ok, ts_ok, in_u32; simpl; lia.
Defined.

(** The difference of two device numbers is unsigned, so it is never
    negative: of two records of different devices each compares as greater than
    the other, in insertions and in lookups. *)
Theorem devices_not_ordered a b g :
  in_u32 (s_dev_id a) → in_u32 (s_dev_id b) → s_dev_id a ≠ s_dev_id b →
  scan_insert_order a b = 1%Z ∧ scan_insert_order b a = 1%Z ∧
  scan_find_order (ScanKey (s_dev_id a) (s_inode_number a) g) b = 1%Z.
Proof.
  intros Ha Hb Hne. unfold scan_insert_order, scan_find_order, level; simpl.
  pose proof (diff_u32_pos _ _ Ha Hb Hne). pose proof (diff_u32_pos _ _ Hb Ha (not_eq_sym Hne)).
  repeat case_match; lia.
Qed.

Lemma devices_not_ordered_witness :
  let a := ScanRec 100 1006 12350 STATE_CLEAN (Timespec 5 7) in
  let b := ScanRec 99 1006 12351 STATE_CLEAN (Timespec 5 6) in
  scan_insert_order a b = 1%Z ∧ scan_insert_order b a = 1%Z ∧
  scan_find_order (ScanKey 100 1006 12350) b = 1%Z.
Proof.
  intros a b. apply (devices_not_ordered a b 12350); unfold in_u32; simpl; lia.
Defined.

(** The difference of two inode numbers wraps around at 2^63: for every
    inode number [i], the numbers [i], [i + (2^63 - 1)] and [i + (2^64 - 2)]
    (modulo 2^64) are each smaller than the next one and the last is smaller than the first, so the
    insertion order of one device has cycles. *)
Theorem inode_order_cycles d i g st t :
  in_u64 i →
  let r j := ScanRec d (u64 j) g st t in
  scan_insert_order (r i) (r (i + (2 ^ 63 - 1))%Z) = (-1)%Z ∧
  scan_insert_order (r (i + (2 ^ 63 - 1))%Z) (r (i + (2 ^ 64 - 2))%Z) = (-1)%Z ∧
  scan_insert_order (r (i + (2 ^ 64 - 2))%Z) (r i) = (-1)%Z.
Proof.
  intros Hi r. unfold scan_insert_order, r; simpl. rewrite diff_u32_same !diff_u64_wrap.
  replace (i - (i + (2 ^ 63 - 1)))%Z with (- (2 ^ 63 - 1))%Z by lia.
  replace (i + (2 ^ 63 - 1) - (i + (2 ^ 64 - 2)))%Z with (- (2 ^ 63 - 1))%Z by lia.
  replace (i + (2 ^ 64 - 2) - i)%Z with (2 ^ 64 - 2)%Z by lia.
  split_and!; reflexivity.
Qed.

Lemma inode_order_cycles_witness :
  in_u64 7 ∧
  scan_insert_order (ScanRec 100 (u64 7) 1 STATE_CLEAN (Timespec 0 0))
    (ScanRec 100 (u64 (7 + (2 ^ 63 - 1))) 1 STATE_CLEAN (Timespec 0 0)) = (-1)%Z.
Proof.
  split; [unfold in_u64; lia|].
  apply (inode_order_cycles 100 7 1 STATE_CLEAN (Timespec 0 0)); unfold in_u64; lia.
Defined.
