(* ===== verification/CacheSpec.v ===== *)
(** * The scan cache: abstract specification and representation

    The cache of one device promises a finite map from inode numbers to the
    generation and time stamp they were inserted with. [spec] is that map with
    the number of answers taken from the kernel so far and the number of LRU
    records leaked; the [spec_*] functions are the promised operations. [conn]
    and [tables] relate a state of the implementation to it. *)

From Stdlib Require Import ZArith Lia ssreflect.
From stdpp Require Import base list numbers gmap sorting.
From S2P Require Import Prelude RbTree Cache CacheHalf CacheOrder.

(** ** The specification *)

(** Inode number, generation and time stamp. *)
Definition entry : Type := Z * (Z * timespec).

Record spec := Spec {
  sp_map : gmap Z (Z * timespec);
  sp_ticks : nat;
  sp_scan : nat;
  sp_lru : nat;
  sp_leaked : nat }.

Definition spec_init : spec := Spec ∅ 0 0 0 0.

Definition age_le (a b : entry) : Prop := (ts_key a.2.2 <= ts_key b.2.2)%Z.

#[global] Instance age_le_dec : RelDecision age_le.
Proof. intros a b. unfold age_le. apply _. Defined.

(** The entries, oldest first. *)
Definition by_age (m : gmap Z (Z * timespec)) : list entry := merge_sort age_le (map_to_list m).

(** A time stamp that an entry already has. *)
Definition ts_used (t : timespec) (m : gmap Z (Z * timespec)) : bool :=
  existsb (λ e, bool_decide (e.2.2 = t)) (map_to_list m).

Section spec_ops.
Context `{K : Kernel}.

(** A new entry comes in, unless there is no memory for its LRU record or its time
    stamp is taken; in the last case the LRU record is lost. *)
Definition spec_enter (e : entry) (m : gmap Z (Z * timespec)) (t ns nl lk : nat) : Z * spec :=
  match k_lru_object nl with
  | None => (-1, Spec m t ns (S nl) lk)%Z
  | Some _ =>
      if ts_used e.2.2 m then (-1, Spec m t ns (S nl) (S lk))%Z
      else (0, Spec (<[e.1 := e.2]> m) t ns (S nl) lk)%Z
  end.

(** Without memory for the scan record nothing happens. Otherwise an older entry of
    the inode goes away, whatever becomes of the new one. *)
Definition spec_insert (f : fileInfo) (sp : spec) : Z * spec :=
  let '(Spec m t ns nl lk) := sp in
  match k_scan_object ns with
  | None => (- ENOMEM, Spec m t (S ns) nl lk)%Z
  | Some _ =>
      spec_enter (f_inode_number f, (f_inode_generation f, k_clock t))
        (delete (f_inode_number f) m) (S t) (S ns) nl lk
  end.

Definition spec_map (g : gmap Z (Z * timespec) → gmap Z (Z * timespec)) (sp : spec) : spec :=
  let '(Spec m t ns nl lk) := sp in Spec (g m) t ns nl lk.

(** A cached file is dropped when the generation matches. *)
Definition spec_find_remove (f : fileInfo) (sp : spec) : bool * spec :=
  match sp_map sp !! f_inode_number f with
  | Some (g, _) =>
      if (f_inode_generation f =? g)%Z
      then (true, spec_map (delete (f_inode_number f)) sp) else (false, sp)
  | None => (false, sp)
  end.

(** The [count] oldest entries are dropped. *)
Definition spec_evict (count : Z) (sp : spec) : spec :=
  spec_map (λ m, list_to_map (drop (Z.to_nat count) (by_age m))) sp.

Definition spec_purge (sp : spec) : spec := spec_map (λ _, ∅) sp.
End spec_ops.

(** ** Representation *)

Definition e_scan (r : scan_cache_record) : entry :=
  (s_inode_number r, (s_inode_generation r, s_time_stamp r)).

Definition e_lru (r : lru_cache_record) : entry :=
  (l_inode_number r, (l_inode_generation r, l_time_stamp r)).

Definition lru_key (r : lru_cache_record) : Z := ts_key (l_time_stamp r).

(** The records linked in the two trees. *)
Record tables (d : Z) (m : gmap Z (Z * timespec)) (xs : list (positive * scan_cache_record))
    (ys : list (positive * lru_cache_record)) : Prop := {
  tb_scan_sorted : sorted_by s_inode_number xs;
  tb_lru_sorted : sorted_by lru_key ys;
  tb_scan_ok : Forall (λ x, scan_ok d x.2) xs;
  tb_lru_ok : Forall (λ y, lru_ok d y.2) ys;
  tb_scan_map : (λ x, e_scan x.2) <$> xs ≡ₚ map_to_list m;
  tb_lru_map : (λ y, e_lru y.2) <$> ys ≡ₚ map_to_list m }.

(** A state whose trees hold [xs] and [ys] and whose other live records are [ws] and
    [zs]. *)
Definition conn (s : cache) (t ns nl : nat) xs ws ys zs : Prop :=
  half_rep (scan s) ns xs ws ∧ half_rep (lru s) nl ys zs ∧ ticks s = t.

(** The state implements the specification state. *)
Definition implements (d : Z) (s : cache) (sp : spec) : Prop :=
  ∃ xs ys zs, conn s (sp_ticks sp) (sp_scan sp) (sp_lru sp) xs [] ys zs ∧
    tables d (sp_map sp) xs ys ∧ length zs = sp_leaked sp.

(** ** Lemmas on tables *)

Section tables.
Context (d : Z).
Implicit Types (xs : list (positive * scan_cache_record)) (ys : list (positive * lru_cache_record)).
Implicit Types (m : gmap Z (Z * timespec)).

Lemma tables_empty : tables d ∅ [] [].
Proof. split; try constructor; by rewrite map_to_list_empty. Qed.

Lemma tables_scan_in m xs ys i g t :
  tables d m xs ys → m !! i = Some (g, t) → ∃ p a, (p, a) ∈ xs ∧ e_scan a = (i, (g, t)).
Proof.
  intros T Hm. apply elem_of_map_to_list in Hm. rewrite -(tb_scan_map _ _ _ _ T) in Hm.
  apply list_elem_of_fmap in Hm as ([p a] & E & Hin). by exists p, a.
Qed.

Lemma tables_scan_lookup m xs ys p a :
  tables d m xs ys → (p, a) ∈ xs → m !! s_inode_number a = Some (s_inode_generation a, s_time_stamp a).
Proof.
  intros T Hin. apply elem_of_map_to_list. rewrite -(tb_scan_map _ _ _ _ T).
  apply list_elem_of_fmap. by exists (p, a).
Qed.

Lemma tables_lru_lookup m xs ys q b :
  tables d m xs ys → (q, b) ∈ ys → m !! l_inode_number b = Some (l_inode_generation b, l_time_stamp b).
Proof.
  intros T Hin. apply elem_of_map_to_list. rewrite -(tb_lru_map _ _ _ _ T).
  apply list_elem_of_fmap. by exists (q, b).
Qed.

(** The place of an inode number in the scan tree. *)
Lemma tables_scan_miss m xs ys i :
  tables d m xs ys → m !! i = None →
  ∃ l r, xs = l ++ r ∧ Forall (λ x, s_inode_number x.2 < i)%Z l ∧
    Forall (λ x, i < s_inode_number x.2)%Z r.
Proof.
  intros T Hm. destruct (sorted_cut _ i _ (tb_scan_sorted _ _ _ _ T))
    as [H|(l & p & a & r & -> & <- & _)]; [done|].
  by rewrite (tables_scan_lookup m _ ys p a T) in Hm; [set_solver|].
Qed.

Lemma tables_scan_hit m xs ys i g t :
  tables d m xs ys → m !! i = Some (g, t) →
  ∃ l p a r, xs = l ++ (p, a) :: r ∧ e_scan a = (i, (g, t)) ∧
    Forall (λ x, s_inode_number x.2 < i)%Z l ∧ Forall (λ x, i < s_inode_number x.2)%Z r.
Proof.
  intros T Hm. destruct (tables_scan_in _ _ _ _ _ _ T Hm) as (p & a & Hin & E).
  apply list_elem_of_split in Hin as (l & r & ->). exists l, p, a, r.
  destruct (sorted_around _ _ _ _ _ (tb_scan_sorted _ _ _ _ T)) as [Hl Hr].
  unfold e_scan in E. by simplify_eq.
Qed.

(** The place of a time stamp in the LRU tree. *)
Lemma ts_used_false t m : ts_used t m = false ↔ ∀ i g, m !! i ≠ Some (g, t).
Proof.
  unfold ts_used. rewrite -not_true_iff_false existsb_exists. split.
  - intros H i g Hm. apply H. exists (i, (g, t)). split; [|by rewrite bool_decide_true].
    apply list_elem_of_In. by apply elem_of_map_to_list.
  - intros H ([i [g t']] & Hin & E). apply bool_decide_eq_true in E. simpl in E. subst.
    apply (H i g). apply elem_of_map_to_list. by apply list_elem_of_In.
Qed.

Lemma tables_lru_miss m xs ys t :
  tables d m xs ys → ts_ok t → ts_used t m = false →
  ∃ l r, ys = l ++ r ∧ Forall (λ y, lru_key y.2 < ts_key t)%Z l ∧
    Forall (λ y, ts_key t < lru_key y.2)%Z r.
Proof.
  intros T Ht Hu. destruct (sorted_cut _ (ts_key t) _ (tb_lru_sorted _ _ _ _ T))
    as [H|(l & q & b & r & -> & E & _)]; [done|].
  exfalso. rewrite ts_used_false in Hu. apply (Hu (l_inode_number b) (l_inode_generation b)).
  rewrite (tables_lru_lookup m xs _ q b T); [set_solver|]. do 2 f_equal.
  pose proof (tb_lru_ok _ _ _ _ T) as Hok. rewrite Forall_app Forall_cons in Hok.
  apply ts_key_inj; [apply Hok|done|done].
Qed.

Lemma tables_lru_hit m xs ys i g t :
  tables d m xs ys → m !! i = Some (g, t) →
  ∃ l q b r, ys = l ++ (q, b) :: r ∧ e_lru b = (i, (g, t)) ∧
    Forall (λ y, lru_key y.2 < ts_key t)%Z l ∧ Forall (λ y, ts_key t < lru_key y.2)%Z r.
Proof.
  intros T Hm. apply elem_of_map_to_list in Hm. rewrite -(tb_lru_map _ _ _ _ T) in Hm.
  apply list_elem_of_fmap in Hm as ([q b] & E & Hin).
  apply list_elem_of_split in Hin as (l & r & ->). exists l, q, b, r.
  destruct (sorted_around _ _ _ _ _ (tb_lru_sorted _ _ _ _ T)) as [Hl Hr].
  unfold e_lru, lru_key in *. by simplify_eq/=.
Qed.

Lemma tables_lru_taken m xs ys t :
  tables d m xs ys → ts_used t m = true →
  ∃ l q b r, ys = l ++ (q, b) :: r ∧ l_time_stamp b = t ∧
    Forall (λ y, lru_key y.2 < ts_key t)%Z l ∧ Forall (λ y, ts_key t < lru_key y.2)%Z r.
Proof.
  intros T Hu. unfold ts_used in Hu. apply existsb_exists in Hu as ([i [g t']] & Hin & E).
  apply bool_decide_eq_true in E. simpl in E. subst. apply list_elem_of_In, elem_of_map_to_list in Hin.
  destruct (tables_lru_hit _ _ _ _ _ _ T Hin) as (l & q & b & r & -> & E & ?).
  exists l, q, b, r. unfold e_lru in E. by simplify_eq.
Qed.

(** A record in both tables comes and goes. *)
Lemma tables_insert m l r l' r' i p a q b :
  tables d m (l ++ r) (l' ++ r') → m !! i = None → e_scan a = e_lru b → s_inode_number a = i →
  scan_ok d a → lru_ok d b →
  Forall (λ x, s_inode_number x.2 < i)%Z l → Forall (λ x, i < s_inode_number x.2)%Z r →
  Forall (λ y, lru_key y.2 < lru_key b)%Z l' → Forall (λ y, lru_key b < lru_key y.2)%Z r' →
  tables d (<[i := (s_inode_generation a, s_time_stamp a)]> m) (l ++ (p, a) :: r) (l' ++ (q, b) :: r').
Proof.
  intros [T1 T2 T3 T4 T5 T6] Hm E <- Ha Hb ? ? ? ?. split.
  - by apply sorted_by_insert.
  - by apply sorted_by_insert.
  - rewrite !Forall_app Forall_cons in T3 |- *. tauto.
  - rewrite !Forall_app Forall_cons in T4 |- *. tauto.
  - rewrite map_to_list_insert // -T5 !fmap_app fmap_cons. by rewrite -Permutation_middle.
  - rewrite map_to_list_insert // -T6 !fmap_app fmap_cons -Permutation_middle. simpl. by rewrite -E.
Qed.

Lemma tables_remove m l p a r l' q b r' :
  tables d m (l ++ (p, a) :: r) (l' ++ (q, b) :: r') → e_scan a = e_lru b →
  tables d (delete (s_inode_number a) m) (l ++ r) (l' ++ r').
Proof.
  intros T E. assert (m !! s_inode_number a = Some (s_inode_generation a, s_time_stamp a)) as Hm.
  { apply (tables_scan_lookup m _ _ p a T). set_solver. }
  destruct T as [T1 T2 T3 T4 T5 T6]. split.
  - by eapply sorted_by_remove.
  - by eapply sorted_by_remove.
  - rewrite !Forall_app Forall_cons in T3 |- *. tauto.
  - rewrite !Forall_app Forall_cons in T4 |- *. tauto.
  - apply (Permutation_cons_inv (a:=e_scan a)). rewrite map_to_list_delete // -T5.
    by rewrite !fmap_app fmap_cons Permutation_middle.
  - apply (Permutation_cons_inv (a:=e_scan a)). rewrite map_to_list_delete // -T6.
    by rewrite !fmap_app fmap_cons E Permutation_middle.
Qed.

(** The LRU tree lists the map by age. *)
#[local] Instance age_le_total : Total age_le.
Proof. intros a b. unfold age_le. lia. Qed.

#[local] Instance age_le_trans : Transitive age_le.
Proof. intros a b c. unfold age_le. lia. Qed.

Lemma tables_age_sorted ys :
  sorted_by lru_key ys → StronglySorted age_le ((λ y, e_lru y.2) <$> ys).
Proof.
  unfold sorted_by. induction 1 as [|y ys Hs IH Hf]; [constructor|]. rewrite fmap_cons.
  constructor; [done|]. rewrite Forall_fmap. eapply Forall_impl; [done|].
  intros z. unfold age_le, lru_key. simpl. lia.
Qed.

Lemma tables_by_age m xs ys : tables d m xs ys → (λ y, e_lru y.2) <$> ys = by_age m.
Proof.
  intros T. unfold by_age. apply (StronglySorted_unique_strong age_le).
  - intros a b Ha Hb. rewrite merge_sort_Permutation -(tb_lru_map _ _ _ _ T) in Hb.
    apply list_elem_of_fmap in Ha as (x & -> & Hx). apply list_elem_of_fmap in Hb as (y & -> & Hy).
    unfold age_le. intros ? ?. rewrite (sorted_by_inj _ _ _ _ (tb_lru_sorted _ _ _ _ T) Hx Hy) //.
    unfold lru_key. simpl in *. lia.
  - apply tables_age_sorted, (tb_lru_sorted _ _ _ _ T).
  - apply (StronglySorted_merge_sort _).
  - rewrite merge_sort_Permutation. apply (tb_lru_map _ _ _ _ T).
Qed.
End tables.
