(* ===== verification/CacheRefine.v ===== *)
(** * The scan cache implements its specification

    Each function of cache.c, run from a state that represents two tables of
    records, and what it does to the tables; then the refinement of the
    specification by the whole interface, for one device. *)

From Stdlib Require Import ZArith Lia ssreflect.
From stdpp Require Import base list numbers gmap sorting.
From S2P Require Import Prelude RbTree Cache CacheHalf CacheOrder CacheSpec.

(** ** Comparisons in a state *)

Lemma scan_find_compares k (h : half scan_cache_record) :
  compares_as (λ this, scan_cache_find_compare_table (Some k) (Some this)) (scan_find_order k) h.
Proof. intros h' _ p a Hp. unfold scan_cache_find_compare_table, mbind, ST_bind, deref. by rewrite Hp. Qed.

Lemma scan_insert_compares p a (h : half scan_cache_record) :
  objects h !! p = Some a →
  compares_as (λ this, scan_cache_insert_compare_table (Some p) (Some this)) (scan_insert_order a) h.
Proof.
  intros Hp h' E q b Hq. unfold scan_cache_insert_compare_table, mbind, ST_bind, deref.
  rewrite -E in Hp. by rewrite Hp Hq.
Qed.

Lemma lru_find_compares t (h : half lru_cache_record) :
  compares_as (lru_cache_find_compare_table (LruKey t)) (λ b, time_order t (l_time_stamp b)) h.
Proof. intros h' _ p a Hp. unfold lru_cache_find_compare_table, mbind, ST_bind, deref. by rewrite Hp. Qed.

Lemma lru_insert_compares p a (h : half lru_cache_record) :
  objects h !! p = Some a →
  compares_as (lru_cache_insert_compare_table p)
    (λ b, time_order (l_time_stamp a) (l_time_stamp b)) h.
Proof.
  intros Hp h' E q b Hq. unfold lru_cache_insert_compare_table, mbind, ST_bind, deref.
  rewrite -E in Hp. by rewrite Hp Hq.
Qed.

(** The signs of the comparisons on both sides of a place in a table. *)
Lemma insert_signs d a xs :
  scan_ok d a → Forall (λ x, scan_ok d x.2) xs →
  (Forall (λ x : positive * _, s_inode_number x.2 < s_inode_number a)%Z xs →
   Forall (λ x, 0 < scan_insert_order a x.2)%Z xs) ∧
  (Forall (λ x : positive * _, s_inode_number a < s_inode_number x.2)%Z xs →
   Forall (λ x, scan_insert_order a x.2 < 0)%Z xs).
Proof.
  intros Ha Hok. rewrite !Forall_forall in Hok |- *. split; intros H x Hx.
  all: rewrite (scan_insert_order_sgn d) //; [by apply Hok|]; specialize (H x Hx); simpl in H; lia.
Qed.

Lemma find_signs d i g xs :
  ino_ok i → in_u32 g → Forall (λ x, scan_ok d x.2) xs →
  (Forall (λ x : positive * _, s_inode_number x.2 < i)%Z xs →
   Forall (λ x, 0 < scan_find_order (ScanKey d i g) x.2)%Z xs) ∧
  (Forall (λ x : positive * _, i < s_inode_number x.2)%Z xs →
   Forall (λ x, scan_find_order (ScanKey d i g) x.2 < 0)%Z xs).
Proof.
  intros Hi Hg Hok. rewrite !Forall_forall in Hok |- *. split; intros H x Hx.
  all: rewrite scan_find_order_sgn //; [by apply Hok|]; specialize (H x Hx); simpl in H.
  all: case_match; lia.
Qed.

Lemma time_signs d t ys :
  ts_ok t → Forall (λ y, lru_ok d y.2) ys →
  (Forall (λ y : positive * _, lru_key y.2 < ts_key t)%Z ys →
   Forall (λ y, 0 < time_order t (l_time_stamp y.2))%Z ys) ∧
  (Forall (λ y : positive * _, ts_key t < lru_key y.2)%Z ys →
   Forall (λ y, time_order t (l_time_stamp y.2) < 0)%Z ys).
Proof.
  intros Ht Hok. rewrite !Forall_forall in Hok |- *. split; intros H y Hy.
  all: rewrite time_order_sgn //; [by apply Hok|]; specialize (H y Hy); unfold lru_key in H; simpl in H; lia.
Qed.

Lemma time_order_refl t : time_order t t = 0%Z.
Proof. unfold time_order, diff_s64. by rewrite !Z.sub_diag. Qed.

(** ** Steps *)

Section refine.
Context `{K : Kernel} {laws : KernelLaws K} (d : Z).
Implicit Types (s : cache) (t ns nl : nat).
Implicit Types (xs ws : list (positive * scan_cache_record)) (ys zs : list (positive * lru_cache_record)).

(** One step: what a call on one half, or a kernel call, does to a connected
    state. The continuation sees the new tables only. *)
Section steps.
Context {s : cache} {t ns nl : nat} {xs ws : list (positive * scan_cache_record)}.
Context {ys zs : list (positive * lru_cache_record)} (HC : conn s t ns nl xs ws ys zs).

Lemma on_scan_runs {A : Type} (m : ST (half scan_cache_record) A) a (Q : A → cache → Prop) ns' xs' ws' :
  (∃ h, m (scan s) = Some (a, h) ∧ half_rep h ns' xs' ws') →
  (∀ s', conn s' t ns' nl xs' ws' ys zs → Q a s') → runs (on_scan m) s Q.
Proof.
  destruct HC as (H1 & H2 & H3). intros (h & E & H) HQ. unfold runs, on_scan. rewrite E.
  eexists _, _. split; [done|]. by apply HQ.
Qed.

Lemma on_lru_runs {A : Type} (m : ST (half lru_cache_record) A) a (Q : A → cache → Prop) nl' ys' zs' :
  (∃ h, m (lru s) = Some (a, h) ∧ half_rep h nl' ys' zs') →
  (∀ s', conn s' t ns nl' xs ws ys' zs' → Q a s') → runs (on_lru m) s Q.
Proof.
  destruct HC as (H1 & H2 & H3). intros (h & E & H) HQ. unfold runs, on_lru. rewrite E.
  eexists _, _. split; [done|]. by apply HQ.
Qed.

Lemma printk_runs msg (Q : unit → cache → Prop) :
  (∀ s', conn s' t ns nl xs ws ys zs → Q tt s') → runs (printk msg) s Q.
Proof. intros HQ. eexists _, _. split; [done|]. by apply HQ. Qed.

(** A message printed under a condition. *)
Lemma print_if_runs (b : bool) msg (Q : unit → cache → Prop) :
  (∀ s', conn s' t ns nl xs ws ys zs → Q tt s') → runs (if b then mret tt else printk msg) s Q.
Proof. intros HQ. destruct b; [by apply runs_ret, HQ|by apply printk_runs]. Qed.

Lemma might_sleep_runs (Q : unit → cache → Prop) : Q tt s → runs might_sleep s Q.
Proof.
  destruct HC as ((_ & L1 & _) & (_ & L2 & _) & _). intros HQ. eexists tt, s. split; [|done].
  unfold might_sleep. by rewrite L1 L2.
Qed.

Lemma get_time_stamp_runs (Q : timespec → cache → Prop) :
  (∀ s', conn s' (S t) ns nl xs ws ys zs → Q (k_clock t) s') → runs get_time_stamp s Q.
Proof.
  destruct HC as (H1 & H2 & H3). intros HQ. eexists _, _. split; [done|]. rewrite H3. apply HQ.
  done.
Qed.

Lemma scan_deref_runs p a (Q : scan_cache_record → cache → Prop) :
  (p, a) ∈ xs ++ ws → (∀ s', conn s' t ns nl xs ws ys zs → Q a s') → runs (on_scan (deref p)) s Q.
Proof.
  intros Hin. apply on_scan_runs. exists (scan s). split; [|apply HC].
  eapply deref_spec; [apply HC|done].
Qed.

Lemma lru_deref_runs p a (Q : lru_cache_record → cache → Prop) :
  (p, a) ∈ ys ++ zs → (∀ s', conn s' t ns nl xs ws ys zs → Q a s') → runs (on_lru (deref p)) s Q.
Proof.
  intros Hin. apply on_lru_runs. exists (lru s). split; [|apply HC].
  eapply deref_spec; [apply HC|done].
Qed.

(** A search that leaves its half alone. *)
Lemma scan_search_runs (m : ST (half scan_cache_record) (option positive)) r Q :
  m (scan s) = Some (r, scan s) → (∀ s', conn s' t ns nl xs ws ys zs → Q r s') →
  runs (on_scan m) s Q.
Proof. intros E. apply on_scan_runs. exists (scan s). split; [done|apply HC]. Qed.

Lemma lru_search_runs (m : ST (half lru_cache_record) (option positive)) r Q :
  m (lru s) = Some (r, lru s) → (∀ s', conn s' t ns nl xs ws ys zs → Q r s') →
  runs (on_lru m) s Q.
Proof. intros E. apply on_lru_runs. exists (lru s). split; [done|apply HC]. Qed.
End steps.

(** Records under construction. *)
Lemma scan_assign_runs s t ns nl xs p a ws ys zs f (Q : unit → cache → Prop) :
  conn s t ns nl xs ((p, a) :: ws) ys zs →
  (∀ s', conn s' t ns nl xs ((p, f a) :: ws) ys zs → Q tt s') → runs (on_scan (assign p f)) s Q.
Proof. intros HC. apply (on_scan_runs HC). eapply assign_spec, HC. Qed.

Lemma lru_assign_runs s t ns nl xs ws ys p a zs f (Q : unit → cache → Prop) :
  conn s t ns nl xs ws ys ((p, a) :: zs) →
  (∀ s', conn s' t ns nl xs ws ys ((p, f a) :: zs) → Q tt s') → runs (on_lru (assign p f)) s Q.
Proof. intros HC. apply (on_lru_runs HC). eapply assign_spec, HC. Qed.

(** Removal from the two trees. *)
Lemma scan_remove_runs s t ns nl l p a r ws ys zs (Q : unit → cache → Prop) :
  conn s t ns nl (l ++ (p, a) :: r) ws ys zs →
  (∀ s', conn s' t ns nl (l ++ r) ws ys zs → Q tt s') → runs (remove_scan_cache_record (Some p)) s Q.
Proof. intros HC. apply (on_scan_runs HC). eapply remove_record_spec, HC. Qed.

Lemma lru_remove_runs s t ns nl xs ws l p a r zs (Q : unit → cache → Prop) :
  conn s t ns nl xs ws (l ++ (p, a) :: r) zs →
  (∀ s', conn s' t ns nl xs ws (l ++ r) zs → Q tt s') → runs (remove_lru_cache_record (Some p)) s Q.
Proof. intros HC. apply (on_lru_runs HC). eapply remove_record_spec, HC. Qed.

(** Allocation. *)
Lemma scan_alloc_runs s t ns nl xs ws ys zs (Q : option positive → cache → Prop) :
  conn s t ns nl xs ws ys zs →
  match k_scan_object ns with
  | Some a => ∀ p s', conn s' t (S ns) nl xs ((p, a) :: ws) ys zs → Q (Some p) s'
  | None => ∀ s', conn s' t (S ns) nl xs ws ys zs → Q None s'
  end → runs scan_cache_alloc s Q.
Proof.
  intros HC HQ. unfold scan_cache_alloc. apply runs_bind, (might_sleep_runs HC), runs_bind.
  destruct (k_scan_object ns) as [a|] eqn:Ha.
  - destruct (alloc_some _ _ _ _ _ _ (proj1 HC) Ha) as (p & h & E & Hh).
    eapply (on_scan_runs HC); [by exists h|]. intros s' HC'. apply runs_bind, runs_ret, runs_ret. eauto.
  - eapply (on_scan_runs HC); [by eapply alloc_none; [apply HC|]|].
    intros s' HC'. apply runs_bind, (printk_runs HC'). intros s2 HC2. apply runs_ret. eauto.
Qed.

Lemma lru_alloc_runs s t ns nl xs ws ys zs (Q : option positive → cache → Prop) :
  conn s t ns nl xs ws ys zs →
  match k_lru_object nl with
  | Some a => ∀ p s', conn s' t ns (S nl) xs ws ys ((p, a) :: zs) → Q (Some p) s'
  | None => ∀ s', conn s' t ns (S nl) xs ws ys zs → Q None s'
  end → runs lru_cache_alloc s Q.
Proof.
  intros HC HQ. unfold lru_cache_alloc. apply runs_bind, (might_sleep_runs HC), runs_bind.
  destruct (k_lru_object nl) as [a|] eqn:Ha.
  - destruct (alloc_some _ _ _ _ _ _ (proj1 (proj2 HC)) Ha) as (p & h & E & Hh).
    eapply (on_lru_runs HC); [by exists h|]. intros s' HC'. apply runs_bind, runs_ret, runs_ret. eauto.
  - eapply (on_lru_runs HC); [by eapply alloc_none; [apply HC|]|].
    intros s' HC'. apply runs_bind, (printk_runs HC'). intros s2 HC2. apply runs_ret. eauto.
Qed.

(** ** The LRU cache *)

(** The record that [insert_lru_cache_record] builds before it links it. *)
Lemma build_lru_runs s t ns nl xs ws ys zs ts dev i g (Q : Z → cache → Prop) :
  conn s t ns nl xs ws ys zs → is_Some (k_lru_object nl) →
  (∀ q s', conn s' t ns (S nl) xs ws ys ((q, LruRec ts dev i g) :: zs) →
    runs (on_lru (insert_record q (lru_cache_insert_compare_table q))) s' Q) →
  runs (insert_lru_cache_record ts dev i g) s Q.
Proof.
  intros HC [junk Hj] HQ. unfold insert_lru_cache_record.
  apply runs_bind, (lru_alloc_runs _ _ _ _ _ _ _ _ _ HC). rewrite Hj. intros q s1 HC1.
  do 4 (apply runs_bind; eapply lru_assign_runs; [eassumption|]; clear dependent s; intros s HC).
  unfold set_l_time_stamp, set_l_dev_id, set_l_inode_number, set_l_inode_generation in HC. simpl in HC.
  apply runs_bind, (lru_deref_runs HC q (LruRec ts dev i g)); [set_solver|]. intros s2 HC2.
  apply runs_bind, (printk_runs HC2). intros s3 HC3. by apply HQ.
Qed.

(** An insertion in the LRU tree that represents the map [m]. *)
Lemma insert_lru_runs s t ns nl xs ws ys zs m xs0 ts i g (Q : Z → cache → Prop) :
  conn s t ns nl xs ws ys zs → tables d m xs0 ys → ts_ok ts →
  match k_lru_object nl with
  | None => ∀ s', conn s' t ns (S nl) xs ws ys zs → Q (-1)%Z s'
  | Some _ =>
      if ts_used ts m then ∀ s' z, conn s' t ns (S nl) xs ws ys (z :: zs) → Q (-1)%Z s'
      else ∀ s' l r q, ys = l ++ r →
        Forall (λ y, lru_key y.2 < ts_key ts)%Z l → Forall (λ y, ts_key ts < lru_key y.2)%Z r →
        conn s' t ns (S nl) xs ws (l ++ (q, LruRec ts d i g) :: r) zs → Q 0%Z s'
  end → runs (insert_lru_cache_record ts d i g) s Q.
Proof.
  intros HC T Hts HQ. destruct (k_lru_object nl) as [junk|] eqn:Hj.
  2:{ unfold insert_lru_cache_record. apply runs_bind, (lru_alloc_runs _ _ _ _ _ _ _ _ _ HC).
      rewrite Hj. intros s1 HC1. by apply runs_ret, HQ. }
  eapply build_lru_runs; [done|by rewrite Hj|]. intros q s3 HC3.
  pose proof (tb_lru_ok _ _ _ _ T) as Hok.
  assert (objects (lru s3) !! q = Some (LruRec ts d i g)) as Hq.
  { eapply linked_lookup; [apply HC3|set_solver]. }
  pose proof (lru_insert_compares _ _ _ Hq) as Hcmp. simpl in Hcmp.
  destruct (ts_used ts m) eqn:Hu.
  - destruct (tables_lru_taken _ _ _ _ _ T Hu) as (l & p & b & r & -> & Eb & Hl & Hr).
    rewrite Forall_app Forall_cons in Hok. destruct Hok as (Hokl & _ & Hokr).
    eapply (on_lru_runs HC3); [|intros; eapply HQ; eassumption].
    eexists. split; [|apply HC3].
    eapply (insert_record_dup _ _ _ _ _ _ _ l p b r); [apply HC3|exact Hcmp|done|..].
    + by apply (time_signs d).
    + by rewrite /= Eb time_order_refl.
    + by apply (time_signs d).
  - destruct (tables_lru_miss _ _ _ _ _ T Hts Hu) as (l & r & -> & Hl & Hr).
    rewrite Forall_app in Hok. destruct Hok as (Hokl & Hokr).
    eapply (on_lru_runs HC3); [|intros; eapply HQ; [done|exact Hl|exact Hr|eassumption]].
    eapply insert_record_new; [apply HC3|exact Hcmp|by apply (time_signs d)..].
Qed.

(** A lookup of the time stamp of an entry. *)
Lemma lru_search_hit s t ns nl xs ws l q b r zs m xs0 :
  conn s t ns nl xs ws (l ++ (q, b) :: r) zs → tables d m xs0 (l ++ (q, b) :: r) →
  search_record (lru_cache_find_compare_table (LruKey (l_time_stamp b))) (lru s) = Some (Some q, lru s).
Proof.
  intros HC T. pose proof (tb_lru_ok _ _ _ _ T) as Hok.
  rewrite Forall_app Forall_cons in Hok. destruct Hok as (Hl & [_ Hb] & Hr).
  destruct (sorted_around _ _ _ _ _ (tb_lru_sorted _ _ _ _ T)) as [Hlt Hgt].
  eapply (search_record_hit _ _ _ _ _ _ l q b r); [apply HC|apply lru_find_compares|done|..].
  - by apply (time_signs d).
  - apply time_order_refl.
  - by apply (time_signs d).
Qed.

Lemma find_remove_lru_runs s t ns nl xs ws l q b r zs m xs0 (Q : bool → cache → Prop) :
  conn s t ns nl xs ws (l ++ (q, b) :: r) zs → tables d m xs0 (l ++ (q, b) :: r) →
  (∀ s', conn s' t ns nl xs ws (l ++ r) zs → Q true s') →
  runs (find_remove_lru_cache_record (l_time_stamp b)) s Q.
Proof.
  intros HC T HQ. unfold find_remove_lru_cache_record, find_lru_cache_record.
  apply runs_bind, runs_bind, (lru_search_runs HC _ (Some q)); [by eapply lru_search_hit|].
  intros s1 HC1. apply runs_bind, runs_ret, runs_ret, runs_bind.
  eapply lru_remove_runs; [done|]. intros s2 HC2. by apply runs_ret, HQ.
Qed.

(** An entry whose scan record was replaced by [new]: its LRU record is
    replaced by one for [new]. *)
Lemma find_and_update_lru_runs s t ns nl xs ws l q b r zs m xs0 xs1 old ao new an (Q : Z → cache → Prop) :
  conn s t ns nl xs ws (l ++ (q, b) :: r) zs →
  tables d m xs0 (l ++ (q, b) :: r) → tables d (delete (s_inode_number ao) m) xs1 (l ++ r) →
  e_scan ao = e_lru b → (old, ao) ∈ xs ++ ws → (new, an) ∈ xs ++ ws →
  scan_ok d an →
  match k_lru_object nl with
  | None => ∀ s', conn s' t ns (S nl) xs ws (l ++ r) zs → Q (-1)%Z s'
  | Some _ =>
      if ts_used (s_time_stamp an) (delete (s_inode_number ao) m)
      then ∀ s' z, conn s' t ns (S nl) xs ws (l ++ r) (z :: zs) → Q (-1)%Z s'
      else ∀ s' l' r' q', l ++ r = l' ++ r' →
        Forall (λ y, lru_key y.2 < ts_key (s_time_stamp an))%Z l' →
        Forall (λ y, ts_key (s_time_stamp an) < lru_key y.2)%Z r' →
        conn s' t ns (S nl) xs ws
          (l' ++ (q', LruRec (s_time_stamp an) d (s_inode_number an) (s_inode_generation an)) :: r') zs →
        Q 0%Z s'
  end → runs (find_and_update_lru_cache_record old new) s Q.
Proof.
  intros HC T T' E Ho Hn (Hd & _ & _ & Hts) HQ. unfold find_and_update_lru_cache_record.
  apply runs_bind, (scan_deref_runs HC old ao _ Ho). intros s1 HC1.
  replace (s_time_stamp ao) with (l_time_stamp b) by (unfold e_scan, e_lru in E; by simplify_eq).
  apply runs_bind, (lru_search_runs HC1 _ (Some q)); [by eapply lru_search_hit|].
  intros s2 HC2. apply runs_bind. eapply lru_remove_runs; [done|]. intros s3 HC3.
  apply runs_bind, (scan_deref_runs HC3 new an _ Hn). intros s4 HC4. rewrite Hd.
  apply runs_bind. eapply insert_lru_runs; [done..|].
  destruct (k_lru_object nl); [case_match|]; intros.
  all: apply runs_bind; eapply print_if_runs; [eassumption|]; intros; apply runs_ret; eauto.
Qed.

(** ** The scan cache *)

Lemma scan_find_hit s t ns nl l p a r ws ys zs m :
  conn s t ns nl (l ++ (p, a) :: r) ws ys zs → tables d m (l ++ (p, a) :: r) ys →
  search_record (λ this, scan_cache_find_compare_table
      (Some (ScanKey d (s_inode_number a) (s_inode_generation a))) (Some this)) (scan s)
    = Some (Some p, scan s).
Proof.
  intros HC T. pose proof (tb_scan_ok _ _ _ _ T) as Hok.
  rewrite Forall_app Forall_cons in Hok. destruct Hok as (Hl & Ha & Hr).
  destruct (sorted_around _ _ _ _ _ (tb_scan_sorted _ _ _ _ T)) as [Hlt Hgt].
  pose proof Ha as (_ & Hi & Hg & _).
  eapply (search_record_hit _ _ _ _ _ _ l p a r); [apply HC|apply scan_find_compares|done|..].
  - by apply find_signs.
  - by rewrite scan_find_order_sgn // !Z.eqb_refl.
  - by apply find_signs.
Qed.

(** A lookup with an unknown inode number or a stale generation. *)
Lemma scan_find_miss s t ns nl xs ws ys zs m i g :
  conn s t ns nl xs ws ys zs → tables d m xs ys → ino_ok i → in_u32 g →
  (∀ g' ts, m !! i = Some (g', ts) → g' ≠ g) →
  search_record (λ this, scan_cache_find_compare_table (Some (ScanKey d i g)) (Some this)) (scan s)
    = Some (None, scan s).
Proof.
  intros HC T Hi Hg Hm. pose proof (tb_scan_ok _ _ _ _ T) as Hok.
  destruct (m !! i) as [[g' ts]|] eqn:E.
  - destruct (tables_scan_hit _ _ _ _ _ _ _ T E) as (l & p & a & r & -> & Ea & Hlt & Hgt).
    rewrite Forall_app Forall_cons in Hok. destruct Hok as (Hl & Ha & Hr).
    eapply (search_record_miss _ _ _ _ _ _ (l ++ [(p, a)]) r);
      [apply HC|apply scan_find_compares|by rewrite -app_assoc|..].
    + apply Forall_app. split; [by apply find_signs|]. constructor; [|done]. simpl.
      rewrite scan_find_order_sgn //. unfold e_scan in Ea. simplify_eq.
      rewrite Z.eqb_refl. specialize (Hm _ _ eq_refl). case_match; lia.
    + by apply find_signs.
  - destruct (tables_scan_miss _ _ _ _ _ T E) as (l & r & -> & Hlt & Hgt).
    rewrite Forall_app in Hok. destruct Hok as (Hl & Hr).
    eapply (search_record_miss _ _ _ _ _ _ l r); [apply HC|apply scan_find_compares|done|..].
    all: by apply find_signs.
Qed.

Lemma find_scan_runs s t ns nl xs ws ys zs k r (Q : option positive → cache → Prop) :
  conn s t ns nl xs ws ys zs →
  (∀ s', conn s' t ns nl xs ws ys zs →
    search_record (λ this, scan_cache_find_compare_table (Some k) (Some this)) (scan s')
      = Some (r, scan s')) →
  (∀ s', conn s' t ns nl xs ws ys zs → Q r s') →
  runs (find_scan_cache_record (Some k)) s Q.
Proof.
  intros HC Hs HQ. unfold find_scan_cache_record.
  apply runs_bind, (printk_runs HC). intros s1 HC1.
  apply runs_bind, (scan_search_runs HC1 _ _ _ (Hs s1 HC1)). intros s2 HC2.
  apply runs_bind. destruct r.
  - by apply runs_ret, runs_ret, HQ.
  - apply (printk_runs HC2). intros s3 HC3. by apply runs_ret, HQ.
Qed.

(** ** Insertion *)

(** The state and result that a specification step asks for. *)
Definition delivers (o : Z * spec) (r : Z) s : Prop := r = o.1 ∧ implements d s o.2.

(** The scan record [a] was linked for an inode without an entry; its LRU record
    follows, and if that fails the scan record is removed. *)
Lemma link_entry s t ns nl l p a r ys zs m :
  conn s t ns nl (l ++ (p, a) :: r) [] ys zs → tables d m (l ++ r) ys →
  m !! s_inode_number a = None → scan_ok d a →
  Forall (λ x, s_inode_number x.2 < s_inode_number a)%Z l →
  Forall (λ x, s_inode_number a < s_inode_number x.2)%Z r →
  runs (rec ← on_scan (deref p);
        ret ← insert_lru_cache_record (s_time_stamp rec) (s_dev_id rec) (s_inode_number rec)
                (s_inode_generation rec);
        (if (ret =? 0)%Z then mret tt else remove_scan_cache_record (Some p));;
        mret ret) s
    (delivers (spec_enter (e_scan a) m t ns nl (length zs))).
Proof.
  intros HC T Hm Ha Hl Hr. pose proof Ha as (Hd & _ & _ & Hts).
  apply runs_bind, (scan_deref_runs HC p a); [set_solver|]. intros s1 HC1. rewrite Hd.
  apply runs_bind. eapply insert_lru_runs; [done..|]. unfold spec_enter, delivers. simpl.
  destruct (k_lru_object nl); [case_match|]; simpl.
  - intros s2 z HC2. apply runs_bind. eapply scan_remove_runs; [done|]. intros s3 HC3.
    apply runs_ret. split; [done|]. by exists (l ++ r), ys, (z :: zs).
  - intros s2 l' r' q -> Hl' Hr' HC2. apply runs_bind, runs_ret, runs_ret. split; [done|].
    eexists _, _, zs. split; [done|]. split; [|done]. by eapply tables_insert.
  - intros s2 HC2. apply runs_bind. eapply scan_remove_runs; [done|]. intros s3 HC3.
    apply runs_ret. split; [done|]. by exists (l ++ r), ys, zs.
Qed.

(** The inode has an entry already: its records are replaced. *)
Lemma update_entry s t ns nl l old ao r p a ys zs m :
  conn s t ns nl (l ++ (old, ao) :: r) [(p, a)] ys zs →
  tables d m (l ++ (old, ao) :: r) ys → scan_ok d a → s_inode_number a = s_inode_number ao →
  runs (find_and_update_scan_cache_record (Some p)) s
    (delivers (spec_enter (e_scan a) (delete (s_inode_number a) m) t ns nl (length zs))).
Proof.
  intros HC T Ha Ei. pose proof (tb_scan_ok _ _ _ _ T) as Hok.
  rewrite Forall_app Forall_cons in Hok. destruct Hok as (Hokl & Hao & Hokr).
  destruct (sorted_around _ _ _ _ _ (tb_scan_sorted _ _ _ _ T)) as [Hl Hr]. rewrite -Ei in Hl Hr.
  assert (objects (scan s) !! p = Some a) as Hp by (eapply linked_lookup; [apply HC|set_solver]).
  assert (m !! s_inode_number ao = Some (s_inode_generation ao, s_time_stamp ao)) as Hm.
  { apply (tables_scan_lookup _ _ _ _ old _ T). set_solver. }
  destruct (tables_lru_hit _ _ _ _ _ _ _ T Hm) as (l' & q & b & r' & -> & Eb & _).
  fold (e_scan ao) in Eb. pose proof (tables_remove _ _ _ _ _ _ _ _ _ _ T (eq_sym Eb)) as T'.
  unfold find_and_update_scan_cache_record.
  apply runs_bind, (scan_search_runs HC _ (Some old)).
  { eapply (search_record_hit _ _ _ _ _ _ l old ao r);
      [apply HC|by apply scan_insert_compares|done|by apply (insert_signs d)| |by apply (insert_signs d)].
    rewrite (scan_insert_order_sgn d) // Ei. by rewrite Z.sub_diag. }
  intros s1 HC1. apply runs_bind, (on_scan_runs HC1 _ tt) with (ns' := ns) (xs' := l ++ (p, a) :: r)
    (ws' := [(old, ao)]). { eapply replace_record_spec, HC1. }
  intros s2 HC2. apply runs_bind. eapply find_and_update_lru_runs;
    [done|done|exact T'|done|set_solver|apply elem_of_app; left; apply elem_of_app; right; left|done|].
  unfold spec_enter, delivers. simpl. rewrite Ei.
  destruct (k_lru_object nl); [case_match|]; simpl.
  - intros s3 z HC3. apply runs_bind. eapply scan_remove_runs; [done|]. intros s4 HC4.
    apply runs_bind. eapply (on_scan_runs HC4); [eapply free_spec, HC4|]. intros s5 HC5.
    apply runs_ret. split; [done|]. by exists (l ++ r), (l' ++ r'), (z :: zs).
  - intros s3 l2 r2 q' E2 Hl2 Hr2 HC3. apply runs_bind, runs_ret, runs_bind.
    eapply (on_scan_runs HC3); [eapply free_spec, HC3|]. intros s4 HC4.
    apply runs_ret. split; [done|]. eexists _, _, zs. split; [done|]. split; [|done]. simpl.
    rewrite E2 in T'. rewrite Ei in HC4 Hl Hr. eapply tables_insert; try done.
    + by rewrite lookup_delete_eq.
    + by unfold e_scan, e_lru; simpl; rewrite Ei.
    + split; [done|]. apply Ha.
  - intros s3 HC3. apply runs_bind. eapply scan_remove_runs; [done|]. intros s4 HC4.
    apply runs_bind. eapply (on_scan_runs HC4); [eapply free_spec, HC4|]. intros s5 HC5.
    apply runs_ret. split; [done|]. by exists (l ++ r), (l' ++ r'), zs.
Qed.

(** The record that [insert_scan_cache_record] builds before it links it, and the
    rest of the function. *)
Lemma build_scan_runs s t ns nl xs ys zs f junk (Q : Z → cache → Prop) :
  conn s t ns nl xs [] ys zs → k_scan_object ns = Some junk →
  (∀ p s', conn s' (S t) (S ns) nl xs
      [(p, ScanRec (f_dev_id f) (f_inode_number f) (f_inode_generation f) (s_status junk) (k_clock t))]
      ys zs →
    runs (ret ← on_scan (insert_record p (λ this, scan_cache_insert_compare_table (Some p) (Some this)));
      if (ret =? 0)%Z then
        r ← on_scan (deref p);
        ret ← insert_lru_cache_record (s_time_stamp r) (s_dev_id r) (s_inode_number r)
                (s_inode_generation r);
        (if (ret =? 0)%Z then mret tt else remove_scan_cache_record (Some p));;
        mret ret
      else
        (if (ret =? -1)%Z then
           r ← on_scan (deref p);
           printk (MsgPresent (s_dev_id r) (s_inode_number r) (s_inode_generation r))
         else mret tt);;
        find_and_update_scan_cache_record (Some p)) s' Q) →
  runs (insert_scan_cache_record f) s Q.
Proof.
  intros HC Hj HQ. unfold insert_scan_cache_record.
  apply runs_bind, (scan_alloc_runs _ _ _ _ _ _ _ _ _ HC). rewrite Hj. intros p s1 HC1.
  do 3 (apply runs_bind; eapply scan_assign_runs; [eassumption|]; clear dependent s; intros s HC).
  apply runs_bind, (get_time_stamp_runs HC). intros s2 HC2.
  apply runs_bind. eapply scan_assign_runs; [exact HC2|]. clear dependent s s1 s2. intros s HC.
  by apply HQ.
Qed.

Lemma insert_runs s sp f :
  implements d s sp → file_ok d f →
  runs (insert_scan_cache_record f) s (delivers (spec_insert f sp)).
Proof.
  intros (xs & ys & zs & HC & T & Hlk) (Hd & Hi & Hg). destruct sp as [m t ns nl lk].
  simpl in *. subst lk. destruct (k_scan_object ns) as [junk|] eqn:Hj.
  2:{ unfold insert_scan_cache_record. apply runs_bind, (scan_alloc_runs _ _ _ _ _ _ _ _ _ HC).
      rewrite Hj. intros s1 HC1. apply runs_bind, (printk_runs HC1). intros s2 HC2. apply runs_ret.
      split; [done|]. by exists xs, ys, zs. }
  eapply build_scan_runs; [done..|]. clear dependent s. intros p s HC. rewrite Hd in HC.
  set (a := ScanRec d (f_inode_number f) (f_inode_generation f) (s_status junk) (k_clock t)) in HC.
  assert (scan_ok d a) as Ha by (split_and!; [done..|apply kl_clock]).
  pose proof (tb_scan_ok _ _ _ _ T) as Hok.
  assert (objects (scan s) !! p = Some a) as Hp by (eapply linked_lookup; [apply HC|set_solver]).
  apply runs_bind. destruct (m !! f_inode_number f) as [[g0 t0]|] eqn:Hm.
  - destruct (tables_scan_hit _ _ _ _ _ _ _ T Hm) as (l & old & ao & r & -> & Eo & Hl & Hr).
    rewrite Forall_app Forall_cons in Hok. destruct Hok as (Hokl & Hao & Hokr).
    assert (s_inode_number ao = f_inode_number f) as Ei by (unfold e_scan in Eo; by simplify_eq).
    eapply (on_scan_runs HC).
    { eexists. split; [|apply HC].
      eapply (insert_record_dup _ _ _ _ _ _ _ l old ao r);
        [apply HC|by apply scan_insert_compares|done|by apply (insert_signs d)| |by apply (insert_signs d)].
      rewrite (scan_insert_order_sgn d) // Ei. by rewrite /= Z.sub_diag. }
    intros s1 HC1. apply runs_bind, runs_bind, (scan_deref_runs HC1 p a); [set_solver|].
    intros s2 HC2. apply (printk_runs HC2). intros s3 HC3.
    apply (update_entry _ _ _ _ _ _ _ _ _ _ _ _ _ HC3 T Ha). by rewrite Ei.
  - destruct (tables_scan_miss _ _ _ _ _ T Hm) as (l & r & -> & Hl & Hr).
    rewrite Forall_app in Hok. destruct Hok as (Hokl & Hokr).
    eapply (on_scan_runs HC).
    { eapply insert_record_new; [apply HC|by apply scan_insert_compares|by apply (insert_signs d)..]. }
    intros s1 HC1. simpl. rewrite delete_id //. by eapply (link_entry _ _ _ _ l p a r).
Qed.

(** ** Removal *)

Lemma find_remove_runs s sp f :
  implements d s sp → file_ok d f →
  runs (find_remove_scan_cache_record f) s
    (λ b s', b = (spec_find_remove f sp).1 ∧ implements d s' (spec_find_remove f sp).2).
Proof.
  intros (xs & ys & zs & HC & T & Hlk) (Hd & Hi & Hg). destruct sp as [m t ns nl lk]. simpl in *.
  unfold find_remove_scan_cache_record, spec_find_remove. simpl. rewrite Hd.
  apply runs_bind, (printk_runs HC). intros s1 HC1. apply runs_bind.
  assert ((∃ ts, m !! f_inode_number f = Some (f_inode_generation f, ts)) ∨
    ∀ g ts, m !! f_inode_number f = Some (g, ts) → g ≠ f_inode_generation f) as [[ts Hm]|Hm].
  { destruct (m !! f_inode_number f) as [[g ts]|]; [|by right].
    destruct (decide (g = f_inode_generation f)) as [->|]; [left; by exists ts|right]. by intros ? ? [= <- <-]. }
  - destruct (tables_scan_hit _ _ _ _ _ _ _ T Hm) as (l & p & a & r & -> & Ea & _).
    destruct (tables_lru_hit _ _ _ _ _ _ _ T Hm) as (l' & q & b & r' & -> & Eb & _).
    rewrite Hm Z.eqb_refl. pose proof (tables_remove _ _ _ _ _ _ _ _ _ _ T (eq_trans Ea (eq_sym Eb))) as T'.
    unfold e_scan, e_lru in Ea, Eb. injection Ea as <- <- <-. injection Eb as Eb1 Eb2 Eb3.
    eapply find_scan_runs; [done|intros; by eapply scan_find_hit|]. intros s2 HC2.
    apply runs_bind, (scan_deref_runs HC2 p a); [set_solver|]. intros s3 HC3.
    apply runs_bind, (printk_runs HC3). intros s4 HC4.
    apply runs_bind, (scan_deref_runs HC4 p a); [set_solver|]. intros s5 HC5. rewrite -Eb3.
    apply runs_bind. eapply find_remove_lru_runs; [done..|]. intros s6 HC6.
    apply runs_bind. eapply scan_remove_runs; [done|]. intros s7 HC7.
    apply runs_ret. split; [done|]. by eexists _, _, zs.
  - assert (spec_find_remove f (Spec m t ns nl lk) = (false, Spec m t ns nl lk)) as Es.
    { unfold spec_find_remove. simpl. destruct (m !! f_inode_number f) as [[g ts]|]; [|done].
      specialize (Hm g ts eq_refl). case_match; [lia|done]. }
    unfold spec_find_remove in Es. simpl in Es. rewrite Es.
    eapply find_scan_runs; [done|intros; by eapply scan_find_miss|]. intros s2 HC2.
    apply runs_bind, (printk_runs HC2). intros s3 HC3. apply runs_ret.
    split; [done|]. by exists xs, ys, zs.
Qed.

(** ** Purging *)

Lemma purge_scan_runs fuel s t ns nl xs ws ys zs :
  conn s t ns nl xs ws ys zs → length xs < fuel →
  runs (purge_scan_cache fuel) s (λ _ s', conn s' t ns nl [] ws ys zs).
Proof.
  revert s xs. induction fuel as [|fuel IH]; intros s xs HC Hf; [lia|]. simpl.
  apply runs_bind, (on_scan_runs HC _ (root (scan s))) with (ns' := ns) (xs' := xs) (ws' := ws);
    [by exists (scan s); split; [|apply HC]|]. intros s1 HC1.
  rewrite (half_rep_empty _ _ _ _ (proj1 HC)). destruct xs as [|[p a] xs]; [by apply runs_ret|].
  rewrite bool_decide_false // (half_rep_first _ _ _ _ _ _ (proj1 HC)).
  apply runs_bind, runs_ret, runs_bind, (scan_deref_runs HC1 p a); [set_solver|]. intros s2 HC2.
  apply runs_bind, (printk_runs HC2). intros s3 HC3.
  apply runs_bind. eapply (scan_remove_runs _ _ _ _ [] p a xs); [done|]. intros s4 HC4.
  apply (IH _ xs HC4). simpl in Hf. lia.
Qed.

Lemma purge_lru_runs fuel s t ns nl xs ws ys zs :
  conn s t ns nl xs ws ys zs → length ys < fuel →
  runs (purge_lru_cache fuel) s (λ _ s', conn s' t ns nl xs ws [] zs).
Proof.
  revert s ys. induction fuel as [|fuel IH]; intros s ys HC Hf; [lia|]. simpl.
  apply runs_bind, (on_lru_runs HC _ (root (lru s))) with (nl' := nl) (ys' := ys) (zs' := zs);
    [by exists (lru s); split; [|apply HC]|]. intros s1 HC1.
  rewrite (half_rep_empty _ _ _ _ (proj1 (proj2 HC))). destruct ys as [|[p a] ys]; [by apply runs_ret|].
  rewrite bool_decide_false // (half_rep_first _ _ _ _ _ _ (proj1 (proj2 HC))).
  apply runs_bind, runs_ret, runs_bind, (lru_deref_runs HC1 p a); [set_solver|]. intros s2 HC2.
  apply runs_bind, (printk_runs HC2). intros s3 HC3.
  apply runs_bind. eapply (lru_remove_runs _ _ _ _ _ _ [] p a ys); [done|]. intros s4 HC4.
  apply (IH _ ys HC4). simpl in Hf. lia.
Qed.

Lemma purge_runs fuel s t ns nl xs ws ys zs :
  conn s t ns nl xs ws ys zs → length xs < fuel → length ys < fuel →
  runs (purge_cache fuel) s (λ _ s', conn s' t ns nl [] ws [] zs).
Proof.
  intros HC Hx Hy. apply runs_bind. eapply runs_wand; [by eapply purge_scan_runs|].
  intros [] s1 HC1. by eapply purge_lru_runs.
Qed.

(** ** Eviction *)

Lemma evict_runs fuel count rc s t ns nl xs ys zs m :
  conn s t ns nl xs [] ys zs → tables d m xs ys → length ys < fuel →
  (0 <= rc < count)%Z → in_s32 count →
  runs (evict fuel count rc) s (λ _ s', ∃ m' xs',
    conn s' t ns nl xs' [] (drop (Z.to_nat (count - rc)) ys) zs ∧
    tables d m' xs' (drop (Z.to_nat (count - rc)) ys)).
Proof.
  revert s rc xs ys m. induction fuel as [|fuel IH]; intros s rc xs ys m HC T Hf Hrc Hcount; [lia|].
  simpl. apply runs_bind, (on_lru_runs HC _ (root (lru s))) with (nl' := nl) (ys' := ys) (zs' := zs);
    [by exists (lru s); split; [|apply HC]|]. intros s1 HC1.
  rewrite (half_rep_empty _ _ _ _ (proj1 (proj2 HC))). destruct ys as [|[q b] ys].
  { apply runs_ret. rewrite drop_nil. by exists m, xs. }
  rewrite bool_decide_false // (half_rep_first _ _ _ _ _ _ (proj1 (proj2 HC))).
  apply runs_bind, (lru_deref_runs HC1 q b); [set_solver|]. intros s2 HC2.
  apply runs_bind, (printk_runs HC2). intros s3 HC3.
  assert (m !! l_inode_number b = Some (l_inode_generation b, l_time_stamp b)) as Hm.
  { apply (tables_lru_lookup d _ xs ((q, b) :: ys) q b T). set_solver. }
  destruct (tables_scan_hit _ _ _ _ _ _ _ T Hm) as (l & p & a & r & -> & Ea & _).
  fold (e_lru b) in Ea. pose proof (tables_remove d m l p a r [] q b ys T Ea) as T'.
  pose proof (tb_lru_ok _ _ _ _ T) as [[Hd _] _]%Forall_cons. simpl in Hd.
  unfold e_scan, e_lru in Ea. injection Ea as <- <- Ets. rewrite Hd.
  apply runs_bind. eapply find_scan_runs; [done|intros; by eapply scan_find_hit|]. intros s4 HC4.
  apply runs_bind. eapply (lru_remove_runs _ _ _ _ _ _ [] q b ys); [done|]. intros s5 HC5.
  apply runs_bind. eapply scan_remove_runs; [done|]. intros s6 HC6.
  rewrite s32_id; [int_solve|].
  replace (Z.to_nat (count - rc)) with (S (Z.to_nat (count - (rc + 1)))) by lia. simpl drop.
  destruct (Z.leb_spec count (rc + 1)).
  - apply runs_ret. replace (Z.to_nat (count - (rc + 1))) with 0 by lia.
    by exists (delete (s_inode_number a) m), (l ++ r).
  - eapply IH; [done|done|simpl in Hf; lia|lia|done].
Qed.

Lemma tables_map m xs ys : tables d m xs ys → m = list_to_map ((λ y, e_lru y.2) <$> ys).
Proof.
  intros T. rewrite -{1}(list_to_map_to_list m). symmetry.
  apply list_to_map_proper; [|apply (tb_lru_map _ _ _ _ T)].
  rewrite (tb_lru_map _ _ _ _ T). apply NoDup_fst_map_to_list.
Qed.

Lemma tables_size m xs ys : tables d m xs ys → length xs = size m ∧ length ys = size m.
Proof.
  intros T. rewrite -length_map_to_list. split.
  - by rewrite -(tb_scan_map _ _ _ _ T) length_fmap.
  - by rewrite -(tb_lru_map _ _ _ _ T) length_fmap.
Qed.

Lemma remove_cache_entry_runs fuel count s sp :
  implements d s sp → size (sp_map sp) < fuel → in_s32 count →
  runs (remove_cache_entry fuel count) s (λ _ s', implements d s' (spec_evict count sp)).
Proof.
  intros (xs & ys & zs & HC & T & Hlk) Hf Hc. destruct sp as [m t ns nl lk]. simpl in *.
  unfold remove_cache_entry, spec_evict. simpl. rewrite -(tables_by_age _ _ _ _ T).
  destruct (Z.leb_spec count 0).
  - apply runs_ret. replace (Z.to_nat count) with 0 by lia. simpl. rewrite -(tables_map _ _ _ T).
    by exists xs, ys, zs.
  - eapply runs_wand; [eapply evict_runs; [done..| |lia|done]|].
    { pose proof (tables_size _ _ _ T). lia. }
    intros [] s' (m' & xs' & HC' & T'). rewrite Z.sub_0_r in HC', T'.
    exists xs', (drop (Z.to_nat count) ys), zs. split; [done|]. split; [|done]. simpl.
    by rewrite -fmap_drop -(tables_map _ _ _ T').
Qed.
End refine.
