(* ===== verification/CacheProps.v ===== *)
(** * Properties of the scan cache

    The refinement theorem for sequences of calls, what it means for users of
    the cache, and the behaviours outside it. *)

From Stdlib Require Import ZArith Lia ssreflect.
From stdpp Require Import base list numbers gmap sorting.
From S2P Require Import Prelude RbTree Cache CacheHalf CacheOrder CacheSpec CacheRefine.

(** ** A kernel *)

(** A kernel whose clock ticks once a second and which never runs out of memory. *)
Definition sample_scan : scan_cache_record := ScanRec 0 0 0 STATE_UNKNOWN (Timespec 0 0).
Definition sample_lru : lru_cache_record := LruRec (Timespec 0 0) 0 0 0.

Definition sample_kernel (clock : nat → timespec) : Kernel := {|
  k_rb := reference_rb;
  k_address X := fresh X;
  k_clock := clock;
  k_scan_object _ := Some sample_scan;
  k_lru_object _ := Some sample_lru;
  k_slab _ := true |}.

(** Once a second, until the end of 64-bit time. *)
Definition seconds (n : nat) : timespec := Timespec (Z.of_nat n `min` (2 ^ 63 - 1)) 0.

Lemma seconds_laws : KernelLaws (sample_kernel seconds).
Proof.
  split; [exact reference_rb_laws|apply is_fresh|]. intros n. unfold ts_ok. cbn [k_clock sample_kernel seconds tv_sec tv_nsec].
  lia.
Qed.

(** ** Sequences of calls *)

Inductive cache_op :=
  | OpInsert (f : fileInfo)
  | OpFindRemove (f : fileInfo)
  | OpEvict (count : Z)
  | OpPurge.

Inductive op_result := RInt (r : Z) | RBool (b : bool) | RVoid.

Definition op_ok (d : Z) (op : cache_op) : Prop :=
  match op with
  | OpInsert f | OpFindRemove f => file_ok d f
  | OpEvict count => in_s32 count
  | OpPurge => True
  end.

Section sequences.
Context `{K : Kernel}.

Definition exec_op (fuel : nat) (op : cache_op) : ST cache op_result :=
  match op with
  | OpInsert f => r ← insert_scan_cache_record f; mret (RInt r)
  | OpFindRemove f => b ← find_remove_scan_cache_record f; mret (RBool b)
  | OpEvict count => remove_cache_entry fuel count;; mret RVoid
  | OpPurge => purge_cache fuel;; mret RVoid
  end.

Fixpoint exec_ops (fuel : nat) (ops : list cache_op) : ST cache (list op_result) :=
  match ops with
  | [] => mret []
  | op :: ops => r ← exec_op fuel op; rs ← exec_ops fuel ops; mret (r :: rs)
  end.

Definition spec_op (op : cache_op) (sp : spec) : op_result * spec :=
  match op with
  | OpInsert f => let '(r, sp') := spec_insert f sp in (RInt r, sp')
  | OpFindRemove f => let '(b, sp') := spec_find_remove f sp in (RBool b, sp')
  | OpEvict count => (RVoid, spec_evict count sp)
  | OpPurge => (RVoid, spec_purge sp)
  end.

Fixpoint spec_ops (ops : list cache_op) (sp : spec) : list op_result * spec :=
  match ops with
  | [] => ([], sp)
  | op :: ops =>
      let '(r, sp1) := spec_op op sp in
      let '(rs, sp2) := spec_ops ops sp1 in (r :: rs, sp2)
  end.
End sequences.

Section props.
Context `{K : Kernel} {laws : KernelLaws K} (d : Z).

Lemma exec_op_runs fuel op s sp :
  implements d s sp → op_ok d op → size (sp_map sp) < fuel →
  runs (exec_op fuel op) s (λ r s', r = (spec_op op sp).1 ∧ implements d s' (spec_op op sp).2).
Proof.
  intros H Hop Hf. destruct op as [f|f|count|]; simpl in *; apply runs_bind.
  - eapply runs_wand; [apply (insert_runs d s sp f H Hop)|]. intros r s' [-> H'].
    apply runs_ret. by destruct (spec_insert f sp).
  - eapply runs_wand; [apply (find_remove_runs d s sp f H Hop)|]. intros r s' [-> H'].
    apply runs_ret. by destruct (spec_find_remove f sp).
  - eapply runs_wand; [by apply (remove_cache_entry_runs d fuel count s sp)|]. intros r s' H'.
    by apply runs_ret.
  - destruct H as (xs & ys & zs & HC & T & Hlk). destruct (tables_size _ _ _ _ T).
    eapply runs_wand; [eapply purge_runs; [done|lia..]|]. intros r s' HC'.
    apply runs_ret. split; [done|]. destruct sp. exists [], [], zs.
    split; [done|]. split; [apply tables_empty|done].
Qed.

Lemma size_delete_le (m : gmap Z (Z * timespec)) i : size (delete i m) ≤ size m.
Proof. rewrite map_size_delete. case_match; simpl; lia. Qed.

Lemma evicted_size count (m : gmap Z (Z * timespec)) :
  size (list_to_map (drop (Z.to_nat count) (by_age m)) : gmap Z (Z * timespec)) ≤ size m.
Proof.
  assert (∀ l : list entry, size (list_to_map l : gmap Z (Z * timespec)) ≤ length l) as Hsz.
  { induction l as [|[i e] l IH]; simpl; [by rewrite map_size_empty|].
    rewrite map_size_insert. case_match; simpl; lia. }
  etransitivity; [apply Hsz|]. unfold by_age.
  rewrite length_drop merge_sort_Permutation length_map_to_list. lia.
Qed.

(** An operation adds one entry at most. *)
Lemma spec_op_size op sp : size (sp_map (spec_op op sp).2) ≤ S (size (sp_map sp)).
Proof.
  destruct sp as [m t ns nl lk], op as [f|f|count|]; simpl.
  - unfold spec_insert, spec_enter. simpl.
    pose proof (size_delete_le m (f_inode_number f)).
    repeat case_match; simplify_eq/=; try lia.
    rewrite map_size_insert_None; [apply lookup_delete_eq|]. lia.
  - unfold spec_find_remove. simpl. repeat case_match; simplify_eq/=; try lia.
    pose proof (size_delete_le m (f_inode_number f)). lia.
  - pose proof (evicted_size count m). lia.
  - rewrite map_size_empty. lia.
Qed.

Lemma exec_ops_runs fuel ops s sp :
  implements d s sp → Forall (op_ok d) ops → size (sp_map sp) + length ops < fuel →
  runs (exec_ops fuel ops) s
    (λ rs s', rs = (spec_ops ops sp).1 ∧ implements d s' (spec_ops ops sp).2).
Proof.
  revert s sp. induction ops as [|op ops IH]; intros s sp H Hok Hf; simpl.
  { by apply runs_ret. }
  apply Forall_cons in Hok as [Hop Hok]. simpl in Hf. apply runs_bind.
  eapply runs_wand; [apply (exec_op_runs fuel op s sp H Hop); lia|]. intros r s1 [-> H1].
  pose proof (spec_op_size op sp). destruct (spec_op op sp) as [r sp1]. simpl in *. apply runs_bind.
  eapply runs_wand; [apply (IH s1 sp1 H1 Hok); lia|]. intros rs s2 [-> H2].
  apply runs_ret. by destruct (spec_ops ops sp1).
Qed.

Lemma spec_ops_size ops sp : size (sp_map (spec_ops ops sp).2) ≤ size (sp_map sp) + length ops.
Proof.
  revert sp. induction ops as [|op ops IH]; intros sp; simpl; [lia|].
  pose proof (spec_op_size op sp). destruct (spec_op op sp) as [r sp1]. specialize (IH sp1).
  destruct (spec_ops ops sp1) as [rs sp2]. simpl in *. lia.
Qed.

Lemma init_runs (Q : Z → cache → Prop) :
  k_slab 0 = true → k_slab 1 = true → (∀ s, implements d s spec_init → Q 0%Z s) →
  runs init_scan_cache cache_globals Q.
Proof.
  intros H0 H1 HQ. eexists _, _. split.
  - unfold init_scan_cache, mbind, ST_bind. simpl. rewrite H0 /= H1. reflexivity.
  - apply HQ. exists [], [], []. split; [|split; [apply tables_empty|done]].
    split_and!; [| |done].
    all: split_and!; [split; rewrite ?map_to_list_empty; try done; exists 0; constructor|done..].
Qed.
End props.

(** The end of the module: what is left of the two halves. *)
Section teardown.
Context `{K : Kernel} {laws : KernelLaws K} (d : Z).

(** Eviction with LRU records but no scan record. *)
Lemma evict_stranded fuel count s t ns nl ys zs :
  conn s t ns nl [] [] ys zs → 0 < fuel → (0 < count)%Z →
  runs (remove_cache_entry fuel count) s (λ _ s', conn s' t ns nl [] [] ys zs).
Proof.
  intros HC1 Hf Hc. unfold remove_cache_entry. destruct (Z.leb_spec count 0); [lia|].
  destruct fuel as [|fuel]; [lia|]. simpl.
  apply runs_bind, (on_lru_runs HC1 _ (root (lru s))) with (nl' := nl) (ys' := ys) (zs' := zs);
    [by exists (lru s); split; [|apply HC1]|]. intros s2 HC2.
  rewrite (half_rep_empty _ _ _ _ (proj1 (proj2 HC1))). destruct ys as [|[q b] ys]; [by apply runs_ret|].
  rewrite bool_decide_false // (half_rep_first _ _ _ _ _ _ (proj1 (proj2 HC1))).
  apply runs_bind, (lru_deref_runs HC2 q b); [set_solver|]. intros s3 HC3.
  apply runs_bind, (printk_runs HC3). intros s4 HC4. apply runs_bind.
  eapply find_scan_runs with (r := None); [exact HC4| |intros s5 HC5; by apply runs_ret].
  intros s5 HC5. eapply (search_record_miss _ _ _ _ [] [] [] []); [apply HC5|apply scan_find_compares|done..].
Qed.

(** A half after its slab was destroyed. *)
Definition torn_down {A : Type} (n : nat) (h : half A) : Prop :=
  slab h = false ∧ root h = Leaf ∧ size (objects h) = n ∧ lock h = false.

Lemma destroy_torn_down {A : Type} (h : half A) n zs :
  half_rep h n [] zs →
  ∃ h', destroy_slab h = Some (tt, h') ∧ torn_down (length zs) h'.
Proof.
  intros ([Hs _ Hr Ho] & Hl & _). unfold destroy_slab. rewrite Hs. eexists. split; [done|].
  split_and!; simpl; [done| | |done].
  - destruct (root h) as [|? l]; [done|]. simpl in Hr. by destruct (inorder l).
  - by rewrite -length_map_to_list Ho.
Qed.

Lemma exit_runs fuel s sp :
  implements d s sp → size (sp_map sp) < fuel →
  runs (exit_scan_cache fuel) s
    (λ _ s', torn_down 0 (scan s') ∧ torn_down (sp_leaked sp) (lru s')).
Proof.
  intros H Hf. unfold exit_scan_cache. apply runs_bind.
  eapply runs_wand; [apply (remove_cache_entry_runs d fuel 2 s sp H Hf); int_solve|].
  intros [] s1 (xs & ys & zs & HC & T & Hlk). destruct sp as [m t ns nl lk].
  destruct (tables_size _ _ _ _ T) as [Hx Hy]. simpl in *. subst lk.
  pose proof (evicted_size 2 m).
  apply runs_bind. eapply runs_wand; [eapply purge_runs; [done|lia..]|]. intros [] s2 (H1 & H2 & _).
  destruct (destroy_torn_down _ _ _ H1) as (h1 & E1 & Ht1).
  destruct (destroy_torn_down _ _ _ H2) as (h2 & E2 & Ht2).
  eexists tt, _. split.
  - unfold mbind, ST_bind, on_scan, on_lru. rewrite E1. cbn [lru]. rewrite E2. reflexivity.
  - by split; simpl.
Qed.
End teardown.

(** ** Properties *)

(** C1: once both slabs are created, every sequence of insertions, removals,
    evictions and purges on files of one device (inode numbers below 2^63) runs
    without a use after free, a double free or a self-deadlock, returns what the
    specification returns on every branch (refused allocations and time stamp
    collisions included), and ends in a state that implements the
    specification's: both trees are sorted search trees over the same entries,
    and every live record is linked except the leaked ones it counts. *)
Theorem cache_refines `{K : Kernel} {laws : KernelLaws K} d fuel ops :
  k_slab 0 = true → k_slab 1 = true → Forall (op_ok d) ops → length ops < fuel →
  ∃ s, (r ← init_scan_cache; exec_ops fuel ops) cache_globals =
         Some ((spec_ops ops spec_init).1, s) ∧
       implements d s (spec_ops ops spec_init).2.
Proof.
  intros H0 H1 Hok Hf.
  assert (runs (r ← init_scan_cache; exec_ops fuel ops) cache_globals
    (λ rs s, rs = (spec_ops ops spec_init).1 ∧ implements d s (spec_ops ops spec_init).2))
    as (rs & s & E & -> & H); [|by exists s].
  apply runs_bind, (init_runs d); [done..|]. intros s Hs. by apply exec_ops_runs.
Qed.

Lemma cache_refines_witness :
  let K := sample_kernel seconds in
  let f i g := FileInfo 100 i g in
  let ops := [OpInsert (f 1001 5); OpInsert (f 1009 6); OpInsert (f 1001 7);
              OpFindRemove (f 1001 5); OpFindRemove (f 1001 7); OpEvict 1; OpPurge]%Z in
  ∃ s, (r ← init_scan_cache; exec_ops 10 ops) cache_globals =
         Some ([RInt 0; RInt 0; RInt 0; RBool false; RBool true; RVoid; RVoid], s) ∧
       implements 100 s (spec_ops ops spec_init).2.
Proof.
  intros K f ops.
  apply (@cache_refines K seconds_laws 100 10 ops); [reflexivity|reflexivity| |simpl; lia].
  repeat constructor; unfold file_ok, ino_ok, in_u32, in_s32; simpl; lia.
Defined.

(** C6: insert and find, in a cache of one device with inode numbers below 2^63. A file whose insertion has the memory it needs and a
    time stamp no other entry has is found: a lookup with another generation of the same
    inode fails and changes nothing, the lookup with the inserted generation succeeds and
    takes the entry out again, leaving the other entries as they were. *)
Theorem insert_then_find `{K : Kernel} {laws : KernelLaws K} d s sp f g :
  implements d s sp → file_ok d f → in_u32 g → g ≠ f_inode_generation f →
  is_Some (k_scan_object (sp_scan sp)) → is_Some (k_lru_object (sp_lru sp)) →
  ts_used (k_clock (sp_ticks sp)) (delete (f_inode_number f) (sp_map sp)) = false →
  ∃ s1 s2 s3 sp3,
    insert_scan_cache_record f s = Some (0%Z, s1) ∧
    find_remove_scan_cache_record (FileInfo d (f_inode_number f) g) s1 = Some (false, s2) ∧
    find_remove_scan_cache_record f s2 = Some (true, s3) ∧
    implements d s3 sp3 ∧ sp_map sp3 = delete (f_inode_number f) (sp_map sp).
Proof.
  intros H Hf Hg Hne [a1 Ha1] [a2 Ha2] Hts. pose proof Hf as (Hd & Hi & Hfg).
  destruct (insert_runs d s sp f H Hf) as (r & s1 & E1 & Er & H1).
  destruct sp as [m t ns nl lk]. unfold spec_insert, spec_enter in Er, H1. simpl in *.
  rewrite Ha1 Ha2 Hts /= in Er, H1. subst r.
  set (sp1 := Spec _ _ _ _ _) in H1.
  destruct (find_remove_runs d s1 sp1 (FileInfo d (f_inode_number f) g) H1) as (b & s2 & E2 & Eb & H2);
    [done|]. unfold spec_find_remove in Eb, H2. simpl in Eb, H2. rewrite lookup_insert_eq in Eb, H2.
  rewrite (proj2 (Z.eqb_neq _ _) Hne) in Eb, H2. simpl in Eb, H2. subst b.
  destruct (find_remove_runs d s2 sp1 f H2 Hf) as (b & s3 & E3 & Eb & H3).
  unfold spec_find_remove in Eb, H3. simpl in Eb, H3. rewrite lookup_insert_eq Z.eqb_refl in Eb, H3.
  subst b. eexists s1, s2, s3, _. split_and!; [done..|]. simpl.
  by rewrite delete_insert_eq delete_delete_eq.
Qed.

Lemma insert_then_find_witness :
  let K := sample_kernel seconds in
  ∃ s s1 s2 s3,
    insert_scan_cache_record (FileInfo 100 1001 12345) s = Some (0%Z, s1) ∧
    find_remove_scan_cache_record (FileInfo 100 1001 9) s1 = Some (false, s2) ∧
    find_remove_scan_cache_record (FileInfo 100 1001 12345) s2 = Some (true, s3).
Proof.
  intros K.
  destruct (@init_runs K 100 (λ _ s, implements 100 s spec_init)) as (_ & s & _ & H); [done..|].
  destruct (@insert_then_find K seconds_laws 100 s spec_init (FileInfo 100 1001 12345) 9)
    as (s1 & s2 & s3 & sp3 & E1 & E2 & E3 & _);
    [exact H|unfold file_ok, ino_ok, in_u32; simpl; lia|unfold in_u32; lia|simpl; lia|
     by eexists|by eexists|reflexivity|].
  by exists s, s1, s2, s3.
Defined.

(** C7: eviction, in a cache of one device with inode numbers below 2^63. [remove_cache_entry(count)] for a positive [count] drops from
    both trees the [count] oldest entries, or all of them when there are
    fewer: every entry dropped is strictly older than every entry kept. *)
Theorem evicts_oldest `{K : Kernel} {laws : KernelLaws K} d s sp fuel count :
  implements d s sp → size (sp_map sp) < fuel → (0 < count)%Z → in_s32 count →
  ∃ s' dropped kept,
    remove_cache_entry fuel count s = Some (tt, s') ∧
    map_to_list (sp_map sp) ≡ₚ dropped ++ kept ∧
    length dropped = Z.to_nat count `min` size (sp_map sp) ∧
    (∀ e e', e ∈ dropped → e' ∈ kept → (ts_key e.2.2 < ts_key e'.2.2)%Z) ∧
    implements d s' (spec_map (λ _, list_to_map kept) sp).
Proof.
  intros H Hf Hc Hc32. destruct (remove_cache_entry_runs d fuel count s sp H Hf Hc32) as ([] & s' & E & H').
  destruct H as (xs & ys & zs & _ & T & _). pose proof (tables_by_age _ _ _ _ T) as Hage.
  exists s', (take (Z.to_nat count) (by_age (sp_map sp))), (drop (Z.to_nat count) (by_age (sp_map sp))).
  split_and!; [done| | | |by destruct sp].
  - rewrite take_drop. unfold by_age. by rewrite merge_sort_Permutation.
  - rewrite length_take. f_equal. unfold by_age. by rewrite merge_sort_Permutation length_map_to_list.
  - rewrite -Hage -fmap_take -fmap_drop. intros e e' He He'.
    apply list_elem_of_fmap in He as (y & -> & Hy). apply list_elem_of_fmap in He' as (y' & -> & Hy').
    pose proof (tb_lru_sorted _ _ _ _ T) as Hs. rewrite -(take_drop (Z.to_nat count) ys) in Hs.
    apply sorted_by_app in Hs as (_ & _ & Hs). by apply Hs.
Qed.

Lemma evicts_oldest_witness :
  let K := sample_kernel seconds in
  ∃ s s' dropped kept,
    remove_cache_entry 10 1 s = Some (tt, s') ∧
    [(1001, (5, Timespec 0 0)); (1009, (6, Timespec 1 0))]%Z ≡ₚ dropped ++ kept ∧
    length dropped = 1.
Proof.
  intros K.
  destruct (@init_runs K 100 (λ _ s, implements 100 s spec_init)) as (_ & s0 & _ & H0); [done..|].
  destruct (@exec_ops_runs K seconds_laws 100 10
    [OpInsert (FileInfo 100 1001 5); OpInsert (FileInfo 100 1009 6)] s0 spec_init H0)
    as (_ & s & _ & _ & H);
    [repeat constructor; unfold file_ok, ino_ok, in_u32; simpl; lia|simpl; rewrite map_size_empty; lia|].
  destruct (@evicts_oldest K seconds_laws 100 s _ 10 1 H) as (s' & dropped & kept & E & Hp & Hl & _);
    [vm_compute; lia|lia|unfold in_s32; lia|].
  exists s, s', dropped, kept. split; [exact E|]. split; [|exact Hl]. rewrite -Hp. vm_compute. reflexivity.
Defined.

(** C8: tear-down. Once both slabs are created, after any sequence of insertions, removals, evictions and calls of
    purge_cache on files of one device (inode numbers below 2^63) [exit_scan_cache] empties both trees,
    frees every linked record and destroys both slabs; the objects still
    live at that point are exactly as many LRU records as the specification counts as leaked, so a run without
    time stamp collisions leaves no object behind. *)
Theorem exit_frees_all `{K : Kernel} {laws : KernelLaws K} d fuel ops :
  k_slab 0 = true → k_slab 1 = true → Forall (op_ok d) ops → length ops < fuel →
  ∃ s, (r ← init_scan_cache; rs ← exec_ops fuel ops; exit_scan_cache fuel) cache_globals = Some (tt, s) ∧
       torn_down 0 (scan s) ∧ torn_down (sp_leaked (spec_ops ops spec_init).2) (lru s).
Proof.
  intros H0 H1 Hok Hf.
  assert (runs (r ← init_scan_cache; rs ← exec_ops fuel ops; exit_scan_cache fuel) cache_globals
    (λ _ s, torn_down 0 (scan s) ∧ torn_down (sp_leaked (spec_ops ops spec_init).2) (lru s)))
    as ([] & s & E & H); [|by exists s].
  apply runs_bind, (init_runs d); [done..|]. intros s Hs. apply runs_bind.
  eapply runs_wand; [by apply (exec_ops_runs d fuel ops s spec_init)|]. intros rs s1 [_ H].
  eapply exit_runs; [done|]. pose proof (spec_ops_size ops spec_init) as Hsz.
  simpl in Hsz. rewrite map_size_empty in Hsz. lia.
Qed.

Lemma exit_frees_all_witness :
  let K := sample_kernel seconds in
  let ops := [OpInsert (FileInfo 100 1001 5); OpInsert (FileInfo 100 1009 6)] in
  ∃ s, (r ← init_scan_cache; rs ← exec_ops 5 ops; exit_scan_cache 5) cache_globals = Some (tt, s) ∧
       torn_down 0 (scan s) ∧ torn_down 0 (lru s).
Proof.
  intros K ops.
  apply (@exit_frees_all K seconds_laws 100 5 ops); [reflexivity|reflexivity| |simpl; lia].
  repeat constructor; unfold file_ok, ino_ok, in_u32; simpl; lia.
Defined.

(** a time stamp collision leaks. When the clock returns a time stamp that
    another entry has, the insertion returns -1, the file ends up
    uncached (an older entry of it is dropped), and the LRU record allocated for
    it is in no tree and is never freed: it is still live after
    [exit_scan_cache]. *)
Theorem collision_leaks `{K : Kernel} {laws : KernelLaws K} d s sp f fuel :
  implements d s sp → file_ok d f → size (sp_map sp) < fuel →
  is_Some (k_scan_object (sp_scan sp)) → is_Some (k_lru_object (sp_lru sp)) →
  ts_used (k_clock (sp_ticks sp)) (delete (f_inode_number f) (sp_map sp)) = true →
  ∃ s1 s2 sp1, insert_scan_cache_record f s = Some ((-1)%Z, s1) ∧ implements d s1 sp1 ∧
    sp_map sp1 = delete (f_inode_number f) (sp_map sp) ∧ sp_leaked sp1 = S (sp_leaked sp) ∧
    exit_scan_cache fuel s1 = Some (tt, s2) ∧ torn_down 0 (scan s2) ∧ torn_down (S (sp_leaked sp)) (lru s2).
Proof.
  intros H Hf Hfuel [a1 Ha1] [a2 Ha2] Hts.
  destruct (insert_runs d s sp f H Hf) as (r & s1 & E1 & Er & H1).
  destruct sp as [m t ns nl lk]. unfold spec_insert, spec_enter in Er, H1. simpl in *.
  rewrite Ha1 Ha2 Hts /= in Er, H1. subst r.
  destruct (exit_runs d fuel s1 _ H1) as ([] & s2 & E2 & Ht1 & Ht2).
  { simpl. pose proof (size_delete_le m (f_inode_number f)). lia. }
  eexists s1, s2, _. by split_and!.
Qed.

Lemma collision_leaks_witness :
  let K := sample_kernel (λ _, Timespec 7 0) in
  ∃ s s1 s2, insert_scan_cache_record (FileInfo 100 1009 6) s = Some ((-1)%Z, s1) ∧
    exit_scan_cache 5 s1 = Some (tt, s2) ∧ size (objects (lru s2)) = 1.
Proof.
  intros K. assert (L : KernelLaws K) by (split; [exact reference_rb_laws|apply is_fresh|intros n; unfold ts_ok; simpl; lia]).
  destruct (@init_runs K 100 (λ _ s, implements 100 s spec_init)) as (_ & s0 & _ & H0); [done..|].
  destruct (@exec_ops_runs K L 100 5 [OpInsert (FileInfo 100 1001 5)] s0 spec_init H0)
    as (_ & s & _ & _ & H);
    [repeat constructor; unfold file_ok, ino_ok, in_u32; simpl; lia|simpl; rewrite map_size_empty; lia|].
  destruct (@collision_leaks K L 100 s _ (FileInfo 100 1009 6) 5 H) as (s1 & s2 & sp1 & E1 & _ & _ & _ & E2 & _ & Ht);
    [unfold file_ok, ino_ok, in_u32; simpl; lia|vm_compute; lia|by eexists|by eexists|reflexivity|].
  exists s, s1, s2. split; [exact E1|]. split; [exact E2|]. apply Ht.
Defined.

(** [purge_scan_cache], the purge the header exports, empties the scan tree
    only: every LRU record stays linked, and from then on [remove_cache_entry]
    finds no scan record for the oldest LRU record and gives up at once, so
    it evicts nothing. *)
Theorem purge_scan_strands_lru `{K : Kernel} {laws : KernelLaws K} d s sp fuel count :
  implements d s sp → size (sp_map sp) < fuel → (0 < count)%Z →
  ∃ s1 s2, purge_scan_cache fuel s = Some (tt, s1) ∧ remove_cache_entry fuel count s1 = Some (tt, s2) ∧
    root (scan s2) = Leaf ∧ length (inorder (root (lru s2))) = size (sp_map sp).
Proof.
  intros (xs & ys & zs & HC & T & _) Hf Hc. destruct (tables_size _ _ _ _ T) as [Hx Hy].
  destruct (purge_scan_runs fuel _ _ _ _ _ _ _ _ HC) as ([] & s1 & E1 & HC1); [lia|].
  destruct (evict_stranded fuel count _ _ _ _ _ _ HC1) as ([] & s2 & E2 & HC2); [lia|done|].
  exists s1, s2. destruct HC2 as (([_ _ Hr _] & _) & ([_ _ Hl _] & _) & _). split_and!; [done|done| |].
  - destruct (root (scan s2)) as [|? l]; [done|]. simpl in Hr. by destruct (inorder l).
  - by rewrite Hl length_fmap.
Qed.

Lemma purge_scan_strands_lru_witness :
  let K := sample_kernel seconds in
  ∃ s s1 s2, purge_scan_cache 5 s = Some (tt, s1) ∧ remove_cache_entry 5 2 s1 = Some (tt, s2) ∧
    root (scan s2) = Leaf ∧ length (inorder (root (lru s2))) = 1.
Proof.
  intros K.
  destruct (@init_runs K 100 (λ _ s, implements 100 s spec_init)) as (_ & s0 & _ & H0); [done..|].
  destruct (@exec_ops_runs K seconds_laws 100 5 [OpInsert (FileInfo 100 1001 5)] s0 spec_init H0)
    as (_ & s & _ & _ & H);
    [repeat constructor; unfold file_ok, ino_ok, in_u32; simpl; lia|simpl; rewrite map_size_empty; lia|].
  exists s. apply (@purge_scan_strands_lru K seconds_laws 100 s _ 5 2 H); [vm_compute; lia|lia].
Defined.
