(* ===== verification/CacheLimits.v ===== *)
(** * Where the scan cache breaks down

    The behaviours of cache.c outside the specification, each as a theorem on the
    same definitions: records of different devices, whose comparison is not an
    order; two threads that remove the same file, since the lock is dropped between the
    lookup and the removal; and a module whose slabs were refused. *)

From Stdlib Require Import ZArith Lia ssreflect.
From stdpp Require Import base list numbers gmap sorting.
From S2P Require Import Prelude RbTree Cache CacheHalf CacheOrder CacheSpec CacheRefine CacheProps.

(** ** Small red-black trees *)

Lemma rb_height_0 t c : rb t c 0 → t = Leaf ∨ ∃ p, t = Node Red Leaf p Leaf.
Proof.
  inversion 1 as [|l p r h Hl Hr|]; subst; [by left|right]. exists p.
  inversion Hl; inversion Hr; by subst.
Qed.

Lemma inorder_nil t : inorder t = [] → t = Leaf.
Proof. destruct t as [|c l p r]; [done|]. simpl. by destruct (inorder l). Qed.

(** A red-black tree of three nodes has the middle one at its root. *)
Lemma rb_three t p1 p2 p3 :
  rb_valid t → inorder t = [p1; p2; p3] →
  ∃ c l r, t = Node c l p2 r ∧ inorder l = [p1] ∧ inorder r = [p3].
Proof.
  intros [h Ht] E. inversion Ht as [|?|l p r c c' h' Hl Hr]; subst; [done|]. simpl in E.
  exists Black, l, r. destruct (inorder l) as [|x [|x' [|? [|? ?]]]] eqn:El; simplify_eq/=.
  - apply inorder_nil in El as ->. inversion Hl; subst.
    apply rb_height_0 in Hr as [->|[? ->]]; done.
  - done.
  - assert (r = Leaf) as -> by by apply inorder_nil. inversion Hr; subst.
    apply rb_height_0 in Hl as [->|[? ->]]; done.
Qed.

(** ** Records of other devices *)

Section devices.
Context `{K : Kernel} {laws : KernelLaws K}.

(** A record of a device that the tree does not know goes to its right end,
    whatever its key. *)
Lemma foreign_greater a xs :
  in_u32 (s_dev_id a) →
  Forall (λ x : positive * _, in_u32 (s_dev_id x.2) ∧ s_dev_id x.2 ≠ s_dev_id a) xs →
  Forall (λ x, 0 < scan_insert_order a x.2)%Z xs.
Proof.
  intros Ha H. eapply Forall_impl; [done|]. intros x [Hx Hne]. unfold scan_insert_order, level.
  pose proof (diff_u32_pos _ _ Ha Hx (not_eq_sym Hne)). by rewrite (proj2 (Z.ltb_lt _ _)).
Qed.

Lemma insert_append s t ns nl xs ys zs f :
  conn s t ns nl xs [] ys zs → is_Some (k_scan_object ns) → is_Some (k_lru_object nl) →
  in_u32 (f_dev_id f) →
  Forall (λ x, in_u32 (s_dev_id x.2) ∧ s_dev_id x.2 ≠ f_dev_id f) xs →
  Forall (λ y, ts_ok (l_time_stamp y.2) ∧ lru_key y.2 < ts_key (k_clock t))%Z ys →
  runs (insert_scan_cache_record f) s (λ ret s', ret = 0%Z ∧ ∃ p q st,
    conn s' (S t) (S ns) (S nl)
      (xs ++ [(p, ScanRec (f_dev_id f) (f_inode_number f) (f_inode_generation f) st (k_clock t))]) []
      (ys ++ [(q, LruRec (k_clock t) (f_dev_id f) (f_inode_number f) (f_inode_generation f))]) zs).
Proof.
  intros HC [junk Hj] Hlru Hdev Hxs Hys. eapply build_scan_runs; [done..|].
  clear dependent s. intros p s HC. set (a := ScanRec _ _ _ _ _) in HC.
  assert (objects (scan s) !! p = Some a) as Hp by (eapply linked_lookup; [apply HC|set_solver]).
  apply runs_bind. eapply (on_scan_runs HC).
  { eapply (insert_record_new _ _ _ _ p a xs []); [rewrite app_nil_r; apply HC|
      by apply scan_insert_compares|by apply foreign_greater|done]. }
  intros s1 HC1. simpl. apply runs_bind, (scan_deref_runs HC1 p a); [set_solver|]. intros s2 HC2.
  apply runs_bind. eapply build_lru_runs; [done..|]. intros q s3 HC3. simpl in HC3.
  set (b := LruRec _ _ _ _) in HC3.
  assert (objects (lru s3) !! q = Some b) as Hq by (eapply linked_lookup; [apply HC3|set_solver]).
  eapply (on_lru_runs HC3).
  { eapply (insert_record_new _ _ _ _ q b ys []); [rewrite app_nil_r; apply HC3|
      by apply lru_insert_compares| |done].
    eapply Forall_impl; [done|]. intros y [Hy Hlt]. simpl. unfold lru_key in Hlt.
    rewrite time_order_sgn //; [apply kl_clock|]. lia. }
  intros s4 HC4. apply runs_bind, runs_ret, runs_ret. split; [done|]. eauto.
Qed.

(** Removing a record that is not in the tree. *)
Lemma remove_absent p s : p ∉ inorder (root (scan s)) → remove_scan_cache_record (Some p) s = None.
Proof.
  intros H. unfold remove_scan_cache_record, remove_record, on_scan, mbind, ST_bind, spin_lock.
  destruct (lock (scan s)); [done|]. unfold RB_REMOVE. simpl. by rewrite bool_decide_false.
Qed.

(** In a tree of three devices inserted one after the other, the first one is out
    of reach. *)
Lemma first_unreachable (h : half scan_cache_record) n p1 a1 p2 a2 p3 a3 g :
  half_rep h n [(p1, a1); (p2, a2); (p3, a3)] [] →
  in_u32 (s_dev_id a1) → in_u32 (s_dev_id a2) → in_u32 (s_dev_id a3) →
  s_dev_id a2 ≠ s_dev_id a1 → s_dev_id a3 ≠ s_dev_id a1 →
  search_record (λ this, scan_cache_find_compare_table
    (Some (ScanKey (s_dev_id a1) (s_inode_number a1) g)) (Some this)) h = Some (None, h).
Proof.
  intros (H & Hl & _) H1 H2 H3 N2 N3. apply search_record_run; [done|].
  destruct (rb_three _ _ _ _ (linked_valid _ _ _ H) (linked_root _ _ _ H)) as (c & l & r & E & _ & Er).
  pose proof (scan_find_compares (ScanKey (s_dev_id a1) (s_inode_number a1) g) h (locked h) eq_refl) as Hr.
  assert (∀ a, in_u32 (s_dev_id a) → s_dev_id a ≠ s_dev_id a1 →
    (0 < scan_find_order (ScanKey (s_dev_id a1) (s_inode_number a1) g) a)%Z) as Hpos.
  { intros a Ha Hne. unfold scan_find_order, level. simpl.
    pose proof (diff_u32_pos _ _ H1 Ha (not_eq_sym Hne)). by rewrite (proj2 (Z.ltb_lt _ _)). }
  apply locked_linked in H. simpl in E, Er. rewrite E. cbn [RB_SEARCH].
  rewrite (st_bind_some _ _ _ _ _ (Hr p2 a2 ltac:(eapply linked_lookup; [apply H|set_solver]))).
  specialize (Hpos a2 H2 N2) as P2. turn. specialize (Hpos a3 H3 N3) as P3.
  eapply (RB_SEARCH_miss _ (λ _, scan_find_order (ScanKey (s_dev_id a1) (s_inode_number a1) g) a3)
    _ _ [p3] []); [|done|by repeat constructor|done].
  intros q Hq. rewrite Er in Hq. apply list_elem_of_singleton in Hq as ->.
  apply Hr. eapply linked_lookup; [apply H|set_solver].
Qed.
End devices.

(** ** A missing slab *)

Section missing.
Context `{K : Kernel} {laws : KernelLaws K}.

Lemma on_scan_stuck {A B : Type} (m : ST (half scan_cache_record) A) (k : A → ST cache B) s a h :
  m (scan s) = Some (a, h) →
  k a (Cache h (lru s) (ticks s) (slab_requests s) (klog s)) = None → (on_scan m ≫= k) s = None.
Proof. intros E Hk. unfold mbind, ST_bind, on_scan. by rewrite E. Qed.

Lemma insert_lru_missing ts dev i g s :
  slab (lru s) = false → insert_lru_cache_record ts dev i g s = None.
Proof.
  intros H. unfold insert_lru_cache_record, lru_cache_alloc, mbind, ST_bind, might_sleep.
  destruct (lock (scan s) || lock (lru s)); [done|]. unfold on_lru, kmem_cache_alloc. by rewrite H.
Qed.

(** The first insertion when there is no slab for its LRU record. *)
Lemma insert_without_lru f s a n :
  half_rep (scan s) n [] [] → slab (lru s) = false → lock (lru s) = false → k_scan_object n = Some a →
  insert_scan_cache_record f s = None.
Proof.
  intros H Hslab Hlock Ha. pose proof H as (_ & Hl & _).
  destruct (alloc_some _ _ _ _ _ _ H Ha) as (p & h1 & E1 & H1).
  destruct (assign_spec _ _ _ _ _ _ (set_s_dev_id (f_dev_id f)) H1) as (h2 & E2 & H2).
  destruct (assign_spec _ _ _ _ _ _ (set_s_inode_number (f_inode_number f)) H2) as (h3 & E3 & H3).
  destruct (assign_spec _ _ _ _ _ _ (set_s_inode_generation (f_inode_generation f)) H3) as (h4 & E4 & H4).
  destruct (assign_spec _ _ _ _ _ _ (set_s_time_stamp (k_clock (ticks s))) H4) as (h5 & E5 & H5).
  set (b := set_s_time_stamp _ _) in H5.
  assert (objects h5 !! p = Some b) as Hp by (eapply linked_lookup; [apply H5|set_solver]).
  destruct (insert_record_new _ _ _ _ p b [] [] [] H5 (scan_insert_compares _ _ _ Hp)) as (h6 & E6 & H6);
    [done..|].
  assert (deref p h6 = Some (b, h6)) as E7 by (eapply deref_spec; [exact H6|set_solver]).
  unfold insert_scan_cache_record. rewrite (st_bind_some _ _ s (Some p)
    (Cache h1 (lru s) (ticks s) (slab_requests s) (klog s))).
  { unfold scan_cache_alloc, mbind, ST_bind, might_sleep, on_scan. by rewrite Hl Hlock /= E1. }
  eapply on_scan_stuck; [exact E2|]. eapply on_scan_stuck; [exact E3|].
  eapply on_scan_stuck; [exact E4|]. rewrite (st_bind_some get_time_stamp _ _ _ _ eq_refl).
  eapply on_scan_stuck; [exact E5|]. eapply on_scan_stuck; [exact E6|]. cbn [Z.eqb].
  eapply on_scan_stuck; [exact E7|]. apply st_bind_none. by apply insert_lru_missing.
Qed.
End missing.

(** Check a condition on every record of a given list. *)
Ltac each :=
  simpl; rewrite ?Forall_cons ?Forall_nil; unfold lru_key; simpl;
  split_and?; solve [done | apply kl_clock | lia].

(** ** Properties *)

(** C24: a cached file can be lost. Insert any three files of pairwise different
    devices, one after the other, with memory for all records and a clock that moves forward: all
    three insertions succeed, whatever red-black tree library is used, and then the lookup of the first
    file fails although its record is still in the tree. *)
Theorem lost_file `{K : Kernel} {laws : KernelLaws K} f1 f2 f3 :
  k_slab 0 = true → k_slab 1 = true →
  (∀ n, n < 3 → is_Some (k_scan_object n) ∧ is_Some (k_lru_object n)) →
  (ts_key (k_clock 0) < ts_key (k_clock 1) < ts_key (k_clock 2))%Z →
  in_u32 (f_dev_id f1) → in_u32 (f_dev_id f2) → in_u32 (f_dev_id f3) →
  f_dev_id f1 ≠ f_dev_id f2 → f_dev_id f1 ≠ f_dev_id f3 → f_dev_id f2 ≠ f_dev_id f3 →
  ∃ s1 s2 s3 s4, (r ← init_scan_cache; insert_scan_cache_record f1) cache_globals = Some (0%Z, s1) ∧
    insert_scan_cache_record f2 s1 = Some (0%Z, s2) ∧
    insert_scan_cache_record f3 s2 = Some (0%Z, s3) ∧
    find_remove_scan_cache_record f1 s3 = Some (false, s4) ∧
    length (inorder (root (scan s4))) = 3.
Proof.
  intros S0 S1 Hm [T1 T2] D1 D2 D3 N12 N13 N23.
  destruct (init_runs 0 (λ r s, implements 0 s spec_init) S0 S1 (λ s H, H))
    as (r & s0 & E0 & xs & ys & zs & HC0 & T & _).
  destruct (tables_size _ _ _ _ T) as [Lx Ly]. simpl in *. rewrite map_size_empty in Lx, Ly.
  destruct xs, ys; [|done..]. clear Lx Ly T.
  assert (∀ n, ts_ok (k_clock n)) as Hts by apply kl_clock.
  destruct (insert_append _ _ _ _ _ _ _ f1 HC0) as (r1 & s1 & E1 & -> & p1 & q1 & st1 & HC1);
    [apply Hm; lia|apply Hm; lia|done..|].
  destruct (insert_append _ _ _ _ _ _ _ f2 HC1) as (r2 & s2 & E2 & -> & p2 & q2 & st2 & HC2);
    [apply Hm; lia|apply Hm; lia|done|each..|].
  destruct (insert_append _ _ _ _ _ _ _ f3 HC2) as (r3 & s3 & E3 & -> & p3 & q3 & st3 & HC3);
    [apply Hm; lia|apply Hm; lia|done|each..|].
  assert (runs (find_remove_scan_cache_record f1) s3 (λ b s4, b = false ∧
    length (inorder (root (scan s4))) = 3)) as (b & s4 & E4 & -> & Hlen).
  { unfold find_remove_scan_cache_record. apply runs_bind, (printk_runs HC3). intros s4 HC4.
    apply runs_bind. eapply find_scan_runs with (r := None); [exact HC4| |].
    - intros s5 HC5. eapply (first_unreachable (scan s5) _ _ (ScanRec (f_dev_id f1) _ _ _ _));
        [apply HC5|simpl; congruence..].
    - intros s5 HC5. apply runs_bind, (printk_runs HC5). intros s6 HC6. apply runs_ret.
      split; [done|]. destruct HC6 as ((H & _) & _). by rewrite (linked_root _ _ _ H). }
  exists s1, s2, s3, s4. split_and!; [|done..]. by rewrite (st_bind_some _ _ _ _ _ E0).
Qed.

Lemma lost_file_witness :
  let K := sample_kernel seconds in
  ∃ s1 s2 s3 s4,
    (r ← init_scan_cache; insert_scan_cache_record (FileInfo 100 1006 12349)) cache_globals = Some (0%Z, s1) ∧
    insert_scan_cache_record (FileInfo 99 1006 12351) s1 = Some (0%Z, s2) ∧
    insert_scan_cache_record (FileInfo 98 1006 12352) s2 = Some (0%Z, s3) ∧
    find_remove_scan_cache_record (FileInfo 100 1006 12349) s3 = Some (false, s4) ∧
    length (inorder (root (scan s4))) = 3.
Proof.
  intros K. apply (@lost_file K seconds_laws); try reflexivity.
  - intros n _. split; by eexists.
  - by split.
  - unfold in_u32; simpl; lia.
  - unfold in_u32; simpl; lia.
  - unfold in_u32; simpl; lia.
  - simpl. lia.
  - simpl. lia.
  - simpl. lia.
Defined.

(** The lock protects the lookup and the removal separately. When two threads look
    up the same cached file before either removes it, both get the same record;
    the first removal frees it, and the second one gets stuck (it unlinks and frees a
    record that is gone). *)
Theorem concurrent_remove_faults `{K : Kernel} {laws : KernelLaws K} d s sp i g ts :
  implements d s sp → sp_map sp !! i = Some (g, ts) →
  ∃ p s1 s2 s3,
    find_scan_cache_record (Some (ScanKey d i g)) s = Some (Some p, s1) ∧
    find_scan_cache_record (Some (ScanKey d i g)) s1 = Some (Some p, s2) ∧
    remove_scan_cache_record (Some p) s2 = Some (tt, s3) ∧
    remove_scan_cache_record (Some p) s3 = None.
Proof.
  intros (xs & ys & zs & HC & T & _) Hm.
  destruct (tables_scan_hit _ _ _ _ _ _ _ T Hm) as (l & p & a & r & -> & Ea & _).
  unfold e_scan in Ea. injection Ea as <- <- _. set (key := ScanKey d _ _).
  assert (∀ s, conn s (sp_ticks sp) (sp_scan sp) (sp_lru sp) (l ++ (p, a) :: r) [] ys zs →
    runs (find_scan_cache_record (Some key)) s (λ q s', q = Some p ∧
      conn s' (sp_ticks sp) (sp_scan sp) (sp_lru sp) (l ++ (p, a) :: r) [] ys zs)) as Hfind.
  { intros s' HC'. eapply find_scan_runs; [exact HC'|intros; by eapply scan_find_hit|done]. }
  destruct (Hfind s HC) as (? & s1 & E1 & -> & HC1).
  destruct (Hfind s1 HC1) as (? & s2 & E2 & -> & HC2).
  assert (runs (remove_scan_cache_record (Some p)) s2 (λ _ s3,
    conn s3 (sp_ticks sp) (sp_scan sp) (sp_lru sp) (l ++ r) [] ys zs)) as ([] & s3 & E3 & HC3).
  { by eapply scan_remove_runs. }
  exists p, s1, s2, s3. split_and!; [done..|]. apply remove_absent.
  destruct HC3 as ((H3 & _) & _). rewrite (linked_root _ _ _ H3).
  destruct HC2 as ((H2 & _) & _). apply linked_nodup in H2. rewrite app_nil_r !fmap_app fmap_cons in H2.
  apply NoDup_app in H2 as (_ & Hd & [Hr _]%NoDup_cons). rewrite fmap_app.
  intros [Hin|Hin]%elem_of_app; [|done]. apply (Hd p Hin). set_solver.
Qed.

Lemma concurrent_remove_faults_witness :
  let K := sample_kernel seconds in
  ∃ s p s1 s2 s3,
    find_scan_cache_record (Some (ScanKey 100 1001 5)) s = Some (Some p, s1) ∧
    find_scan_cache_record (Some (ScanKey 100 1001 5)) s1 = Some (Some p, s2) ∧
    remove_scan_cache_record (Some p) s2 = Some (tt, s3) ∧
    remove_scan_cache_record (Some p) s3 = None.
Proof.
  intros K.
  destruct (@init_runs K 100 (λ _ s, implements 100 s spec_init)) as (_ & s0 & _ & H0); [done..|].
  destruct (@exec_ops_runs K seconds_laws 100 5 [OpInsert (FileInfo 100 1001 5)] s0 spec_init H0)
    as (_ & s & _ & _ & H);
    [repeat constructor; unfold file_ok, ino_ok, in_u32; simpl; lia|simpl; rewrite map_size_empty; lia|].
  exists s. apply (@concurrent_remove_faults K seconds_laws 100 s _ 1001 5 (Timespec 0 0) H).
  vm_compute. reflexivity.
Defined.

(** Refused slabs. [init_scan_cache] reports -ENOMEM when either slab is
    refused, and a caller that goes on all the same (as the test module does,
    which ignores the result) gets stuck in the first insertion: in the allocation of the
    scan record, or in that of the LRU record. *)
Theorem init_refused `{K : Kernel} {laws : KernelLaws K} f a :
  k_slab 0 && k_slab 1 = false → k_scan_object 0 = Some a →
  ∃ s, init_scan_cache cache_globals = Some ((- ENOMEM)%Z, s) ∧ insert_scan_cache_record f s = None.
Proof.
  intros Hs Ha. unfold init_scan_cache, mbind, ST_bind. simpl.
  destruct (k_slab 0) eqn:S0; simpl in *; [rewrite Hs|destruct (k_slab 1)]; (eexists; split; [reflexivity|]).
  - eapply (insert_without_lru _ _ a 0); [|reflexivity|reflexivity|exact Ha].
    split_and!; [|done..]. split; rewrite ?map_to_list_empty; try done. exists 0. constructor.
  - reflexivity.
  - reflexivity.
Qed.

Lemma init_refused_witness :
  let K := {| k_rb := reference_rb; k_address X := fresh X; k_clock := seconds; k_scan_object _ := Some sample_scan;
              k_lru_object _ := Some sample_lru; k_slab n := Nat.eqb n 0 |} in
  ∃ s, init_scan_cache cache_globals = Some ((- ENOMEM)%Z, s) ∧
    insert_scan_cache_record (FileInfo 100 1001 5) s = None.
Proof.
  intros K. assert (L : KernelLaws K).
  { split; [exact reference_rb_laws|apply is_fresh|exact (@kl_clock _ seconds_laws)]. }
  apply (@init_refused K L _ sample_scan); reflexivity.
Defined.
