(* ===== verification/CacheSafe.v ===== *)
(** * The scan cache with files of all devices

    Records of different devices are not ordered ([CacheLimits.lost_file]), so lookups may miss.
    This file shows what holds all the same for every sequence of calls, whatever
    the devices: memory safety, the well-formedness of both trees, eviction by age, a
    bound on what leaks, and that a lookup never reports a file that was not cached. The
    tree loops are described for an arbitrary comparison function. *)

From Stdlib Require Import ZArith Lia ssreflect.
From stdpp Require Import base list numbers gmap sorting.
From S2P Require Import Prelude RbTree Cache CacheHalf CacheOrder CacheSpec CacheRefine CacheProps.

(** ** The loops with any comparison *)

Section walks.
Context {S : Type} (cmp : positive → ST S Z) (c : positive → Z) (s : S).

(** A search ends, with a node that compares equal if with any. *)
Lemma RB_SEARCH_any t :
  compares cmp c s t →
  ∃ r, RB_SEARCH t cmp s = Some (r, s) ∧ ∀ p, r = Some p → p ∈ inorder t ∧ c p = 0%Z.
Proof.
  induction t as [|col l IHl p r IHr]; intros Hc; [by exists None|].
  apply compares_node in Hc as (Hl & Hp & Hr). simpl. rewrite (st_bind_some _ _ _ _ _ Hp).
  destruct (Z.eqb_spec (c p) 0); [|destruct (c p <? 0)%Z].
  - exists (Some p). split; [done|]. intros ? [= <-]. set_solver.
  - destruct (IHl Hl) as (q & E & H). exists q. split; [done|]. intros x Hx. destruct (H x Hx). set_solver.
  - destruct (IHr Hr) as (q & E & H). exists q. split; [done|]. intros x Hx. destruct (H x Hx). set_solver.
Qed.

(** The insertion loop ends on an empty link, or at a node that the search finds too. *)
Lemma rb_insert_walk_any t :
  compares cmp c s t →
  (∃ n, rb_insert_walk cmp t s = Some (Some n, s) ∧ slot n t = Some Leaf ∧
    before n t ++ after n t = inorder t) ∨
  (rb_insert_walk cmp t s = Some (None, s) ∧ ∃ p, RB_SEARCH t cmp s = Some (Some p, s)).
Proof.
  induction t as [|col l IHl p r IHr]; intros Hc; [left; by exists []|].
  apply compares_node in Hc as (Hl & Hp & Hr). simpl. rewrite !(st_bind_some _ _ _ _ _ Hp).
  destruct (Z.eqb_spec (c p) 0); [right; eauto|destruct (c p <? 0)%Z].
  - destruct (IHl Hl) as [(n' & E & Hs & Hi)|(E & q & Eq)]; rewrite (st_bind_some _ _ _ _ _ E); [left|right; eauto].
    exists (Left :: n'). split_and!; [done..|]. simpl. by rewrite app_assoc Hi.
  - destruct (IHr Hr) as [(n' & E & Hs & Hi)|(E & q & Eq)]; rewrite (st_bind_some _ _ _ _ _ E); [left|right; eauto].
    exists (Right :: n'). split_and!; [done..|]. simpl. by rewrite -app_assoc -Hi.
Qed.
End walks.

Section halves.
Context `{K : Kernel} {laws : KernelLaws K} {A : Type} (cmp : positive → ST (half A) Z) (c : A → Z).
Implicit Types (h : half A) (xs zs : list (positive * A)).

Lemma search_record_any h n xs zs :
  half_rep h n xs zs → compares_as cmp c h →
  ∃ r, search_record cmp h = Some (r, h) ∧
    ∀ p, r = Some p → ∃ l a r', xs = l ++ (p, a) :: r' ∧ c a = 0%Z.
Proof.
  intros (H & Hl & _) Hc. apply locked_linked in H.
  pose proof (compares_linked cmp c _ _ _ H (Hc (locked h) eq_refl)) as Hcs.
  destruct (RB_SEARCH_any _ _ _ _ Hcs) as (r & E & Hr). exists r.
  split; [by apply search_record_run|]. intros p Hp. destruct (Hr p Hp) as [Hin H0].
  rewrite (linked_root _ _ _ H) in Hin. apply list_elem_of_fmap in Hin as ([q a] & -> & Hin).
  apply list_elem_of_split in Hin as (l & r' & ->). exists l, a, r'. split; [done|].
  unfold cmp_at in H0. simpl in H0. rewrite (linked_lookup _ _ _ q a H) in H0; [set_solver|done].
Qed.

(** An insertion links the record somewhere, or leaves the half alone. *)
Lemma insert_record_any h n xs p a zs :
  half_rep h n xs ((p, a) :: zs) → compares_as cmp c h →
  (∃ h' l r, insert_record p cmp h = Some (0%Z, h') ∧ xs = l ++ r ∧ half_rep h' n (l ++ (p, a) :: r) zs) ∨
  (insert_record p cmp h = Some ((-1)%Z, h) ∧ ∃ q, search_record cmp h = Some (Some q, h)).
Proof.
  intros HR Hc. pose proof HR as (H & Hl & Hn). pose proof (locked_linked _ _ _ H) as H'.
  pose proof (compares_linked cmp c _ _ _ H' (Hc (locked h) eq_refl)) as Hcs.
  assert (Hrun : ∀ k, rb_insert_walk cmp (root h) (locked h) = Some (k, locked h) →
    insert_record p cmp h = Some (match k with Some k =>
      (0, Half (slab h) (objects h) (rb_insert_color p (rb_link_node p k (root h))) false (requests h))
      | None => (-1, h) end)%Z).
  { intros k Hw. unfold insert_record, mbind, ST_bind, spin_lock. rewrite Hl /=.
    change (Half (slab h) (objects h) (root h) true (requests h)) with (locked h).
    unfold RB_INSERT, mbind, ST_bind. rewrite Hw. destruct k; [done|].
    by rewrite /mret /ST_ret /= half_unlocked. }
  destruct (rb_insert_walk_any _ _ _ _ Hcs) as [(k & Hw & Hs & Hi)|(Hw & q & Hq)].
  - left. pose proof (linked_root _ _ _ H) as Er. simpl in Hi. rewrite Er in Hi.
    symmetry in Hi. apply fmap_app_inv in Hi as (l & r & Eb & Ea & ->).
    eexists _, l, r. split_and!; [apply (Hrun _ Hw)|done|]. split_and!; [|done..]. split; simpl.
    + by destruct H.
    + apply rb_insert_valid; [by destruct H|done|by eapply linked_fresh].
    + rewrite rb_insert_inorder //; [by eapply linked_fresh|]. simpl in *. by rewrite Eb Ea fmap_app.
    + rewrite (linked_objects _ _ _ H) -!app_assoc. simpl. f_equiv. by rewrite -Permutation_middle.
  - right. split; [apply (Hrun _ Hw)|]. exists q. by apply search_record_run.
Qed.
End halves.

(** ** The invariant *)

(** A file as the types of its fields allow: 32-bit device and generation, 64-bit inode. *)
Definition file_typed (f : fileInfo) : Prop :=
  in_u32 (f_dev_id f) ∧ in_u64 (f_inode_number f) ∧ in_u32 (f_inode_generation f).

Definition scan_file (a : scan_cache_record) : fileInfo :=
  FileInfo (s_dev_id a) (s_inode_number a) (s_inode_generation a).

Definition lru_file (b : lru_cache_record) : fileInfo :=
  FileInfo (l_dev_id b) (l_inode_number b) (l_inode_generation b).

(** The LRU records are sorted by age. *)
Definition aged (ys : list (positive * lru_cache_record)) : Prop :=
  sorted_by lru_key ys ∧ Forall (λ y, ts_ok (l_time_stamp y.2)) ys.

(** The tables after the files [fs] were offered, of which [n] were accepted, with at most [k]
    records lost. *)
Record loose (fs : list fileInfo) (n k : nat) (xs : list (positive * scan_cache_record))
    (ys zs : list (positive * lru_cache_record)) : Prop := {
  lo_scan : Forall (λ x, scan_file x.2 ∈ fs) xs;
  lo_lru : Forall (λ y, lru_file y.2 ∈ fs) ys;
  lo_aged : aged ys;
  lo_le : length xs ≤ length ys;
  lo_count : length ys ≤ n;
  lo_lost : length zs ≤ k }.

Definition holds (fs : list fileInfo) (n k : nat) (s : cache) : Prop :=
  ∃ t ns nl xs ys zs, conn s t ns nl xs [] ys zs ∧ loose fs n k xs ys zs.

Lemma aged_remove l q b r : aged (l ++ (q, b) :: r) → aged (l ++ r).
Proof.
  intros [Hs Hok]. split; [by eapply sorted_by_remove|].
  rewrite Forall_app Forall_cons in Hok. rewrite Forall_app. tauto.
Qed.

(** A lookup key that compares equal is the file of the record. *)
Lemma diff_u32_zero a b : in_u32 a → in_u32 b → diff_u32 a b = 0%Z → a = b.
Proof.
  intros Ha Hb H. destruct (decide (a = b)) as [|Hne]; [done|].
  pose proof (diff_u32_pos a b Ha Hb Hne). lia.
Qed.

Lemma diff_u64_zero a b : in_u64 a → in_u64 b → diff_u64 a b = 0%Z → a = b.
Proof.
  unfold diff_u64. rewrite s64_u64. intros Ha Hb H. unfold s64, in_u64 in *.
  assert (Hm : ((a - b + 2 ^ 63) mod 2 ^ 64 = 2 ^ 63)%Z) by lia.
  destruct (Z.eq_dec a b) as [|Hne]; [done|exfalso].
  destruct (Z.le_gt_cases (2 ^ 64) (a - b + 2 ^ 63)) as [H1|H1].
  - rewrite -(Z.mod_unique (a - b + 2 ^ 63) (2 ^ 64) 1 (a - b - 2 ^ 63)) in Hm; lia.
  - destruct (Z.lt_ge_cases (a - b + 2 ^ 63) 0) as [H2|H2].
    + rewrite -(Z.mod_unique (a - b + 2 ^ 63) (2 ^ 64) (-1) (a - b + 2 ^ 63 + 2 ^ 64)) in Hm; lia.
    + rewrite Z.mod_small in Hm; lia.
Qed.

Lemma level_zero x y : level x y = 0%Z → x = 0%Z ∧ y = 0%Z.
Proof. unfold level. repeat case_match; lia. Qed.

Lemma scan_find_order_zero f a :
  file_typed f → file_typed (scan_file a) →
  scan_find_order (ScanKey (f_dev_id f) (f_inode_number f) (f_inode_generation f)) a = 0%Z →
  scan_file a = f.
Proof.
  intros (H1 & H2 & H3) (G1 & G2 & G3) H. unfold scan_find_order in H. simpl in *.
  apply level_zero in H as [Hd H]. apply level_zero in H as [Hi H]. apply level_zero in H as [Hg _].
  apply diff_u32_zero in Hd, Hg; [|done..]. apply diff_u64_zero in Hi; [|done..].
  destruct f. unfold scan_file. simpl in *. by subst.
Qed.

(** ** Operations *)

Section ops.
Context `{K : Kernel} {laws : KernelLaws K}.
Implicit Types (s : cache) (t ns nl : nat).
Implicit Types (xs ws : list (positive * scan_cache_record)) (ys zs : list (positive * lru_cache_record)).

(** A new LRU record is linked in its place by age, refused, or lost. *)
Lemma insert_lru_any s t ns nl xs ws ys zs ts dev i g (Q : Z → cache → Prop) :
  conn s t ns nl xs ws ys zs → aged ys → ts_ok ts →
  (∀ s' zs', length zs' ≤ S (length zs) → conn s' t ns (S nl) xs ws ys zs' → Q (-1)%Z s') →
  (∀ s' l r q, ys = l ++ r → aged (l ++ (q, LruRec ts dev i g) :: r) →
    conn s' t ns (S nl) xs ws (l ++ (q, LruRec ts dev i g) :: r) zs → Q 0%Z s') →
  runs (insert_lru_cache_record ts dev i g) s Q.
Proof.
  intros HC [Hs Hok] Hts Hbad Hgood. destruct (k_lru_object nl) as [junk|] eqn:Hj.
  2:{ unfold insert_lru_cache_record. apply runs_bind, (lru_alloc_runs _ _ _ _ _ _ _ _ _ HC).
      rewrite Hj. intros s1 HC1. apply runs_ret. by eapply Hbad; [|done]; lia. }
  eapply build_lru_runs; [done|by rewrite Hj|]. intros q s3 HC3.
  assert (objects (lru s3) !! q = Some (LruRec ts dev i g)) as Hq.
  { eapply linked_lookup; [apply HC3|set_solver]. }
  pose proof (lru_insert_compares _ _ _ Hq) as Hcmp. simpl in Hcmp.
  assert (Hsign : ∀ y, y ∈ ys → time_order ts (l_time_stamp y.2) = Z.sgn (ts_key ts - lru_key y.2)).
  { intros y Hy. rewrite Forall_forall in Hok. by apply time_order_sgn; [|apply Hok]. }
  assert (Hsub : ∀ l, l ⊆ ys →
    (Forall (λ y, lru_key y.2 < ts_key ts)%Z l → Forall (λ y, 0 < time_order ts (l_time_stamp y.2))%Z l) ∧
    (Forall (λ y, ts_key ts < lru_key y.2)%Z l → Forall (λ y, time_order ts (l_time_stamp y.2) < 0)%Z l)).
  { intros l Hl. rewrite !Forall_forall. split; intros H y Hy; rewrite Hsign; auto; specialize (H y Hy); lia. }
  destruct (sorted_cut lru_key (ts_key ts) ys Hs) as [(l & r & -> & Hl & Hr)|(l & p & b & r & -> & Eb & Hl & Hr)].
  - eapply (on_lru_runs HC3); [eapply insert_record_new; [apply HC3|exact Hcmp|apply Hsub; set_solver..]|].
    intros s4 HC4. eapply Hgood; [done| |exact HC4]. split; [by apply sorted_by_insert|].
    rewrite Forall_app in Hok. rewrite Forall_app Forall_cons. tauto.
  - eapply (on_lru_runs HC3).
    { eexists. split; [|apply HC3].
      eapply (insert_record_dup _ _ _ _ _ _ _ l p b r); [apply HC3|exact Hcmp|done|apply Hsub; set_solver| |apply Hsub; set_solver].
      specialize (Hsign (p, b) ltac:(set_solver)). simpl in Hsign. simpl. rewrite Hsign. lia. }
    intros s4 HC4. by eapply Hbad; [|done]; simpl; lia.
Qed.

(** A lookup in the LRU tree finds a linked record or none. *)
Lemma lru_search_any s t ns nl xs ws ys zs key (Q : option positive → cache → Prop) :
  conn s t ns nl xs ws ys zs →
  (∀ r s', conn s' t ns nl xs ws ys zs → (∀ p, r = Some p → ∃ l b r', ys = l ++ (p, b) :: r') → Q r s') →
  runs (on_lru (search_record (lru_cache_find_compare_table (LruKey key)))) s Q.
Proof.
  intros HC HQ. destruct (search_record_any _ _ _ _ _ _ (proj1 (proj2 HC)) (lru_find_compares key (lru s))) as (r & E & Hr).
  apply (lru_search_runs HC _ _ _ E). intros s' HC'. apply HQ; [done|]. intros p Hp.
  destruct (Hr p Hp) as (l & b & r' & -> & _). eauto.
Qed.

Lemma scan_find_any s t ns nl xs ws ys zs k (Q : option positive → cache → Prop) :
  conn s t ns nl xs ws ys zs →
  (∀ r s', conn s' t ns nl xs ws ys zs →
    (∀ p, r = Some p → ∃ l a r', xs = l ++ (p, a) :: r' ∧ scan_find_order k a = 0%Z) → Q r s') →
  runs (find_scan_cache_record (Some k)) s Q.
Proof.
  intros HC HQ. unfold find_scan_cache_record. apply runs_bind, (printk_runs HC). intros s1 HC1.
  destruct (search_record_any _ _ _ _ _ _ (proj1 HC1) (scan_find_compares k (scan s1))) as (r & E & Hr).
  apply runs_bind, (scan_search_runs HC1 _ _ _ E). intros s2 HC2. apply runs_bind. destruct r.
  - apply runs_ret, runs_ret. by apply HQ.
  - apply (printk_runs HC2). intros s3 HC3. apply runs_ret. by apply HQ.
Qed.

(** ** The invariant is kept *)

(** The results 0 and -1 of an insertion. *)
Definition accepted (ret : Z) : nat := if (ret =? 0)%Z then 1 else 0.
Definition rejected (ret : Z) : nat := if (ret =? -1)%Z then 1 else 0.

(** What an insertion of a file in [fs] leaves behind. *)
Definition entered fs (n k : nat) (ret : Z) s : Prop :=
  holds fs (n + accepted ret) (k + rejected ret) s.

Lemma loose_nil fs k ys zs n : loose fs n k [] ys zs → loose fs n k [] [] zs.
Proof. intros [? ? ? ? ? ?]. split; try done; simpl; [split; constructor|lia]. Qed.

Lemma loose_remove_both fs n k l x r l' y r' zs :
  loose fs n k (l ++ x :: r) (l' ++ y :: r') zs → loose fs n k (l ++ r) (l' ++ r') zs.
Proof.
  destruct y. intros [Hx Hy Ha Hle Hc Hl]. rewrite !Forall_app !Forall_cons in Hx, Hy.
  rewrite !length_app /= in Hle, Hc. split; rewrite ?Forall_app ?length_app; try tauto; try lia.
  by eapply aged_remove.
Qed.

Lemma loose_remove_scan fs n k l x r ys zs :
  loose fs n k (l ++ x :: r) ys zs → loose fs n k (l ++ r) ys zs.
Proof.
  intros [Hx Hy Ha Hle Hc Hl]. rewrite !Forall_app !Forall_cons in Hx.
  rewrite !length_app /= in Hle. split; rewrite ?Forall_app ?length_app; try tauto; try lia.
Qed.

Lemma loose_lost fs n k xs ys zs zs' :
  loose fs n k xs ys zs → length zs' ≤ S (length zs) → loose fs n (k + 1) xs ys zs'.
Proof. intros [? ? ? ? ? ?] ?. split; try done. lia. Qed.

(** Records for a file come in on both sides. *)
Lemma loose_add fs n k l r l' r' p a q b zs :
  loose fs n k (l ++ r) (l' ++ r') zs → scan_file a ∈ fs → lru_file b ∈ fs →
  aged (l' ++ (q, b) :: r') → loose fs (n + 1) k (l ++ (p, a) :: r) (l' ++ (q, b) :: r') zs.
Proof.
  intros [Hx Hy _ Hle Hc Hl] Ha Hb Hag. rewrite !Forall_app in Hx, Hy. rewrite !length_app in Hle, Hc.
  split; rewrite ?Forall_app ?Forall_cons ?length_app; simpl; try tauto; try lia.
Qed.

(** The scan record is linked; its LRU record follows, or it is removed again. *)
Lemma link_any s t ns nl l p a r ys zs fs n k :
  conn s t ns nl (l ++ (p, a) :: r) [] ys zs → loose fs n k (l ++ r) ys zs →
  scan_file a ∈ fs → ts_ok (s_time_stamp a) →
  runs (rec ← on_scan (deref p);
        ret ← insert_lru_cache_record (s_time_stamp rec) (s_dev_id rec) (s_inode_number rec)
                (s_inode_generation rec);
        (if (ret =? 0)%Z then mret tt else remove_scan_cache_record (Some p));;
        mret ret) s (entered fs n k).
Proof.
  intros HC Hlo Ha Hts. apply runs_bind, (scan_deref_runs HC p a); [set_solver|]. intros s1 HC1.
  apply runs_bind. eapply insert_lru_any; [exact HC1|apply Hlo|done|..].
  - intros s2 zs' Hz HC2. apply runs_bind. eapply scan_remove_runs; [exact HC2|]. intros s3 HC3.
    apply runs_ret. eexists _, _, _, _, _, _. split; [exact HC3|]. unfold accepted. simpl.
    rewrite Nat.add_0_r. by eapply loose_lost.
  - intros s2 l' r' q -> Hag HC2. apply runs_bind, runs_ret, runs_ret.
    eexists _, _, _, _, _, _. split; [exact HC2|]. unfold rejected. simpl. rewrite Nat.add_0_r.
    by apply loose_add.
Qed.

(** An LRU record is replaced by one for the new record, or dropped, or not found. *)
Lemma update_lru_any s t ns nl xs ws ys zs old ao new an (Q : Z → cache → Prop) :
  conn s t ns nl xs ws ys zs → (old, ao) ∈ xs ++ ws → (new, an) ∈ xs ++ ws →
  aged ys → ts_ok (s_time_stamp an) →
  (∀ s', conn s' t ns nl xs ws ys zs → Q (-1)%Z s') →
  (∀ s' l q b r zs', ys = l ++ (q, b) :: r → length zs' ≤ S (length zs) →
    conn s' t ns (S nl) xs ws (l ++ r) zs' → Q (-1)%Z s') →
  (∀ s' l q b r l' r' q', ys = l ++ (q, b) :: r → l ++ r = l' ++ r' →
    let b' := LruRec (s_time_stamp an) (s_dev_id an) (s_inode_number an) (s_inode_generation an) in
    aged (l' ++ (q', b') :: r') → conn s' t ns (S nl) xs ws (l' ++ (q', b') :: r') zs → Q 0%Z s') →
  runs (find_and_update_lru_cache_record old new) s Q.
Proof.
  intros HC Ho Hn Hag Hts Hmiss Hbad Hgood. unfold find_and_update_lru_cache_record.
  apply runs_bind, (scan_deref_runs HC old ao _ Ho). intros s1 HC1.
  apply runs_bind. eapply lru_search_any; [exact HC1|]. intros [q|] s2 HC2 Hr; [|by apply runs_ret, Hmiss].
  destruct (Hr q eq_refl) as (l & b & r & ->). apply runs_bind. eapply lru_remove_runs; [done|]. intros s3 HC3.
  apply runs_bind, (scan_deref_runs HC3 new an _ Hn). intros s4 HC4. apply runs_bind.
  eapply insert_lru_any; [exact HC4|by eapply aged_remove|done|..].
  - intros s5 zs' Hz HC5. apply runs_bind, (print_if_runs HC5). intros s6 HC6. apply runs_ret. eauto.
  - intros s5 l' r' q' E Hag' HC5. apply runs_bind, (print_if_runs HC5). intros s6 HC6. apply runs_ret. eauto.
Qed.

Lemma update_any s t ns nl xs p a ys zs fs n k :
  conn s t ns nl xs [(p, a)] ys zs → loose fs n k xs ys zs → scan_file a ∈ fs → ts_ok (s_time_stamp a) →
  runs (find_and_update_scan_cache_record (Some p)) s (entered fs n k).
Proof.
  intros HC Hlo Ha Hts. unfold find_and_update_scan_cache_record.
  assert (objects (scan s) !! p = Some a) as Hp by (eapply linked_lookup; [apply HC|set_solver]).
  destruct (search_record_any _ _ _ _ _ _ (proj1 HC) (scan_insert_compares _ _ _ Hp)) as (o & E & Ho).
  apply runs_bind, (scan_search_runs HC _ _ _ E). intros s1 HC1. unfold entered, accepted, rejected.
  assert (Hfail : ∀ s' ns' nl' xs' ys' zs' zs0, conn s' t ns' nl' xs' [] ys' zs' →
    loose fs n k xs' ys' zs0 → length zs' ≤ S (length zs0) → holds fs (n + 0) (k + 1) s').
  { intros. eexists _, _, _, _, _, _. split; [eassumption|]. rewrite Nat.add_0_r. by eapply loose_lost. }
  destruct o as [old|].
  2:{ apply runs_bind. eapply (on_scan_runs HC1); [eapply free_spec, HC1|]. intros s2 HC2.
      apply runs_bind, (printk_runs HC2). intros s3 HC3. apply runs_ret. simpl. eauto. }
  destruct (Ho old eq_refl) as (l & ao & r & -> & _).
  apply runs_bind, (on_scan_runs HC1 _ tt) with (ns' := ns) (xs' := l ++ (p, a) :: r) (ws' := [(old, ao)]).
  { eapply replace_record_spec, HC1. }
  intros s2 HC2. apply runs_bind. eapply (update_lru_any _ _ _ _ _ _ _ _ old ao p a); [exact HC2|set_solver| |apply Hlo|exact Hts|..].
  { apply elem_of_app. left. apply elem_of_app. right. left. }
  - intros s3 HC3. apply runs_bind. eapply scan_remove_runs; [done|]. intros s4 HC4.
    apply runs_bind. eapply (on_scan_runs HC4); [eapply free_spec, HC4|]. intros s5 HC5. apply runs_ret.
    simpl. eapply Hfail; [done|by eapply loose_remove_scan|lia].
  - intros s3 l' q b r' zs' -> Hz HC3. apply runs_bind. eapply scan_remove_runs; [done|]. intros s4 HC4.
    apply runs_bind. eapply (on_scan_runs HC4); [eapply free_spec, HC4|]. intros s5 HC5. apply runs_ret.
    simpl. eapply Hfail; [done|by eapply loose_remove_both|done].
  - intros s3 l1 q b r1 l' r' q' -> E' b' Hag HC3. apply runs_bind, runs_ret, runs_bind.
    eapply (on_scan_runs HC3); [eapply free_spec, HC3|]. intros s4 HC4. apply runs_ret. simpl.
    eexists _, _, _, _, _, _. split; [exact HC4|]. rewrite Nat.add_0_r. apply loose_add; [|done..].
    rewrite -E'. by eapply loose_remove_both.
Qed.

Lemma loose_mono fs fs' n n' k k' xs ys zs :
  loose fs n k xs ys zs → fs ⊆ fs' → n ≤ n' → k ≤ k' → loose fs' n' k' xs ys zs.
Proof.
  intros [Hx Hy ? ? ? ?] Hs ? ?. split; try lia; [..|done].
  all: eapply Forall_impl; [eassumption|]; intros; by apply Hs.
Qed.

Lemma insert_any s f fs n k :
  holds fs n k s → f ∈ fs → runs (insert_scan_cache_record f) s (entered fs n k).
Proof.
  intros (t & ns & nl & xs & ys & zs & HC & Hlo) Hf. destruct (k_scan_object ns) as [junk|] eqn:Hj.
  2:{ unfold insert_scan_cache_record. apply runs_bind, (scan_alloc_runs _ _ _ _ _ _ _ _ _ HC).
      rewrite Hj. intros s1 HC1. apply runs_bind, (printk_runs HC1). intros s2 HC2. apply runs_ret.
      eexists _, _, _, _, _, _. split; [exact HC2|]. eapply loose_mono; [done|done|lia..]. }
  eapply build_scan_runs; [done..|]. clear dependent s. intros p s HC.
  set (a := ScanRec (f_dev_id f) (f_inode_number f) (f_inode_generation f) (s_status junk) (k_clock t)) in HC.
  assert (scan_file a ∈ fs) as Ha by by destruct f.
  assert (ts_ok (s_time_stamp a)) as Hts by apply kl_clock.
  assert (objects (scan s) !! p = Some a) as Hp by (eapply linked_lookup; [apply HC|set_solver]).
  apply runs_bind.
  destruct (insert_record_any _ _ _ _ _ _ _ _ (proj1 HC) (scan_insert_compares _ _ _ Hp))
    as [(h & l & r & E & -> & Hh)|(E & q & _)].
  - eapply (on_scan_runs HC); [by exists h|]. intros s1 HC1. by eapply link_any.
  - eapply (on_scan_runs HC); [by exists (scan s); split; [|apply HC]|]. intros s1 HC1.
    apply runs_bind, runs_bind, (scan_deref_runs HC1 p a); [set_solver|].
    intros s2 HC2. apply (printk_runs HC2). intros s3 HC3. by eapply update_any.
Qed.

(** A removal reports a file only if it is one of the files cached. *)
Lemma find_remove_any s f fs n k :
  holds fs n k s → file_typed f → Forall file_typed fs →
  runs (find_remove_scan_cache_record f) s (λ b s', holds fs n k s' ∧ (b = true → f ∈ fs)).
Proof.
  intros (t & ns & nl & xs & ys & zs & HC & Hlo) Hf Hfs. unfold find_remove_scan_cache_record.
  apply runs_bind, (printk_runs HC). intros s1 HC1. apply runs_bind.
  eapply scan_find_any; [exact HC1|]. intros [p|] s2 HC2 Hr.
  2:{ apply runs_bind, (printk_runs HC2). intros s3 HC3. apply runs_ret. split; [|done].
      eexists _, _, _, _, _, _. by split. }
  destruct (Hr p eq_refl) as (l & a & r & -> & E0).
  assert (scan_file a ∈ fs) as Ha by by destruct Hlo as [[_ [? _]%Forall_cons]%Forall_app _ _ _ _ _].
  assert (scan_file a = f) as Ef.
  { apply scan_find_order_zero; [done| |done]. rewrite Forall_forall in Hfs. by apply Hfs. }
  apply runs_bind, (scan_deref_runs HC2 p a); [set_solver|]. intros s3 HC3.
  apply runs_bind, (printk_runs HC3). intros s4 HC4.
  apply runs_bind, (scan_deref_runs HC4 p a); [set_solver|]. intros s5 HC5.
  unfold find_remove_lru_cache_record, find_lru_cache_record. apply runs_bind, runs_bind, runs_bind.
  eapply lru_search_any; [exact HC5|]. intros [q|] s6 HC6 Hq; apply runs_bind.
  - destruct (Hq q eq_refl) as (l' & b & r' & ->). apply runs_ret, runs_ret, runs_bind.
    eapply lru_remove_runs; [done|]. intros s7 HC7. apply runs_ret, runs_bind.
    eapply scan_remove_runs; [done|]. intros s8 HC8. apply runs_ret. split; [|by rewrite -Ef].
    eexists _, _, _, _, _, _. split; [exact HC8|]. by eapply loose_remove_both.
  - apply (printk_runs HC6). intros s7 HC7. apply runs_ret, runs_ret, runs_bind.
    eapply scan_remove_runs; [done|]. intros s8 HC8. apply runs_ret. split; [|by rewrite -Ef].
    eexists _, _, _, _, _, _. split; [exact HC8|]. by eapply loose_remove_scan.
Qed.

Lemma evict_any fuel count rc s t ns nl xs ys zs fs n k :
  conn s t ns nl xs [] ys zs → loose fs n k xs ys zs → length ys < fuel →
  runs (evict fuel count rc) s (λ _, holds fs n k).
Proof.
  revert s rc xs ys. induction fuel as [|fuel IH]; intros s rc xs ys HC Hlo Hf; [lia|]. simpl.
  apply runs_bind, (on_lru_runs HC _ (root (lru s))) with (nl' := nl) (ys' := ys) (zs' := zs);
    [by exists (lru s); split; [|apply HC]|]. intros s1 HC1.
  assert (Hstop : ∀ s', conn s' t ns nl xs [] ys zs → holds fs n k s').
  { intros s' HC'. eexists _, _, _, _, _, _. by split. }
  rewrite (half_rep_empty _ _ _ _ (proj1 (proj2 HC))). destruct ys as [|[q b] ys]; [by apply runs_ret, Hstop|].
  rewrite bool_decide_false // (half_rep_first _ _ _ _ _ _ (proj1 (proj2 HC))).
  apply runs_bind, (lru_deref_runs HC1 q b); [set_solver|]. intros s2 HC2.
  apply runs_bind, (printk_runs HC2). intros s3 HC3. apply runs_bind.
  eapply scan_find_any; [exact HC3|]. intros [p|] s4 HC4 Hr; [|by apply runs_ret, Hstop].
  destruct (Hr p eq_refl) as (l & a & r & -> & _).
  apply runs_bind. eapply (lru_remove_runs _ _ _ _ _ _ [] q b ys); [done|]. intros s5 HC5.
  apply runs_bind. eapply scan_remove_runs; [done|]. intros s6 HC6.
  pose proof (loose_remove_both _ _ _ _ _ _ [] _ _ _ Hlo) as Hlo'. case_match.
  - apply runs_ret. eexists _, _, _, _, _, _. by split.
  - eapply IH; [exact HC6|done|simpl in *; lia].
Qed.

Lemma remove_cache_entry_any fuel count s fs n k :
  holds fs n k s → n < fuel → runs (remove_cache_entry fuel count) s (λ _, holds fs n k).
Proof.
  intros (t & ns & nl & xs & ys & zs & HC & Hlo) Hf. unfold remove_cache_entry.
  destruct (count <=? 0)%Z; [apply runs_ret; by eexists _, _, _, _, _, _|].
  eapply evict_any; [done..|]. pose proof (lo_count _ _ _ _ _ _ Hlo). lia.
Qed.

Lemma purge_any fuel s fs n k :
  holds fs n k s → n < fuel →
  runs (purge_cache fuel) s (λ _ s', ∃ t ns nl zs, conn s' t ns nl [] [] [] zs ∧ length zs ≤ k).
Proof.
  intros (t & ns & nl & xs & ys & zs & HC & Hlo) Hf. destruct Hlo.
  eapply runs_wand; [eapply purge_runs; [done|lia..]|]. intros [] s' HC'. by eexists _, _, _, _.
Qed.

(** ** Sequences of calls *)

Definition op_typed (op : cache_op) : Prop :=
  match op with OpInsert f | OpFindRemove f => file_typed f | _ => True end.

(** The files offered to the cache. *)
Definition offered (ops : list cache_op) : list fileInfo :=
  omap (λ op, match op with OpInsert f => Some f | _ => None end) ops.

(** How many of the results are [z]. *)
Definition returned (z : Z) (rs : list op_result) : nat :=
  sum_list ((λ r, match r with RInt r => if (r =? z)%Z then 1 else 0 | _ => 0 end) <$> rs).

(** Each lookup that reports a file is for one of the files offered before it. *)
Definition justified (fs : list fileInfo) (op : cache_op) (r : op_result) : Prop :=
  match op, r with OpFindRemove f, RBool true => f ∈ fs | _, _ => True end.

Lemma exec_op_any fuel op s fs n k :
  holds fs n k s → op_typed op → Forall file_typed fs → n < fuel →
  runs (exec_op fuel op) s (λ r s', justified fs op r ∧
    holds (fs ++ offered [op]) (n + returned 0 [r]) (k + returned (-1) [r]) s').
Proof.
  intros H Hop Hfs Hf. unfold returned. simpl.
  assert (Hplus : ∀ s', holds fs n k s' → holds (fs ++ []) (n + (0 + 0)) (k + (0 + 0)) s').
  { intros s' H'. by rewrite !Nat.add_0_r app_nil_r. }
  destruct op as [f|f|count|]; apply runs_bind; simpl.
  - assert (holds (fs ++ [f]) n k s) as H'.
    { destruct H as (t & ns & nl & xs & ys & zs & HC & Hlo). eexists _, _, _, _, _, _. split; [done|].
      eapply loose_mono; [done|set_solver|lia..]. }
    eapply runs_wand; [apply (insert_any s f _ n k H'); set_solver|]. intros r s' Hr. apply runs_ret.
    split; [done|]. rewrite !Nat.add_0_r. exact Hr.
  - eapply runs_wand; [by apply (find_remove_any s f fs n k)|]. intros b s' [Hr Hb]. apply runs_ret.
    split; [destruct b; [by apply Hb|done]|by apply Hplus].
  - eapply runs_wand; [by apply (remove_cache_entry_any fuel count s fs n k)|]. intros [] s' Hr.
    apply runs_ret. split; [done|by apply Hplus].
  - eapply runs_wand; [by apply (purge_any fuel s fs n k)|]. intros [] s' (t & ns & nl & zs & HC & Hz).
    apply runs_ret. split; [done|]. apply Hplus. eexists _, _, _, _, _, _. split; [exact HC|].
    split; simpl; try done; [split; constructor|lia].
Qed.

Lemma offered_app ops1 ops2 : offered (ops1 ++ ops2) = offered ops1 ++ offered ops2.
Proof. apply omap_app. Qed.

Lemma returned_cons z r rs : returned z (r :: rs) = returned z [r] + returned z rs.
Proof. unfold returned. cbn. by rewrite Nat.add_0_r. Qed.

Lemma returned_one z r : returned z [r] ≤ 1.
Proof. unfold returned. simpl. destruct r; simpl; [case_match; lia|lia..]. Qed.

#[local] Opaque returned.

(** Every result is justified by the calls before it. *)
Fixpoint all_justified (fs : list fileInfo) (ops : list cache_op) (rs : list op_result) : Prop :=
  match ops, rs with
  | [], [] => True
  | op :: ops, r :: rs => justified fs op r ∧ all_justified (fs ++ offered [op]) ops rs
  | _, _ => False
  end.

Lemma exec_ops_any fuel ops s fs n k :
  holds fs n k s → Forall op_typed ops → Forall file_typed fs → n + length ops < fuel →
  runs (exec_ops fuel ops) s (λ rs s', all_justified fs ops rs ∧ length rs = length ops ∧
    holds (fs ++ offered ops) (n + returned 0 rs) (k + returned (-1) rs) s').
Proof.
  revert s fs n k. induction ops as [|op ops IH]; intros s fs n k H Hops Hfs Hf; simpl.
  { apply runs_ret. split; [done|]. split; [done|].
    change (holds (fs ++ []) (n + 0) (k + 0) s). by rewrite !Nat.add_0_r app_nil_r. }
  apply Forall_cons in Hops as [Hop Hops]. simpl in Hf. apply runs_bind.
  eapply runs_wand; [apply (exec_op_any fuel op s fs n k); [done..|lia]|]. intros r s1 [Hj H1].
  apply runs_bind. pose proof (returned_one 0 r). eapply runs_wand.
  { apply (IH s1 _ _ _ H1 Hops); [|rewrite -(Nat.add_assoc n); simpl in *; lia]. apply Forall_app. split; [done|].
    destruct op; [by apply Forall_singleton|constructor..]. }
  intros rs s2 (Hj' & Hlen & H2). apply runs_ret. split_and!; [done|done|simpl; by f_equal|].
  rewrite -app_assoc -offered_app in H2.
  rewrite (returned_cons 0 r rs) (returned_cons (-1) r rs).
  by replace (n + (returned 0 [r] + returned 0 rs)) with (n + returned 0 [r] + returned 0 rs) by lia;
    replace (k + (returned (-1) [r] + returned (-1) rs)) with (k + returned (-1) [r] + returned (-1) rs) by lia.
Qed.

Lemma exit_any fuel s fs n k :
  holds fs n k s → n < fuel →
  runs (exit_scan_cache fuel) s (λ _ s', torn_down 0 (scan s') ∧ ∃ m, m ≤ k ∧ torn_down m (lru s')).
Proof.
  intros H Hf. unfold exit_scan_cache. apply runs_bind.
  eapply runs_wand; [by apply (remove_cache_entry_any fuel 2 s fs n k)|]. intros [] s1 H1.
  apply runs_bind. eapply runs_wand; [by apply (purge_any fuel s1 fs n k)|].
  intros [] s2 (t & ns & nl & zs & (H2 & H3 & _) & Hz).
  destruct (destroy_torn_down _ _ _ H2) as (h1 & E1 & Ht1).
  destruct (destroy_torn_down _ _ _ H3) as (h2 & E2 & Ht2).
  eexists tt, _. split.
  - unfold mbind, ST_bind, on_scan, on_lru. rewrite E1. cbn [lru]. rewrite E2. reflexivity.
  - split; [done|]. by exists (length zs).
Qed.

Lemma init_any (Q : Z → cache → Prop) :
  k_slab 0 = true → k_slab 1 = true → (∀ s, holds [] 0 0 s → Q 0%Z s) →
  runs init_scan_cache cache_globals Q.
Proof.
  intros H0 H1 HQ. apply (init_runs 0 Q H0 H1). intros s (xs & ys & zs & HC & T & Hz). apply HQ.
  destruct (tables_size _ _ _ _ T) as [Hx Hy]. simpl in *. rewrite map_size_empty in Hx, Hy.
  destruct xs, ys, zs; try done. eexists _, _, _, _, _, _. split; [exact HC|].
  split; simpl; try done. split; constructor.
Qed.

Lemma justified_lookup fs ops rs i f :
  all_justified fs ops rs → ops !! i = Some (OpFindRemove f) → rs !! i = Some (RBool true) →
  f ∈ fs ++ offered (take i ops).
Proof.
  revert fs rs i. induction ops as [|op ops IH]; intros fs [|r rs] [|i] H Ho Hr; try done; simpl in *.
  - simplify_eq. rewrite app_nil_r. apply H.
  - destruct H as [_ H]. specialize (IH _ _ _ H Ho Hr). rewrite -app_assoc in IH. by destruct op.
Qed.

End ops.

(** ** Properties *)

(** C2: safety on all devices. Once both slabs are created, every sequence of insertions,
    removals, evictions and purges on files of any devices and inodes, with any answers of the
    allocator, runs without a use after free, a double free or a self-deadlock and ends. After it
    both trees are red-black trees over live records, every scan record is
    linked, the LRU tree is sorted by age and has at least as many records as the scan tree and at most
    one for each insertion that returned 0; every record describes a file that was
    offered; and the live records in no tree are at most as many as insertions that returned -1.
    Tearing the module down then frees everything but those. *)
Theorem cache_safe `{K : Kernel} {laws : KernelLaws K} fuel ops :
  k_slab 0 = true → k_slab 1 = true → Forall op_typed ops → length ops < fuel →
  ∃ rs s t ns nl xs ys zs,
    (r ← init_scan_cache; exec_ops fuel ops) cache_globals = Some (rs, s) ∧
    conn s t ns nl xs [] ys zs ∧
    loose (offered ops) (returned 0 rs) (returned (-1) rs) xs ys zs ∧
    ∃ s' lost, exit_scan_cache fuel s = Some (tt, s') ∧
      torn_down 0 (scan s') ∧ torn_down lost (lru s') ∧ lost ≤ returned (-1) rs.
Proof.
  intros H0 H1 Hops Hf.
  assert (runs (r ← init_scan_cache; exec_ops fuel ops) cache_globals (λ rs s,
    length rs = length ops ∧ holds (offered ops) (returned 0 rs) (returned (-1) rs) s))
    as (rs & s & E & Hlen & H).
  { apply runs_bind, init_any; [done..|]. intros s Hs.
    eapply runs_wand; [by apply (exec_ops_any fuel ops s [] 0 0)|]. naive_solver. }
  assert (returned 0 rs ≤ length rs) as Hle.
  { clear. induction rs as [|r rs IH]; [done|]. rewrite returned_cons. pose proof (returned_one 0 r). simpl. lia. }
  destruct (exit_any fuel s _ _ _ H) as ([] & s' & E' & Ht & m & Hm & Ht'); [lia|].
  destruct H as (t & ns & nl & xs & ys & zs & HC & Hlo).
  exists rs, s, t, ns, nl, xs, ys, zs. split_and!; [done..|]. by exists s', m.
Qed.

(** C9: no false hits. Whatever the devices, a removal reports a file only when that file, with the
    same device, inode number and generation, was offered to the cache before; in particular a stale
    generation is never reported. *)
Theorem no_false_hits `{K : Kernel} {laws : KernelLaws K} fuel ops :
  k_slab 0 = true → k_slab 1 = true → Forall op_typed ops → length ops < fuel →
  ∃ rs s, (r ← init_scan_cache; exec_ops fuel ops) cache_globals = Some (rs, s) ∧ length rs = length ops ∧
    ∀ i f, ops !! i = Some (OpFindRemove f) → rs !! i = Some (RBool true) → OpInsert f ∈ take i ops.
Proof.
  intros H0 H1 Hops Hf.
  assert (runs (r ← init_scan_cache; exec_ops fuel ops) cache_globals (λ rs _,
    all_justified [] ops rs ∧ length rs = length ops)) as (rs & s & E & Hj & Hlen).
  { apply runs_bind, init_any; [done..|]. intros s Hs.
    eapply runs_wand; [by apply (exec_ops_any fuel ops s [] 0 0)|]. naive_solver. }
  exists rs, s. split_and!; [done..|]. intros i f Ho Hr.
  pose proof (justified_lookup _ _ _ _ _ Hj Ho Hr) as Hin. apply list_elem_of_omap in Hin as (op & Hop & E').
  destruct op; by simplify_eq.
Qed.

(** ** Witnesses *)

(** Files of three devices, in the order of the test module. *)
Definition mixed_ops : list cache_op :=
  [OpInsert (FileInfo 100 1006 12349); OpInsert (FileInfo 99 1006 12351); OpInsert (FileInfo 98 1006 12352);
   OpFindRemove (FileInfo 98 1006 12352); OpEvict 1; OpInsert (FileInfo 100 1006 12350)].

Lemma mixed_typed : Forall op_typed mixed_ops.
Proof. repeat constructor; simpl; lia. Qed.

Lemma cache_safe_witness :
  let K := sample_kernel seconds in
  ∃ rs s t ns nl xs ys zs,
    (r ← init_scan_cache; exec_ops 10 mixed_ops) cache_globals = Some (rs, s) ∧
    conn s t ns nl xs [] ys zs ∧
    loose (offered mixed_ops) (returned 0 rs) (returned (-1) rs) xs ys zs ∧
    ∃ s' lost, exit_scan_cache 10 s = Some (tt, s') ∧
      torn_down 0 (scan s') ∧ torn_down lost (lru s') ∧ lost ≤ returned (-1) rs.
Proof.
  intros K. apply (@cache_safe K seconds_laws 10 mixed_ops); [reflexivity|reflexivity|apply mixed_typed|simpl; lia].
Defined.

Lemma no_false_hits_witness :
  let K := sample_kernel seconds in
  ∃ rs s, (r ← init_scan_cache; exec_ops 10 mixed_ops) cache_globals = Some (rs, s) ∧ length rs = 6 ∧
    ∀ i f, mixed_ops !! i = Some (OpFindRemove f) → rs !! i = Some (RBool true) → OpInsert f ∈ take i mixed_ops.
Proof.
  intros K. apply (@no_false_hits K seconds_laws 10 mixed_ops); [reflexivity|reflexivity|apply mixed_typed|simpl; lia].
Defined.
