(* ===== verification/CacheTest.v ===== *)
(** * The test module of the scan cache (rbtree_test.c)

    The module inserts eight files of three devices, prints the scan tree, removes one file and
    prints the tree again; unloading tears the cache down. It ignores the result of
    init_scan_cache and walks the tree without the lock. The answers of kzalloc are an argument;
    the structure it allocates for a call is freed right after it, and is a value here. *)

From Stdlib Require Import ZArith Lia ssreflect.
From stdpp Require Import base list numbers gmap sorting.
From S2P Require Import Prelude RbTree Cache CacheHalf CacheOrder CacheSpec CacheRefine CacheProps CacheSafe.

Section code.
Context `{K : Kernel}.

(** One block of the form [filp = kzalloc(...); if (filp) { ... insert ...; kfree(filp); }]. *)
Definition test_insert (filp : bool) (f : fileInfo) : ST cache unit :=
  if filp then
    ret ← insert_scan_cache_record f;
    (if (ret =? 0)%Z then mret tt else printk (MsgInsertFailed (f_inode_number f)))
  else mret tt.

(** The line for a record, unless the pointer is NULL. *)
Definition show (line : Z → Z → Z → kmsg) (ptr : option positive) : ST cache unit :=
  match ptr with
  | Some p =>
      r ← on_scan (deref p);
      printk (line (s_dev_id r) (s_inode_number r) (s_inode_generation r))
  | None => mret tt
  end.

(** The loop over the rest of the tree. *)
Fixpoint next_loop (fuel : nat) (ptr : option positive) : ST cache unit :=
  match ptr, fuel with
  | None, _ => mret tt
  | Some _, O => st_fail
  | Some p, S fuel =>
      t ← on_scan get_root;
      ptr ← on_scan (RB_NEXT t p);
      show MsgNext ptr;;
      next_loop fuel ptr
  end.

Definition iterate (fuel : nat) : ST cache unit :=
  t ← on_scan get_root;
  show MsgFirst (RB_FIRST t);;
  next_loop fuel (RB_FIRST t).

Definition test_files : list fileInfo :=
  [FileInfo 100 1001 12345; FileInfo 100 1009 12346; FileInfo 100 1003 12347; FileInfo 100 1002 12348;
   FileInfo 100 1006 12349; FileInfo 99 1006 12351; FileInfo 98 1006 12352; FileInfo 100 1006 12350].

(** The blocks one after the other, for the answers of kzalloc. *)
Fixpoint test_inserts (kzalloc : nat → bool) (n : nat) (fs : list fileInfo) : ST cache unit :=
  match fs with
  | [] => mret tt
  | f :: fs => test_insert (kzalloc n) f;; test_inserts kzalloc (S n) fs
  end.

Definition test_delete (filp : bool) (f : fileInfo) : ST cache unit :=
  if filp then
    ret ← find_remove_scan_cache_record f;
    (if ret : bool then mret tt
     else printk (MsgDeleteFailed (f_dev_id f) (f_inode_number f) (f_inode_generation f)))
  else mret tt.

Definition rb_test_init (kzalloc : nat → bool) (fuel : nat) : ST cache Z :=
  printk MsgTestInit;;
  init_scan_cache;;
  test_inserts kzalloc 0 test_files;;
  t ← on_scan get_root; show MsgFirst (RB_FIRST t);;
  t ← on_scan get_root; show MsgLast (RB_LAST t);;
  iterate fuel;;
  test_delete (kzalloc 8) (FileInfo 98 1006 12352);;
  printk MsgAfterDelete;;
  iterate fuel;;
  mret 0%Z.

Definition rb_test_cleanup (fuel : nat) : ST cache unit :=
  exit_scan_cache fuel;;
  printk MsgCleanup.

End code.

(** ** What is printed *)

Section proofs.
Context `{K : Kernel} {laws : KernelLaws K}.
Implicit Types (xs ws : list (positive * scan_cache_record)) (ys zs : list (positive * lru_cache_record)).

Definition line_of (line : Z → Z → Z → kmsg) (x : positive * scan_cache_record) : kmsg :=
  line (s_dev_id x.2) (s_inode_number x.2) (s_inode_generation x.2).

(** The lines of a walk over the records [xs]. *)
Definition walk_lines xs : list kmsg :=
  match xs with [] => [] | x :: xs => line_of MsgFirst x :: (line_of MsgNext <$> xs) end.

(** [m] only prints, the lines [ls]. *)
Definition prints (m : ST cache unit) (ls : list kmsg) (s : cache) : Prop :=
  m s = Some (tt, Cache (scan s) (lru s) (ticks s) (slab_requests s) (klog s ++ ls)).

Lemma prints_nil s : prints (mret tt) [] s.
Proof. unfold prints. rewrite app_nil_r. by destruct s. Qed.

Lemma prints_seq m1 m2 l1 l2 s :
  prints m1 l1 s →
  prints m2 l2 (Cache (scan s) (lru s) (ticks s) (slab_requests s) (klog s ++ l1)) →
  prints (m1;; m2) (l1 ++ l2) s.
Proof. unfold prints. intros E1 E2. rewrite (st_bind_some _ _ _ _ _ E1) E2 /= -app_assoc. done. Qed.

Lemma show_prints line x s n xs ws :
  half_rep (scan s) n xs ws → x ∈ xs → prints (show line (Some x.1)) [line_of line x] s.
Proof.
  intros H Hx. unfold prints, show. erewrite st_bind_some; [reflexivity|]. unfold on_scan.
  rewrite (deref_spec _ _ _ _ x.1 x.2 H); [destruct x; set_solver|]. by destruct s.
Qed.

Lemma root_read s : on_scan get_root s = Some (root (scan s), s).
Proof. by destruct s. Qed.

Lemma next_read s n l x r ws :
  half_rep (scan s) n (l ++ x :: r) ws →
  on_scan (RB_NEXT (root (scan s)) x.1) s = Some (head r.*1, s).
Proof.
  intros (HL & _). pose proof (linked_inorder_nodup _ _ _ HL) as Hnd.
  assert (inorder (root (scan s)) = l.*1 ++ x.1 :: r.*1) as E by by rewrite (linked_root _ _ _ HL) fmap_app.
  unfold on_scan, RB_NEXT. rewrite bool_decide_true; [rewrite E; set_solver|].
  rewrite (rb_next_inorder _ _ _ _ Hnd E). by destruct s.
Qed.

(** The loop from a record on prints the records after it. *)
Lemma next_loop_prints fuel l x r s n ws :
  half_rep (scan s) n (l ++ x :: r) ws → length r < fuel →
  prints (next_loop fuel (Some x.1)) (line_of MsgNext <$> r) s.
Proof.
  revert l x r s. induction fuel as [|fuel IH]; intros l x r s H Hf; [lia|]. cbn [next_loop].
  unfold prints. rewrite (st_bind_some _ _ _ _ _ (root_read s)) (st_bind_some _ _ _ _ _ (next_read _ _ _ _ _ _ H)).
  destruct r as [|y r]; simpl.
  { rewrite app_nil_r. destruct s. by destruct fuel. }
  apply (prints_seq _ _ [line_of MsgNext y] (line_of MsgNext <$> r)).
  - eapply show_prints; [exact H|set_solver].
  - eapply (IH (l ++ [x]) y r); [|simpl in Hf; lia]. rewrite -app_assoc. exact H.
Qed.

Lemma iterate_prints fuel s n xs ws :
  half_rep (scan s) n xs ws → length xs ≤ fuel → prints (iterate fuel) (walk_lines xs) s.
Proof.
  intros H Hf. unfold iterate, prints. rewrite (st_bind_some _ _ _ _ _ (root_read s)).
  pose proof H as (HL & _). unfold RB_FIRST. rewrite rb_first_inorder (linked_root _ _ _ HL).
  destruct xs as [|x xs]; simpl.
  - rewrite app_nil_r. destruct s. by destruct fuel.
  - apply (prints_seq _ _ [line_of MsgFirst x] (line_of MsgNext <$> xs)).
    + eapply show_prints; [exact H|set_solver].
    + eapply (next_loop_prints fuel [] x xs); [exact H|simpl in Hf; lia].
Qed.

(** ** The module *)

(** Printing leaves the tables alone. *)
Lemma prints_runs m ls fs n k s :
  prints m ls s → holds fs n k s → runs m s (λ _ s', holds fs n k s' ∧ klog s' = klog s ++ ls).
Proof.
  intros E (t & ns & nl & xs & ys & zs & HC & Hlo). eexists tt, _. split; [exact E|]. split; [|done].
  by exists t, ns, nl, xs, ys, zs.
Qed.

Lemma show_runs line ptr fs n k s :
  holds fs n k s → ptr = RB_FIRST (root (scan s)) ∨ ptr = RB_LAST (root (scan s)) →
  runs (show line ptr) s (λ _, holds fs n k).
Proof.
  intros H Hptr. pose proof H as (t & ns & nl & xs & ys & zs & HC & Hlo). destruct ptr as [p|]; [|by apply runs_ret].
  assert (p ∈ inorder (root (scan s))) as Hp.
  { unfold RB_FIRST, RB_LAST in Hptr. rewrite rb_first_inorder rb_last_inorder in Hptr.
    destruct Hptr as [E|E]; symmetry in E; [by apply head_Some_elem_of|by apply last_Some_elem_of]. }
  pose proof HC as ((HL & _) & _). rewrite (linked_root _ _ _ HL) in Hp.
  apply list_elem_of_fmap in Hp as (x & -> & Hx).
  eapply runs_wand; [eapply prints_runs; [eapply show_prints; [apply HC|exact Hx]|exact H]|]. naive_solver.
Qed.

Lemma iterate_runs fuel fs n k s :
  holds fs n k s → n ≤ fuel →
  runs (iterate fuel) s (λ _ s', holds fs n k s' ∧
    ∃ xs m, half_rep (scan s') m xs [] ∧ klog s' = klog s ++ walk_lines xs).
Proof.
  intros (t & ns & nl & xs & ys & zs & HC & Hlo) Hf. pose proof (lo_le _ _ _ _ _ _ Hlo).
  pose proof (lo_count _ _ _ _ _ _ Hlo). eexists tt, _.
  split; [apply (iterate_prints fuel s ns xs []); [apply HC|lia]|].
  split; [by exists t, ns, nl, xs, ys, zs|]. exists xs, ns. by split; [apply HC|].
Qed.

Lemma test_inserts_runs kzalloc i fs' fs n k s :
  holds fs n k s → fs' ⊆ fs →
  runs (test_inserts kzalloc i fs') s (λ _, holds fs (n + length fs') (k + length fs')).
Proof.
  revert i n k s. induction fs' as [|f fs' IH]; intros i n k s H Hs; cbn [test_inserts length].
  { apply runs_ret. by rewrite !Nat.add_0_r. }
  assert (Hmono : ∀ n' k' s', holds fs n' k' s' → n' ≤ n + 1 → k' ≤ k + 1 → holds fs (n + 1) (k + 1) s').
  { intros n' k' s' (t & ns & nl & xs & ys & zs & HC & Hlo) ? ?. exists t, ns, nl, xs, ys, zs.
    split; [done|]. by eapply loose_mono. }
  apply runs_bind. unfold test_insert. eapply runs_wand with (P := λ _, holds fs (n + 1) (k + 1)).
  - destruct (kzalloc i); [|apply runs_ret, (Hmono n k); [done|lia..]]. apply runs_bind.
    eapply runs_wand; [apply (insert_any s f fs n k H); set_solver|]. intros ret s' Hr.
    assert (holds fs (n + 1) (k + 1) s') as Hr'.
    { apply (Hmono _ _ _ Hr); unfold accepted, rejected; case_match; lia. }
    destruct (ret =? 0)%Z; [by apply runs_ret|].
    eapply runs_wand; [eapply prints_runs; [reflexivity|exact Hr']|]. naive_solver.
  - intros [] s' Hr. eapply runs_wand; [apply (IH _ _ _ _ Hr); set_solver|]. intros [] s2.
    by rewrite -!Nat.add_assoc.
Qed.

Lemma test_files_typed : Forall file_typed test_files.
Proof. repeat constructor; simpl; lia. Qed.

Lemma test_delete_runs ok f n k s :
  holds test_files n k s → file_typed f →
  runs (test_delete ok f) s (λ _, holds test_files n k).
Proof.
  intros H Hf. unfold test_delete. destruct ok; [|by apply runs_ret]. apply runs_bind.
  eapply runs_wand; [apply (find_remove_any s f _ n k H Hf test_files_typed)|]. intros b s' [Hr _].
  destruct b; [by apply runs_ret|].
  eapply runs_wand; [eapply prints_runs; [reflexivity|exact Hr]|]. naive_solver.
Qed.

Lemma test_init_runs s :
  k_slab 0 = true → k_slab 1 = true → s = Cache (scan cache_globals) (lru cache_globals) 0 0 (klog s) →
  runs init_scan_cache s (λ _, holds test_files 0 0).
Proof.
  intros H0 H1 ->. eexists _, _. split.
  - unfold init_scan_cache, mbind, ST_bind. simpl. rewrite H0 /= H1. reflexivity.
  - exists 0, 0, 0, [], [], []. split; [|split; simpl; try done; split; constructor].
    split_and!; [| |done].
    all: split_and!; [split; rewrite ?map_to_list_empty; try done; exists 0; constructor|done..].
Qed.

End proofs.

(** ** Properties *)

(** C26: the test module, for every tree library, clock and allocator. Once the two slabs are
    created, loading returns 0 without touching freed memory, although its files are of
    three devices; the walk at its end prints every record of the scan tree exactly
    once, in the order of the tree, each of them one of the test's files; and unloading frees all
    but at most one LRU record for each insertion. *)
Theorem rb_test_safe `{K : Kernel} {laws : KernelLaws K} kzalloc fuel :
  k_slab 0 = true → k_slab 1 = true → 8 < fuel →
  ∃ s before xs n,
    rb_test_init kzalloc fuel cache_globals = Some (0%Z, s) ∧
    half_rep (scan s) n xs [] ∧ Forall (λ x, scan_file x.2 ∈ test_files) xs ∧
    klog s = before ++ MsgAfterDelete :: walk_lines xs ∧
    ∃ s' lost, rb_test_cleanup fuel s = Some (tt, s') ∧
      torn_down 0 (scan s') ∧ torn_down lost (lru s') ∧ lost ≤ 8.
Proof.
  intros H0 H1 Hf.
  assert (runs (rb_test_init kzalloc fuel) cache_globals (λ ret s, ret = 0%Z ∧ holds test_files 8 8 s ∧
    ∃ before xs n, half_rep (scan s) n xs [] ∧ klog s = before ++ MsgAfterDelete :: walk_lines xs))
    as (ret & s & E & -> & H & before & xs & n & Hh & Hk).
  { unfold rb_test_init. apply runs_bind. eexists _, _. split; [reflexivity|]. apply runs_bind.
    eapply runs_wand; [by apply test_init_runs|]. intros ? s1 Hs1. apply runs_bind.
    eapply runs_wand; [by apply (test_inserts_runs kzalloc 0 test_files _ _ _ _ Hs1)|]. cbn [length test_files Nat.add].
    intros [] s2 Hs2. apply runs_bind. eexists _, _. split; [apply root_read|].
    apply runs_bind. eapply runs_wand; [by apply (show_runs _ _ _ _ _ _ Hs2); left|]. intros [] s3 Hs3.
    apply runs_bind. eexists _, _. split; [apply root_read|].
    apply runs_bind. eapply runs_wand; [by apply (show_runs _ _ _ _ _ _ Hs3); right|]. intros [] s4 Hs4.
    apply runs_bind. eapply runs_wand; [apply (iterate_runs fuel _ _ _ _ Hs4); lia|]. intros [] s5 [Hs5 _].
    apply runs_bind. eapply runs_wand; [apply (test_delete_runs _ _ _ _ _ Hs5); split_and!; simpl; int_solve|].
    intros [] s6 Hs6. apply runs_bind. eapply runs_wand; [eapply prints_runs; [reflexivity|exact Hs6]|].
    intros [] s7 [Hs7 Hk7]. apply runs_bind.
    eapply runs_wand; [apply (iterate_runs fuel _ _ _ _ Hs7); lia|]. intros [] s8 (Hs8 & xs & m & Hh & Hk).
    apply runs_ret. split_and!; [done..|]. exists (klog s6), xs, m. split; [done|].
    rewrite Hk Hk7 -app_assoc. done. }
  exists s, before, xs, n. split_and!; [done..| |done|].
  - destruct H as (t & ns & nl & xs' & ys & zs & ((HL & _) & _) & Hlo). destruct Hh as (HL' & _).
    assert (xs ≡ₚ xs') as ->; [|apply Hlo].
    pose proof (linked_objects _ _ _ HL) as P1. pose proof (linked_objects _ _ _ HL') as P2.
    rewrite app_nil_r in P1. rewrite app_nil_r in P2. by rewrite -P1 -P2.
  - destruct (exit_any fuel s _ _ _ H) as ([] & s' & E' & Ht & m & Hm & Ht'); [lia|].
    eexists _, m. split; [exact (st_bind_some _ _ _ _ _ E')|by split_and!].
Qed.

(** The walk after the removal on the sample kernel: the tree of the first device, in which the inode 1006
    has the generation inserted last, followed by the record of the second device. *)
Lemma rb_test_safe_witness :
  let K := sample_kernel seconds in
  ∃ s before xs n,
    rb_test_init (λ _, true) 9 cache_globals = Some (0%Z, s) ∧ half_rep (scan s) n xs [] ∧
    klog s = before ++ MsgAfterDelete :: walk_lines xs ∧
    drop 22 (klog s) =
      [MsgAfterDelete; MsgFirst 100 1001 12345; MsgNext 100 1002 12348; MsgNext 100 1003 12347;
       MsgNext 100 1006 12350; MsgNext 100 1009 12346; MsgNext 99 1006 12351].
Proof.
  intros K. destruct (@rb_test_safe K seconds_laws (λ _, true) 9 eq_refl eq_refl ltac:(lia))
    as (s & before & xs & n & E & Hh & _ & Hk & _).
  exists s, before, xs, n. split_and!; [exact E|exact Hh|exact Hk|].
  vm_compute in E. injection E as <-. reflexivity.
Defined.
