(* ===== verification/CacheCost.v ===== *)
(** * The scan cache: cost of the tree loops

    How many comparisons the loops of RB_SEARCH and RB_INSERT make in any state the cache can
    reach, by running the macros with a comparison that counts its calls. *)

From Stdlib Require Import ZArith Lia ssreflect.
From stdpp Require Import base list numbers gmap sorting.
From S2P Require Import Prelude RbTree Cache CacheHalf CacheOrder CacheSpec CacheRefine CacheProps CacheSafe.

(** ** Heights of red-black trees *)

Fixpoint height (t : tree) : nat :=
  match t with Leaf => 0 | Node _ l _ r => S (height l `max` height r) end.

Definition red_extra (c : color) : nat := match c with Red => 1 | Black => 0 end.

Lemma rb_height t c h : rb t c h → height t ≤ 2 * h + red_extra c.
Proof.
  induction 1 as [|l p r h _ IHl _ IHr|l p r c c' h _ IHl _ IHr]; simpl in *; [lia|lia|].
  destruct c, c'; simpl in *; lia.
Qed.

Lemma rb_size t c h : rb t c h → 2 ^ h ≤ S (length (inorder t)).
Proof.
  induction 1 as [|l p r h _ IHl _ IHr|l p r c c' h _ IHl _ IHr]; simpl in *;
    rewrite ?length_app ?length_cons; lia.
Qed.

(** The bound on the rounds of a loop over [n] nodes. *)
Definition rounds (n : nat) : nat := 2 * Nat.log2 (S n).

Lemma rb_rounds t : rb_valid t → height t ≤ rounds (length (inorder t)).
Proof.
  intros [h H]. pose proof (rb_height _ _ _ H) as Hh. pose proof (rb_size _ _ _ H) as Hs. simpl in Hh.
  assert (h ≤ Nat.log2 (S (length (inorder t)))); [|unfold rounds; lia].
  rewrite -(Nat.log2_pow2 h); [lia|]. by apply Nat.log2_le_mono.
Qed.

(** ** Counting comparisons *)

(** [cmp], with the number of its calls in the state. *)
Definition counted {S : Type} (cmp : positive → ST S Z) (p : positive) : ST (S * nat) Z := λ '(s, k),
  match cmp p s with Some (z, s') => Some (z, (s', Datatypes.S k)) | None => None end.

Section count.
Context {S : Type} (cmp : positive → ST S Z).

(** A loop over the tree counts at most its height, and otherwise runs as it does without
    counting. *)
Definition counts {B : Type} (t : tree) (m : ST (S * nat) B) (m0 : ST S B) : Prop := ∀ s k,
  match m0 s with
  | Some (b, s') => ∃ k', k' ≤ height t ∧ m (s, k) = Some (b, (s', k + k'))
  | None => m (s, k) = None
  end.

Lemma counts_ret {B} t (b : B) : counts t (mret b) (mret b).
Proof. intros s k. exists 0. rewrite Nat.add_0_r. split; [lia|done]. Qed.

Lemma counts_map {B C} t m m0 (f : B → C) :
  counts t m m0 → counts t (b ← m; mret (f b)) (b ← m0; mret (f b)).
Proof.
  intros H s k. specialize (H s k). unfold mbind, ST_bind. destruct (m0 s) as [[b s']|]; simpl.
  - destruct H as (k' & Hk & ->). by exists k'.
  - by rewrite H.
Qed.

(** One round: a comparison, then the end or one of the subtrees. *)
Lemma counts_node {B} col l p r (b : B) ml ml0 mr mr0 :
  counts l ml ml0 → counts r mr mr0 →
  counts (Node col l p r)
    (res ← counted cmp p; if (res =? 0)%Z then mret b else if (res <? 0)%Z then ml else mr)
    (res ← cmp p; if (res =? 0)%Z then mret b else if (res <? 0)%Z then ml0 else mr0).
Proof.
  intros Hl Hr s k. unfold mbind, ST_bind, counted. destruct (cmp p s) as [[z s1]|]; [|done].
  destruct (z =? 0)%Z; [exists 1; simpl; split; [lia|by rewrite Nat.add_1_r]|].
  destruct (z <? 0)%Z; [specialize (Hl s1 (Datatypes.S k)); destruct (ml0 s1) as [[x s2]|]; [|done];
    destruct Hl as (k' & Hk & E)|specialize (Hr s1 (Datatypes.S k)); destruct (mr0 s1) as [[x s2]|]; [|done];
    destruct Hr as (k' & Hk & E)]; exists (Datatypes.S k'); simpl; (split; [lia|]); by rewrite E -Nat.add_succ_comm.
Qed.

Lemma RB_SEARCH_counts t : counts t (RB_SEARCH t (counted cmp)) (RB_SEARCH t cmp).
Proof. induction t as [|c l IHl p r IHr]; [apply counts_ret|]. by apply counts_node. Qed.

Lemma rb_insert_walk_counts t : counts t (rb_insert_walk (counted cmp) t) (rb_insert_walk cmp t).
Proof.
  induction t as [|c l IHl p r IHr]; [apply counts_ret|].
  apply counts_node; by apply counts_map.
Qed.

Lemma RB_INSERT_counts `{L : RbLib} t new : counts t (RB_INSERT t new (counted cmp)) (RB_INSERT t new cmp).
Proof.
  assert (E : ∀ (S' : Type) (c : positive → ST S' Z) s, RB_INSERT t new c s =
    (n ← rb_insert_walk c t; mret (match n with
      | Some n => (rb_insert_color new (rb_link_node new n t), 0%Z) | None => (t, (-1)%Z) end)) s).
  { intros S' c s. unfold RB_INSERT, mbind, ST_bind. destruct (rb_insert_walk c t s) as [[[] ?]|]; done. }
  intros s k. rewrite !E. apply counts_map, rb_insert_walk_counts.
Qed.
End count.

(** ** The loops of the cache *)

Section cache.
Context `{K : Kernel} {laws : KernelLaws K}.

(** A counted loop of a half: it returns, leaves the half alone, and makes at most
    the given number of comparisons. *)
Definition costs {A B : Type} (m : ST (half A * nat) B) (h : half A) (n : nat) : Prop :=
  ∃ b k, m (h, 0) = Some (b, (h, k)) ∧ k ≤ n.

Lemma search_costs {A} (cmp : positive → ST (half A) Z) c h n xs zs :
  half_rep h n xs zs → compares_as cmp c h →
  costs (RB_SEARCH (root h) (counted cmp)) h (rounds (length xs)).
Proof.
  intros (H & _) Hc. pose proof (compares_linked cmp c _ _ _ H (Hc h eq_refl)) as Hcs.
  destruct (RB_SEARCH_any _ _ _ _ Hcs) as (r & E & _).
  pose proof (RB_SEARCH_counts cmp (root h) h 0) as Hk. rewrite E in Hk. destruct Hk as (k & Hk & Ek).
  exists r, k. split; [done|]. pose proof (rb_rounds _ (linked_valid _ _ _ H)) as Hr.
  rewrite (linked_root _ _ _ H) length_fmap in Hr. lia.
Qed.

Lemma insert_costs {A} (cmp : positive → ST (half A) Z) c h n xs zs new :
  half_rep h n xs zs → compares_as cmp c h →
  costs (RB_INSERT (root h) new (counted cmp)) h (rounds (length xs)).
Proof.
  intros (H & _) Hc. pose proof (compares_linked cmp c _ _ _ H (Hc h eq_refl)) as Hcs.
  assert (∃ r, RB_INSERT (root h) new cmp h = Some (r, h)) as [r E].
  { unfold RB_INSERT, mbind, ST_bind.
    destruct (rb_insert_walk_any _ _ _ _ Hcs) as [(k & -> & _)|(-> & _)]; by eexists. }
  pose proof (RB_INSERT_counts cmp (root h) new h 0) as Hk. rewrite E in Hk. destruct Hk as (k & Hk & Ek).
  exists r, k. split; [done|]. pose proof (rb_rounds _ (linked_valid _ _ _ H)) as Hr.
  rewrite (linked_root _ _ _ H) length_fmap in Hr. lia.
Qed.

(** The half with one more live object that is not linked: what an insertion works on. *)
Definition with_object {A} (p : positive) (a : A) (h : half A) : half A :=
  Half (slab h) (<[p := a]> (objects h)) (root h) (lock h) (requests h).

Lemma with_object_rep {A} (h : half A) n xs zs p a :
  half_rep h n xs zs → objects h !! p = None → half_rep (with_object p a h) n xs ((p, a) :: zs).
Proof.
  intros ([H1 H2 H3 H4] & Hl & Hn) Hp. split_and!; [|done..]. split; simpl; [done..|].
  rewrite map_to_list_insert // H4. apply Permutation_middle.
Qed.

(** Every sequence of calls ends in a state of the invariant of [CacheSafe]. *)
Lemma ops_hold fuel ops :
  k_slab 0 = true → k_slab 1 = true → Forall op_typed ops → length ops < fuel →
  ∃ rs s, (r ← init_scan_cache; exec_ops fuel ops) cache_globals = Some (rs, s) ∧
    holds (offered ops) (returned 0 rs) (returned (-1) rs) s.
Proof.
  intros H0 H1 Hops Hf.
  assert (runs (r ← init_scan_cache; exec_ops fuel ops) cache_globals (λ rs s,
    holds (offered ops) (returned 0 rs) (returned (-1) rs) s)) as (rs & s & E & H); [|by exists rs, s].
  apply runs_bind, init_any; [done..|]. intros s Hs.
  eapply runs_wand; [by apply (exec_ops_any fuel ops s [] 0 0)|]. naive_solver.
Qed.

Lemma rounds_mono m n : m ≤ n → rounds m ≤ rounds n.
Proof. intros H. unfold rounds. pose proof (Nat.log2_le_mono (S m) (S n)). lia. Qed.

End cache.

(** ** Properties *)

(** C10: the cost of the tree loops. After any sequence of calls, on files of any devices and with
    any answers of the allocator, every search and every insertion in either tree, the search for an equal record before an update included, returns after at most
    twice the logarithm to base 2 of one more than the number of accepted insertions
    comparisons, whatever the key or the new record: also where device numbers are not
    ordered, since the bound rests on the colours alone. *)
Theorem walks_logarithmic `{K : Kernel} {laws : KernelLaws K} fuel ops :
  k_slab 0 = true → k_slab 1 = true → Forall op_typed ops → length ops < fuel →
  ∃ rs s, (r ← init_scan_cache; exec_ops fuel ops) cache_globals = Some (rs, s) ∧
    let n := rounds (returned 0 rs) in
    (∀ key, costs (RB_SEARCH (root (scan s))
      (counted (λ q, scan_cache_find_compare_table (Some key) (Some q)))) (scan s) n) ∧
    (∀ p a, objects (scan s) !! p = None → costs (RB_SEARCH (root (scan s))
      (counted (λ q, scan_cache_insert_compare_table (Some p) (Some q)))) (with_object p a (scan s)) n) ∧
    (∀ p a, objects (scan s) !! p = None → costs (RB_INSERT (root (scan s)) p
      (counted (λ q, scan_cache_insert_compare_table (Some p) (Some q)))) (with_object p a (scan s)) n) ∧
    (∀ ts, costs (RB_SEARCH (root (lru s)) (counted (lru_cache_find_compare_table (LruKey ts)))) (lru s) n) ∧
    (∀ p b, objects (lru s) !! p = None → costs (RB_INSERT (root (lru s)) p
      (counted (lru_cache_insert_compare_table p))) (with_object p b (lru s)) n).
Proof.
  intros H0 H1 Hops Hf. destruct (ops_hold fuel ops H0 H1 Hops Hf) as (rs & s & E & H).
  exists rs, s. split; [done|]. destruct H as (t & ns & nl & xs & ys & zs & (Hx & Hy & _) & Hlo).
  assert (Hcost : ∀ A B (m : ST (half A * nat) B) h k, k ≤ returned 0 rs →
    costs m h (rounds k) → costs m h (rounds (returned 0 rs))).
  { intros A B m h k Hk (b & j & Em & Hj). exists b, j. split; [done|]. pose proof (rounds_mono _ _ Hk). lia. }
  pose proof (lo_le _ _ _ _ _ _ Hlo). pose proof (lo_count _ _ _ _ _ _ Hlo).
  split_and!.
  - intros key. apply (Hcost _ _ _ _ (length xs)); [lia|]. eapply search_costs; [exact Hx|apply scan_find_compares].
  - intros p a Hp. apply (Hcost _ _ _ _ (length xs)); [lia|].
    eapply (search_costs _ _ (with_object p a (scan s))); [by apply with_object_rep|].
    apply scan_insert_compares. apply lookup_insert_eq.
  - intros p a Hp. apply (Hcost _ _ _ _ (length xs)); [lia|].
    eapply (insert_costs _ _ (with_object p a (scan s))); [by apply with_object_rep|].
    apply scan_insert_compares. apply lookup_insert_eq.
  - intros ts. apply (Hcost _ _ _ _ (length ys)); [lia|]. eapply search_costs; [exact Hy|apply lru_find_compares].
  - intros p b Hp. apply (Hcost _ _ _ _ (length ys)); [lia|].
    eapply (insert_costs _ _ (with_object p b (lru s))); [by apply with_object_rep|].
    apply lru_insert_compares. apply lookup_insert_eq.
Qed.

(** ** Witnesses *)

Lemma walks_logarithmic_witness :
  let K := sample_kernel seconds in
  ∃ rs s, (r ← init_scan_cache; exec_ops 10 mixed_ops) cache_globals = Some (rs, s) ∧
    returned 0 rs = 4 ∧
    ∀ key, costs (RB_SEARCH (root (scan s))
      (counted (λ q, scan_cache_find_compare_table (Some key) (Some q)))) (scan s) 4.
Proof.
  intros K. destruct (@walks_logarithmic K seconds_laws 10 mixed_ops) as (rs & s & E & H & _);
    [reflexivity|reflexivity|apply mixed_typed|simpl; lia|].
  assert (Hn : returned 0 rs = 4).
  { pose proof E as E'. vm_compute in E'. injection E' as <- _. reflexivity. }
  exists rs, s. split; [exact E|]. split; [exact Hn|]. rewrite Hn in H. exact H.
Defined.
