(* ===== verification/CacheOld.v ===== *)
(** * The tree functions that the RB macros replaced (cache.c, lines 235 to 328)

    cache.c keeps, under [#if 0], the functions that its calls used before the macros of cache.h were
    written. They are loops over pointers: [new] is the address of a link, [rb_search_node] a
    node. Here a link is the list of sides from the root, as in [RbTree], and is
    followed with [slot]; the loops have a bound. The theorem compares them with the macros. *)

From Stdlib Require Import ZArith Lia ssreflect.
From stdpp Require Import base list numbers gmap sorting.
From S2P Require Import Prelude RbTree Cache CacheHalf CacheOrder CacheSpec CacheRefine CacheProps CacheSafe CacheCost.

Section code.
Context `{K : Kernel}.

(** The loop of insert_in_rb_tree: the link to put the node at, or [None] for the jump to
    [out]. *)
Fixpoint insert_loop (fuel : nat) (root : tree) (record : positive) (new : list side) :
    ST (half scan_cache_record) (option (list side)) :=
  match fuel with
  | O => st_fail
  | S fuel =>
      node ← st_opt (slot new root);
      match node with
      | Leaf => mret (Some new)
      | Node _ _ this _ =>
          result ← scan_cache_insert_compare_table (Some record) (Some this);
          if (result <? 0)%Z then insert_loop fuel root record (new ++ [Left])
          else if (0 <? result)%Z then insert_loop fuel root record (new ++ [Right])
          else mret None
      end
  end.

Definition insert_in_rb_tree (fuel : nat) (root : tree) (record : positive) :
    ST (half scan_cache_record) (tree * Z) :=
  new ← insert_loop fuel root record [];
  match new with
  | Some new => mret (rb_insert_color record (rb_link_node record new root), 0%Z)
  | None => mret (root, (-1)%Z)
  end.

(** Erasing a node that is not in the tree is undefined. *)
Definition remove_in_rb_tree (root : tree) (record : positive) : ST (half scan_cache_record) tree :=
  if bool_decide (record ∈ inorder root) then mret (rb_erase record root) else st_fail.

Fixpoint find_loop (fuel : nat) (key : scan_cache_record_compare) (rb_search_node : tree) :
    ST cache (option positive) :=
  match fuel with
  | O => st_fail
  | S fuel =>
      match rb_search_node with
      | Leaf => mret None
      | Node _ rb_left search_data rb_right =>
          result ← on_scan (scan_cache_find_compare_table (Some key) (Some search_data));
          printk (MsgResult result);;
          if (result <? 0)%Z then find_loop fuel key rb_left
          else if (0 <? result)%Z then find_loop fuel key rb_right
          else mret (Some search_data)
      end
  end.

Definition find_in_rb_tree (fuel : nat) (root : tree) (key : scan_cache_record_compare) :
    ST cache (option positive) :=
  printk MsgInside;;
  printk (MsgKey (k_dev_id key) (k_inode_number key) (k_inode_generation key));;
  find_loop fuel key root.

(** The loop of find_update_in_tree: the new root and the result. *)
Fixpoint update_loop (fuel : nat) (root : tree) (new : positive) (rb_search_node : tree) :
    ST (half scan_cache_record) (tree * Z) :=
  match fuel with
  | O => st_fail
  | S fuel =>
      match rb_search_node with
      | Leaf => mret (root, (-1)%Z)
      | Node _ rb_left search_data rb_right =>
          result ← scan_cache_insert_compare_table (Some new) (Some search_data);
          if (result <? 0)%Z then update_loop fuel root new rb_left
          else if (0 <? result)%Z then update_loop fuel root new rb_right
          else
            let root := rb_replace_node search_data new root in
            kmem_cache_free search_data;;
            mret (root, 0%Z)
      end
  end.

Definition find_update_in_tree (fuel : nat) (root : tree) (new : positive) :
    ST (half scan_cache_record) (tree * Z) := update_loop fuel root new root.

End code.

(** ** Lemmas *)

Section proofs.
Context `{K : Kernel}.

Lemma slot_snoc n t d c l p r :
  slot n t = Some (Node c l p r) → slot (n ++ [d]) t = Some (match d with Left => l | Right => r end).
Proof.
  revert t. induction n as [|[] n IH]; intros [|c' l' p' r'] E; simplify_eq/=; [by destruct d|..]; by apply IH.
Qed.

(** The two ways to test a comparison. *)
Lemma three_way {A} (z : Z) (a b c : A) :
  (if (z <? 0)%Z then a else if (0 <? z)%Z then b else c) =
  (if (z =? 0)%Z then c else if (z <? 0)%Z then a else b).
Proof. destruct (Z.ltb_spec z 0), (Z.ltb_spec 0 z), (Z.eqb_spec z 0); done || lia. Qed.

Abbreviation ins_cmp p := (λ this, scan_cache_insert_compare_table (Some p) (Some this)).
Abbreviation find_cmp k := (λ this, scan_cache_find_compare_table (Some k) (Some this)).

(** From a link on, the loop follows the macro's. *)
Lemma insert_loop_walk fuel root p n t s :
  slot n root = Some t → height t < fuel →
  insert_loop fuel root p n s = (m ← rb_insert_walk (ins_cmp p) t; mret (app n <$> m)) s.
Proof.
  revert n t s. induction fuel as [|fuel IH]; intros n t s Hn Hf; [lia|]. cbn [insert_loop]. rewrite Hn.
  destruct t as [|c l q r]; [by rewrite /= /mbind /ST_bind /= app_nil_r|].
  simpl in Hf. unfold mbind, ST_bind. cbn [st_opt rb_insert_walk]. unfold mbind, ST_bind.
  destruct (scan_cache_insert_compare_table (Some p) (Some q) s) as [[z s1]|]; [|done]. rewrite three_way.
  destruct (z =? 0)%Z; [done|].
  destruct (z <? 0)%Z; rewrite (IH _ _ s1 (slot_snoc _ _ _ _ _ _ _ Hn)); [lia|..|lia|]; unfold mbind, ST_bind;
    destruct (rb_insert_walk _ _ s1) as [[[m|] s2]|]; try done; cbn; by rewrite -app_assoc.
Qed.

(** A search with the lines it prints. *)
Lemma find_loop_search fuel key t c :
  height t < fuel →
  match RB_SEARCH t (find_cmp key) (scan c) with
  | Some (r, h) => ∃ results, length results ≤ height t ∧ find_loop fuel key t c =
      Some (r, Cache h (lru c) (ticks c) (slab_requests c) (klog c ++ (MsgResult <$> results)))
  | None => find_loop fuel key t c = None
  end.
Proof.
  revert t c. induction fuel as [|fuel IH]; intros t c Hf; [lia|].
  destruct t as [|col l q r]; [exists []; by destruct c; rewrite /= app_nil_r|]. simpl in Hf.
  cbn [RB_SEARCH find_loop]. unfold mbind, ST_bind, on_scan.
  destruct (scan_cache_find_compare_table (Some key) (Some q) (scan c)) as [[z h]|]; [|done].
  cbn [printk lru ticks slab_requests klog scan]. rewrite three_way. destruct (z =? 0)%Z.
  { exists [z]. split; [simpl; lia|done]. }
  set (c1 := Cache h (lru c) (ticks c) (slab_requests c) (klog c ++ [MsgResult z])).
  assert (∃ t, height t < fuel ∧ S (height t) ≤ height (Node col l q r) ∧
    (if (z <? 0)%Z then RB_SEARCH l (find_cmp key) else RB_SEARCH r (find_cmp key)) = RB_SEARCH t (find_cmp key) ∧
    (if (z <? 0)%Z then find_loop fuel key l else find_loop fuel key r) = find_loop fuel key t)
    as (t & Ht & Ht' & -> & ->) by (simpl; destruct (z <? 0)%Z; [exists l|exists r]; split_and!; done || lia).
  pose proof (IH t c1 Ht) as Hi. simpl in Hi. destruct (RB_SEARCH t _ h) as [[x h2]|]; [|done].
  destruct Hi as (rs & Hl & ->). exists (z :: rs). split; [simpl in *; lia|]. by rewrite -app_assoc.
Qed.

(** The search that replaces what it finds. *)
Lemma update_loop_search fuel root new t s :
  height t < fuel → inorder t ⊆ inorder root →
  update_loop fuel root new t s =
    (r ← RB_SEARCH t (ins_cmp new);
     match r with
     | Some old => root' ← RB_REPLACE root old new; kmem_cache_free old;; mret (root', 0%Z)
     | None => mret (root, (-1)%Z)
     end) s.
Proof.
  revert t s. induction fuel as [|fuel IH]; intros t s Hf Hin; [lia|].
  destruct t as [|c l q r]; [done|]. simpl in Hf, Hin. cbn [update_loop RB_SEARCH]. unfold mbind at 1 3, ST_bind at 1 3.
  unfold mbind at 2. unfold ST_bind at 2.
  destruct (scan_cache_insert_compare_table (Some new) (Some q) s) as [[z s1]|]; [|done]. rewrite three_way.
  destruct (z =? 0)%Z.
  { unfold mret at 2, ST_ret at 2. unfold RB_REPLACE. rewrite bool_decide_true; [set_solver|]. done. }
  destruct (z <? 0)%Z; rewrite IH //; [lia|set_solver|lia|set_solver].
Qed.

End proofs.

(** ** Properties *)

(** C25: the macros do what the functions they replaced did. On every red-black tree, from every
    state of the slab, whatever it holds, and with a loop bound above twice the
    logarithm of the size: insert_in_rb_tree is RB_INSERT and remove_in_rb_tree is RB_REMOVE;
    find_in_rb_tree returns what RB_SEARCH returns, and prints the key and at most as many results as
    the bound; find_update_in_tree is RB_SEARCH, RB_REPLACE and the release of the old record.
    They get stuck on the same states. *)
Theorem macros_replace `{K : Kernel} fuel t new key (h : half scan_cache_record) c :
  rb_valid t → rounds (length (inorder t)) < fuel →
  insert_in_rb_tree fuel t new h =
    RB_INSERT t new (λ this, scan_cache_insert_compare_table (Some new) (Some this)) h ∧
  remove_in_rb_tree t new h = RB_REMOVE t new h ∧
  match RB_SEARCH t (λ this, scan_cache_find_compare_table (Some key) (Some this)) (scan c) with
  | Some (r, h') => ∃ results, length results ≤ rounds (length (inorder t)) ∧
      find_in_rb_tree fuel t key c = Some (r, Cache h' (lru c) (ticks c) (slab_requests c)
        (klog c ++ MsgInside :: MsgKey (k_dev_id key) (k_inode_number key) (k_inode_generation key) ::
          (MsgResult <$> results)))
  | None => find_in_rb_tree fuel t key c = None
  end ∧
  find_update_in_tree fuel t new h =
    (r ← RB_SEARCH t (λ this, scan_cache_insert_compare_table (Some new) (Some this));
     match r with
     | Some old => t' ← RB_REPLACE t old new; kmem_cache_free old;; mret (t', 0%Z)
     | None => mret (t, (-1)%Z)
     end) h.
Proof.
  intros Hv Hf. pose proof (rb_rounds t Hv) as Hh. split_and!.
  - unfold insert_in_rb_tree, RB_INSERT, mbind, ST_bind. rewrite (insert_loop_walk fuel t new [] t h); [done|lia|].
    unfold mbind, ST_bind. by destruct (rb_insert_walk _ t h) as [[[] ?]|].
  - done.
  - unfold find_in_rb_tree, mbind, ST_bind. cbn [printk scan lru ticks slab_requests klog].
    match goal with |- context [find_loop fuel key t ?c1] => pose proof (find_loop_search fuel key t c1 ltac:(lia)) as H end.
    cbn [scan lru ticks slab_requests klog] in H. destruct (RB_SEARCH _ _ (scan c)) as [[r h']|]; [|done].
    destruct H as (rs & Hl & ->). exists rs. split; [lia|]. by rewrite -!app_assoc.
  - apply update_loop_search; [lia|done].
Qed.

(** A tree of two records. *)
Definition two_nodes : tree := Node Black (Node Red Leaf 1 Leaf) 2 Leaf.

Definition two_records : half scan_cache_record :=
  Half true (<[1%positive := ScanRec 7 10 1 STATE_UNKNOWN (Timespec 1 0)]>
    (<[2%positive := ScanRec 7 20 1 STATE_UNKNOWN (Timespec 2 0)]>
    (<[3%positive := ScanRec 7 15 1 STATE_UNKNOWN (Timespec 3 0)]> ∅))) two_nodes true 0.

Definition two_state : cache := Cache two_records (Half true ∅ Leaf false 0) 0 0 [].

Lemma macros_replace_witness :
  let K := sample_kernel seconds in
  (λ r, (r.1, klog r.2)) <$> find_in_rb_tree 5 two_nodes (ScanKey 7 10 1) two_state =
    Some (Some 1%positive, [MsgInside; MsgKey 7 10 1; MsgResult (-1); MsgResult 0]) ∧
  insert_in_rb_tree 5 two_nodes 3 two_records =
    RB_INSERT two_nodes 3 (λ this, scan_cache_insert_compare_table (Some 3%positive) (Some this)) two_records.
Proof.
  intros K. split; [reflexivity|].
  apply (@macros_replace K 5 two_nodes 3 (ScanKey 7 10 1) two_records two_state).
  - exists 1. repeat econstructor.
  - vm_compute. lia.
Defined.
