(* ===== verification/MountIter.v ===== *)
(** * Mount iteration (mount_iter.c)

    The module of src/Iterate_MountFS walks the mounts of the caller's
    namespace from the topmost one, keeps one record per file system type on
    a list, prints the list and frees it. The kernel's mounts are a map from
    pointers to records whose [mnt_parent], [mnt_mounts.next] and
    [mnt_child.next] are the raw pointers the code follows (the branch of the
    [#if]s for kernels from 3.3.0 on); nothing changes them during the walk.
    The list of linux/list.h is the interface [KList] with its laws. The state
    has the live records, the list, the depth of RCU read sections, the lock
    of [current->fs] and the calls made to mntget, mntput and kmalloc. *)

From Stdlib Require Import ssreflect.
From stdpp Require Import base strings list numbers gmap fin_maps.
From S2P Require Import Prelude.

(** ** The kernel *)

(** A list head of linux/list.h, its nodes named by the object they are in.
    [list_for_each l] are the nodes the macro visits, in order. *)
Class KList := {
  klist : Type;
  INIT_LIST_HEAD : klist;
  list_empty : klist → bool;
  list_add_tail : positive → klist → klist;
  list_del : positive → klist → klist;
  list_for_each : klist → list positive;
}.

Class KListLaws (K : KList) := {
  kl_init : list_for_each INIT_LIST_HEAD = [];
  kl_empty l : list_empty l = bool_decide (list_for_each l = []);
  kl_add_tail x l : x ∉ list_for_each l →
    list_for_each (list_add_tail x l) = list_for_each l ++ [x];
  kl_del x l : list_for_each (list_del x l) = filter (.≠ x) (list_for_each l);
}.

(** The address of a list head inside a mount. *)
Inductive list_head := mnt_mounts_addr (m : positive) | mnt_child_addr (m : positive).

#[global] Instance list_head_eq_dec : EqDecision list_head.
Proof. solve_decision. Defined.

(** The fields of [struct mount] the code reads, with the name of the
    file system type of its super block. *)
Record mount := Mount {
  mnt_parent : positive;
  mnt_mounts_next : list_head;
  mnt_child_next : list_head;
  s_type_name : string }.

(** The mounts, the root of the calling process, the answer to the [n]-th
    allocation and the address of a new object given the live ones. *)
Class MountKernel := {
  mounts : gmap positive mount;
  fs_root_mnt : positive;
  kmalloc_ok : nat → bool;
  kmalloc_addr : gset positive → positive;
}.

Class MountKernelLaws (K : MountKernel) := {
  mk_addr X : kmalloc_addr X ∉ X;
}.

(** ** State *)

(** The calls to the kernel; kmalloc with the depth of RCU read sections it
    is made in. *)
Inductive kcall := Mntget (m : positive) | Mntput (m : positive) | Kmalloc (rcu : nat).

Inductive line :=
  | LNoMemory | LNoRoot | LPrinting | LList (name : string) | LDelete (name : string).

#[global] Instance kcall_eq_dec : EqDecision kcall.
Proof. solve_decision. Defined.

Section code.
Context `{KL : KList, MK : MountKernel}.

(** A live [struct vfs_mount_list] is its [mnt_data], [None] when not yet stored. *)
Record fsl := Fsl {
  records : gmap positive (option positive);
  file_record : klist;
  requests : nat;
  rcu_depth : nat;
  fs_lock : bool;
  calls : list kcall;
  lines : list line }.

Abbreviation M := (ST fsl).

Definition set_records f : M unit :=
  st_modify (λ s, Fsl (f (records s)) (file_record s) (requests s) (rcu_depth s) (fs_lock s) (calls s) (lines s)).

Definition set_list f : M unit :=
  st_modify (λ s, Fsl (records s) (f (file_record s)) (requests s) (rcu_depth s) (fs_lock s) (calls s) (lines s)).

Definition call c : M unit :=
  st_modify (λ s, Fsl (records s) (file_record s) (requests s) (rcu_depth s) (fs_lock s) (calls s ++ [c]) (lines s)).

Definition printk l : M unit :=
  st_modify (λ s, Fsl (records s) (file_record s) (requests s) (rcu_depth s) (fs_lock s) (calls s) (lines s ++ [l])).

Definition rcu_read_lock : M unit :=
  st_modify (λ s, Fsl (records s) (file_record s) (requests s) (S (rcu_depth s)) (fs_lock s) (calls s) (lines s)).

(** Leaving a read section that was not entered is stuck. *)
Definition rcu_read_unlock : M unit := λ s,
  match rcu_depth s with
  | S d => Some (tt, Fsl (records s) (file_record s) (requests s) d (fs_lock s) (calls s) (lines s))
  | O => None
  end.

(** Taking a held lock and releasing a free one are stuck. *)
Definition spin_lock : M unit := λ s,
  if fs_lock s then None
  else Some (tt, Fsl (records s) (file_record s) (requests s) (rcu_depth s) true (calls s) (lines s)).

Definition spin_unlock : M unit := λ s,
  if fs_lock s then
    Some (tt, Fsl (records s) (file_record s) (requests s) (rcu_depth s) false (calls s) (lines s))
  else None.

(** [kmalloc(sizeof(struct vfs_mount_list), GFP_KERNEL)]. *)
Definition kmalloc : M (option positive) := λ s,
  let calls' := calls s ++ [Kmalloc (rcu_depth s)] in
  if kmalloc_ok (requests s) then
    let p := kmalloc_addr (dom (records s)) in
    Some (Some p, Fsl (<[p := None]> (records s)) (file_record s) (S (requests s))
                      (rcu_depth s) (fs_lock s) calls' (lines s))
  else
    Some (None, Fsl (records s) (file_record s) (S (requests s))
                    (rcu_depth s) (fs_lock s) calls' (lines s)).

Definition kfree (p : positive) : M unit := λ s,
  match records s !! p with
  | Some _ => set_records (delete p) s
  | None => None
  end.

(** [p->mnt_data = m]. *)
Definition set_mnt_data (p m : positive) : M unit := λ s,
  match records s !! p with
  | Some _ => set_records (<[p := Some m]>) s
  | None => None
  end.

(** [p->mnt_data], stuck on a dead record and before the first store. *)
Definition mnt_data (p : positive) : M positive := λ s,
  match records s !! p with
  | Some (Some m) => Some (m, s)
  | _ => None
  end.

Definition read_mount (m : positive) : M mount := st_opt (mounts !! m).

(** [p->mnt_data->mnt_sb->s_type->name]. *)
Definition type_name (p : positive) : M string :=
  m ← mnt_data p; mt ← read_mount m; mret (s_type_name mt).

(** ** The operations *)

Definition filesystem_name_compare (mnt_point1 mnt_point2 : positive) : M bool :=
  n1 ← type_name mnt_point1;
  n2 ← type_name mnt_point2;
  mret (bool_decide (n1 = n2)).

(** The body of the [list_for_each] of vfs_mount_point_compare. *)
Fixpoint compare_loop (mnt : positive) (nodes : list positive) : M bool :=
  match nodes with
  | [] => mret false
  | tmp :: nodes =>
      same ← filesystem_name_compare tmp mnt;
      if same : bool then mret true else compare_loop mnt nodes
  end.

Definition vfs_mount_point_compare (mnt : positive) : M bool :=
  s ← st_get; compare_loop mnt (list_for_each (file_record s)).

Definition ENOMEM : Z := 12.

Definition add_to_filesystem_record (mnt : positive) : M Z :=
  record ← kmalloc;
  match record with
  | Some record_vfs_mount =>
      set_mnt_data record_vfs_mount mnt;;
      s ← st_get;
      (if negb (list_empty (file_record s)) then
        present ← vfs_mount_point_compare record_vfs_mount;
        if present : bool then mret tt
        else set_list (list_add_tail record_vfs_mount)
      else set_list (list_add_tail record_vfs_mount));;
      mret 0%Z
  | None =>
      printk LNoMemory;;
      mret (- ENOMEM)%Z
  end.

(** The loop to the mount that is its own parent. *)
Fixpoint top_loop (fuel : nat) (m : positive) : M positive :=
  match fuel with
  | O => st_fail
  | S fuel =>
      mt ← read_mount m;
      if bool_decide (m = mnt_parent mt) then mret m else top_loop fuel (mnt_parent mt)
  end.

(** The pointer is never NULL: it is [real_mount] of the process's root, or a
    parent of it. *)
Definition get_root_mount_point (fuel : nat) : M (option positive) :=
  rcu_read_lock;;
  spin_lock;;
  m ← top_loop fuel fs_root_mnt;
  spin_unlock;;
  rcu_read_unlock;;
  mret (Some m).

(** [list_entry(next, struct mount, mnt_child)]: an address that is not the
    [mnt_child] of a mount gives a wild pointer. *)
Definition child_mounted_filesystem (next : list_head) : M positive :=
  match next with
  | mnt_child_addr m => mret m
  | mnt_mounts_addr _ => st_fail
  end.

(** The inner loop: up from [mnt_next] to the first mount with a later
    sibling; the result is [mnt_next] and [next]. *)
Fixpoint climb_loop (fuel : nat) (mnt_next : positive) (next : list_head) : M (positive * list_head) :=
  match fuel with
  | O => st_fail
  | S fuel =>
      mt ← read_mount mnt_next;
      if bool_decide (mnt_next = mnt_parent mt) then mret (mnt_next, next)
      else
        let next := mnt_child_next mt in
        if bool_decide (next = mnt_mounts_addr (mnt_parent mt))
        then climb_loop fuel (mnt_parent mt) next
        else mret (mnt_next, next)
  end.

(** The mount after [mount_list], [None] when the walk is over. *)
Definition next_mount (fuel : nat) (mount_list : positive) : M (option positive) :=
  mt ← read_mount mount_list;
  let head := mnt_mounts_addr mount_list in
  let next := mnt_mounts_next mt in
  if negb (bool_decide (next = head)) then
    mnt_next ← child_mounted_filesystem next; mret (Some mnt_next)
  else
    '(mnt_next, next) ← climb_loop fuel mount_list next;
    up ← read_mount mnt_next;
    if bool_decide (mnt_next = mnt_parent up) then mret None
    else mnt_next ← child_mounted_filesystem next; mret (Some mnt_next).

(** The do loop, with [fuel] for it and for the climb in each round. *)
Fixpoint iterate_loop (fuel height : nat) (mount_list : positive) : M unit :=
  match fuel with
  | O => st_fail
  | S fuel =>
      add_to_filesystem_record mount_list;;
      next ← next_mount height mount_list;
      match next with
      | None => call (Mntput mount_list)
      | Some mnt_next =>
          call (Mntget mnt_next);;
          call (Mntput mount_list);;
          iterate_loop fuel height mnt_next
      end
  end.

Definition iterate_mount_point (fuel : nat) : M Z :=
  mount_list ← get_root_mount_point fuel;
  match mount_list with
  | None => printk LNoRoot;; mret 1%Z
  | Some mount_list =>
      rcu_read_lock;;
      call (Mntget mount_list);;
      iterate_loop fuel fuel mount_list;;
      rcu_read_unlock;;
      mret 0%Z
  end.

(** The two loops of filesystem_list_init over the list. *)
Fixpoint print_loop (nodes : list positive) : M unit :=
  match nodes with
  | [] => mret tt
  | tmp :: nodes => n ← type_name tmp; printk (LList n);; print_loop nodes
  end.

Fixpoint delete_loop (nodes : list positive) : M unit :=
  match nodes with
  | [] => mret tt
  | tmp :: nodes =>
      n ← type_name tmp;
      printk (LDelete n);;
      set_list (list_del tmp);;
      kfree tmp;;
      delete_loop nodes
  end.

Definition filesystem_list_init (fuel : nat) : M Z :=
  set_list (λ _, INIT_LIST_HEAD);;
  iterate_mount_point fuel;;
  printk LPrinting;;
  s ← st_get;
  print_loop (list_for_each (file_record s));;
  s ← st_get;
  delete_loop (list_for_each (file_record s));;
  mret 0%Z.

(** ** The mount tree *)

(** A mount with its child mounts, and the order the walk visits them in. *)
Inductive mtree := Node (m : positive) (children : list mtree).

Definition top (t : mtree) : positive := match t with Node m _ => m end.

Fixpoint preorder (t : mtree) : list positive :=
  match t with Node m ts => m :: concat (preorder <$> ts) end.

(** [mnt_mounts.next] of [p] when its (remaining) children are [ts]. *)
Definition first_child (p : positive) (ts : list mtree) : list_head :=
  match ts with [] => mnt_mounts_addr p | t :: _ => mnt_child_addr (top t) end.

(** The kernel's pointers form the tree [t], hung under [p], [next] being the
    list node after it. *)
Fixpoint rep (p : positive) (next : list_head) (t : mtree) : Prop :=
  match t with
  | Node m ts =>
      (∃ mt, mounts !! m = Some mt ∧ mnt_parent mt = p ∧ mnt_child_next mt = next ∧
             mnt_mounts_next mt = first_child m ts) ∧
      (fix forest ts :=
         match ts with
         | [] => True
         | t :: ts => rep m (first_child m ts) t ∧ forest ts
         end) ts
  end.

Definition forest (m : positive) : list mtree → Prop :=
  fix forest ts :=
    match ts with
    | [] => True
    | t :: ts => rep m (first_child m ts) t ∧ forest ts
    end.

(** The mounts reachable from the topmost one: it is its own parent, no mount
    occurs twice, and the process's root is one of them. *)
Definition mount_tree (t : mtree) : Prop :=
  (∃ next, rep (top t) next t) ∧ NoDup (preorder t) ∧ fs_root_mnt ∈ preorder t.

(** The name of a mount's file system type. *)
Definition name_of (m : positive) : string :=
  from_option s_type_name EmptyString (mounts !! m).

(** The mounts of [l] whose allocation succeeds, the first one being request [n]. *)
Fixpoint granted (n : nat) (l : list positive) : list positive :=
  match l with
  | [] => []
  | m :: l => if kmalloc_ok n then m :: granted (S n) l else granted (S n) l
  end.

(** The calls of the walk over [l], each step holding the next mount before the
    last one is released. *)
Fixpoint walk_calls (l : list positive) : list kcall :=
  match l with
  | [] => []
  | m :: l =>
      Kmalloc 1 ::
      match l with
      | [] => [Mntput m]
      | n :: _ => [Mntget n; Mntput m]
      end ++ walk_calls l
  end.

Definition add_name (names : list string) (n : string) : list string :=
  if bool_decide (n ∈ names) then names else names ++ [n].

(** The distinct names of a list, in the order of their first occurrence. *)
Definition distinct (names : list string) : list string := foldl add_name [] names.

End code.

(** ** The walk *)

Section walk.
Context `{KL : KList, MK : MountKernel}.

Lemma mtree_ind_forest (P : mtree → Prop) :
  (∀ m ts, Forall P ts → P (Node m ts)) → ∀ t, P t.
Proof.
  intros H. fix IH 1. intros [m ts]. apply H.
  induction ts as [|t ts IHts]; constructor; [apply IH | exact IHts].
Qed.

Lemma rep_node p next m ts :
  rep p next (Node m ts) ↔
  (∃ mt, mounts !! m = Some mt ∧ mnt_parent mt = p ∧ mnt_child_next mt = next ∧
         mnt_mounts_next mt = first_child m ts) ∧ forest m ts.
Proof. reflexivity. Qed.

Lemma preorder_node m ts : preorder (Node m ts) = m :: concat (preorder <$> ts).
Proof. reflexivity. Qed.

Lemma read_mount_some m mt (s : fsl) : mounts !! m = Some mt → read_mount m s = Some (mt, s).
Proof. unfold read_mount, st_opt. by intros ->. Qed.

Lemma preorder_top t : ∃ l, preorder t = top t :: l.
Proof. destruct t; simpl; eauto. Qed.

(** With [h] rounds or more the climb from [m] finds [o]. *)
Definition climbs (h : nat) (m : positive) (o : option positive) : Prop :=
  ∀ h' next (s : fsl), h ≤ h' → ∃ m' next' mt,
    climb_loop h' m next s = Some ((m', next'), s) ∧ mounts !! m' = Some mt ∧
    match o with
    | None => mnt_parent mt = m'
    | Some c => mnt_parent mt ≠ m' ∧ next' = mnt_child_addr c
    end.

Lemma climbs_top m mt : mounts !! m = Some mt → mnt_parent mt = m → climbs 1 m None.
Proof.
  intros E Hp [|h'] next s Hh; [lia|]. exists m, next, mt. split_and!; [|done..]. simpl.
  rewrite (st_bind_some _ _ _ _ _ (read_mount_some _ _ s E)) bool_decide_true //.
Qed.

Lemma climbs_sibling h m mt c :
  mounts !! m = Some mt → mnt_parent mt ≠ m → mnt_child_next mt = mnt_child_addr c →
  climbs (S h) m (Some c).
Proof.
  intros E Hp Hc [|h'] next s Hh; [lia|]. exists m, (mnt_child_addr c), mt.
  split_and!; [|done..]. simpl.
  rewrite (st_bind_some _ _ _ _ _ (read_mount_some _ _ s E)) bool_decide_false // Hc
    bool_decide_false //.
Qed.

Lemma climbs_up h m mt o :
  mounts !! m = Some mt → mnt_parent mt ≠ m →
  mnt_child_next mt = mnt_mounts_addr (mnt_parent mt) →
  climbs h (mnt_parent mt) o → climbs (S h) m o.
Proof.
  intros E Hp Hc Hup [|h'] next s Hh; [lia|].
  destruct (Hup h' (mnt_child_next mt) s) as (m' & next' & mt' & E' & H'); [lia|].
  exists m', next', mt'. split; [|done]. simpl.
  rewrite (st_bind_some _ _ _ _ _ (read_mount_some _ _ s E)) bool_decide_false //
    bool_decide_true //.
Qed.

Lemma next_mount_child h m mt c (s : fsl) :
  mounts !! m = Some mt → mnt_mounts_next mt = mnt_child_addr c →
  next_mount h m s = Some (Some c, s).
Proof.
  intros E Hc. unfold next_mount.
  by rewrite (st_bind_some _ _ _ _ _ (read_mount_some _ _ s E)) Hc /=.
Qed.

Lemma next_mount_leaf h m mt o (s : fsl) :
  mounts !! m = Some mt → mnt_mounts_next mt = mnt_mounts_addr m → climbs h m o →
  next_mount h m s = Some (o, s).
Proof.
  intros E Hc Hclimb. unfold next_mount.
  rewrite (st_bind_some _ _ _ _ _ (read_mount_some _ _ s E)) Hc bool_decide_true //=.
  destruct (Hclimb h (mnt_mounts_addr m) s) as (m' & next' & mt' & E' & Em & Ho); [done|].
  rewrite (st_bind_some _ _ _ _ _ E')
    (st_bind_some _ _ _ _ _ (read_mount_some _ _ s Em)).
  destruct o as [c|]; [|by rewrite bool_decide_true].
  destruct Ho as [? ->]. by rewrite bool_decide_false.
Qed.

(** The mounts of [l] follow each other, and [o] the last one. *)
Fixpoint linked (h : nat) (l : list positive) (o : option positive) : Prop :=
  match l with
  | [] => True
  | m :: l =>
      (∀ s : fsl, next_mount h m s = Some (match l with [] => o | n :: _ => Some n end, s)) ∧
      linked h l o
  end.

Lemma linked_app h l1 n l2 o :
  linked h l1 (Some n) → linked h (n :: l2) o → linked h (l1 ++ n :: l2) o.
Proof.
  induction l1 as [|m l1 IH]; [done|]. intros [Hm H1] H2. split; [|by apply IH].
  by destruct l1.
Qed.

(** The children [ts] of [m] are walked one after the other, and the walk then
    climbs from [m]. *)
Lemma linked_forest H h m mt ts o :
  Forall (λ t, ∀ p next h o, rep p next t → NoDup (preorder t) → climbs h (top t) o →
            h + length (preorder t) ≤ H → linked H (preorder t) o) ts →
  forest m ts → mounts !! m = Some mt →
  NoDup (m :: concat (preorder <$> ts)) → climbs h m o →
  h + S (length (concat (preorder <$> ts))) ≤ H →
  linked H (concat (preorder <$> ts)) o.
Proof.
  intros HIH. revert h. induction HIH as [|t ts Ht _ IH]; [done|].
  intros h [Hrep Hforest] E Hnd Hclimb HH. simpl in *.
  destruct t as [c cs]. pose proof Hrep as Hrep'.
  apply rep_node in Hrep' as ((mc & Ec & Hpar & Hnext & Hmounts) & _).
  assert (Hcm : m ≠ c) by (intros ->; apply NoDup_cons in Hnd as [Hnd _]; apply Hnd; left).
  rewrite length_app in HH.
  rewrite NoDup_cons not_elem_of_app NoDup_app in Hnd.
  destruct Hnd as ([Hm1 Hm2] & Hnd1 & _ & Hnd2).
  destruct ts as [|[c' cs'] ts].
  - rewrite app_nil_r.
    apply (Ht _ _ (S h) o Hrep); [done| |simpl in *; lia].
    simpl. eapply climbs_up; [done|congruence|by rewrite Hpar|by rewrite Hpar].
  - apply linked_app.
    + apply (Ht _ _ (S h) _ Hrep); [done| |simpl in *; lia].
      simpl. eapply climbs_sibling; [done|congruence|done].
    + apply (IH h); [done..| |done|simpl in *; lia]. by rewrite NoDup_cons.
Qed.

Lemma linked_tree H t p next h o :
  rep p next t → NoDup (preorder t) → climbs h (top t) o →
  h + length (preorder t) ≤ H → linked H (preorder t) o.
Proof.
  revert p next h o. induction t as [m ts IH] using mtree_ind_forest.
  intros p next h o Hrep Hnd Hclimb HH.
  apply rep_node in Hrep as ((mt & E & Hpar & Hnext & Hmounts) & Hforest).
  split.
  - intros s. destruct ts as [|[c cs] ts].
    + eapply next_mount_leaf; [done..|]. intros h' next' s' Hh. apply Hclimb. simpl in *; lia.
    + by eapply next_mount_child.
  - by eapply linked_forest.
Qed.

(** From every mount of the tree the parents lead to its top. *)
Lemma top_loop_tree t p next h r m :
  rep p next t → NoDup (preorder t) →
  (∀ h' (s : fsl), h ≤ h' → top_loop h' (top t) s = Some (r, s)) → m ∈ preorder t →
  ∀ h' (s : fsl), h + length (preorder t) ≤ h' → top_loop h' m s = Some (r, s).
Proof.
  revert p next h. induction t as [c ts IH] using mtree_ind_forest.
  intros p next h Hrep Hnd Htop Hm.
  apply rep_node in Hrep as [_ Hforest]. simpl in Htop. rewrite !preorder_node in Hm Hnd |- *.
  apply elem_of_cons in Hm as [->|Hm].
  { intros h' s Hh. apply Htop. simpl in *; lia. }
  apply NoDup_cons in Hnd as [Hc Hnd].
  induction IH as [|[c' cs] ts Ht _ IHts]; simpl in *; [by apply elem_of_nil in Hm|].
  destruct Hforest as [Hrep Hforest].
  rewrite NoDup_cons NoDup_app in Hnd. rewrite not_elem_of_cons not_elem_of_app in Hc.
  destruct Hc as (Hc1 & Hc2 & Hc3), Hnd as (Hnd1 & Hnd2 & _ & Hnd3).
  rewrite length_app. rewrite app_comm_cons in Hm. apply elem_of_app in Hm as [Hm|Hm]; intros h' s Hh.
  - eapply (Ht c _ (S h)); [done| |..|done|lia].
    + rewrite NoDup_cons. split; [|done]. intros ?. apply Hnd1, elem_of_app. by left.
    + intros [|k] s' Hk; [lia|]. simpl. apply rep_node in Hrep as ((mt & E & Hpar & _) & _).
      rewrite (st_bind_some _ _ _ _ _ (read_mount_some _ _ s' E)) Hpar
        bool_decide_false //. apply Htop. lia.
  - eapply IHts; eauto. unfold fmap. lia.
Qed.

Lemma top_loop_root t m (s : fsl) h :
  mount_tree t → m ∈ preorder t → length (preorder t) < h → top_loop h m s = Some (top t, s).
Proof.
  intros ((next & Hrep) & Hnd & _) Hm Hh.
  eapply (top_loop_tree t _ _ 1); [done..| |done|lia].
  intros [|h'] s' ?; [lia|]. destruct t as [c ts].
  apply rep_node in Hrep as ((mt & E & Hpar & _ & _) & _). simpl.
  by rewrite (st_bind_some _ _ _ _ _ (read_mount_some _ _ s' E)) Hpar bool_decide_true.
Qed.

(** The whole tree is walked in pre-order, and the walk ends. *)
Lemma linked_root t h : mount_tree t → length (preorder t) < h → linked h (preorder t) None.
Proof.
  intros ((next & Hrep) & Hnd & _) Hh. eapply (linked_tree _ _ _ _ 1); [done..| |lia].
  destruct t as [c ts]. apply rep_node in Hrep as ((mt & E & Hpar & _ & _) & _).
  by eapply climbs_top.
Qed.

Lemma rep_mounts t p next m : rep p next t → m ∈ preorder t → is_Some (mounts !! m).
Proof.
  revert p next. induction t as [c ts IH] using mtree_ind_forest.
  intros p next Hrep Hm. apply rep_node in Hrep as ((mt & E & _) & Hforest).
  apply elem_of_cons in Hm as [->|Hm]; [eauto|]. clear E.
  induction IH as [|t ts Ht _ IHts]; simpl in *; [by apply elem_of_nil in Hm|].
  destruct Hforest. apply elem_of_app in Hm as [Hm|Hm]; eauto.
Qed.

End walk.

(** ** The list of records *)

Section record.
Context `{KL : KList, KLL : !KListLaws KL, MK : MountKernel, MKL : !MountKernelLaws MK}.

(** The live record [r] is of a mount whose type is [n]. *)
Definition listed (recs : gmap positive (option positive)) (r : positive) (n : string) : Prop :=
  ∃ m mt, recs !! r = Some (Some m) ∧ mounts !! m = Some mt ∧ s_type_name mt = n.

(** The list holds one live record per name of [names], in this order. *)
Definition names_listed (s : fsl) (names : list string) : Prop :=
  NoDup (list_for_each (file_record s)) ∧
  Forall2 (listed (records s)) (list_for_each (file_record s)) names.

(** From [s] to [s'] there were [n] allocations, the calls [cs] and the lines
    [ls]; locks are as before. *)
Definition moved (s s' : fsl) (n : nat) (cs : list kcall) (ls : list line) : Prop :=
  requests s' = requests s + n ∧ rcu_depth s' = rcu_depth s ∧ fs_lock s' = fs_lock s ∧
  calls s' = calls s ++ cs ∧ lines s' = lines s ++ ls.

Lemma moved_trans s1 s2 s3 n1 n2 cs1 cs2 ls1 ls2 :
  moved s1 s2 n1 cs1 ls1 → moved s2 s3 n2 cs2 ls2 →
  moved s1 s3 (n1 + n2) (cs1 ++ cs2) (ls1 ++ ls2).
Proof.
  intros (E1 & E2 & E3 & E4 & E5) (F1 & F2 & F3 & F4 & F5).
  unfold moved. rewrite F1 F2 F3 F4 F5 E1 E2 E3 E4 E5 !app_assoc. split_and!; auto; lia.
Qed.

Lemma type_name_listed s r n : listed (records s) r n → type_name r s = Some (n, s).
Proof.
  intros (m & mt & E & Em & <-). unfold type_name, mbind, ST_bind, mnt_data.
  by rewrite E (read_mount_some _ _ _ Em).
Qed.

Lemma compare_loop_spec s p n items names :
  Forall2 (listed (records s)) items names → listed (records s) p n →
  compare_loop p items s = Some (bool_decide (n ∈ names), s).
Proof.
  intros Hf Hp. induction Hf as [|r n' items names Hr _ IH]; simpl; [done|].
  erewrite st_bind_some.
  2:{ unfold filesystem_name_compare.
      rewrite (st_bind_some _ _ _ _ _ (type_name_listed _ _ _ Hr))
        (st_bind_some _ _ _ _ _ (type_name_listed _ _ _ Hp)). done. }
  destruct (decide (n' = n)) as [->|Hne].
  - rewrite !bool_decide_true //. left.
  - rewrite (bool_decide_false (n' = n)) // IH. f_equal. f_equal. apply bool_decide_ext. rewrite elem_of_cons. naive_solver.
Qed.

Lemma listed_insert recs p x items names :
  recs !! p = None → Forall2 (listed recs) items names →
  Forall2 (listed (<[p := x]> recs)) items names.
Proof.
  intros Hp Hf. eapply Forall2_impl; [exact Hf|]. intros r n (m & mt & E & ?).
  exists m, mt. rewrite lookup_insert_ne //. congruence.
Qed.

Lemma listed_not_fresh recs p items names :
  recs !! p = None → Forall2 (listed recs) items names → p ∉ items.
Proof.
  intros Hp Hf [i Hi]%list_elem_of_lookup.
  destruct (Forall2_lookup_l _ _ _ _ _ Hf Hi) as (n & _ & m & mt & E & _). congruence.
Qed.

Lemma listed_delete recs p items names :
  p ∉ items → Forall2 (listed recs) items names → Forall2 (listed (delete p recs)) items names.
Proof.
  intros Hp Hf. induction Hf as [|r n items names (m & mt & E & Hm) _ IH]; constructor.
  - exists m, mt. rewrite lookup_delete_ne //. intros ->. apply Hp. left.
  - apply IH. intros ?. apply Hp. by right.
Qed.

Lemma filter_fresh (x : positive) (l : list positive) : x ∉ l → filter (.≠ x) l = l.
Proof.
  induction l as [|y l IH]; [done|]. rewrite not_elem_of_cons. intros [? ?].
  rewrite filter_cons_True; [naive_solver|]. by rewrite IH.
Qed.

(** The comparison and the insertion that follow a successful allocation at [p]. *)
Lemma link_spec s p n names :
  NoDup (list_for_each (file_record s)) → p ∉ list_for_each (file_record s) →
  Forall2 (listed (records s)) (list_for_each (file_record s)) names →
  listed (records s) p n →
  runs (if negb (list_empty (file_record s)) then
          present ← vfs_mount_point_compare p;
          if present : bool then mret tt else set_list (list_add_tail p)
        else set_list (list_add_tail p)) s
    (λ _ s', names_listed s' (add_name names n) ∧ records s' = records s ∧ moved s s' 0 [] []).
Proof.
  intros Hnd Hp Hf Hl.
  assert (Hadd : n ∉ names →
    runs (set_list (list_add_tail p)) s
      (λ _ s', names_listed s' (add_name names n) ∧ records s' = records s ∧ moved s s' 0 [] [])).
  { intros Hn. eexists _, _. split; [reflexivity|]. unfold add_name, names_listed, moved. simpl.
    rewrite kl_add_tail // bool_decide_false // Nat.add_0_r !app_nil_r. split_and!; try done.
    - apply NoDup_app. split_and!; [done| |apply NoDup_singleton].
      intros x Hx ->%list_elem_of_singleton. done.
    - by apply Forall2_app; [|constructor]. }
  rewrite kl_empty. case_bool_decide as He; simpl.
  - apply Hadd. rewrite He in Hf. apply Forall2_nil_inv_l in Hf as ->. apply not_elem_of_nil.
  - apply runs_bind. eexists _, _. split; [by apply compare_loop_spec|]. simpl.
    case_bool_decide as Hn; [|by apply Hadd].
    apply runs_ret. unfold add_name, moved. rewrite bool_decide_true // Nat.add_0_r !app_nil_r.
    by split_and!.
Qed.

Lemma add_spec s m mt names :
  names_listed s names → mounts !! m = Some mt →
  runs (add_to_filesystem_record m) s (λ ret s',
    if kmalloc_ok (requests s) then
      ret = 0%Z ∧ names_listed s' (add_name names (s_type_name mt)) ∧
      size (records s') = S (size (records s)) ∧ moved s s' 1 [Kmalloc (rcu_depth s)] []
    else
      ret = (- ENOMEM)%Z ∧ names_listed s' names ∧
      size (records s') = size (records s) ∧ moved s s' 1 [Kmalloc (rcu_depth s)] [LNoMemory]).
Proof.
  intros [Hnd Hf] Em. unfold add_to_filesystem_record. apply runs_bind. unfold kmalloc.
  destruct (kmalloc_ok (requests s)) eqn:Hok.
  2:{ eexists _, _. split; [by rewrite Hok|]. eexists _, _. split; [reflexivity|].
      unfold moved. simpl. split_and!; try done. lia. }
  eexists _, _. split; [by rewrite Hok|].
  set (p := kmalloc_addr (dom (records s))).
  assert (Hp : records s !! p = None) by apply not_elem_of_dom, mk_addr.
  apply runs_bind. eexists _, _. split; [unfold set_mnt_data; by rewrite lookup_insert_eq|].
  apply runs_bind. eexists _, _. split; [reflexivity|]. apply runs_bind.
  eapply runs_wand; [apply (link_spec _ p (s_type_name mt) names)|]; simpl.
  - done.
  - by eapply listed_not_fresh.
  - rewrite insert_insert_eq. by apply listed_insert.
  - exists m, mt. by rewrite lookup_insert_eq.
  - intros _ s' (Hs & Hr & Hm). apply runs_ret. split_and!; [done..| |].
    + rewrite Hr /= insert_insert_eq map_size_insert_None //.
    + unfold moved in *. simpl in Hm. rewrite app_nil_r in Hm. rewrite Nat.add_0_r in Hm.
      rewrite Nat.add_1_r app_nil_r.
      by rewrite app_nil_r in Hm.
Qed.

(** *** The names recorded *)

Lemma add_names_elem names l n : n ∈ foldl add_name names l ↔ n ∈ names ∨ n ∈ l.
Proof.
  revert names. induction l as [|x l IH]; intros names; simpl.
  - rewrite elem_of_nil. naive_solver.
  - rewrite IH elem_of_cons. unfold add_name. case_bool_decide; [naive_solver|].
    rewrite elem_of_app list_elem_of_singleton. naive_solver.
Qed.

Lemma add_names_NoDup names l : NoDup names → NoDup (foldl add_name names l).
Proof.
  revert names. induction l as [|x l IH]; intros names Hnd; simpl; [done|].
  apply IH. unfold add_name. case_bool_decide; [done|].
  apply NoDup_app. split_and!; [done| |apply NoDup_singleton].
  by intros y Hy ->%list_elem_of_singleton.
Qed.

Lemma add_names_length names l : length (foldl add_name names l) ≤ length names + length l.
Proof.
  revert names. induction l as [|x l IH]; intros names; simpl; [lia|].
  specialize (IH (add_name names x)).
  assert (length (add_name names x) ≤ S (length names)); [|lia].
  unfold add_name. case_bool_decide; rewrite ?length_app /=; lia.
Qed.

Lemma granted_length n l : length (granted n l) ≤ length l.
Proof.
  revert n. induction l as [|m l IH]; intros n; simpl; [done|].
  specialize (IH (S n)). destruct (kmalloc_ok n); simpl; lia.
Qed.

(** The mounts taken and released by a sequence of calls. *)
Definition gets (cs : list kcall) : list positive :=
  omap (λ c, match c with Mntget m => Some m | _ => None end) cs.

Definition puts (cs : list kcall) : list positive :=
  omap (λ c, match c with Mntput m => Some m | _ => None end) cs.

(** The depths of RCU read sections of the allocations. *)
Definition kmallocs (cs : list kcall) : list nat :=
  omap (λ c, match c with Kmalloc d => Some d | _ => None end) cs.

Lemma walk_gets m l : gets (Mntget m :: walk_calls (m :: l)) = m :: l.
Proof.
  revert m. induction l as [|n l IH]; intros m; [done|].
  specialize (IH n). cbn in *. congruence.
Qed.

Lemma walk_puts l : puts (walk_calls l) = l.
Proof. induction l as [|m [|n l] IH]; [done..|]. cbn in *. congruence. Qed.

Lemma walk_kmallocs l : kmallocs (walk_calls l) = replicate (length l) 1.
Proof. induction l as [|m [|n l] IH]; [done..|]. cbn in *. congruence. Qed.

(** *** The loops *)

(** What the records of the mounts [l] do to the list and the counters. *)
Definition recorded (s s' : fsl) (names : list string) (l : list positive) : Prop :=
  names_listed s' (foldl add_name names (name_of <$> granted (requests s) l)) ∧
  size (records s') = size (records s) + length (granted (requests s) l).

(** The lines of the allocations that fail. *)
Definition complaints (n : nat) (l : list positive) : list line :=
  replicate (length l - length (granted n l)) LNoMemory.

Lemma granted_cons n m l : granted n (m :: l) = granted n [m] ++ granted (S n) l.
Proof. simpl. by destruct (kmalloc_ok n). Qed.

Lemma complaints_cons n m l : complaints n (m :: l) = complaints n [m] ++ complaints (S n) l.
Proof.
  unfold complaints. rewrite granted_cons length_app -replicate_add. f_equal.
  pose proof (granted_length n [m]). pose proof (granted_length (S n) l). simpl in *. lia.
Qed.

Lemma recorded_cons s s1 s' names m l :
  requests s1 = S (requests s) → recorded s s1 names [m] →
  recorded s1 s' (foldl add_name names (name_of <$> granted (requests s) [m])) l →
  recorded s s' names (m :: l).
Proof.
  intros Hr [_ Hz1] [Hs' Hz2]. unfold recorded.
  rewrite granted_cons fmap_app foldl_app length_app -Hr. split; [done|lia].
Qed.

Lemma add_recorded s m mt names :
  names_listed s names → mounts !! m = Some mt →
  runs (add_to_filesystem_record m) s (λ _ s1,
    recorded s s1 names [m] ∧
    moved s s1 1 [Kmalloc (rcu_depth s)] (complaints (requests s) [m])).
Proof.
  intros Hs Em. eapply runs_wand; [by eapply add_spec|]. simpl.
  intros ret s1 H. unfold recorded, complaints; simpl;
    destruct (kmalloc_ok (requests s)); simpl;
    destruct H as (_ & Hs1 & Hz & Hm); split_and!; auto; try lia.
  unfold name_of. by rewrite Em.
Qed.

(** A call changes the list of calls only. *)
Lemma call_spec c s names : names_listed s names →
  runs (call c) s (λ _ s1, names_listed s1 names ∧ records s1 = records s ∧ moved s s1 0 [c] []).
Proof.
  intros H. eexists _, _. split; [reflexivity|]. unfold moved. simpl.
  rewrite Nat.add_0_r app_nil_r. by split_and!.
Qed.

Lemma iterate_loop_spec fuel h l m s names :
  linked h (m :: l) None → Forall (λ m, is_Some (mounts !! m)) (m :: l) →
  length l < fuel → names_listed s names → rcu_depth s = 1 →
  runs (iterate_loop fuel h m) s (λ _ s',
    recorded s s' names (m :: l) ∧
    moved s s' (S (length l)) (walk_calls (m :: l)) (complaints (requests s) (m :: l))).
Proof.
  revert fuel m s names. induction l as [|n l IH];
    intros [|fuel] m s names [Hm Hl] [[mt Em] Hsome]%Forall_cons Hfuel Hs Hrcu; simpl in Hfuel; [lia| |lia|];
    apply runs_bind; (eapply runs_wand; [by eapply add_recorded|]); intros _ s1 [Hr1 Hm1];
    apply runs_bind; eexists _, _; (split; [apply Hm|]); rewrite Hrcu in Hm1.
  - eapply runs_wand; [eapply call_spec, Hr1|]. intros _ s2 (Hs2 & E2 & Hm2).
    split; [|by eapply moved_trans in Hm2; [|exact Hm1]; rewrite app_nil_r in Hm2].
    split; [done|]. rewrite E2. apply Hr1.
  - apply runs_bind. eapply runs_wand; [eapply call_spec, Hr1|]. intros _ s2 (Hs2 & E2 & Hm2).
    apply runs_bind. eapply runs_wand; [by eapply call_spec|]. intros _ s3 (Hs3 & E3 & Hm3).
    pose proof (moved_trans _ _ _ _ _ _ _ _ _ Hm1
                  (moved_trans _ _ _ _ _ _ _ _ _ Hm2 Hm3)) as Hm13.
    assert (Hreq : requests s3 = S (requests s)) by (destruct Hm13; lia).
    eapply runs_wand; [apply IH; [done|done|lia|done|]|].
    { destruct Hm13 as (_ & -> & _). done. }
    intros [] s' [Hr' Hm']. split.
    + eapply recorded_cons; [exact Hreq| |exact Hr'].
      destruct Hr1 as [_ Hz]. split; [done|]. by rewrite E3 E2.
    + pose proof (moved_trans _ _ _ _ _ _ _ _ _ Hm13 Hm') as Hall.
      rewrite Hreq !app_nil_r -complaints_cons in Hall. exact Hall.
Qed.

(** The locks are free and no read section is open. *)
Definition idle (s : fsl) : Prop := rcu_depth s = 0 ∧ fs_lock s = false.

Lemma get_root_spec t fuel s :
  mount_tree t → length (preorder t) < fuel → idle s →
  get_root_mount_point fuel s = Some (Some (top t), s).
Proof.
  intros Ht Hfuel [Hr Hl]. destruct s as [recs l req d lk cs ls]; simpl in *; subst.
  unfold get_root_mount_point, mbind, ST_bind, rcu_read_lock, st_modify, spin_lock. simpl.
  rewrite (top_loop_root t) //. apply Ht.
Qed.

Lemma iterate_spec t fuel s names :
  mount_tree t → length (preorder t) < fuel → idle s → names_listed s names →
  runs (iterate_mount_point fuel) s (λ ret s',
    ret = 0%Z ∧ recorded s s' names (preorder t) ∧
    moved s s' (length (preorder t)) (Mntget (top t) :: walk_calls (preorder t))
      (complaints (requests s) (preorder t))).
Proof.
  intros Ht Hfuel Hidle Hs. unfold iterate_mount_point.
  apply runs_bind. eexists _, _. split; [by apply get_root_spec|]. simpl.
  apply runs_bind. eexists _, _. split; [reflexivity|].
  apply runs_bind. eexists _, _. split; [reflexivity|]. apply runs_bind.
  pose proof (linked_root t fuel Ht Hfuel) as Hlink. destruct (preorder_top t) as [l El].
  destruct Ht as ((next & Hrep) & _), Hidle as [Hr Hl].
  eapply runs_wand; [eapply (iterate_loop_spec _ _ l); simpl|].
  - rewrite El in Hlink. exact Hlink.
  - apply Forall_forall. intros x Hx. rewrite -El in Hx. by eapply rep_mounts.
  - rewrite El /= in Hfuel. lia.
  - exact Hs.
  - by rewrite Hr.
  - intros [] s'. rewrite -El. intros [Hrec (E1 & E2 & E3 & E4 & E5)]. simpl in *.
    apply runs_bind. unfold rcu_read_unlock. rewrite Hr in E2.
    eexists _, _. split; [by rewrite E2|]. apply runs_ret. simpl.
    split; [done|]. split; [exact Hrec|]. unfold moved. simpl.
    rewrite E1 E4 E5 Hr El -!app_assoc /=. by split_and!.
Qed.

Lemma print_loop_spec s items names :
  Forall2 (listed (records s)) items names →
  runs (print_loop items) s (λ _ s',
    records s' = records s ∧ file_record s' = file_record s ∧ moved s s' 0 [] (LList <$> names)).
Proof.
  intros Hf. remember (records s) as recs eqn:Hrecs. revert s Hrecs.
  induction Hf as [|r n items names Hr _ IH]; intros s ->; simpl.
  - apply runs_ret. unfold moved. rewrite Nat.add_0_r !app_nil_r. by split_and!.
  - apply runs_bind. eexists _, _. split; [by apply type_name_listed|].
    apply runs_bind. eexists _, _. split; [reflexivity|].
    eapply runs_wand; [by apply IH|]. simpl. unfold moved. simpl.
    intros _ s' (E1 & E2 & E3 & E4 & E5 & E6 & E7). rewrite E7 -app_assoc. by split_and!.
Qed.

Lemma delete_loop_spec s items names :
  list_for_each (file_record s) = items → names_listed s names →
  runs (delete_loop items) s (λ _ s',
    list_for_each (file_record s') = [] ∧
    size (records s) = length names + size (records s') ∧
    moved s s' 0 [] (LDelete <$> names)).
Proof.
  intros Hi [Hnd Hf]. rewrite Hi in Hnd Hf.
  revert s names Hi Hf. induction items as [|r items IH]; intros s names Hi Hf; simpl.
  - apply Forall2_nil_inv_l in Hf as ->. apply runs_ret.
    unfold moved. rewrite Nat.add_0_r !app_nil_r. by split_and!.
  - apply Forall2_cons_inv_l in Hf as (n & names' & Hr & Hf & ->).
    apply NoDup_cons in Hnd as [Hni Hnd].
    apply runs_bind. eexists _, _. split; [by apply type_name_listed|].
    apply runs_bind. eexists _, _. split; [reflexivity|].
    apply runs_bind. eexists _, _. split; [reflexivity|].
    destruct Hr as (m & mt & Er & _).
    apply runs_bind. eexists _, _. split; [unfold kfree; simpl; by rewrite Er|].
    eapply runs_wand; [apply (IH Hnd _ names')|]; simpl.
    + rewrite kl_del Hi filter_cons_False; [naive_solver|]. by apply filter_fresh.
    + by apply listed_delete.
    + unfold moved. simpl. intros _ s' (E1 & E2 & E3 & E4 & E5 & E6 & E7).
      rewrite map_size_delete_Some // in E2.
      assert (size (records s) ≠ 0) by (apply map_size_ne_0_lookup_2 with r; eauto).
      rewrite E7 -app_assoc. split_and!; try done. lia.
Qed.

(** *** Properties *)

(** C22: Whatever the tree of mounts and whichever mount of it the process has
    as its root, iterate_mount_point follows the raw child, sibling and parent
    pointers without leaving the tree, terminates, and visits every mount
    exactly once, in pre-order: this is the order in which references are taken and
    also the order in which they are released, each mount being released only
    after the next one is taken, so no reference is left over. It returns 0 with both
    locks as found, and the list holds the distinct type names of the mounts
    whose record could be allocated. Every allocation, which may sleep, is made
    inside the RCU read section. *)
Theorem mounts_visited t fuel s names :
  mount_tree t → length (preorder t) < fuel → idle s → names_listed s names →
  runs (iterate_mount_point fuel) s (λ ret s', ∃ cs,
    ret = 0%Z ∧ idle s' ∧ calls s' = calls s ++ cs ∧
    cs = Mntget (top t) :: walk_calls (preorder t) ∧
    gets cs = preorder t ∧ puts cs = preorder t ∧ NoDup (preorder t) ∧
    kmallocs cs = replicate (length (preorder t)) 1 ∧
    names_listed s' (foldl add_name names (name_of <$> granted (requests s) (preorder t)))).
Proof.
  intros Ht Hfuel Hidle Hs. eapply runs_wand; [by apply iterate_spec|].
  intros ret s' (-> & [Hs' _] & (_ & E1 & E2 & E3 & _)). destruct Hidle, (preorder_top t) as [l El].
  eexists. split_and!; [done| |exact E3|done| | |apply Ht| |done].
  - split; congruence.
  - rewrite El. apply walk_gets.
  - apply walk_puts.
  - apply walk_kmallocs.
Qed.

(** C23: Loading the module always succeeds: it prints one line per failed
    allocation, then every file system type of the mounts whose record could
    be allocated exactly once, in the order of their first mount, and the same
    types again while it takes the records off the list and frees them. The
    list is empty afterwards, but the records of mounts whose type was on
    the list already are neither linked nor freed, and stay allocated. *)
Theorem types_listed_once t fuel s :
  mount_tree t → length (preorder t) < fuel → idle s →
  let ok := granted (requests s) (preorder t) in
  let names := distinct (name_of <$> ok) in
  NoDup names ∧ (∀ n, n ∈ names ↔ ∃ m, m ∈ ok ∧ name_of m = n) ∧
  runs (filesystem_list_init fuel) s (λ ret s',
    ret = 0%Z ∧ list_for_each (file_record s') = [] ∧
    lines s' = lines s ++ replicate (length (preorder t) - length ok) LNoMemory ++
      [LPrinting] ++ (LList <$> names) ++ (LDelete <$> names) ∧
    size (records s') = size (records s) + (length ok - length names)).
Proof.
  intros Ht Hfuel Hidle ok names. split_and!.
  { apply add_names_NoDup, NoDup_nil_2. }
  { intros n. unfold names, distinct. rewrite add_names_elem elem_of_nil list_elem_of_fmap. naive_solver. }
  unfold filesystem_list_init. apply runs_bind. eexists _, _. split; [reflexivity|]. apply runs_bind.
  eapply runs_wand; [apply (iterate_spec t fuel _ []); [done..|]|].
  { unfold names_listed. simpl. rewrite kl_init. split; constructor. }
  simpl. intros ret s1 (-> & [[Hnd1 Hf1] Hz1] & (_ & _ & _ & _ & E1)). simpl in *.
  apply runs_bind. eexists _, _. split; [reflexivity|].
  apply runs_bind. eexists _, _. split; [reflexivity|]. simpl.
  apply runs_bind. eapply runs_wand; [by apply print_loop_spec|]. simpl.
  intros [] s2 (R2 & L2 & (_ & _ & _ & _ & E2)). simpl in *.
  apply runs_bind. eexists _, _. split; [reflexivity|]. apply runs_bind.
  eapply runs_wand; [apply delete_loop_spec; [done|]|].
  { unfold names_listed. rewrite R2 L2. split; [done|exact Hf1]. }
  intros [] s3 (L3 & Hz3 & (_ & _ & _ & _ & E3)). apply runs_ret. split_and!; [done..| |].
  - by rewrite E3 E2 E1 -!app_assoc.
  - pose proof (add_names_length [] (name_of <$> ok)) as Hle. rewrite length_fmap /= in Hle.
    rewrite R2 in Hz3. unfold names, distinct, ok in *. lia.
Qed.

End record.

(** ** A concrete kernel *)

(** Lists as Rocq lists. *)
#[export] Instance list_klist : KList := {|
  klist := list positive;
  INIT_LIST_HEAD := [];
  list_empty l := bool_decide (l = []);
  list_add_tail x l := l ++ [x];
  list_del x l := filter (.≠ x) l;
  list_for_each l := l |}.

#[export] Instance list_klist_laws : KListLaws list_klist.
Proof. by split. Qed.

(** Four mounts: an ext4 root with a proc mount and a second ext4 mount, which
    has a tmpfs mount; the process is chrooted to the ext4 mount 3. *)
Definition four_mounts (ok : nat → bool) : MountKernel := {|
  mounts := list_to_map
    [(1%positive, Mount 1 (mnt_child_addr 2) (mnt_child_addr 1) "ext4");
     (2%positive, Mount 1 (mnt_mounts_addr 2) (mnt_child_addr 3) "proc");
     (3%positive, Mount 1 (mnt_child_addr 4) (mnt_mounts_addr 1) "ext4");
     (4%positive, Mount 3 (mnt_mounts_addr 4) (mnt_mounts_addr 3) "tmpfs")];
  fs_root_mnt := 3;
  kmalloc_ok := ok;
  kmalloc_addr X := fresh X |}.

#[export] Instance four_mounts_laws ok : MountKernelLaws (four_mounts ok).
Proof. split. intros X. apply is_fresh. Qed.

Definition four_tree : mtree := Node 1 [Node 2 []; Node 3 [Node 4 []]].

Definition fsl0 : fsl (KL := list_klist) := Fsl (KL := list_klist) ∅ [] 0 0 false [] [].

Lemma four_mount_tree ok : mount_tree (MK := four_mounts ok) four_tree.
Proof.
  split; [|split].
  - exists (mnt_child_addr 1). repeat (split || eexists).
  - by apply (bool_decide_unpack _).
  - by apply (bool_decide_unpack _).
Qed.

Lemma mounts_visited_witness :
  runs (iterate_mount_point (MK := four_mounts (λ _, true)) 5) fsl0 (λ ret s', ∃ cs,
    ret = 0%Z ∧ idle s' ∧ calls s' = cs ∧
    cs = Mntget 1 :: walk_calls [1; 2; 3; 4]%positive ∧
    gets cs = [1; 2; 3; 4]%positive ∧ puts cs = [1; 2; 3; 4]%positive ∧
    NoDup [1; 2; 3; 4]%positive ∧ kmallocs cs = [1; 1; 1; 1] ∧
    names_listed (MK := four_mounts (λ _, true)) s' ["ext4"; "proc"; "tmpfs"]%string).
Proof.
  apply (mounts_visited (MK := four_mounts (λ _, true)) four_tree 5 fsl0 []).
  - apply four_mount_tree.
  - simpl. lia.
  - by split.
  - split; constructor.
Defined.

(** The record of the second ext4 mount is left. *)
Lemma types_listed_once_witness :
  runs (filesystem_list_init (MK := four_mounts (λ _, true)) 5) fsl0 (λ ret s',
    ret = 0%Z ∧ file_record s' = [] ∧
    lines s' = [LPrinting; LList "ext4"; LList "proc"; LList "tmpfs";
                LDelete "ext4"; LDelete "proc"; LDelete "tmpfs"]%string ∧
    size (records s') = 1).
Proof.
  refine (proj2 (proj2 (types_listed_once (MK := four_mounts (λ _, true)) four_tree 5 fsl0 _ _ _))).
  - apply four_mount_tree.
  - simpl. lia.
  - by split.
Defined.
