(* ===== verification/Netlink.v ===== *)
(** * Netlink modules: state and kernel interface

    The four netlink modules (the NetLink directories of src) keep a socket and, two of them, a
    thread that multicasts. This file has the state they share and what they call:
    socket buffers and messages are the interface [NetlinkLib] with the laws
    the code relies on ([NetlinkLaws]); the answers of allocations, sends and
    kthread_run are given by request number. Using a NULL or released socket, a
    NULL message header, an indeterminate byte of a string, or a byte outside
    a buffer is stuck. *)

From Stdlib Require Import ZArith Lia ssreflect.
From stdpp Require Import base list numbers strings.
From S2P Require Import Prelude CString Bytes.

(** ** Messages (linux/netlink.h) *)

Definition NLMSG_DONE : Z := 3.
Definition NLMSG_HDRLEN : nat := 16.

(** Sizes are rounded up to multiples of 4. *)
Definition NLMSG_ALIGN (n : nat) : nat := (n + 3) / 4 * 4.

Definition nlmsg_total_size (payload : nat) : nat := NLMSG_ALIGN (NLMSG_HDRLEN + payload).

(** A message: the header and the [nlmsg_len - NLMSG_HDRLEN] bytes of its payload. *)
Record nlmsg := Nlmsg {
  nlmsg_len : nat;
  nlmsg_type : Z;
  nlmsg_flags : Z;
  nlmsg_seq : Z;
  nlmsg_pid : Z;
  nlmsg_data : list cell }.

(** A message received from userspace: the process id in its header, and its
    payload. *)
Record request := Request { rq_pid : Z; rq_payload : list Z }.

(** ** The kernel *)

(** Socket buffers with the bytes of their tail room, the answer to the [n]-th
    nlmsg_new, nlmsg_put, the result of the [n]-th send, and whether the [n]-th
    kmalloc, the [n]-th kthread_run and netlink_kernel_create succeed. *)
Class NetlinkLib := {
  sk_buff : Type;
  skb_tail : sk_buff → list cell;
  nlmsg_new : nat → nat → option sk_buff;
  nlmsg_put : sk_buff → Z → Z → Z → nat → Z → option nlmsg;
  send_result : nat → Z;
  kmalloc_ok : nat → bool;
  kthread_ok : nat → bool;
  netlink_kernel_create_ok : bool;
}.

(** A new buffer has room for the message asked for, uninitialised; nlmsg_put fails only
    without room, and leaves the payload's bytes as they are. *)
Class NetlinkLaws (K : NetlinkLib) := {
  nl_new n size b : nlmsg_new n size = Some b →
    nlmsg_total_size size ≤ length (skb_tail b) ∧ Forall (λ c, c = None) (skb_tail b);
  nl_put b pid seq type len flags : nlmsg_total_size len ≤ length (skb_tail b) →
    nlmsg_put b pid seq type len flags =
      Some (Nlmsg (NLMSG_HDRLEN + len) type flags seq pid (take len (drop NLMSG_HDRLEN (skb_tail b))));
}.

(** ** State *)

Inductive sock := SNull | SOpen | SReleased.

(** The result of kthread_run: an error pointer, or a thread. *)
Inductive task_ptr := TNull | TErr | TTask (id : nat).

Inductive send := Multicast (group : Z) (m : nlmsg) | Unicast (pid : Z) (m : nlmsg).

(** A printed line: its format, with the string or number it shows. *)
Inductive nl_line := LText (s : string) | LStr (s : string) (arg : list Z) | LNum (s : string) (n : Z).

#[global] Instance sock_eq_dec : EqDecision sock.
Proof. solve_decision. Defined.

#[global] Instance task_ptr_eq_dec : EqDecision task_ptr.
Proof. solve_decision. Defined.

(** The pointers [nl_sk] and [netlinkThread], the threads that run, the kmalloc'd
    buffers not freed, the messages sent and the lines printed; and the numbers of
    requests made so far. *)
Record nlst := Nlst {
  nl_sk : sock;
  netlinkThread : task_ptr;
  alive : list nat;
  live : nat;
  sent : list send;
  log : list nl_line;
  n_new : nat;
  n_send : nat;
  n_kmalloc : nat;
  n_thread : nat }.

(** The module's variables when it is loaded. *)
Definition nl_globals : nlst := Nlst SNull TNull [] 0 [] [] 0 0 0 0.

Section api.
Context `{K : NetlinkLib}.

Abbreviation M := (ST nlst).

Definition set_sk v : M unit :=
  st_modify (λ s, Nlst v (netlinkThread s) (alive s) (live s) (sent s) (log s) (n_new s) (n_send s) (n_kmalloc s) (n_thread s)).

Definition printk l : M unit :=
  st_modify (λ s, Nlst (nl_sk s) (netlinkThread s) (alive s) (live s) (sent s) (log s ++ [l]) (n_new s) (n_send s) (n_kmalloc s) (n_thread s)).

(** [nlmsg_new(size, flags)]. *)
Definition new_skb (size : nat) : M (option sk_buff) := λ s,
  Some (nlmsg_new (n_new s) size,
    Nlst (nl_sk s) (netlinkThread s) (alive s) (live s) (sent s) (log s) (S (n_new s)) (n_send s) (n_kmalloc s) (n_thread s)).

(** [nlmsg_put]: a NULL header is dereferenced by every caller. *)
Definition put_msg (b : sk_buff) (pid seq type : Z) (len : nat) (flags : Z) : M nlmsg :=
  st_opt (nlmsg_put b pid seq type len flags).

(** Replace the payload. *)
Definition with_data (m : nlmsg) (d : list cell) : nlmsg :=
  Nlmsg (nlmsg_len m) (nlmsg_type m) (nlmsg_flags m) (nlmsg_seq m) (nlmsg_pid m) d.

(** nlmsg_multicast and nlmsg_unicast on the socket [nl_sk]. *)
Definition do_send (x : send) : M Z := λ s,
  match nl_sk s with
  | SOpen =>
      Some (send_result (n_send s),
        Nlst (nl_sk s) (netlinkThread s) (alive s) (live s) (sent s ++ [x]) (log s) (n_new s) (S (n_send s)) (n_kmalloc s) (n_thread s))
  | _ => None
  end.

(** [kmalloc], the contents being indeterminate. *)
Definition kmalloc (size : nat) : M (option (list cell)) := λ s,
  let s' l := Nlst (nl_sk s) (netlinkThread s) (alive s) l (sent s) (log s) (n_new s) (n_send s) (S (n_kmalloc s)) (n_thread s) in
  if kmalloc_ok (n_kmalloc s) then Some (Some (replicate size None), s' (S (live s)))
  else Some (None, s' (live s)).

Definition kfree : M unit :=
  st_modify (λ s, Nlst (nl_sk s) (netlinkThread s) (alive s) (pred (live s)) (sent s) (log s) (n_new s) (n_send s) (n_kmalloc s) (n_thread s)).

(** [netlinkThread = kthread_run(...)]. *)
Definition kthread_run : M unit := λ s,
  let n := n_thread s in
  let '(t, al) := if kthread_ok n then (TTask n, n :: alive s) else (TErr, alive s) in
  Some (tt, Nlst (nl_sk s) t al (live s) (sent s) (log s) (n_new s) (n_send s) (n_kmalloc s) (S n)).

(** [netlink_kernel_create]. *)
Definition netlink_kernel_create : M unit :=
  set_sk (if netlink_kernel_create_ok then SOpen else SNull).

(** [netlink_kernel_release]; releasing a socket twice is stuck, and so is a NULL one. *)
Definition netlink_kernel_release : M unit := λ s,
  match nl_sk s with SOpen => set_sk SReleased s | _ => None end.

End api.

(** ** Lemmas *)

Lemma NLMSG_ALIGN_ge n : n ≤ NLMSG_ALIGN n.
Proof. unfold NLMSG_ALIGN. pose proof (Nat.div_mod_eq (n + 3) 4). pose proof (Nat.mod_upper_bound (n + 3) 4). lia. Qed.

Lemma NLMSG_ALIGN_mono m n : m ≤ n → NLMSG_ALIGN m ≤ NLMSG_ALIGN n.
Proof. intros H. unfold NLMSG_ALIGN. pose proof (Nat.Div0.div_le_mono (m + 3) (n + 3) 4). lia. Qed.

Section laws.
Context `{K : NetlinkLib, L : !NetlinkLaws K}.

(** A message put into a buffer allocated for at least its size: its header, and an
    uninitialised payload. *)
Lemma put_msg_fresh n size b pid seq type len flags s :
  nlmsg_new n size = Some b → len ≤ size →
  put_msg b pid seq type len flags s =
    Some (Nlmsg (NLMSG_HDRLEN + len) type flags seq pid (replicate len None), s).
Proof.
  intros E Hlen. destruct (nl_new _ _ _ E) as [Hsize Hun]. unfold nlmsg_total_size in Hsize.
  pose proof (NLMSG_ALIGN_mono (NLMSG_HDRLEN + len) (NLMSG_HDRLEN + size)).
  pose proof (NLMSG_ALIGN_ge (NLMSG_HDRLEN + len)).
  unfold put_msg. rewrite nl_put; [unfold nlmsg_total_size; lia|]. simpl.
  do 3 f_equal. apply list_eq. intros i.
  destruct (decide (i < len)).
  - rewrite lookup_take_lt // lookup_replicate_2 // lookup_drop.
    destruct (skb_tail b !! (NLMSG_HDRLEN + i)) as [c|] eqn:Ec.
    + by rewrite (Forall_lookup_1 _ _ _ _ Hun Ec).
    + apply lookup_ge_None in Ec. lia.
  - rewrite lookup_take_ge ?lookup_ge_None_2 ?length_replicate //; lia.
Qed.

End laws.

(** ** A concrete library *)

(** Buffers of exactly the size asked for; the answers are arguments. *)
Definition simple_lib (news : nat → bool) (results : nat → Z) (kmallocs threads : nat → bool)
    (create : bool) : NetlinkLib := {|
  sk_buff := list cell;
  skb_tail b := b;
  nlmsg_new n size := if news n then Some (replicate (nlmsg_total_size size) None) else None;
  nlmsg_put b pid seq type len flags :=
    if bool_decide (nlmsg_total_size len ≤ length b)
    then Some (Nlmsg (NLMSG_HDRLEN + len) type flags seq pid (take len (drop NLMSG_HDRLEN b)))
    else None;
  send_result := results;
  kmalloc_ok := kmallocs;
  kthread_ok := threads;
  netlink_kernel_create_ok := create |}.

#[export] Instance simple_lib_laws news results kmallocs threads create :
  NetlinkLaws (simple_lib news results kmallocs threads create).
Proof.
  split; simpl.
  - intros n size b E. destruct (news n); simplify_eq.
    rewrite length_replicate. split; [done|]. by apply Forall_replicate.
  - intros. by rewrite bool_decide_true.
Qed.

(** Every request succeeds. *)
Definition willing_lib : NetlinkLib :=
  simple_lib (λ _, true) (λ _, 0%Z) (λ _, true) (λ _, true) true.
