(* ===== verification/NlHello.v ===== *)
(** * The unicast and the multicast example

    NetLink_Unicast_test/netlink_unicast.c answers every message it receives;
    NetLink_Multicast_test/netlink_mutlicast.c multicasts one message when it is
    loaded, which userspace_test_mul.c receives and prints. The two ways of sending are
    shared with the mixed example (NetLink_Mix_unicast_Multicast). *)

From Stdlib Require Import ZArith Lia ssreflect.
From stdpp Require Import base list numbers strings.
From S2P Require Import Prelude CString Bytes Netlink.

Definition MYGRP : Z := 21.

Definition msg : list Z := text "Hello from kernel".

(** ** Kernel side *)

Section kernel.
Context `{K : NetlinkLib}.

(** Multicast [msg] with its terminator; the lines printed differ between the
    examples. The result tells whether a socket buffer was allocated. *)
Definition multicast_msg (creating error success : string) : ST nlst bool :=
  let msg_size := length msg + 1 in
  printk (LText creating);;
  skb ← new_skb (NLMSG_ALIGN (msg_size + 1));
  match skb with
  | None => printk (LText "Allocation failure.");; mret false
  | Some skb =>
      nlh ← put_msg skb 0 1 NLMSG_DONE (msg_size + 1) 0;
      d ← st_opt (strcpy (nlmsg_data nlh) 0 msg);
      printk (LText "Sending skb.");;
      res ← do_send (Multicast MYGRP (with_data nlh d));
      printk (if (res <? 0)%Z then LNum error res else LText success);;
      mret true
  end.

Definition send_to_user : ST nlst unit :=
  multicast_msg "Creating skb." "nlmsg_multicast() error: %d" "Success.";; mret tt.

(** hello_init of netlink_mutlicast.c. *)
Definition hello_init_multicast : ST nlst Z :=
  printk (LText "Entering: hello_init");;
  netlink_kernel_create;;
  s ← st_get;
  if bool_decide (nl_sk s = SNull) then
    printk (LText "Error creating socket.");; mret (-10)%Z
  else
    send_to_user;; netlink_kernel_release;; mret 0%Z.

(** hello_exit of netlink_mutlicast.c. *)
Definition hello_exit_multicast : ST nlst unit := printk (LText "exiting hello module").

(** Answer a request with [msg] without its terminator; the result tells whether the
    answer was sent. *)
Definition unicast_reply (entering : string) (req : request) : ST nlst bool :=
  printk (LText entering);;
  let msg_size := length msg in
  payload ← st_opt (c_string (rq_payload req));
  printk (LStr "Netlink received msg payload:" payload);;
  let pid := rq_pid req in
  skb_out ← new_skb msg_size;
  match skb_out with
  | None => printk (LText "Failed to allocate new skb");; mret false
  | Some skb_out =>
      nlh ← put_msg skb_out 0 0 NLMSG_DONE msg_size 0;
      d ← st_opt (strncpy (nlmsg_data nlh) 0 msg msg_size);
      res ← do_send (Unicast pid (with_data nlh d));
      if (res <? 0)%Z then printk (LText "Error while sending bak to user");; mret false
      else mret true
  end.

Definition hello_nl_recv_msg (req : request) : ST nlst unit :=
  unicast_reply "Entering: hello_nl_recv_msg" req;; mret tt.

(** hello_init and hello_exit of netlink_unicast.c. *)
Definition hello_init_unicast : ST nlst Z :=
  printk (LText "Entering: hello_init");;
  netlink_kernel_create;;
  s ← st_get;
  if bool_decide (nl_sk s = SNull) then
    printk (LText "Error creating socket.");; mret (-10)%Z
  else mret 0%Z.

Definition hello_exit_unicast : ST nlst unit :=
  printk (LText "exiting hello module");; netlink_kernel_release.

End kernel.

(** ** Userspace side (userspace_test_mul.c) *)

(** The bytes a message occupies: its header in little endian, and its payload. *)
Definition msg_bytes (m : nlmsg) : list cell :=
  (Some <$> le_split 4 (Z.of_nat (nlmsg_len m)) ++ le_split 2 (nlmsg_type m) ++
            le_split 2 (nlmsg_flags m) ++ le_split 4 (nlmsg_seq m) ++ le_split 4 (nlmsg_pid m))
  ++ nlmsg_data m.

(** The answers of socket, bind and setsockopt. *)
Record sock_answers := SockAnswers { a_socket : Z; a_bind : Z; a_setsockopt : Z }.

(** The result of open_netlink with the line it prints, if any. A socket that could not be bound
    is left open. *)
Definition open_netlink (a : sock_answers) : Z * list string :=
  if (a_socket a <? 0)%Z then (a_socket a, ["sock < 0."%string])
  else if (a_bind a <? 0)%Z then ((-1)%Z, ["bind < 0."%string])
  else if (a_setsockopt a <? 0)%Z then ((-1)%Z, ["setsockopt < 0"%string])
  else (a_socket a, []).

(** The lines of read_event. *)
Inductive event_line := Listening | RecvError | Payload (s : list Z).

(** [recvmsg] into a buffer of 65536 uninitialised bytes: the error, or the bytes received
    (longer messages are cut off); the payload is printed as a string. *)
Definition read_event (received : option (list cell)) : option (list event_line) :=
  match received with
  | None => Some [Listening; RecvError]
  | Some bs =>
      let size := Z.to_nat 65536 in
      let buffer := take size bs ++ replicate (size - length bs) None in
      s ← cell_string (drop NLMSG_HDRLEN buffer);
      Some [Listening; Payload s]
  end.

#[global] Arguments read_event : simpl never.

(** [main] reads events forever; its lines for the first events. *)
Fixpoint read_events (received : list (option (list cell))) : option (list event_line) :=
  match received with
  | [] => Some []
  | r :: received =>
      l ← read_event r;
      ls ← read_events received;
      Some (l ++ ls)
  end.

Definition main (a : sock_answers) (received : list (option (list cell))) :
    option (Z + list event_line) :=
  let '(nls, _) := open_netlink a in
  if (nls <? 0)%Z then Some (inl nls) else inr <$> read_events received.

(** ** Specification *)

(** A function leaves the pointers, threads and buffers of the module alone. *)
Definition same_pointers (s s' : nlst) : Prop :=
  nl_sk s' = nl_sk s ∧ netlinkThread s' = netlinkThread s ∧ alive s' = alive s ∧
  live s' = live s ∧ n_thread s' = n_thread s.

(** The multicast message: 18 characters, and one byte of the socket buffer that was
    never written. *)
Definition hello_multicast : nlmsg :=
  Nlmsg (NLMSG_HDRLEN + 19) NLMSG_DONE 0 1 0 ((Some <$> (msg ++ [0%Z])) ++ [None]).

(** The answer: 17 characters. *)
Definition hello_unicast : nlmsg := Nlmsg (NLMSG_HDRLEN + 17) NLMSG_DONE 0 0 0 (Some <$> msg).

Section proofs.
Context `{K : NetlinkLib, L : !NetlinkLaws K}.

Lemma multicast_msg_spec creating error success s :
  nl_sk s = SOpen →
  runs (multicast_msg creating error success) s (λ ok s',
    same_pointers s s' ∧ n_new s' = S (n_new s) ∧ n_kmalloc s' = n_kmalloc s ∧
    match nlmsg_new (n_new s) 20 with
    | Some _ => ok = true ∧ sent s' = sent s ++ [Multicast MYGRP hello_multicast]
    | None => ok = false ∧ sent s' = sent s
    end).
Proof.
  intros Hsk. unfold multicast_msg. apply runs_bind. eexists _, _. split; [reflexivity|].
  apply runs_bind. eexists _, _. split; [reflexivity|]. simpl n_new.
  change (NLMSG_ALIGN (length msg + 1 + 1)) with 20.
  destruct (nlmsg_new (n_new s) 20) as [b|] eqn:E.
  - apply runs_bind. eexists _, _. split; [by apply (put_msg_fresh _ _ _ _ _ _ _ _ _ E); vm_compute; lia|].
    apply runs_bind. eexists _, _. split; [reflexivity|].
    apply runs_bind. eexists _, _. split; [reflexivity|].
    apply runs_bind. eexists _, _. split; [unfold do_send; simpl; by rewrite Hsk|].
    apply runs_bind. eexists _, _. split; [reflexivity|]. apply runs_ret. by repeat split.
  - apply runs_bind. eexists _, _. split; [reflexivity|]. apply runs_ret. by repeat split.
Qed.

Lemma unicast_reply_spec entering req payload s :
  nl_sk s = SOpen → c_string (rq_payload req) = Some payload →
  runs (unicast_reply entering req) s (λ ok s',
    same_pointers s s' ∧ n_new s' = S (n_new s) ∧ n_kmalloc s' = n_kmalloc s ∧
    match nlmsg_new (n_new s) 17 with
    | Some _ => ok = negb (send_result (n_send s) <? 0)%Z ∧
                sent s' = sent s ++ [Unicast (rq_pid req) hello_unicast]
    | None => ok = false ∧ sent s' = sent s
    end).
Proof.
  intros Hsk Hp. unfold unicast_reply. apply runs_bind. eexists _, _. split; [reflexivity|].
  apply runs_bind. eexists _, _. split; [by rewrite Hp|].
  apply runs_bind. eexists _, _. split; [reflexivity|].
  apply runs_bind. eexists _, _. split; [reflexivity|]. simpl n_new.
  change (length msg) with 17.
  destruct (nlmsg_new (n_new s) 17) as [b|] eqn:E.
  - apply runs_bind. eexists _, _. split; [by apply (put_msg_fresh _ _ _ _ _ _ _ _ _ E)|].
    apply runs_bind. eexists _, _. split; [reflexivity|].
    apply runs_bind. eexists _, _. split; [unfold do_send; simpl; by rewrite Hsk|]. simpl n_send.
    destruct (send_result (n_send s) <? 0)%Z; [apply runs_bind; eexists _, _; split; [reflexivity|]|];
      apply runs_ret; by repeat split.
  - apply runs_bind. eexists _, _. split; [reflexivity|]. apply runs_ret. by repeat split.
Qed.

(** What the receiver prints of a message. *)
Lemma read_event_payload m s rest :
  Forall (λ c, c ≠ 0%Z) s → nlmsg_data m = (Some <$> (s ++ [0%Z])) ++ rest →
  (Z.of_nat (length (nlmsg_data m)) <= 65520)%Z →
  read_event (Some (msg_bytes m)) = Some [Listening; Payload s].
Proof.
  intros Hs Hd Hl. unfold read_event. cbv zeta.
  assert (length (msg_bytes m) = NLMSG_HDRLEN + length (nlmsg_data m)) as Hlen.
  { unfold msg_bytes. rewrite length_app length_fmap !length_app !le_split_length /NLMSG_HDRLEN. lia. }
  unfold NLMSG_HDRLEN in *.
  rewrite take_ge; [lia|]. rewrite drop_app_le; [lia|].
  assert (drop 16 (msg_bytes m) = nlmsg_data m) as ->.
  { unfold msg_bytes. apply drop_app_length'. by rewrite length_fmap !length_app !le_split_length. }
  by rewrite Hd -app_assoc cell_string_app.
Qed.

End proofs.

(** ** Properties *)

Section properties.
Context `{K : NetlinkLib, L : !NetlinkLaws K}.

(** C21: from the kernel to the receiver. Loading the multicast module fails with -10 when
    the socket cannot be created. Otherwise it returns 0 with the socket released again, and
    when a buffer can be allocated it has multicast exactly one message to group 21; the
    userspace receiver prints from it exactly the text the kernel sent. One byte of the
    message was never written, so it carries whatever the allocator left there. *)
Theorem multicast_received :
  runs hello_init_multicast nl_globals (λ ret s',
    if netlink_kernel_create_ok then
      ret = 0%Z ∧ nl_sk s' = SReleased ∧ netlinkThread s' = TNull ∧
      match nlmsg_new 0 20 with
      | None => sent s' = []
      | Some _ => ∃ m, sent s' = [Multicast MYGRP m] ∧ unknown (nlmsg_data m) = 1 ∧
          read_event (Some (msg_bytes m)) = Some [Listening; Payload msg]
      end
    else ret = (-10)%Z ∧ nl_sk s' = SNull ∧ sent s' = []).
Proof.
  unfold hello_init_multicast. apply runs_bind. eexists _, _. split; [reflexivity|].
  apply runs_bind. eexists _, _. split; [reflexivity|].
  apply runs_bind. eexists _, _. split; [reflexivity|]. simpl nl_sk.
  destruct netlink_kernel_create_ok; simpl.
  2:{ apply runs_bind. eexists _, _. split; [reflexivity|]. by apply runs_ret. }
  apply runs_bind. apply runs_bind. eapply runs_wand; [by apply multicast_msg_spec|].
  intros ok s1 ((Hsk & Ht & _) & _ & _ & Hsent). apply runs_ret. simpl in *.
  apply runs_bind. eexists _, _. split; [unfold netlink_kernel_release; by rewrite Hsk|].
  apply runs_ret. simpl. split_and!; [done..|].
  destruct (nlmsg_new 0 20); destruct Hsent as [_ Hsent]; [|done].
  eexists. split_and!; [exact Hsent|done|].
  apply (read_event_payload _ _ [None]); [|done|simpl; lia].
  by apply (bool_decide_unpack _).
Qed.

(** a request whose payload is a terminated string is answered by exactly one unicast to
    the process id in its header, with the 17 characters of the text and no terminator,
    when a buffer can be allocated; nothing else of the module changes. The handler
    reads the payload as a string whatever the sender put there: without a
    terminator it runs past the end of the message. *)
Theorem unicast_answers req s :
  nl_sk s = SOpen →
  match c_string (rq_payload req) with
  | None => hello_nl_recv_msg req s = None
  | Some _ => runs (hello_nl_recv_msg req) s (λ _ s',
      same_pointers s s' ∧
      sent s' = sent s ++
        match nlmsg_new (n_new s) 17 with Some _ => [Unicast (rq_pid req) hello_unicast] | None => [] end)
  end.
Proof.
  intros Hsk. destruct (c_string (rq_payload req)) as [p|] eqn:E.
  - unfold hello_nl_recv_msg. apply runs_bind. eapply runs_wand; [by eapply unicast_reply_spec|].
    intros ok s' (Hp & _ & _ & Hs). apply runs_ret. split; [done|].
    destruct (nlmsg_new _ 17); destruct Hs as [_ ->]; by rewrite ?app_nil_r.
  - unfold hello_nl_recv_msg. apply st_bind_none. unfold unicast_reply.
    erewrite st_bind_some; [|reflexivity]. apply st_bind_none. by rewrite E.
Qed.

End properties.

Lemma unicast_answers_witness :
  let s := Nlst SOpen TNull [] 0 [] [] 0 0 0 0 in
  runs (hello_nl_recv_msg (K := willing_lib) (Request 42 [72; 105; 0]%Z)) s (λ _ s',
    same_pointers s s' ∧ sent s' = [Unicast 42 hello_unicast]).
Proof.
  apply (unicast_answers (K := willing_lib) (Request 42 [72; 105; 0]%Z) (Nlst SOpen TNull [] 0 [] [] 0 0 0 0)).
  reflexivity.
Defined.

Lemma multicast_received_witness :
  runs (hello_init_multicast (K := willing_lib)) nl_globals (λ ret s',
    ret = 0%Z ∧ nl_sk s' = SReleased ∧ netlinkThread s' = TNull ∧
    ∃ m, sent s' = [Multicast MYGRP m] ∧ unknown (nlmsg_data m) = 1 ∧
      read_event (Some (msg_bytes m)) = Some [Listening; Payload msg]).
Proof. exact (multicast_received (K := willing_lib)). Defined.
