(* ===== verification/NlThread.v ===== *)
(** * Netlink modules with a multicast thread: life cycle

    The mixed and the structure example answer requests and, after the first
    answer, start a thread that multicasts until the module is unloaded. Both have the
    same callback, thread loop, init and exit around their own way of
    answering ([nm_reply]) and of sending one multicast ([nm_round]); this file has
    that frame, as functions and as a transition system in which requests of several
    processes, the thread and the unloading interleave, and proves its theorems
    against the interface [NlModule] with its laws. *)

From Stdlib Require Import ZArith Lia ssreflect.
From stdpp Require Import base list numbers strings sets.
From S2P Require Import Prelude CString Bytes Netlink NlHello.

(** ** The interface *)

(** [nm_reply] answers a request and tells whether the answer was sent, [nm_round] is the
    body of the thread's loop up to the check for a stop request, [false] when the thread
    function returns -1. *)
Class NlModule `{K : NetlinkLib} := {
  nm_reply : request → ST nlst bool;
  nm_round : ST nlst bool;
  nm_valid : request → Prop;
}.

Section code.
Context `{N : NlModule}.

Abbreviation M := (ST nlst).

(** *** The functions *)

(** The part after the answer: start the thread when there is none. *)
Definition start_thread : M unit :=
  s ← st_get;
  if bool_decide (netlinkThread s = TNull) then kthread_run else mret tt.

Definition callback_invoked_connect_userspace (req : request) : M unit :=
  ok ← nm_reply req;
  if ok : bool then start_thread else mret tt.

(** One round of the thread: [Some ret] when the function returns. [stop] is the answer of
    kthread_should_stop. *)
Definition thread_round (stop : bool) : M (option Z) :=
  ok ← nm_round;
  if negb ok then mret (Some (-1)%Z)
  else if stop then mret (Some 0%Z)
  else printk (LText "-----------------------------");; mret None.

(** The thread function, for the answers of kthread_should_stop in turn; [None] when it
    still runs after them. *)
Fixpoint thread_loop (stops : list bool) : M (option Z) :=
  match stops with
  | [] => mret None
  | stop :: stops =>
      r ← thread_round stop;
      match r with Some ret => mret (Some ret) | None => thread_loop stops end
  end.

Definition multicast_start (stops : list bool) : M (option Z) :=
  printk (LText "Entry inside  multicast_start");; thread_loop stops.

Definition netlink_test_init : M Z :=
  printk (LText "Entering: netlink_test_init");;
  netlink_kernel_create;;
  s ← st_get;
  if bool_decide (nl_sk s = SNull) then
    printk (LText "Error creating socket.");; mret (-10)%Z
  else mret 0%Z.

(** *** The module in the kernel *)

(** A module is loaded, waits in kthread_stop while it is unloaded, is unloaded, or has made an
    access that is undefined. *)
Inductive phase := Loaded | Stopping | Unloaded | Faulted.

(** [pending]: the callbacks that have found no thread and have not started one
    yet; [stop_id]: the thread asked to stop. *)
Record nlmod := Nlmod { m_st : nlst; pending : nat; stop_id : option nat; m_phase : phase }.

Inductive event := ERecv (req : request) | EStart | ERound (id : nat) | EExit | ERelease.

Definition fault (m : nlmod) : nlmod := Nlmod (m_st m) (pending m) (stop_id m) Faulted.

(** The thread [id] has returned. *)
Definition thread_exits (id : nat) (s : nlst) : nlst :=
  Nlst (nl_sk s) (netlinkThread s) (filter (.≠ id) (alive s)) (live s) (sent s) (log s)
       (n_new s) (n_send s) (n_kmalloc s) (n_thread s).

(** The start of netlink_test_exit: kthread_stop on an error pointer or on a thread that has
    returned is undefined. *)
Definition exit_stop (m : nlmod) : nlmod :=
  match netlinkThread (m_st m) with
  | TNull => Nlmod (m_st m) (pending m) None Stopping
  | TErr => fault m
  | TTask id =>
      if bool_decide (id ∈ alive (m_st m))
      then Nlmod (m_st m) (pending m) (Some id) Stopping
      else fault m
  end.

(** The rest of netlink_test_exit. *)
Definition exit_release (m : nlmod) : nlmod :=
  let r := (st_when (bool_decide (nl_sk (m_st m) ≠ SNull)) netlink_kernel_release;;
            printk (LText "exiting hello module")) (m_st m) in
  match r with
  | Some (_, s) => Nlmod s (pending m) (stop_id m) Unloaded
  | None => fault m
  end.

(** One step; [None] when it is not possible. The callback is split between the
    check for a thread and kthread_run, since callbacks of several senders run concurrently; the
    module is not unloaded while a callback runs. A thread that runs on after that executes code
    that is gone. *)
Definition step (m : nlmod) (e : event) : option nlmod :=
  match m_phase m, e with
  | Loaded, ERecv req =>
      match nm_reply req (m_st m) with
      | None => Some (fault m)
      | Some (ok, s) =>
          let p := if ok && bool_decide (netlinkThread s = TNull) then S (pending m) else pending m in
          Some (Nlmod s p (stop_id m) Loaded)
      end
  | Loaded, EStart =>
      match pending m, kthread_run (m_st m) with
      | S p, Some (_, s) => Some (Nlmod s p (stop_id m) Loaded)
      | _, _ => None
      end
  | Faulted, _ => None
  | Unloaded, ERound id => if bool_decide (id ∈ alive (m_st m)) then Some (fault m) else None
  | ph, ERound id =>
      if bool_decide (id ∈ alive (m_st m)) then
        match thread_round (bool_decide (stop_id m = Some id)) (m_st m) with
        | None => Some (fault m)
        | Some (Some _, s) => Some (Nlmod (thread_exits id s) (pending m) (stop_id m) ph)
        | Some (None, s) => Some (Nlmod s (pending m) (stop_id m) ph)
        end
      else None
  | Loaded, EExit => if bool_decide (pending m = 0) then Some (exit_stop m) else None
  | Stopping, ERelease =>
      match stop_id m with
      | Some id => if bool_decide (id ∈ alive (m_st m)) then None else Some (exit_release m)
      | None => Some (exit_release m)
      end
  | _, _ => None
  end.

Fixpoint exec (m : nlmod) (es : list event) : option nlmod :=
  match es with
  | [] => Some m
  | e :: es => m' ← step m e; exec m' es
  end.

(** Right after netlink_test_init has succeeded. *)
Definition loaded : option nlmod :=
  match netlink_test_init nl_globals with
  | Some (_, s) => Some (Nlmod s 0 None Loaded)
  | None => None
  end.

End code.

(** ** What a module promises *)

(** Every allocation and every kthread_run succeeds. *)
Definition answers_ok `{K : NetlinkLib} : Prop :=
  (∀ n size, is_Some (nlmsg_new n size)) ∧ (∀ n, kmalloc_ok n = true) ∧ (∀ n, kthread_ok n = true).

(** Answering a valid request does not fault, whatever the answers, sends the
    answer to the process of the request and keeps the module's pointers; a round of the
    thread sends one multicast, and ends the thread when no socket buffer can be had. *)
Class NlModuleLaws `(N : NlModule) := {
  nm_reply_spec req s : nl_sk s = SOpen → nm_valid req →
    runs (nm_reply req) s (λ ok s', same_pointers s s' ∧ n_new s' = S (n_new s) ∧ ∃ us,
      sent s' = sent s ++ us ∧ Forall (λ x, ∃ m, x = Unicast (rq_pid req) m) us ∧
      (ok = true → us ≠ []) ∧
      ((∀ size, is_Some (nlmsg_new (n_new s) size)) → (0 <= send_result (n_send s))%Z → ok = true));
  nm_round_spec s : nl_sk s = SOpen → answers_ok →
    runs nm_round s (λ ok s', ok = true ∧ same_pointers s s' ∧ ∃ m,
      sent s' = sent s ++ [Multicast MYGRP m]);
  nm_round_refused s : nl_sk s = SOpen → (∀ n, kmalloc_ok n = true) →
    (∀ size, nlmsg_new (n_new s) size = None) →
    runs nm_round s (λ ok s', ok = false ∧ nl_sk s' = nl_sk s ∧
      netlinkThread s' = netlinkThread s ∧ alive s' = alive s);
}.

(** ** Unloading *)

Section life.
Context `{N : NlModule, L : !NlModuleLaws N}.

(** The callbacks do not overlap, and the requests are valid. *)
Fixpoint serial (m : nlmod) (es : list event) : Prop :=
  match es with
  | [] => True
  | e :: es =>
      match e with ERecv req => pending m = 0 ∧ nm_valid req | _ => True end ∧
      match step m e with Some m' => serial m' es | None => True end
  end.

(** The first message sent is an answer. *)
Definition starts_unicast (l : list send) : Prop :=
  match l with Multicast _ _ :: _ => False | _ => True end.

(** Nothing is started before an answer was sent, and no buffer is held between steps. *)
Definition quiet (m : nlmod) : Prop :=
  starts_unicast (sent (m_st m)) ∧ live (m_st m) = 0 ∧
  (sent (m_st m) = [] → pending m = 0 ∧ alive (m_st m) = []).

(** The thread and the phase agree. *)
Definition threads_ok (m : nlmod) : Prop :=
  let s := m_st m in
  match m_phase m with
  | Loaded => nl_sk s = SOpen ∧ stop_id m = None ∧
      ((netlinkThread s = TNull ∧ alive s = [] ∧ pending m ≤ 1) ∨
       (∃ id, netlinkThread s = TTask id ∧ alive s = [id] ∧ pending m = 0))
  | Stopping => nl_sk s = SOpen ∧ pending m = 0 ∧
      match stop_id m with
      | None => alive s = []
      | Some id => alive s = [id] ∨ alive s = []
      end
  | Unloaded => nl_sk s = SReleased ∧ alive s = []
  | Faulted => False
  end.

Definition inv (m : nlmod) : Prop := quiet m ∧ threads_ok m.

Lemma starts_unicast_app l x : starts_unicast l → l ≠ [] → starts_unicast (l ++ x).
Proof. by destruct l as [|[]]. Qed.

(** A round of the thread [id] in an open module. *)
Lemma round_step m id :
  inv m → answers_ok → m_phase m = Loaded ∨ m_phase m = Stopping → id ∈ alive (m_st m) →
  ∃ m', step m (ERound id) = Some m' ∧ inv m' ∧ m_phase m' = m_phase m ∧
    (stop_id m = Some id → alive (m_st m') = [] ∧ stop_id m' = Some id).
Proof.
  intros [(Hu & Hlive & Hq) Ht] Hok Hph Hin.
  assert (Hsk : nl_sk (m_st m) = SOpen).
  { unfold threads_ok in Ht. destruct Hph as [E|E]; rewrite E in Ht; naive_solver. }
  assert (Hal : alive (m_st m) = [id]).
  { unfold threads_ok in Ht. destruct Hph as [E|E]; rewrite E in Ht.
    - destruct Ht as (_ & _ & [(_ & E' & _)|(i & _ & E' & _)]); rewrite E' in Hin |- *; set_solver.
    - destruct Ht as (_ & _ & Ht). destruct (stop_id m); [destruct Ht as [E'|E']|rename Ht into E'];
        rewrite E' in Hin |- *; set_solver. }
  assert (Hne : sent (m_st m) ≠ []).
  { intros E. destruct (Hq E) as [_ E']. by rewrite E' in Hal. }
  destruct (nm_round_spec (m_st m) Hsk Hok) as (b & s' & Er & -> & (E1 & E2 & E3 & E4 & E5) & msg & Es).
  assert (Hsteps : step m (ERound id) =
    match thread_round (bool_decide (stop_id m = Some id)) (m_st m) with
    | None => Some (fault m)
    | Some (Some _, s) => Some (Nlmod (thread_exits id s) (pending m) (stop_id m) (m_phase m))
    | Some (None, s) => Some (Nlmod s (pending m) (stop_id m) (m_phase m))
    end).
  { unfold step. destruct Hph as [->| ->]; by rewrite bool_decide_true. }
  unfold thread_round in Hsteps. rewrite (st_bind_some _ _ _ _ _ Er) /= in Hsteps.
  assert (Hsent : starts_unicast (sent s') ∧ live s' = 0 ∧ sent s' ≠ []).
  { rewrite Es E4. split_and!; [by apply starts_unicast_app|done|]. by destruct (sent (m_st m)). }
  destruct Hsent as (H1 & H2 & H3). unfold threads_ok in Ht.
  case_bool_decide as Hstop; eexists; (split; [exact Hsteps|]); simpl.
  - split_and!; [split|done|].
    + by split_and!.
    + unfold threads_ok. simpl. rewrite E1 E3 Hal filter_cons_False; [naive_solver|].
      destruct Hph as [E|E]; rewrite E in Ht |- *; [naive_solver|].
      rewrite Hstop. destruct Ht as (? & ? & _). by split_and!; [..|right].
    + intros _. by rewrite E3 Hal filter_cons_False; [naive_solver|].
  - split_and!; [split|done|done].
    + split_and!; [done..|]. simpl. by intros ?.
    + unfold threads_ok. simpl. rewrite E1 E2 E3. done.
Qed.

Lemma recv_step m req :
  inv m → m_phase m = Loaded → pending m = 0 → nm_valid req →
  ∃ m', step m (ERecv req) = Some m' ∧ inv m'.
Proof.
  intros [(Hu & Hlive & Hq) Ht] Hph Hp Hv. unfold threads_ok in Ht. rewrite Hph in Ht.
  destruct Ht as (Hsk & Hstop & Ht).
  destruct (nm_reply_spec req (m_st m) Hsk Hv)
    as (ok & s' & E & (E1 & E2 & E3 & E4 & E5) & _ & us & Es & Hus & Hne & _).
  assert (Hun : starts_unicast (sent s')).
  { rewrite Es. destruct (sent (m_st m)); [|by apply starts_unicast_app].
    destruct us as [|x us]; [done|]. by apply Forall_cons in Hus as [[msg ->] _]. }
  eexists. split; [unfold step; by rewrite Hph E|]. simpl. split.
  - split_and!; simpl; [done|congruence|]. rewrite Es. intros [H1 H2]%app_eq_nil.
    destruct ok; [by destruct (Hne eq_refl)|]. rewrite E3. by apply Hq.
  - unfold threads_ok. simpl. rewrite E1 E2 E3 Hp. split_and!; [done..|].
    destruct Ht as [(Hn & Hal & _)|(id & Hid & Hal & _)]; rewrite Hal; rewrite ?Hn ?Hid.
    + left. rewrite bool_decide_true //. destruct ok; simpl; split_and!; auto.
    + right. exists id. rewrite bool_decide_false //. rewrite andb_false_r. done.
Qed.

Lemma start_step m p :
  inv m → answers_ok → m_phase m = Loaded → pending m = S p →
  ∃ m', step m EStart = Some m' ∧ inv m' ∧ m_phase m' = Loaded ∧ pending m' = p ∧
    netlinkThread (m_st m') = TTask (n_thread (m_st m)).
Proof.
  intros [(Hu & Hlive & Hq) Ht] (_ & _ & Hthr) Hph Hp. unfold threads_ok in Ht. rewrite Hph in Ht.
  destruct Ht as (Hsk & Hstop & [(Hn & Hal & Hle)|(id & _ & _ & ?)]); [|lia].
  eexists. split; [unfold step; rewrite Hph Hp /kthread_run Hthr; done|].
  simpl. split_and!; [split|done..].
  - split_and!; [done..|]. simpl. intros E. destruct (Hq E). lia.
  - unfold threads_ok. simpl. split_and!; [done..|]. right. exists (n_thread (m_st m)).
    rewrite Hal. split_and!; [done..|lia].
Qed.

Lemma exit_step m :
  inv m → m_phase m = Loaded → pending m = 0 →
  ∃ m', step m EExit = Some m' ∧ inv m' ∧ m_phase m' = Stopping ∧ m_st m' = m_st m ∧
    ∀ id, netlinkThread (m_st m) = TTask id → stop_id m' = Some id.
Proof.
  intros [(Hu & Hlive & Hq) Ht] Hph Hp. unfold threads_ok in Ht. rewrite Hph in Ht.
  destruct Ht as (Hsk & Hstop & Ht).
  eexists. split; [unfold step; by rewrite Hph bool_decide_true|].
  unfold exit_stop. destruct Ht as [(Hn & Hal & _)|(id & Hid & Hal & _)].
  - rewrite Hn. by split_and!; [split|..].
  - rewrite Hid Hal bool_decide_true; [set_solver|]. split_and!; [split|..]; try done.
    + split_and!; [done..|]. by left.
    + simpl. naive_solver.
Qed.

Lemma release_step m :
  inv m → m_phase m = Stopping → alive (m_st m) = [] →
  ∃ m', step m ERelease = Some m' ∧ inv m' ∧ m_phase m' = Unloaded.
Proof.
  intros [(Hu & Hlive & Hq) Ht] Hph Hal. unfold threads_ok in Ht. rewrite Hph in Ht.
  destruct Ht as (Hsk & Hp & Ht).
  assert (Hs : step m ERelease = Some (exit_release m)).
  { unfold step. rewrite Hph. destruct (stop_id m); [|done].
    rewrite Hal bool_decide_false //. apply not_elem_of_nil. }
  eexists. split; [exact Hs|]. unfold exit_release.
  rewrite bool_decide_true; [by rewrite Hsk|].
  unfold st_when, netlink_kernel_release, mbind, ST_bind. rewrite Hsk. simpl.
  split; [split|done].
  - split_and!; simpl; [done..|]. naive_solver.
  - done.
Qed.

(** Every step of a serial run keeps the invariant. *)
Lemma inv_step m e m' :
  inv m → answers_ok → match e with ERecv req => pending m = 0 ∧ nm_valid req | _ => True end →
  step m e = Some m' → inv m'.
Proof.
  intros Hinv Hok Hser Hs. destruct e as [req| |id| |].
  - destruct (m_phase m) eqn:Hph; unfold step in Hs; rewrite Hph in Hs; try done.
    destruct Hser as [Hp Hv]. destruct (recv_step m req) as (? & E & ?); [done..|].
    unfold step in E. rewrite Hph in E. congruence.
  - destruct (m_phase m) eqn:Hph; unfold step in Hs; rewrite Hph in Hs; try done.
    destruct (pending m) as [|p] eqn:Hp; [done|].
    destruct (start_step m p) as (? & E & ? & _); [done..|].
    unfold step in E. rewrite Hph Hp in E. congruence.
  - destruct (decide (id ∈ alive (m_st m))) as [Hin|Hin].
    + destruct (round_step m id) as (? & E & ? & _); [done..| |done|congruence].
      destruct Hinv as [_ Ht]. unfold threads_ok in Ht. destruct (m_phase m); [by left|by right| |done].
      destruct Ht as [_ Hal]. rewrite Hal in Hin. set_solver.
    + unfold step in Hs. rewrite bool_decide_false // in Hs. by destruct (m_phase m).
  - destruct (m_phase m) eqn:Hph; unfold step in Hs; rewrite Hph in Hs; try done.
    case_bool_decide; [|done]. destruct (exit_step m) as (? & E & ? & _); [done..|].
    unfold step in E. rewrite Hph bool_decide_true // in E. congruence.
  - destruct (m_phase m) eqn:Hph; unfold step in Hs; rewrite Hph in Hs; try done.
    assert (alive (m_st m) = []) as Hal.
    { destruct Hinv as [_ Ht]. unfold threads_ok in Ht. rewrite Hph in Ht.
      destruct Ht as (_ & _ & Ht). destruct (stop_id m) as [id|]; [|done].
      destruct Ht as [Hal|]; [|done]. rewrite Hal bool_decide_true // in Hs. set_solver. }
    destruct (release_step m) as (? & E & ? & _); [done..|].
    unfold step in E. rewrite Hph in E. congruence.
Qed.

Lemma inv_exec m es m' : inv m → answers_ok → serial m es → exec m es = Some m' → inv m'.
Proof.
  intros Hinv Hok. revert m Hinv. induction es as [|e es IH]; intros m Hinv Hser He; simpl in *.
  - by simplify_eq.
  - destruct Hser as [He1 He2]. destruct (step m e) as [m1|] eqn:E; [|done].
    eapply (IH m1); [by eapply inv_step|done|exact He].
Qed.

Lemma exec_app m es1 es2 m1 : exec m es1 = Some m1 → exec m (es1 ++ es2) = exec m1 es2.
Proof.
  revert m. induction es1 as [|e es IH]; intros m E; simpl in *; [by simplify_eq|].
  destruct (step m e); [|done]. by apply IH.
Qed.

(** From every state of a serial run the module can be unloaded. *)
Lemma inv_unloads m : inv m → answers_ok → ∃ es m', exec m es = Some m' ∧ m_phase m' = Unloaded.
Proof.
  assert (Hstopping : ∀ m, inv m → answers_ok → m_phase m = Stopping →
    ∃ es m', exec m es = Some m' ∧ m_phase m' = Unloaded).
  { intros m0 Hinv Hok Hph. destruct (alive (m_st m0)) as [|id l] eqn:Hal.
    - destruct (release_step m0) as (m' & E & _ & ?); [done..|]. exists [ERelease], m'. simpl. by rewrite E.
    - destruct (round_step m0 id) as (m1 & E1 & Hinv1 & Hph1 & Hstop); [done..|by right|rewrite Hal; left|].
      assert (Hsid : stop_id m0 = Some id).
      { destruct Hinv as [_ Ht]. unfold threads_ok in Ht. rewrite Hph Hal in Ht.
        destruct Ht as (_ & _ & Ht). destruct (stop_id m0); [|done]. destruct Ht; naive_solver. }
      destruct (Hstop Hsid) as [Hal1 _].
      destruct (release_step m1) as (m' & E & _ & ?); [done|congruence|done|].
      exists [ERound id; ERelease], m'. simpl. by rewrite E1 /= E. }
  assert (Hexit : ∀ m, inv m → answers_ok → m_phase m = Loaded → pending m = 0 →
    ∃ es m', exec m es = Some m' ∧ m_phase m' = Unloaded).
  { intros m0 Hinv Hok Hph Hp. destruct (exit_step m0) as (m1 & E1 & Hinv1 & Hph1 & _); [done..|].
    destruct (Hstopping m1) as (es & m' & E & ?); [done..|]. exists (EExit :: es), m'. simpl. by rewrite E1. }
  intros Hinv Hok. destruct (m_phase m) eqn:Hph.
  - destruct (pending m) as [|p] eqn:Hp; [by apply Hexit|].
    destruct (start_step m p) as (m1 & E1 & Hinv1 & Hph1 & Hp1 & Ht1); [done..|].
    assert (p = 0) as ->.
    { destruct Hinv as [_ Ht]. unfold threads_ok in Ht. rewrite Hph in Ht.
      destruct Ht as (_ & _ & [(_ & _ & ?)|(? & _ & _ & ?)]); lia. }
    destruct (Hexit m1) as (es & m' & E & ?); [done..|]. exists (EStart :: es), m'. simpl. by rewrite E1.
  - by apply Hstopping.
  - by exists [], m.
  - destruct Hinv as [_ Ht]. unfold threads_ok in Ht. by rewrite Hph in Ht.
Qed.

Lemma loaded_inv : netlink_kernel_create_ok = true → ∃ m0, loaded = Some m0 ∧ inv m0 ∧
  m_phase m0 = Loaded ∧ pending m0 = 0 ∧ netlinkThread (m_st m0) = TNull.
Proof.
  intros H. unfold loaded, netlink_test_init, netlink_kernel_create. simpl. rewrite H /=.
  eexists. split; [done|]. split; [|done]. split; [done|]. unfold threads_ok. simpl.
  split_and!; [done..|]. left. split_and!; auto.
Qed.

(** A callback that runs to its end is one step, or two when it starts the thread. *)
Lemma callback_steps m req s' :
  m_phase m = Loaded → callback_invoked_connect_userspace req (m_st m) = Some (tt, s') →
  ∃ es, es ⊆ [EStart] ∧ exec m (ERecv req :: es) = Some (Nlmod s' (pending m) (stop_id m) Loaded).
Proof.
  intros Hph. unfold callback_invoked_connect_userspace, start_thread, mbind, ST_bind, st_get.
  assert (Hnil : [] ⊆ [EStart]) by apply list_subseteq_nil.
  cbn [exec]. unfold step at 1. rewrite Hph.
  destruct (nm_reply req (m_st m)) as [[[] s]|] eqn:E; [|intros [= <-]; by exists []|done].
  destruct (bool_decide _) eqn:Hb; intros Hr.
  - exists [EStart]. split; [done|]. unfold step. cbn. by rewrite Hr.
  - injection Hr as <-. exists []. split; [done|]. done.
Qed.

(** The thread function that is not asked to stop makes one step a round. *)
Lemma loop_steps m id n :
  answers_ok → nl_sk (m_st m) = SOpen → m_phase m = Loaded → id ∈ alive (m_st m) → stop_id m ≠ Some id →
  runs (thread_loop (replicate n false)) (m_st m) (λ r s', r = None ∧ nl_sk s' = SOpen ∧
    exec m (replicate n (ERound id)) = Some (Nlmod s' (pending m) (stop_id m) Loaded)).
Proof.
  intros Hok. revert m. induction n as [|n IH]; intros m Hsk Hph Hin Hstop.
  { exists None, (m_st m). split_and!; [done..|]. simpl. rewrite -Hph. by destruct m. }
  destruct (nm_round_spec (m_st m) Hsk Hok) as (b & s1 & Er & -> & (E1 & E2 & E3 & _) & _).
  pose (s2 := Nlst (nl_sk s1) (netlinkThread s1) (alive s1) (live s1) (sent s1)
    (log s1 ++ [LText "-----------------------------"]) (n_new s1) (n_send s1) (n_kmalloc s1) (n_thread s1)).
  assert (Ht : thread_round false (m_st m) = Some (None, s2)).
  { unfold thread_round, mbind, ST_bind. by rewrite Er. }
  destruct (IH (Nlmod s2 (pending m) (stop_id m) Loaded)) as (r & s' & El & -> & Hsk' & Ex);
    [simpl; congruence|done|simpl; congruence|done|].
  exists None, s'. split_and!; [|done|done|].
  - simpl. unfold mbind, ST_bind. by rewrite Ht.
  - simpl. unfold step. rewrite Hph bool_decide_true // bool_decide_false // Ht. exact Ex.
Qed.

(** A request that is answered while there is no thread. *)
Lemma recv_pending m req :
  m_phase m = Loaded → nl_sk (m_st m) = SOpen → netlinkThread (m_st m) = TNull → nm_valid req →
  (∀ size, is_Some (nlmsg_new (n_new (m_st m)) size)) → (∀ n, 0 <= send_result n)%Z →
  ∃ s', step m (ERecv req) = Some (Nlmod s' (S (pending m)) (stop_id m) Loaded) ∧
    same_pointers (m_st m) s' ∧ n_new s' = S (n_new (m_st m)).
Proof.
  intros Hph Hsk Hn Hv Hnew Hres.
  destruct (nm_reply_spec req (m_st m) Hsk Hv) as (ok & s' & E & Hsame & Hnn & us & _ & _ & _ & Hok).
  exists s'. unfold step. rewrite Hph E (Hok Hnew (Hres _)). destruct Hsame as (E1 & E2 & E3).
  rewrite bool_decide_true; [congruence|]. done.
Qed.

Lemma start_pending m :
  m_phase m = Loaded → pending m ≠ 0 →
  step m EStart = (λ '(t, al), Some (Nlmod (Nlst (nl_sk (m_st m)) t al (live (m_st m)) (sent (m_st m)) (log (m_st m))
      (n_new (m_st m)) (n_send (m_st m)) (n_kmalloc (m_st m)) (S (n_thread (m_st m)))) (pred (pending m)) (stop_id m) Loaded))
    (if kthread_ok (n_thread (m_st m)) then (TTask (n_thread (m_st m)), n_thread (m_st m) :: alive (m_st m)) else (TErr, alive (m_st m))).
Proof.
  intros Hph Hp. unfold step, kthread_run. rewrite Hph. destruct (pending m); [done|].
  by destruct (kthread_ok _).
Qed.

(** *** Properties *)

(** C17: unloading is safe when callbacks do not overlap and nothing is refused. In
    every interleaving of valid requests, thread rounds and unloading the module
    never faults, has at most one thread, holds no buffer between steps, and
    multicasts only after it has answered a request; once it is unloaded no thread
    runs and the socket is released, and from every state it can be unloaded. *)
Theorem unload_safe m0 es m :
  answers_ok → netlink_kernel_create_ok = true → loaded = Some m0 → serial m0 es →
  exec m0 es = Some m →
  m_phase m ≠ Faulted ∧ length (alive (m_st m)) ≤ 1 ∧ live (m_st m) = 0 ∧
  starts_unicast (sent (m_st m)) ∧
  (m_phase m = Unloaded → alive (m_st m) = [] ∧ nl_sk (m_st m) = SReleased) ∧
  ∃ es' m', exec m0 (es ++ es') = Some m' ∧ m_phase m' = Unloaded.
Proof.
  intros Hok Hc Hl Hser He. destruct (loaded_inv Hc) as (m0' & Hl' & Hinv0 & _). simplify_eq.
  assert (Hinv : inv m) by by eapply inv_exec.
  destruct (inv_unloads m Hinv Hok) as (es' & m' & E' & Hph').
  destruct Hinv as [(Hu & Hlive & _) Ht]. unfold threads_ok in Ht.
  assert (Hal : alive (m_st m) = [] ∨ ∃ id, alive (m_st m) = [id]).
  { destruct (m_phase m), (stop_id m); naive_solver. }
  split_and!; [| |done|done| |exists es', m'; by rewrite (exec_app _ _ _ _ He)].
  - intros E. by rewrite E in Ht.
  - destruct Hal as [-> | [id ->]]; simpl; lia.
  - intros E. rewrite E in Ht. naive_solver.
Qed.

(** C38: unloading is not safe otherwise. It faults when kthread_run had failed
    (the error pointer is not NULL and is stopped like a thread), and when the
    thread had returned because a socket buffer was refused; and when
    the first requests of two processes overlap, both callbacks start a thread,
    only the second one is stopped, and the first runs on after the module is gone. *)
Theorem unload_faults m0 r1 r2 :
  netlink_kernel_create_ok = true → loaded = Some m0 → nm_valid r1 → nm_valid r2 →
  (∀ size, is_Some (nlmsg_new 0 size)) → (∀ n, 0 <= send_result n)%Z → (∀ n, kmalloc_ok n = true) →
  (kthread_ok 0 = false →
    ∃ m, exec m0 [ERecv r1; EStart; EExit] = Some m ∧ m_phase m = Faulted) ∧
  (kthread_ok 0 = true → (∀ size, nlmsg_new 1 size = None) →
    ∃ m, exec m0 [ERecv r1; EStart; ERound 0; EExit] = Some m ∧ m_phase m = Faulted) ∧
  (answers_ok →
    ∃ m, exec m0 [ERecv r1; ERecv r2; EStart; EStart; EExit; ERound 1; ERelease; ERound 0] = Some m ∧
         m_phase m = Faulted ∧ alive (m_st m) = [0] ∧ nl_sk (m_st m) = SReleased).
Proof.
  intros Hc Hl Hv1 Hv2 Hnew Hres Hkm.
  unfold loaded, netlink_test_init, netlink_kernel_create in Hl. simpl in Hl. rewrite Hc /= in Hl.
  injection Hl as <-.
  match goal with |- context [exec ?m _] => set (m0 := m) end.
  destruct (recv_pending m0 r1) as ([sk th al lv se lg nn ns nk nt] & E1 & (F1 & F2 & F3 & F4 & F5) & Hn1);
    [done..|]. simpl in F1, F2, F3, F4, F5, Hn1. subst.
  split_and!.
  - intros Hthr. eexists. simpl exec. rewrite E1 /=. rewrite start_pending // /= Hthr /=. done.
  - intros Hthr Hnone. simpl exec. rewrite E1 /= start_pending // /= Hthr /=.
    match goal with |- context [step ?m (ERound 0)] => set (m1 := m) end.
    destruct (nm_round_refused (m_st m1)) as (ok & s' & Er & -> & G1 & G2 & G3); [done..|].
    assert (step m1 (ERound 0) = Some (Nlmod (thread_exits 0 s') 0 None Loaded)) as ->.
    { unfold step, thread_round. simpl. by rewrite (st_bind_some _ _ _ _ _ Er). }
    simpl. unfold exit_stop. simpl. rewrite G2 G3. eexists. split; reflexivity.
  - intros (Hn & _ & Hthr). simpl exec. rewrite E1 /=.
    match goal with |- context [step ?m (ERecv r2)] => set (m1 := m) end.
    destruct (recv_pending m1 r2) as ([sk th al lv' se' lg' nn ns' nk' nt] & E2 & (F1 & F2 & F3 & F4' & F5) & Hn2);
      [done..| |done|]. { intros size. apply Hn. }
    simpl in F1, F2, F3, F4', F5. subst. rewrite E2 /=.
    rewrite start_pending // /= Hthr /= start_pending // /= Hthr /=.
    match goal with |- context [step ?m (ERound 1)] => set (m2 := m) end.
    destruct (nm_round_spec (m_st m2)) as (ok & s' & Er & -> & (G1 & G2 & G3 & G4 & _) & _); [done|by split_and!|].
    assert (step m2 (ERound 1) = Some (Nlmod (thread_exits 1 s') 0 (Some 1) Stopping)) as ->.
    { unfold step, thread_round. simpl. by rewrite (st_bind_some _ _ _ _ _ Er). }
    destruct s'. simpl in G1, G2, G3. subst. eexists. by split_and!.
Qed.

End life.
