(* ===== verification/NlMix.v ===== *)
(** * The mixed unicast and multicast example
    (NetLink_Mix_unicast_Multicast/netlink_kernel.c)

    The module answers like the unicast example and its thread multicasts like
    the multicast example; [NlThread] has the frame around the two. *)

From Stdlib Require Import ZArith Lia ssreflect.
From stdpp Require Import base list numbers strings.
From S2P Require Import Prelude CString Bytes Netlink NlHello NlThread.

Section mix.
Context `{K : NetlinkLib}.

(** The loop body of multicast_start. *)
Definition mix_round : ST nlst bool :=
  multicast_msg "------ Creating skb. -------" "nlmsg_multicast() error: %d , no one receive"
    "Success the message.".

(** callback_invoked_connect_userspace up to the check of the send. *)
Definition mix_reply (req : request) : ST nlst bool :=
  unicast_reply "Entering: callback_invoked_connect_userspace" req.

(** Requests carry a terminated string. *)
#[export] Instance mix_module : NlModule := {|
  nm_reply := mix_reply;
  nm_round := mix_round;
  nm_valid req := is_Some (c_string (rq_payload req)) |}.

#[export] Instance mix_laws `{L : !NetlinkLaws K} : NlModuleLaws mix_module.
Proof.
  split.
  - intros req s Hsk [p Hp]. eapply runs_wand; [by eapply unicast_reply_spec|].
    intros ok s' (Hsame & Hn & _ & H). split_and!; [done..|].
    destruct (nlmsg_new (n_new s) 17) eqn:E; destruct H as [-> ->].
    + exists [Unicast (rq_pid req) hello_unicast]. split_and!; [done| |done|].
      * constructor; [eauto|constructor].
      * intros _ Hr. by destruct (Z.ltb_spec (send_result (n_send s)) 0); [lia|].
    + exists []. rewrite app_nil_r. split_and!; [done|constructor|done|].
      intros Hs. destruct (Hs 17) as [? ?]. congruence.
  - intros s Hsk (Hnew & _). eapply runs_wand; [by apply multicast_msg_spec|].
    intros ok s' (Hsame & _ & _ & H). destruct (Hnew (n_new s) 20) as [b E]. rewrite E in H.
    destruct H as [-> ->]. eauto.
  - intros s Hsk _ Hnone. eapply runs_wand; [by apply multicast_msg_spec|].
    intros ok s' ((E1 & E2 & E3 & _) & _ & _ & H). rewrite Hnone in H. by destruct H as [-> _].
Qed.

End mix.

(** ** The life cycle, at this module *)

Definition hi : request := Request 42 [72; 105; 0]%Z.

(** The run of one request, two rounds of the thread, and the unloading. *)
Lemma unload_safe_witness :
  let N := @mix_module willing_lib in
  let m0 := Nlmod (Nlst SOpen TNull [] 0 [] [LText "Entering: netlink_test_init"] 0 0 0 0) 0 None Loaded in
  ∃ m, exec (N := N) m0 [ERecv hi; EStart; ERound 0; ERound 0; EExit; ERound 0; ERelease] = Some m ∧
    m_phase m ≠ Faulted ∧ length (alive (m_st m)) ≤ 1 ∧ live (m_st m) = 0 ∧
    starts_unicast (sent (m_st m)) ∧
    (m_phase m = Unloaded → alive (m_st m) = [] ∧ nl_sk (m_st m) = SReleased).
Proof.
  intros N m0. eexists. split; [vm_compute; reflexivity|].
  refine ((λ H, conj (proj1 H) (conj (proj1 (proj2 H)) (conj (proj1 (proj2 (proj2 H)))
    (conj (proj1 (proj2 (proj2 (proj2 H)))) (proj1 (proj2 (proj2 (proj2 (proj2 H)))))))))
    (unload_safe (N := N) m0 [ERecv hi; EStart; ERound 0; ERound 0; EExit; ERound 0; ERelease] _ _ _ _ _ _)).
  - split_and!; [|done..]. intros n size. eexists. reflexivity.
  - reflexivity.
  - reflexivity.
  - split; [|vm_compute; tauto]. split; [reflexivity|]. by eexists.
  - vm_compute. reflexivity.
Defined.

(** The fault of overlapping requests. *)
Lemma unload_faults_witness :
  let N := @mix_module willing_lib in
  let m0 := Nlmod (Nlst SOpen TNull [] 0 [] [LText "Entering: netlink_test_init"] 0 0 0 0) 0 None Loaded in
  ∃ m, exec (N := N) m0
      [ERecv hi; ERecv hi; EStart; EStart; EExit; ERound 1; ERelease; ERound 0] = Some m ∧
    m_phase m = Faulted ∧ alive (m_st m) = [0] ∧ nl_sk (m_st m) = SReleased.
Proof.
  intros N m0. apply (unload_faults (N := N) m0 hi hi).
  - reflexivity.
  - reflexivity.
  - by eexists.
  - by eexists.
  - intros size. eexists. reflexivity.
  - intros n. simpl. lia.
  - done.
  - split_and!; [|done..]. intros n size. eexists. reflexivity.
Defined.
