(* ===== verification/NlStruct.v ===== *)
(** * The structure message example (NetLink_Structure_message_Send/netlink_kernel.c)

    Requests and answers are a C structure of numbers and a character array, the
    multicast is a structure of two arrays. The request is a list of bytes and the
    fields are read and written at their offsets in it; a field outside the
    received bytes is stuck. [NlThread] has the frame around the two functions. *)

From Stdlib Require Import ZArith Lia ssreflect.
From stdpp Require Import base list numbers strings.
From S2P Require Import Prelude CString Bytes Netlink NlHello NlThread.

(** ** Data *)

(** [char data[4096]]. *)
Definition DATA_SIZE : nat := Z.to_nat 4096.

Lemma DATA_SIZE_val : Z.of_nat DATA_SIZE = 4096%Z.
Proof. reflexivity. Qed.

#[global] Opaque DATA_SIZE.

Record Response := MkResponse {
  index : Z;
  dataSize : Z;
  data : list Z;
  test2 : Z;
  test3 : Z;
  test4 : Z }.

(** The offsets of the fields, and the size. *)
Definition off_index : nat := 0.
Definition off_dataSize : nat := 4.
Definition off_data : nat := 8.
Definition off_test2 : nat := 8 + DATA_SIZE.
Definition off_test3 : nat := 12 + DATA_SIZE.
Definition off_test4 : nat := 16 + DATA_SIZE.
Definition sizeof_Response : nat := 20 + DATA_SIZE.

(** [char name[1024]] and [char process[1024]]. *)
Definition NAME_SIZE : nat := Z.to_nat 1024.

Lemma NAME_SIZE_val : Z.of_nat NAME_SIZE = 1024%Z.
Proof. reflexivity. Qed.

#[global] Opaque NAME_SIZE.

Definition off_name : nat := 0.
Definition off_process : nat := NAME_SIZE.
Definition sizeof_multicast_mesg : nat := NAME_SIZE + NAME_SIZE.

(** ** Access to a structure in a message *)

Definition get_int (b : list Z) (off : nat) : option Z :=
  if bool_decide (off + 4 ≤ length b) then Some (s32 (le_join (take 4 (drop off b)))) else None.

Definition put_bytes (b : list Z) (off : nat) (bs : list Z) : option (list Z) :=
  if bool_decide (off + length bs ≤ length b)
  then Some (take off b ++ bs ++ drop (off + length bs) b)
  else None.

Definition put_int (b : list Z) (off : nat) (z : Z) : option (list Z) := put_bytes b off (le_split 4 z).

(** [field *= 100]; the kernel is compiled with wrapping signed arithmetic. *)
Definition times100 (b : list Z) (off : nat) : option (list Z) :=
  z ← get_int b off; put_int b off (s32 (z * 100)).

(** ** Kernel side *)

Section kernel.
Context `{K : NetlinkLib}.

(** The six lines that show a structure. *)
Definition print_response (req : list Z) : ST nlst unit :=
  i ← st_opt (get_int req off_index); printk (LNum "index %d" i);;
  d ← st_opt (get_int req off_dataSize); printk (LNum "dataSize %d" d);;
  t ← st_opt (c_string (drop off_data req)); printk (LStr "data: %s" t);;
  x ← st_opt (get_int req off_test2); printk (LNum "test2 %d" x);;
  y ← st_opt (get_int req off_test3); printk (LNum "test3 %d" y);;
  z ← st_opt (get_int req off_test4); printk (LNum "test4 %d" z).

(** The changes of the request's fields. *)
Definition update_response (req : list Z) : option (list Z) :=
  req ← times100 req off_index;
  req ← times100 req off_dataSize;
  req ← put_bytes req off_data (text "Data from Kernel" ++ [0%Z]);
  req ← times100 req off_test2;
  req ← times100 req off_test3;
  times100 req off_test4.

(** callback_invoked_connect_userspace up to the check of the send. *)
Definition struct_reply (r : request) : ST nlst bool :=
  printk (LText "Entering: callback_invoked_connect_userspace");;
  let msg_size := sizeof_Response in
  let req := rq_payload r in
  printk (LText "Recieved from Userspace:");;
  print_response req;;
  let pid := rq_pid r in
  skb_out ← new_skb msg_size;
  match skb_out with
  | None => printk (LText "Failed to allocate new skb");; mret false
  | Some skb_out =>
      nlh ← put_msg skb_out 0 0 NLMSG_DONE msg_size 0;
      req ← st_opt (update_response req);
      printk (LText "Sending to Userspace:");;
      print_response req;;
      d ← st_opt (buf_store (nlmsg_data nlh) 0 (Some <$> take sizeof_Response req));
      res ← do_send (Unicast pid (with_data nlh d));
      if (res <? 0)%Z then printk (LText "Error while sending bak to user");; mret false
      else mret true
  end.

(** The loop body of multicast_start; the buffer is not freed when the function
    returns early. *)
Definition struct_round : ST nlst bool :=
  msg ← kmalloc sizeof_multicast_mesg;
  let msg_size := sizeof_multicast_mesg in
  msg ← st_opt msg;
  msg ← st_opt (strcpy msg off_name (text "Hello From Kernel"));
  msg ← st_opt (strcpy msg off_process (text "World of NetLink"));
  name ← st_opt (cell_string (drop off_name msg));
  process ← st_opt (cell_string (drop off_process msg));
  printk (LStr "------ Creating skb. -------:%d, %s" name);;
  printk (LStr ", %s" process);;
  skb ← new_skb (NLMSG_ALIGN msg_size);
  match skb with
  | None => printk (LText "Allocation failure.");; mret false
  | Some skb =>
      nlh ← put_msg skb 0 1 NLMSG_DONE msg_size 0;
      d ← st_opt (buf_store (nlmsg_data nlh) 0 msg);
      printk (LText "Sending skb.");;
      res ← do_send (Multicast MYGRP (with_data nlh d));
      printk (if (res <? 0)%Z then LNum "nlmsg_multicast() error: %d , no one receive" res
              else LText "Success the message.");;
      kfree;;
      mret true
  end.

End kernel.

(** ** Specification *)

(** The bytes of a structure. *)
Definition encode (r : Response) : list Z :=
  le_split 4 (index r) ++ le_split 4 (dataSize r) ++ data r ++
  le_split 4 (test2 r) ++ le_split 4 (test3 r) ++ le_split 4 (test4 r).

(** The numbers are [int]s and the array has its size. *)
Record response_ok (r : Response) : Prop := {
  ro_index : in_s32 (index r);
  ro_dataSize : in_s32 (dataSize r);
  ro_data : length (data r) = DATA_SIZE;
  ro_test2 : in_s32 (test2 r);
  ro_test3 : in_s32 (test3 r);
  ro_test4 : in_s32 (test4 r) }.

(** The answer to a structure. *)
Definition answer (r : Response) : Response :=
  let reply := text "Data from Kernel" ++ [0%Z] in
  MkResponse (s32 (index r * 100)) (s32 (dataSize r * 100)) (reply ++ drop (length reply) (data r))
    (s32 (test2 r * 100)) (s32 (test3 r * 100)) (s32 (test4 r * 100)).

(** ** Lemmas *)

Lemma get_int_at pre z rest off :
  in_s32 z → off = length pre → get_int (pre ++ le_split 4 z ++ rest) off = Some z.
Proof.
  intros Hz ->. unfold get_int. rewrite !length_app le_split_length bool_decide_true; [lia|].
  rewrite drop_app_length take_app_length'; [by rewrite le_split_length|]. by rewrite s32_le_split.
Qed.

Lemma put_bytes_at pre old bs rest off :
  off = length pre → length old = length bs →
  put_bytes (pre ++ old ++ rest) off bs = Some (pre ++ bs ++ rest).
Proof.
  intros -> Hl. unfold put_bytes. rewrite !length_app bool_decide_true; [lia|].
  rewrite take_app_length -drop_drop drop_app_length drop_app_length'; [lia|done].
Qed.

Lemma times100_at pre z rest off :
  in_s32 z → off = length pre →
  times100 (pre ++ le_split 4 z ++ rest) off = Some (pre ++ le_split 4 (s32 (z * 100)) ++ rest).
Proof.
  intros Hz Hoff. unfold times100. rewrite get_int_at //=. unfold put_int.
  rewrite put_bytes_at // !le_split_length //.
Qed.

Lemma get_int_short b off : length b < off + 4 → get_int b off = None.
Proof. intros H. unfold get_int. rewrite bool_decide_false //. lia. Qed.

Lemma answer_ok r : response_ok r → response_ok (answer r).
Proof.
  intros []. split; try apply s32_range. unfold answer. cbn [data].
  rewrite length_app length_drop. pose proof DATA_SIZE_val.
  change (length (text "Data from Kernel" ++ [0%Z])) with 17. lia.
Qed.

Lemma encode_length r : response_ok r → length (encode r) = sizeof_Response.
Proof.
  intros []. unfold encode, sizeof_Response. rewrite !length_app !le_split_length. lia.
Qed.

(** The fields of an encoded structure followed by anything. *)
Lemma encode_fields r rest : response_ok r →
  get_int (encode r ++ rest) off_index = Some (index r) ∧
  get_int (encode r ++ rest) off_dataSize = Some (dataSize r) ∧
  drop off_data (encode r ++ rest) =
    data r ++ le_split 4 (test2 r) ++ le_split 4 (test3 r) ++ le_split 4 (test4 r) ++ rest ∧
  get_int (encode r ++ rest) off_test2 = Some (test2 r) ∧
  get_int (encode r ++ rest) off_test3 = Some (test3 r) ∧
  get_int (encode r ++ rest) off_test4 = Some (test4 r).
Proof.
  intros []. unfold encode. rewrite -!app_assoc.
  assert (E : ∀ l1 l2 l3 : list Z, l1 ++ l2 ++ l3 = (l1 ++ l2) ++ l3) by (intros; apply app_assoc).
  split_and!.
  - by apply (get_int_at []).
  - by apply get_int_at.
  - rewrite E. apply drop_app_length'. by rewrite length_app !le_split_length.
  - rewrite E E. apply get_int_at; [done|]. rewrite !length_app !le_split_length /off_test2. lia.
  - rewrite E E E. apply get_int_at; [done|]. rewrite !length_app !le_split_length /off_test3. lia.
  - rewrite E E E E. apply get_int_at; [done|]. rewrite !length_app !le_split_length /off_test4. lia.
Qed.

Lemma update_encode r rest : response_ok r →
  update_response (encode r ++ rest) = Some (encode (answer r) ++ rest).
Proof.
  intros [Hi Hds Hdt H2 H3 H4]. unfold update_response, encode, answer, off_test2, off_test3, off_test4.
  cbn [index dataSize data test2 test3 test4]. rewrite -!app_assoc.
  assert (E : ∀ l1 l2 l3 : list Z, l1 ++ l2 ++ l3 = (l1 ++ l2) ++ l3) by (intros; apply app_assoc).
  pose proof DATA_SIZE_val as HD. revert Hdt HD. generalize DATA_SIZE as D. intros D Hdt HD. set (reply := text "Data from Kernel" ++ [0%Z]).
  assert (Hreply : length reply = 17) by done.
  rewrite (times100_at []) // app_nil_l. cbn [mbind option_bind].
  rewrite times100_at //. cbn [mbind option_bind].
  rewrite -{1}(take_drop 17 (data r)) -(app_assoc (take 17 _)) E put_bytes_at.
  { by rewrite length_app !le_split_length. }
  { rewrite length_take Hreply. lia. }
  cbn [mbind option_bind]. rewrite (E reply) E.
  assert (Hd : length (reply ++ drop 17 (data r)) = D) by (rewrite length_app length_drop; lia).
  rewrite times100_at //. { rewrite length_app Hd length_app !le_split_length. lia. }
  cbn [mbind option_bind]. rewrite E.
  rewrite times100_at //. { rewrite 2!length_app Hd length_app !le_split_length. lia. }
  cbn [mbind option_bind]. rewrite E.
  rewrite times100_at //. { rewrite 3!length_app Hd length_app !le_split_length. lia. }
  rewrite -!app_assoc. reflexivity.
Qed.

(** Every message long enough holds a structure. *)
Lemma decode b : Forall is_byte b → sizeof_Response ≤ length b →
  ∃ r rest, b = encode r ++ rest ∧ response_ok r.
Proof.
  intros Hb Hl. unfold sizeof_Response in Hl.
  assert (Hint : ∀ off, off + 4 ≤ length b →
    take 4 (drop off b) = le_split 4 (s32 (le_join (take 4 (drop off b))))).
  { intros off Ho. apply bytes_s32; [by apply Forall_take, Forall_drop|].
    rewrite length_take length_drop. lia. }
  set (num off := s32 (le_join (take 4 (drop off b)))).
  exists (MkResponse (num 0) (num 4) (take DATA_SIZE (drop 8 b)) (num (8 + DATA_SIZE))
            (num (12 + DATA_SIZE)) (num (16 + DATA_SIZE))), (drop (20 + DATA_SIZE) b).
  split; [|split; try apply s32_range; cbn [data]; rewrite length_take length_drop; lia].
  unfold encode, num. cbn [index dataSize data test2 test3 test4].
  revert Hl. generalize DATA_SIZE as D. intros D Hl.
  rewrite -(Hint 0) -?(Hint 4) -?(Hint (8 + D)) -?(Hint (12 + D)) -?(Hint (16 + D)); [lia..|].
  rewrite -!app_assoc.
  rewrite (_ : drop (20 + D) b = drop 4 (drop (16 + D) b)); [rewrite drop_drop; f_equal; lia|].
  rewrite take_drop (_ : drop (16 + D) b = drop 4 (drop (12 + D) b)); [rewrite drop_drop; f_equal; lia|].
  rewrite take_drop (_ : drop (12 + D) b = drop 4 (drop (8 + D) b)); [rewrite drop_drop; f_equal; lia|].
  rewrite take_drop (_ : drop (8 + D) b = drop D (drop 8 b)); [rewrite drop_drop; f_equal; lia|].
  rewrite take_drop (_ : drop 8 b = drop 4 (drop 4 b)); [by rewrite drop_drop|].
  by rewrite take_drop drop_0 take_drop.
Qed.

(** Only lines were printed. *)
Definition printed (s s' : nlst) : Prop :=
  ∃ l, s' = Nlst (nl_sk s) (netlinkThread s) (alive s) (live s) (sent s) l
                 (n_new s) (n_send s) (n_kmalloc s) (n_thread s).

Section proofs.
Context `{K : NetlinkLib, L : !NetlinkLaws K}.

Lemma printed_trans s1 s2 s3 : printed s1 s2 → printed s2 s3 → printed s1 s3.
Proof. intros [l ->] [l' ->]. by exists l'. Qed.

Lemma st_opt_run {A B} (a : A) (k : A → ST nlst B) s Q :
  runs (k a) s Q → runs (st_opt (Some a) ≫= k) s Q.
Proof. done. Qed.

Lemma printk_run {B} l (k : ST nlst B) s Q :
  (∀ s', printed s s' → runs k s' Q) → runs (printk l;; k) s Q.
Proof. intros H. apply H. by eexists. Qed.

Lemma print_response_run b i d t x y z s :
  get_int b off_index = Some i → get_int b off_dataSize = Some d →
  c_string (drop off_data b) = Some t → get_int b off_test2 = Some x →
  get_int b off_test3 = Some y → get_int b off_test4 = Some z →
  runs (print_response b) s (λ _ s', printed s s').
Proof.
  intros E1 E2 Ht E3 E4 E5. unfold print_response. rewrite E1 E2 Ht E3 E4 E5. clear.
  do 5 (apply st_opt_run, printk_run; intros ? ?). apply st_opt_run.
  eexists _, _. split; [reflexivity|]. repeat (eapply printed_trans; [eassumption|]). by eexists.
Qed.

Lemma print_response_spec r rest t s :
  response_ok r → c_string (drop off_data (encode r ++ rest)) = Some t →
  runs (print_response (encode r ++ rest)) s (λ _ s', printed s s').
Proof.
  intros Hr Ht. destruct (encode_fields r rest Hr) as (E1 & E2 & _ & E3 & E4 & E5).
  exact (print_response_run _ _ _ _ _ _ _ _ E1 E2 Ht E3 E4 E5).
Qed.

Lemma print_response_stuck b s :
  length b < sizeof_Response ∨ c_string (drop off_data b) = None → print_response b s = None.
Proof.
  intros H. unfold print_response.
  do 4 (apply st_bind_stuck; intros ??).
  destruct H as [H|H]; [|by apply st_bind_none; rewrite H].
  do 6 (apply st_bind_stuck; intros ??). apply st_bind_none.
  rewrite get_int_short; [unfold sizeof_Response, off_test4 in *; lia|done].
Qed.

(** The text of the answer. *)
Lemma answer_text r rest : response_ok r →
  c_string (drop off_data (encode (answer r) ++ rest)) = Some (text "Data from Kernel").
Proof.
  intros Hr. destruct (encode_fields (answer r) rest) as (_ & _ & -> & _); [by apply answer_ok|].
  unfold answer. cbn [data]. rewrite -!app_assoc. apply c_string_app.
  by apply (bool_decide_unpack _).
Qed.

(** The message sent back. *)
Definition struct_unicast (r : Response) : nlmsg :=
  Nlmsg (NLMSG_HDRLEN + sizeof_Response) NLMSG_DONE 0 0 0 (Some <$> encode (answer r)).

Lemma struct_reply_spec req r rest s :
  nl_sk s = SOpen → response_ok r → rq_payload req = encode r ++ rest →
  is_Some (c_string (drop off_data (rq_payload req))) →
  runs (struct_reply req) s (λ ok s',
    same_pointers s s' ∧ n_new s' = S (n_new s) ∧
    match nlmsg_new (n_new s) sizeof_Response with
    | Some _ => ok = negb (send_result (n_send s) <? 0)%Z ∧
                sent s' = sent s ++ [Unicast (rq_pid req) (struct_unicast r)]
    | None => ok = false ∧ sent s' = sent s
    end).
Proof.
  intros Hsk Hr Hreq [t Ht]. unfold struct_reply. rewrite Hreq in Ht |- *.
  apply runs_bind. eexists _, _. split; [reflexivity|].
  apply runs_bind. eexists _, _. split; [reflexivity|].
  apply runs_bind. eapply runs_wand; [by eapply print_response_spec|]. intros _ ? [l ->].
  cbn [nl_sk netlinkThread alive live sent n_new n_send n_kmalloc n_thread].
  apply runs_bind. eexists _, _. split; [reflexivity|]. cbn [n_new].
  destruct (nlmsg_new (n_new s) sizeof_Response) as [b|] eqn:E.
  2:{ apply runs_bind. eexists _, _. split; [reflexivity|]. apply runs_ret. by repeat split. }
  apply runs_bind. eexists _, _. split; [by apply (put_msg_fresh _ _ _ _ _ _ _ _ _ E)|].
  apply runs_bind. eexists _, _. split; [by rewrite update_encode|].
  apply runs_bind. eexists _, _. split; [reflexivity|].
  apply runs_bind. eapply runs_wand; [eapply print_response_spec; [by apply answer_ok|by apply answer_text]|].
  intros _ ? [l' ->]. cbn [nl_sk netlinkThread alive live sent n_new n_send n_kmalloc n_thread nlmsg_data].
  pose proof (encode_length (answer r) (answer_ok r Hr)) as Hlen.
  apply runs_bind. eexists _, _. split.
  { rewrite take_app_length' //. rewrite buf_store_some; [|done].
    by rewrite length_fmap Hlen length_replicate. }
  apply runs_bind. eexists _, _. split; [unfold do_send; cbn [nl_sk]; by rewrite Hsk|]. cbn [n_send].
  rewrite take_0 length_fmap Hlen drop_ge ?length_replicate //= app_nil_r.
  destruct (send_result (n_send s) <? 0)%Z; [apply runs_bind; eexists _, _; split; [reflexivity|]|];
    apply runs_ret; by repeat split.
Qed.

(** A request long enough whose text ends inside it. *)
Definition struct_valid (req : request) : Prop :=
  Forall is_byte (rq_payload req) ∧ sizeof_Response ≤ length (rq_payload req) ∧
  is_Some (c_string (drop off_data (rq_payload req))).

(** The multicast structure: two texts, each in an array that is not initialised behind it. *)
Definition mesg : list cell :=
  let name := Some <$> (text "Hello From Kernel" ++ [0%Z]) in
  let process := Some <$> (text "World of NetLink" ++ [0%Z]) in
  name ++ replicate (NAME_SIZE - length name) None ++
  process ++ replicate (NAME_SIZE - length process) None.

Definition struct_multicast : nlmsg :=
  Nlmsg (NLMSG_HDRLEN + sizeof_multicast_mesg) NLMSG_DONE 0 1 0 mesg.

Lemma mesg_length : length mesg = sizeof_multicast_mesg.
Proof.
  unfold mesg, sizeof_multicast_mesg. pose proof NAME_SIZE_val. revert H. generalize NAME_SIZE as D.
  intros D HD. rewrite !length_app !length_replicate !length_fmap.
  change (length (text "Hello From Kernel" ++ [0%Z])) with 18.
  change (length (text "World of NetLink" ++ [0%Z])) with 17. lia.
Qed.

Lemma mesg_unknown : unknown mesg = sizeof_multicast_mesg - 35.
Proof.
  unfold mesg, sizeof_multicast_mesg. pose proof NAME_SIZE_val. revert H. generalize NAME_SIZE as D.
  intros D HD. rewrite !unknown_app !unknown_known !unknown_replicate !length_fmap.
  change (length (text "Hello From Kernel" ++ [0%Z])) with 18.
  change (length (text "World of NetLink" ++ [0%Z])) with 17. lia.
Qed.

(** The two copies into a fresh buffer. *)
Lemma fill_mesg : ∃ half,
  strcpy (replicate sizeof_multicast_mesg None) off_name (text "Hello From Kernel") = Some half ∧
  strcpy half off_process (text "World of NetLink") = Some mesg.
Proof.
  unfold mesg, sizeof_multicast_mesg, off_process, off_name, strcpy.
  pose proof NAME_SIZE_val. revert H. generalize NAME_SIZE as D. intros D HD.
  set (name := Some <$> (text "Hello From Kernel" ++ [0%Z])).
  set (process := Some <$> (text "World of NetLink" ++ [0%Z])).
  assert (Hn : length name = 18) by done. assert (Hp : length process = 17) by done. clearbody name process.
  exists (name ++ replicate (D - length name) None ++ replicate D None). split.
  - rewrite (_ : replicate (D + D) None = [] ++ replicate 18 None ++ replicate (D - length name) None ++ replicate D None).
    { rewrite app_nil_l -!replicate_add. f_equal. lia. }
    by rewrite buf_store_at // length_replicate.
  - rewrite (_ : replicate D None = replicate 17 None ++ replicate (D - length process) None).
    { rewrite -replicate_add. f_equal. lia. }
    rewrite app_assoc buf_store_at; [rewrite length_app length_replicate; lia|by rewrite length_replicate|].
    by rewrite -app_assoc.
Qed.

Lemma mesg_strings :
  cell_string (drop off_name mesg) = Some (text "Hello From Kernel") ∧
  cell_string (drop off_process mesg) = Some (text "World of NetLink").
Proof.
  unfold mesg, off_name, off_process. pose proof NAME_SIZE_val. revert H. generalize NAME_SIZE as D.
  intros D HD. split.
  - rewrite drop_0. apply cell_string_app. by apply (bool_decide_unpack _).
  - rewrite app_assoc drop_app_length'.
    { rewrite length_app length_replicate length_fmap.
      change (length (text "Hello From Kernel" ++ [0%Z])) with 18. lia. }
    apply cell_string_app. by apply (bool_decide_unpack _).
Qed.

(** One round of the thread, when the structure can be allocated. *)
Lemma struct_round_spec s :
  nl_sk s = SOpen → kmalloc_ok (n_kmalloc s) = true →
  runs struct_round s (λ ok s',
    nl_sk s' = nl_sk s ∧ netlinkThread s' = netlinkThread s ∧ alive s' = alive s ∧
    n_thread s' = n_thread s ∧
    match nlmsg_new (n_new s) (NLMSG_ALIGN sizeof_multicast_mesg) with
    | Some _ => ok = true ∧ live s' = live s ∧ sent s' = sent s ++ [Multicast MYGRP struct_multicast]
    | None => ok = false ∧ live s' = S (live s) ∧ sent s' = sent s
    end).
Proof.
  intros Hsk Hk. unfold struct_round. destruct fill_mesg as (half & E1 & E2).
  destruct mesg_strings as [E3 E4].
  apply runs_bind. eexists _, _. split; [unfold kmalloc; by rewrite Hk|].
  apply st_opt_run. rewrite E1. apply st_opt_run. rewrite E2. apply st_opt_run.
  rewrite E3 E4. do 2 apply st_opt_run.
  do 2 (apply printk_run; intros ? [? ->]; cbn [nl_sk netlinkThread alive live sent n_new n_send n_kmalloc n_thread]).
  apply runs_bind. eexists _, _. split; [reflexivity|].
  cbn [nl_sk netlinkThread alive live sent n_new n_send n_kmalloc n_thread].
  destruct (nlmsg_new (n_new s) (NLMSG_ALIGN sizeof_multicast_mesg)) as [b|] eqn:E.
  2:{ apply printk_run; intros ? [? ->]. apply runs_ret. by repeat split. }
  apply runs_bind. eexists _, _. split; [apply (put_msg_fresh _ _ _ _ _ _ _ _ _ E), NLMSG_ALIGN_ge|].
  cbn [nlmsg_data].
  assert (Hst : buf_store (replicate sizeof_multicast_mesg None) 0 mesg = Some mesg).
  { rewrite buf_store_some; [by rewrite mesg_length length_replicate|].
    by rewrite mesg_length take_0 drop_ge ?length_replicate // app_nil_r. }
  rewrite Hst. apply st_opt_run. apply printk_run; intros ? [? ->].
  apply runs_bind. eexists _, _. split; [unfold do_send; cbn [nl_sk]; by rewrite Hsk|].
  apply printk_run; intros ? [? ->].
  apply runs_bind. eexists _, _. split; [reflexivity|]. apply runs_ret. by repeat split.
Qed.

(** The module behind the interface of [NlThread]. *)
#[export] Instance struct_module : NlModule := {|
  nm_reply := struct_reply;
  nm_round := struct_round;
  nm_valid := struct_valid |}.

#[export] Instance struct_laws : NlModuleLaws struct_module.
Proof.
  split.
  - intros req s Hsk (Hb & Hl & Hs). destruct (decode _ Hb Hl) as (r & rest & Hreq & Hr).
    eapply runs_wand; [by eapply struct_reply_spec|].
    intros ok s' (Hsame & Hn & H). split_and!; [done..|].
    destruct (nlmsg_new (n_new s) sizeof_Response) eqn:E; destruct H as [-> ->].
    + exists [Unicast (rq_pid req) (struct_unicast r)]. split_and!; [done| |done|].
      * constructor; [eauto|constructor].
      * intros _ Hz. by destruct (Z.ltb_spec (send_result (n_send s)) 0); [lia|].
    + exists []. rewrite app_nil_r. split_and!; [done|constructor|done|].
      intros Hsz. destruct (Hsz sizeof_Response) as [? ?]. congruence.
  - intros s Hsk (Hnew & Hk & _). eapply runs_wand; [by apply struct_round_spec|].
    intros ok s' (E1 & E2 & E3 & E4 & H).
    destruct (Hnew (n_new s) (NLMSG_ALIGN sizeof_multicast_mesg)) as [b E]. rewrite E in H.
    destruct H as (-> & E5 & ->). split_and!; [done| |eauto]. by split_and!.
  - intros s Hsk Hk Hnone. eapply runs_wand; [by apply struct_round_spec|].
    intros ok s' (E1 & E2 & E3 & E4 & H). rewrite Hnone in H. by destruct H as [-> _].
Qed.

(** The functions of the module: the frame of [NlThread] around the two parts above. *)
Definition struct_callback (req : request) : ST nlst unit := callback_invoked_connect_userspace req.

Definition struct_multicast_start (stops : list bool) : ST nlst (option Z) := multicast_start stops.

Definition struct_test_init : ST nlst Z := netlink_test_init.

(** netlink_test_exit: a thread asked to stop ends with its next round, and kthread_stop waits
    for it. *)
Definition struct_test_exit (m : nlmod) : option nlmod :=
  let waits := match netlinkThread (m_st m) with TTask id => [ERound id] | _ => [] end in
  exec m (EExit :: waits ++ [ERelease]).

(** *** Properties *)

(** C18: the request handler on every message. When the message holds a whole structure and
    its text ends inside the message, the handler answers the process in the header with
    exactly the structure in which every number is multiplied by 100 (modulo 2^32, as a
    signed number) and the text replaced, the rest of the array being the sender's, if a
    buffer can be allocated, and changes nothing else of the module. The
    length is never checked: on every shorter message, and on every text without
    end, it reads outside the message. *)
Theorem struct_answers req s :
  nl_sk s = SOpen → Forall is_byte (rq_payload req) →
  (struct_valid req →
    ∃ r rest, rq_payload req = encode r ++ rest ∧ response_ok r ∧
    runs (struct_reply req) s (λ ok s',
      same_pointers s s' ∧
      match nlmsg_new (n_new s) sizeof_Response with
      | Some _ => ok = negb (send_result (n_send s) <? 0)%Z ∧
                  sent s' = sent s ++ [Unicast (rq_pid req) (struct_unicast r)]
      | None => ok = false ∧ sent s' = sent s
      end)) ∧
  (¬ struct_valid req → struct_reply req s = None).
Proof.
  intros Hsk Hb. split.
  - intros (_ & Hl & Hs). destruct (decode _ Hb Hl) as (r & rest & Hreq & Hr).
    exists r, rest. split_and!; [done..|]. eapply runs_wand; [by eapply struct_reply_spec|]. naive_solver.
  - intros Hv. unfold struct_reply. do 2 (apply st_bind_stuck; intros ? ?). apply st_bind_none.
    apply print_response_stuck. destruct (decide (sizeof_Response ≤ length (rq_payload req))); [right|left; lia].
    apply eq_None_not_Some. intros Hs. by apply Hv.
Qed.

(** what the thread multicasts. The structure is copied from a buffer of which only
    the two texts are initialised: of its 2048 bytes all but 35 are whatever the allocator left
    there, and all of them are sent to every member of the group. When no socket buffer
    can be had, the structure's buffer is never freed; when the buffer itself is
    refused, the thread writes through a null pointer. *)
Theorem struct_multicast_discloses s :
  nl_sk s = SOpen →
  (kmalloc_ok (n_kmalloc s) = true →
    runs struct_round s (λ ok s',
      match nlmsg_new (n_new s) (NLMSG_ALIGN sizeof_multicast_mesg) with
      | Some _ => ok = true ∧ live s' = live s ∧ ∃ m,
          sent s' = sent s ++ [Multicast MYGRP m] ∧
          Z.of_nat (length (nlmsg_data m)) = 2048%Z ∧ Z.of_nat (unknown (nlmsg_data m)) = (2048 - 35)%Z
      | None => ok = false ∧ live s' = S (live s) ∧ sent s' = sent s
      end)) ∧
  (kmalloc_ok (n_kmalloc s) = false → struct_round s = None).
Proof.
  intros Hsk. split; intros Hk.
  - eapply runs_wand; [by apply struct_round_spec|]. intros ok s' (_ & _ & _ & _ & H).
    destruct (nlmsg_new _ _); [|done]. destruct H as (-> & E & Es). split_and!; [done..|].
    eexists. split; [exact Es|]. unfold struct_multicast. cbn [nlmsg_data].
    rewrite mesg_unknown mesg_length. unfold sizeof_multicast_mesg. pose proof NAME_SIZE_val. lia.
  - unfold struct_round. eapply eq_trans; [apply st_bind_some; unfold kmalloc; by rewrite Hk|]. done.
Qed.

End proofs.

(** ** Witnesses *)

(** A structure that fills its message, with an empty text. *)
Definition zero_request : request :=
  Request 42 (encode (MkResponse 1 2 (replicate DATA_SIZE 0%Z) 3 4 5)).

Definition open_state : nlst := Nlst SOpen TNull [] 0 [] [] 0 0 0 0.

Lemma zero_request_valid : struct_valid zero_request ∧ Forall is_byte (rq_payload zero_request).
Proof.
  assert (Hok : response_ok (MkResponse 1 2 (replicate DATA_SIZE 0%Z) 3 4 5)).
  { split; cbn; try (unfold in_s32; lia). by rewrite length_replicate. }
  assert (Hb : Forall is_byte (rq_payload zero_request)).
  { unfold zero_request, encode. cbn [rq_payload index dataSize data test2 test3 test4].
    rewrite !Forall_app. split_and!; try apply le_split_bytes.
    apply Forall_replicate. unfold is_byte. lia. }
  split; [|done]. split_and!; [done| |].
  - unfold zero_request. cbn [rq_payload]. by rewrite encode_length.
  - unfold zero_request. cbn [rq_payload].
    rewrite -(app_nil_r (encode _)). destruct (encode_fields _ [] Hok) as (_ & _ & -> & _).
    cbn [data]. pose proof DATA_SIZE_val. destruct DATA_SIZE; [done|]. by eexists.
Qed.

Lemma struct_answers_witness :
  ∃ r rest, rq_payload zero_request = encode r ++ rest ∧ response_ok r ∧
    runs (struct_reply (K := willing_lib) zero_request) open_state (λ ok s',
      same_pointers open_state s' ∧ ok = true ∧ sent s' = [Unicast 42 (struct_unicast r)]).
Proof.
  apply (proj1 (struct_answers (K := willing_lib) zero_request open_state eq_refl
    (proj2 zero_request_valid)) (proj1 zero_request_valid)).
Defined.

Lemma struct_multicast_discloses_witness :
  runs (struct_round (K := willing_lib)) open_state (λ ok s',
    ok = true ∧ live s' = 0 ∧ ∃ m, sent s' = [Multicast MYGRP m] ∧
      Z.of_nat (length (nlmsg_data m)) = 2048%Z ∧ Z.of_nat (unknown (nlmsg_data m)) = (2048 - 35)%Z).
Proof.
  exact (proj1 (struct_multicast_discloses (K := willing_lib) open_state eq_refl) eq_refl).
Defined.
