(* ===== verification/NlUser.v ===== *)
(** * The userspace sides of the netlink modules

    The programs userspace_test.c of NetLink_Unicast_test, NetLink_Mix_unicast_Multicast and
    NetLink_Structure_message_Send: each sends a request and prints the kernel's
    answer; the last two then listen to the multicasts. [reply] is what recvmsg delivers for the request
    that was sent, [None] when it fails; the programs look at neither result. They are composed
    here with the kernel modules of [NlHello] and [NlStruct]. *)

From Stdlib Require Import ZArith Lia ssreflect.
From stdpp Require Import base list numbers strings.
From S2P Require Import Prelude CString Bytes Netlink NlHello NlThread NlStruct.

(** ** Buffers *)

(** [recvmsg] into a buffer: the bytes received in front, cut off at its end; as it was on an
    error. *)
Definition recvmsg (buffer : list cell) (received : option (list cell)) : list cell :=
  match received with
  | Some bs => take (length buffer) bs ++ drop (length bs) buffer
  | None => buffer
  end.

(** [MAX_PAYLOAD] of the structure example, and of the other two. *)
Definition MAX_PAYLOAD : nat := Z.to_nat 8192.
Definition MAX_PAYLOAD_hello : nat := Z.to_nat 1024.

Lemma MAX_PAYLOAD_val : Z.of_nat MAX_PAYLOAD = 8192%Z.
Proof. reflexivity. Qed.

Lemma MAX_PAYLOAD_hello_val : Z.of_nat MAX_PAYLOAD_hello = 1024%Z.
Proof. reflexivity. Qed.

#[global] Opaque MAX_PAYLOAD MAX_PAYLOAD_hello.

(** The message of a zeroed buffer with the given payload: length and process id are set. *)
Definition user_message (pid : Z) (payload : list Z) : nlmsg :=
  Nlmsg (NLMSG_HDRLEN + length payload) 0 0 0 pid (Some <$> payload).

(** An [int] in memory. *)
Definition cell_int (b : list cell) (off : nat) : option Z :=
  if bool_decide (off + 4 ≤ length b) then s32 ∘ le_join <$> known (take 4 (drop off b)) else None.

(** ** The unicast and the mixed program *)

(** The payload: [strcpy(NLMSG_DATA(nlh), "Hello")] in a zeroed buffer. *)
Definition hello_payload : option (list Z) :=
  put_bytes (replicate MAX_PAYLOAD_hello 0%Z) 0 (text "Hello" ++ [0%Z]).

(** [main] of the unicast program: its result and its lines. Without memory the buffer is
    cleared through a null pointer. *)
Definition unicast_main (sock_fd : Z) (malloc : bool) (pid : Z) (reply : request → option (list cell)) :
    option (Z * list nl_line) :=
  if (sock_fd <? 0)%Z then Some ((-1)%Z, [])
  else if negb malloc then None
  else
    payload ← hello_payload;
    let buffer := recvmsg (msg_bytes (user_message pid payload)) (reply (Request pid payload)) in
    s ← cell_string (drop NLMSG_HDRLEN buffer);
    Some (0%Z, [LText "Sending message to kernel"; LText "Waiting for message from kernel";
                LStr "Received message payload: %s" s]).

(** [recvmsg] of the mixed program is given a second message header, which is never
    initialised: where it points to is indeterminate. *)
Definition recvmsg_at (header : option (list cell)) (received : option (list cell)) : option (list cell) :=
  buffer ← header; Some (recvmsg buffer received).

Definition registration_kernel_mix (sock_fd : Z) (malloc : bool) (pid : Z)
    (reply : request → option (list cell)) : option (Z * list nl_line) :=
  if (sock_fd <? 0)%Z then Some ((-1)%Z, [])
  else if negb malloc then None
  else
    payload ← hello_payload;
    let nlh := msg_bytes (user_message pid payload) in
    let msg1 := None in
    _ ← recvmsg_at msg1 (reply (Request pid payload));
    s ← cell_string (drop NLMSG_HDRLEN nlh);
    Some (0%Z, [LText "Sending message to kernel"; LText "Waiting for message from kernel";
                LStr "Received message payload: %s" s]).

(** [main] of the mixed program: [open_netlink] and [read_event] of [NlHello] are the same
    functions as its two others; [inl] is the exit status. *)
Definition mix_main (sock_fd : Z) (malloc : bool) (pid : Z) (reply : request → option (list cell))
    (a : sock_answers) (received : list (option (list cell))) : option (list nl_line * (Z + list event_line)) :=
  '(nls, lines) ← registration_kernel_mix sock_fd malloc pid reply;
  if (nls <? 0)%Z then Some (lines, inl nls)
  else
    let '(nls, text) := open_netlink a in
    let lines := lines ++ (LText <$> text) in
    if (nls <? 0)%Z then Some (lines, inl nls)
    else events ← read_events received; Some (lines, inr events).

(** ** The structure program *)

(** The structure on the stack: the array keeps old contents behind its text. *)
Definition sent_struct (stack : list Z) : Response :=
  let s := text "Data from User" ++ [0%Z] in
  MkResponse 1 2 (s ++ drop (length s) stack) 3 4 5.

Definition struct_payload (stack : list Z) : option (list Z) :=
  put_bytes (replicate MAX_PAYLOAD 0%Z) 0 (encode (sent_struct stack)).

Definition response_lines (i d : Z) (t : list Z) (x y z : Z) : list nl_line :=
  [LNum "index %d" i; LNum "dataSize %d" d; LStr "data: %s" t; LNum "test2 %d" x; LNum "test3 %d" y;
   LNum "test4 %d" z].

(** The six lines that show the structure at the start of some memory. *)
Definition show_response (b : list cell) : option (list nl_line) :=
  i ← cell_int b off_index; d ← cell_int b off_dataSize;
  t ← cell_string (drop off_data b);
  x ← cell_int b off_test2; y ← cell_int b off_test3; z ← cell_int b off_test4;
  Some (response_lines i d t x y z).

Definition registration_kernel (sock_fd : Z) (malloc : bool) (pid : Z) (stack : list Z)
    (reply : request → option (list cell)) : option (Z * list nl_line) :=
  if (sock_fd <? 0)%Z then Some ((-1)%Z, [])
  else if negb malloc then None
  else
    shown ← show_response (Some <$> encode (sent_struct stack));
    payload ← struct_payload stack;
    let buffer := recvmsg (msg_bytes (user_message pid payload)) (reply (Request pid payload)) in
    received ← show_response (drop NLMSG_HDRLEN buffer);
    Some (0%Z, LText "Sending to Kernel:" :: shown ++
      [LText "Sending message to kernel"; LText "Waiting for message from kernel";
       LText "Received message payload: %p"; LText "Recieved from Kernel:"] ++ received).

(** The multicast receiver: its buffer is new and zeroed for every event, and is printed
    even after an error. *)
Definition read_event_from_kernel (malloc : bool) (pid : Z) (received : option (list cell)) :
    option (list nl_line) :=
  if negb malloc then None
  else
    let buffer := recvmsg (msg_bytes (user_message pid (replicate MAX_PAYLOAD 0%Z))) received in
    let req := drop NLMSG_HDRLEN buffer in
    name ← cell_string (drop off_name req);
    process ← cell_string (drop off_process req);
    Some ([LText "Ok, listening."] ++
      [match received with None => LText "ret < 0." | Some _ => LText "Received message payload: %p" end] ++
      [LStr "DATA1: %s" name; LStr "DATA2: %s" process]).

Fixpoint read_events_struct (malloc : bool) (pid : Z) (received : list (option (list cell))) :
    option (list nl_line) :=
  match received with
  | [] => Some []
  | r :: received =>
      l ← read_event_from_kernel malloc pid r;
      ls ← read_events_struct malloc pid received;
      Some (l ++ ls)
  end.

(** [main]: the registration, the multicast socket ([open_netlink] of [NlHello] is the same
    function), and the events as long as they come; [inl] is the exit status. *)
Definition struct_main (sock_fd : Z) (malloc : bool) (pid : Z) (stack : list Z)
    (reply : request → option (list cell)) (a : sock_answers) (received : list (option (list cell))) :
    option (list nl_line * (Z + list nl_line)) :=
  '(nls, lines) ← registration_kernel sock_fd malloc pid stack reply;
  if (nls <? 0)%Z then Some (lines, inl nls)
  else
    let '(nls, text) := open_netlink a in
    let lines := lines ++ (LText <$> text) in
    if (nls <? 0)%Z then Some (lines, inl nls)
    else events ← read_events_struct malloc pid received; Some (lines, inr events).

(** ** Lemmas *)

(** The header of a message. *)
Lemma msg_bytes_split m : ∃ h, msg_bytes m = h ++ nlmsg_data m ∧ length h = NLMSG_HDRLEN.
Proof. eexists. split; [reflexivity|]. by rewrite length_fmap !length_app !le_split_length. Qed.

Lemma msg_bytes_drop m : drop NLMSG_HDRLEN (msg_bytes m) = nlmsg_data m.
Proof. destruct (msg_bytes_split m) as (h & -> & <-). by rewrite drop_app_length. Qed.

(** A message received in the buffer of another. *)
Lemma recvmsg_message u m :
  length (nlmsg_data m) ≤ length (nlmsg_data u) →
  drop NLMSG_HDRLEN (recvmsg (msg_bytes u) (Some (msg_bytes m))) =
    nlmsg_data m ++ drop (length (nlmsg_data m)) (nlmsg_data u).
Proof.
  destruct (msg_bytes_split u) as (hu & -> & Hu). destruct (msg_bytes_split m) as (hm & -> & Hm).
  intros Hl. unfold recvmsg. rewrite !length_app Hu Hm.
  rewrite take_ge; [rewrite length_app; lia|].
  rewrite -app_assoc drop_app_length' //. f_equal. by rewrite -drop_drop drop_app_length'.
Qed.

Lemma cell_int_known b rest off :
  off + 4 ≤ length b → cell_int ((Some <$> b) ++ rest) off = get_int b off.
Proof.
  intros H. unfold cell_int, get_int. rewrite !bool_decide_true; [rewrite ?length_app ?length_fmap; lia..|].
  rewrite drop_app_le; [rewrite length_fmap; lia|]. rewrite take_app_le; [rewrite length_drop length_fmap; lia|].
  by rewrite -fmap_drop -fmap_take known_fmap.
Qed.

Lemma show_response_encode r t junk rest :
  response_ok r → data r = t ++ 0%Z :: junk → Forall (λ c, c ≠ 0%Z) t →
  show_response ((Some <$> encode r) ++ rest) =
    Some (response_lines (index r) (dataSize r) t (test2 r) (test3 r) (test4 r)).
Proof.
  intros Hr Hd Ht. pose proof (encode_length r Hr) as Hlen.
  destruct (encode_fields r [] Hr) as (E1 & E2 & E3 & E4 & E5 & E6). rewrite app_nil_r in E1, E2, E3, E4, E5, E6.
  unfold show_response. unfold sizeof_Response in Hlen.
  rewrite !cell_int_known; [unfold off_index, off_dataSize, off_test2, off_test3, off_test4; lia..|].
  rewrite E1 E2 E4 E5 E6. cbn [mbind option_bind].
  assert (cell_string (drop off_data ((Some <$> encode r) ++ rest)) = Some t) as ->; [|done].
  rewrite drop_app_le; [rewrite length_fmap; unfold off_data; lia|].
  rewrite -fmap_drop E3 Hd -!app_assoc.
  rewrite (_ : t ++ (0%Z :: junk) ++ _ = (t ++ [0%Z]) ++ (junk ++ le_split 4 (test2 r) ++ le_split 4 (test3 r) ++ le_split 4 (test4 r) ++ [])).
  { by rewrite -app_assoc. }
  rewrite fmap_app -app_assoc. by apply cell_string_app.
Qed.

Lemma sent_struct_ok stack : length stack = DATA_SIZE → response_ok (sent_struct stack).
Proof.
  intros Hs. split; cbn [sent_struct index dataSize data test2 test3 test4]; try (unfold in_s32; lia).
  pose proof DATA_SIZE_val. rewrite length_app length_drop Hs.
  change (length (text "Data from User" ++ [0%Z])) with 15. lia.
Qed.

Lemma struct_payload_run stack :
  length stack = DATA_SIZE →
  struct_payload stack = Some (encode (sent_struct stack) ++ replicate (MAX_PAYLOAD - sizeof_Response) 0%Z).
Proof.
  intros Hs. pose proof (encode_length _ (sent_struct_ok stack Hs)) as Hlen.
  pose proof DATA_SIZE_val. pose proof MAX_PAYLOAD_val. unfold struct_payload.
  rewrite (_ : replicate MAX_PAYLOAD 0%Z = [] ++ replicate sizeof_Response 0%Z ++ replicate (MAX_PAYLOAD - sizeof_Response) 0%Z).
  { rewrite app_nil_l -replicate_add. f_equal; unfold sizeof_Response; lia. }
  by rewrite put_bytes_at // length_replicate Hlen.
Qed.

Lemma sent_struct_text stack rest :
  length stack = DATA_SIZE →
  is_Some (c_string (drop off_data (encode (sent_struct stack) ++ rest))).
Proof.
  intros Hs. destruct (encode_fields _ rest (sent_struct_ok stack Hs)) as (_ & _ & -> & _).
  cbn [sent_struct data]. rewrite -!app_assoc. eexists. apply c_string_app.
  by apply (bool_decide_unpack _).
Qed.

(** What the structure program prints, up to and with the structure received. *)
Definition conversation (received : list nl_line) : list nl_line :=
  LText "Sending to Kernel:" :: response_lines 1 2 (text "Data from User") 3 4 5 ++
  [LText "Sending message to kernel"; LText "Waiting for message from kernel";
   LText "Received message payload: %p"; LText "Recieved from Kernel:"] ++ received.

Lemma registration_run sock pid stack reply buffer received :
  (0 <= sock)%Z → length stack = DATA_SIZE →
  (∀ payload, struct_payload stack = Some payload →
    drop NLMSG_HDRLEN (recvmsg (msg_bytes (user_message pid payload)) (reply (Request pid payload))) = buffer) →
  show_response buffer = Some received →
  registration_kernel sock true pid stack reply = Some (0%Z, conversation received).
Proof.
  intros Hsock Hs Hbuf Hshow. unfold registration_kernel. rewrite (proj2 (Z.ltb_ge _ _) Hsock). cbn [negb].
  rewrite -(app_nil_r (Some <$> encode _)).
  rewrite (show_response_encode _ (text "Data from User") (drop 15 stack));
    [by apply sent_struct_ok|done|by apply (bool_decide_unpack _)|].
  pose proof (struct_payload_run stack Hs) as E. rewrite E. cbn [mbind option_bind].
  rewrite (Hbuf _ E) Hshow. done.
Qed.

Lemma user_message_data pid payload : nlmsg_data (user_message pid payload) = Some <$> payload.
Proof. done. Qed.

Section conversation.
Context `{K : NetlinkLib, L : !NetlinkLaws K}.

(** The answer in the buffer of the request. *)
Lemma struct_answer_shown sock pid stack :
  (0 <= sock)%Z → length stack = DATA_SIZE →
  registration_kernel sock true pid stack (λ _, Some (msg_bytes (struct_unicast (sent_struct stack)))) =
    Some (0%Z, conversation (response_lines 100 200 (text "Data from Kernel") 300 400 500)).
Proof.
  intros Hsock Hs. pose proof (sent_struct_ok stack Hs) as Hok. pose proof (answer_ok _ Hok) as Ha.
  pose proof (encode_length _ Hok) as H1. pose proof (encode_length _ Ha) as H2.
  eapply registration_run; [done..| |].
  - intros payload E. rewrite struct_payload_run // in E. injection E as <-.
    rewrite recvmsg_message; [|reflexivity]. cbn [struct_unicast user_message nlmsg_data].
    rewrite !length_fmap length_app H1 H2. lia.
  - cbn [struct_unicast nlmsg_data].
    by rewrite (show_response_encode _ (text "Data from Kernel") (drop 17 (data (sent_struct stack))));
      [done|done|apply (bool_decide_unpack _)|].
Qed.

(** Without an answer the request is still in the buffer. *)
Lemma struct_no_answer sock pid stack :
  (0 <= sock)%Z → length stack = DATA_SIZE →
  registration_kernel sock true pid stack (λ _, None) =
    Some (0%Z, conversation (response_lines 1 2 (text "Data from User") 3 4 5)).
Proof.
  intros Hsock Hs. eapply registration_run; [done..| |].
  - intros payload E. rewrite struct_payload_run // in E. injection E as <-.
    cbn [recvmsg]. rewrite msg_bytes_drop user_message_data fmap_app. reflexivity.
  - by rewrite (show_response_encode _ (text "Data from User") (drop 15 stack));
      [apply sent_struct_ok|done|apply (bool_decide_unpack _)|].
Qed.

(** The multicast structure as its receiver shows it. *)
Definition event_lines : list nl_line :=
  [LText "Ok, listening."; LText "Received message payload: %p";
   LStr "DATA1: %s" (text "Hello From Kernel"); LStr "DATA2: %s" (text "World of NetLink")].

Lemma struct_multicast_shown pid :
  read_event_from_kernel true pid (Some (msg_bytes struct_multicast)) = Some event_lines.
Proof.
  unfold read_event_from_kernel. cbn [negb]. pose proof mesg_length as Hm. pose proof NAME_SIZE_val.
  pose proof MAX_PAYLOAD_val. unfold sizeof_multicast_mesg in Hm.
  rewrite recvmsg_message; [cbn [struct_multicast user_message nlmsg_data]; rewrite length_fmap length_replicate; lia|].
  cbn [struct_multicast user_message nlmsg_data]. destruct mesg_strings as [E1 E2].
  assert (Happ : ∀ a rest s, cell_string a = Some s → cell_string (a ++ rest) = Some s).
  { clear. induction a as [|[c|] a IH]; intros rest s E; simpl in *; [done| |done].
    destruct (c =? 0)%Z; [done|]. destruct (cell_string a) as [s'|]; [|done]. by rewrite (IH rest s'). }
  revert Hm E1 E2. generalize mesg as ms. intros ms Hm E1 E2.
  rewrite !drop_app_le; [unfold off_name, off_process; lia..|].
  by rewrite (Happ _ _ _ E1) (Happ _ _ _ E2).
Qed.

Lemma hello_payload_run :
  hello_payload = Some (text "Hello" ++ [0%Z] ++ replicate (MAX_PAYLOAD_hello - 6) 0%Z).
Proof.
  pose proof MAX_PAYLOAD_hello_val. unfold hello_payload.
  rewrite (_ : replicate MAX_PAYLOAD_hello 0%Z = [] ++ replicate 6 0%Z ++ replicate (MAX_PAYLOAD_hello - 6) 0%Z).
  { rewrite app_nil_l -replicate_add. f_equal; lia. }
  by rewrite put_bytes_at.
Qed.

(** The unicast program shows the text of the answer, which the zeroed buffer ends. *)
Lemma unicast_shown sock pid received shown :
  (0 <= sock)%Z →
  (received = Some (msg_bytes hello_unicast) ∧ shown = msg) ∨ (received = None ∧ shown = text "Hello") →
  unicast_main sock true pid (λ _, received) =
    Some (0%Z, [LText "Sending message to kernel"; LText "Waiting for message from kernel";
                LStr "Received message payload: %s" shown]).
Proof.
  intros Hsock H. unfold unicast_main. rewrite (proj2 (Z.ltb_ge _ _) Hsock) hello_payload_run. cbn [negb mbind option_bind].
  pose proof MAX_PAYLOAD_hello_val as HM. set (payload := text "Hello" ++ _ ++ _).
  assert (HP : length payload = MAX_PAYLOAD_hello).
  { unfold payload. rewrite app_assoc length_app length_replicate. change (length (text "Hello" ++ [0%Z])) with 6. lia. }
  assert (cell_string (drop NLMSG_HDRLEN (recvmsg (msg_bytes (user_message pid payload)) received)) = Some shown) as ->; [|done].
  destruct H as [[-> ->]|[-> ->]].
  - rewrite recvmsg_message.
    { change (length (nlmsg_data hello_unicast)) with 17. rewrite user_message_data length_fmap HP. lia. }
    rewrite user_message_data. change (length (nlmsg_data hello_unicast)) with 17. rewrite -fmap_drop.
    rewrite (_ : drop 17 payload = 0%Z :: replicate (MAX_PAYLOAD_hello - 18) 0%Z).
    { unfold payload. rewrite app_assoc drop_app_ge; [simpl; lia|]. change (length (text "Hello" ++ [0%Z])) with 6.
      rewrite drop_replicate. by replace (MAX_PAYLOAD_hello - 6 - (17 - 6)) with (S (MAX_PAYLOAD_hello - 18)) by lia. }
    change (nlmsg_data hello_unicast) with (Some <$> msg).
    change (Some <$> 0%Z :: replicate (MAX_PAYLOAD_hello - 18) 0%Z)
      with ((Some <$> [0%Z]) ++ (Some <$> replicate (MAX_PAYLOAD_hello - 18) 0%Z)).
    rewrite app_assoc -fmap_app. apply cell_string_app. by apply (bool_decide_unpack _).
  - cbn [recvmsg]. rewrite msg_bytes_drop user_message_data. unfold payload. rewrite app_assoc fmap_app.
    apply cell_string_app. by apply (bool_decide_unpack _).
Qed.

Lemma read_events_shown pid n :
  read_events_struct true pid (replicate n (Some (msg_bytes struct_multicast))) = Some (concat (replicate n event_lines)).
Proof. induction n as [|n IH]; [done|]. cbn [replicate read_events_struct]. by rewrite struct_multicast_shown IH. Qed.

Lemma open_netlink_silent a nls ls : open_netlink a = (nls, ls) → (0 <= nls)%Z → ls = [].
Proof.
  unfold open_netlink. repeat case_match; intros [= <- <-] ?; try done; try lia.
Qed.

(** *** The module from loading to unloading *)

(** The thread runs, and [l] has been sent. *)
Definition running (l : list send) (s : nlst) : Prop :=
  nl_sk s = SOpen ∧ netlinkThread s = TTask 0 ∧ alive s = [0] ∧ live s = 0 ∧ sent s = l.

Lemma init_opens :
  netlink_kernel_create_ok = true →
  runs struct_test_init nl_globals (λ _ s,
    s = Nlst SOpen TNull [] 0 [] [LText "Entering: netlink_test_init"] 0 0 0 0).
Proof.
  intros Hc. unfold struct_test_init, netlink_test_init, netlink_kernel_create. rewrite Hc.
  eexists _, _. by split.
Qed.

Lemma callback_starts stack pid lines :
  answers_ok → (0 <= send_result 0)%Z → length stack = DATA_SIZE →
  runs (struct_callback (Request pid (encode (sent_struct stack) ++ replicate (MAX_PAYLOAD - sizeof_Response) 0%Z)))
    (Nlst SOpen TNull [] 0 [] lines 0 0 0 0) (λ _ s, running [Unicast pid (struct_unicast (sent_struct stack))] s).
Proof.
  intros (Hnew & _ & Hth) Hsend Hs. unfold struct_callback, callback_invoked_connect_userspace. apply runs_bind.
  eapply runs_wand; [eapply struct_reply_spec; [done|by apply sent_struct_ok|reflexivity|by apply sent_struct_text]|].
  cbn [n_new n_send sent rq_pid]. intros ok s1 ((E1 & E2 & E3 & E4 & E5) & _ & H).
  destruct (Hnew 0 sizeof_Response) as [b E]. rewrite E (proj2 (Z.ltb_ge _ _) Hsend) in H. destruct H as [-> E6].
  cbn [negb nl_sk netlinkThread alive live n_thread] in *. unfold start_thread. apply runs_bind.
  eexists _, _. split; [reflexivity|]. rewrite E2 bool_decide_true //.
  unfold kthread_run. eexists _, _. split; [by rewrite E5 Hth|]. split_and!; cbn in *; congruence.
Qed.

Lemma round_runs l s :
  answers_ok → running l s →
  runs struct_round s (λ ok s', ok = true ∧ running (l ++ [Multicast MYGRP struct_multicast]) s').
Proof.
  intros (Hnew & Hk & _) (H1 & H2 & H3 & H4 & H5). eapply runs_wand; [by apply struct_round_spec|].
  intros ok s' (E1 & E2 & E3 & _ & H). destruct (Hnew (n_new s) (NLMSG_ALIGN sizeof_multicast_mesg)) as [b E].
  rewrite E in H. destruct H as (-> & E4 & E5). split; [done|]. split_and!; congruence.
Qed.

Lemma running_printed l s line : running l s → running l
  (Nlst (nl_sk s) (netlinkThread s) (alive s) (live s) (sent s) (log s ++ [line]) (n_new s) (n_send s) (n_kmalloc s) (n_thread s)).
Proof. done. Qed.

Lemma thread_rounds n l s :
  answers_ok → running l s →
  runs (thread_loop (replicate n false)) s (λ r s',
    r = None ∧ running (l ++ replicate n (Multicast MYGRP struct_multicast)) s').
Proof.
  intros Hok. revert l s. induction n as [|n IH]; intros l s Hr; [apply runs_ret; by rewrite app_nil_r|].
  cbn [replicate thread_loop]. apply runs_bind. unfold thread_round. apply runs_bind.
  eapply runs_wand; [by apply round_runs|]. intros ok s1 [-> H1]. cbn [negb].
  eexists _, _. split; [reflexivity|]. eapply runs_wand; [by eapply IH, running_printed|].
  intros r s2 [-> H2]. split; [done|]. by rewrite -app_assoc in H2.
Qed.

Lemma exit_unloads l s :
  answers_ok → running l s →
  ∃ m', struct_test_exit (Nlmod s 0 None Loaded) = Some m' ∧ m_phase m' = Unloaded ∧
    alive (m_st m') = [] ∧ nl_sk (m_st m') = SReleased ∧ live (m_st m') = 0.
Proof.
  intros Hok Hr. pose proof Hr as (H1 & H2 & H3 & H4 & _). unfold struct_test_exit. cbn [m_st]. rewrite H2.
  destruct (round_runs _ _ Hok Hr) as (ok & s1 & E & -> & (F1 & F2 & F3 & F4 & _)).
  cbn [app exec step m_phase pending]. rewrite bool_decide_true //. cbn [mbind option_bind].
  unfold exit_stop. cbn [m_st]. rewrite H2 bool_decide_true; [rewrite H3; apply list_elem_of_here|].
  cbn [step m_phase m_st stop_id mbind option_bind exec]. rewrite bool_decide_true; [rewrite H3; apply list_elem_of_here|].
  unfold thread_round. rewrite bool_decide_true //. unfold mbind, ST_bind. change nm_round with struct_round. rewrite E.
  cbn [negb mret ST_ret option_bind exec step m_phase stop_id m_st thread_exits alive]. rewrite F3.
  rewrite bool_decide_false; [intros H; apply list_elem_of_filter in H as [H _]; done|].
  unfold exit_release, thread_exits. cbn [m_st nl_sk option_bind].
  rewrite F1 F2 F3 F4. eexists. split; [reflexivity|]. by split_and!.
Qed.

(** *** Properties *)

(** C19: the structure module and the structure program, from loading to unloading. Whatever was on
    the program's stack, and with no allocation refused, loading the module, taking
    the program's request and running the thread for any number [n] of rounds sends one answer and [n]
    multicasts and leaves one thread. From these messages the program prints its request, the numbers 100,
    200, 300, 400 and 500 with the kernel's text, and [n] times the two texts of a
    multicast. Unloading then stops the thread after one more round, releases the socket and leaves no memory
    behind. The result of recvmsg is ignored: when it fails, the program prints its own
    request as what was received from the kernel. *)
Theorem struct_session sock pid stack n a :
  answers_ok → netlink_kernel_create_ok = true → (0 <= send_result 0)%Z →
  (0 <= sock)%Z → length stack = DATA_SIZE → (0 <= (open_netlink a).1)%Z →
  (∃ payload, struct_payload stack = Some payload ∧
    runs (struct_test_init;; struct_callback (Request pid payload);; struct_multicast_start (replicate n false))
      nl_globals (λ r s', r = None ∧ alive s' = [0] ∧
        (∃ m ms, sent s' = Unicast pid m :: (Multicast MYGRP <$> ms) ∧ length ms = n ∧
          struct_main sock true pid stack (λ _, Some (msg_bytes m)) a (Some ∘ msg_bytes <$> ms) =
            Some (conversation (response_lines 100 200 (text "Data from Kernel") 300 400 500),
                  inr (concat (replicate n event_lines)))) ∧
        ∃ m', struct_test_exit (Nlmod s' 0 None Loaded) = Some m' ∧ m_phase m' = Unloaded ∧
          alive (m_st m') = [] ∧ nl_sk (m_st m') = SReleased ∧ live (m_st m') = 0)) ∧
  registration_kernel sock true pid stack (λ _, None) =
    Some (0%Z, conversation (response_lines 1 2 (text "Data from User") 3 4 5)).
Proof.
  intros Hok Hcreate Hsend Hsock Hs Ha. split; [|by apply struct_no_answer].
  eexists. split; [by apply struct_payload_run|].
  apply runs_bind. eapply runs_wand; [by apply init_opens|]. intros ret s0 ->.
  apply runs_bind. eapply runs_wand; [by apply (callback_starts stack)|]. intros ? s1 H1.
  apply runs_bind. eexists _, _. split; [reflexivity|].
  eapply runs_wand; [apply (thread_rounds n); [done|apply running_printed, H1]|]. intros r s2 [-> H2].
  split_and!; [done|apply H2| |by eapply exit_unloads].
  exists (struct_unicast (sent_struct stack)), (replicate n struct_multicast).
  rewrite fmap_replicate length_replicate. split_and!; [apply H2|done|].
  unfold struct_main. rewrite struct_answer_shown //. cbn [mbind option_bind].
  destruct (open_netlink a) as [nls ls] eqn:Eo. simpl in Ha. rewrite (proj2 (Z.ltb_ge _ _) Ha).
  rewrite fmap_replicate read_events_shown. cbn [mbind option_bind].
  rewrite (open_netlink_silent a nls ls) // app_nil_r.
Qed.


End conversation.

(** ** Witnesses *)

Lemma struct_session_witness :
  let stack := replicate DATA_SIZE 7%Z in
  registration_kernel 3 true 42 stack (λ _, None) =
    Some (0%Z, conversation (response_lines 1 2 (text "Data from User") 3 4 5)) ∧
  ∃ payload, struct_payload stack = Some payload ∧
    runs (struct_test_init (K := willing_lib);; struct_callback (K := willing_lib) (Request 42 payload);;
          struct_multicast_start (K := willing_lib) [false; false]) nl_globals (λ r s', r = None ∧ alive s' = [0]).
Proof.
  intros stack.
  destruct (struct_session (K := willing_lib) 3 42 stack 2 (SockAnswers 4 0 0)) as [(payload & E & H) H3].
  - split_and!; [|done..]. intros n size. eexists. reflexivity.
  - reflexivity.
  - simpl. lia.
  - lia.
  - apply length_replicate.
  - simpl. lia.
  - split; [exact H3|]. exists payload. split; [exact E|]. eapply runs_wand; [exact H|].
    intros r s' (Hr & Hal & _). exact (conj Hr Hal).
Defined.

