(* ===== verification/KThread.v ===== *)
(** * Kernel threads that sleep and print (Kernel_Thread/thread.c)

    Three modules start a thread that copies its argument, then sleeps and prints until it
    is stopped: Kernel_Thread, Kernel_Thread_ReadingFileFromKernel ([KFile]) and
    GetGroup_pid_From_ThreadId ([Tgid]). This file has the state of all
    three, the sleeping macro, the thread function around what each module does before
    and in its loop, and the module's init and exit. The scheduler, the allocator and
    kthread_run are parameters. *)

From Stdlib Require Import ZArith Lia ssreflect.
From stdpp Require Import base list numbers strings.
From S2P Require Import Prelude CString Bytes.

(** ** The kernel *)

(** The ticks per second, the ticks that pass in the [n]-th schedule_timeout, and the answers of
    kmalloc and kthread_run. *)
Class ThreadLib := {
  HZ : Z;
  elapsed : nat → Z;
  kmalloc_ok : nat → bool;
  kthread_ok : nat → bool;
}.

(** The clock does not go back, and does not stand still for ever. *)
Class ThreadLaws (K : ThreadLib) := {
  kt_hz : (0 < HZ)%Z;
  kt_elapsed n : (0 <= elapsed n)%Z;
  kt_progress n : ∃ k, n ≤ k ∧ (0 < elapsed k)%Z;
}.

(** ** State *)

Inductive task_ptr := TNull | TErr | TTask.

Inductive segment := USER_DS | KERNEL_DS.

Inductive kt_line := KText (s : string) | KStr (s : string) (arg : list Z) | KNum2 (s : string) (x y : Z) | KNum (s : string) (n : Z).

(** The time, the module's thread pointer and whether its thread runs, buffers and open
    files not given back, references taken on pids, the depth of RCU read
    sections, the address limit, what was printed, and the numbers of requests. *)
Record kts := Kts {
  jiffies : Z;
  MyThread : task_ptr;
  running : bool;
  live : nat;
  files : nat;
  pid_refs : list Z;
  rcu : nat;
  addr_limit : segment;
  out : list kt_line;
  n_sched : nat;
  n_kmalloc : nat;
  n_open : nat }.

Definition kt_globals : kts := Kts 0 TNull false 0 0 [] 0 USER_DS [] 0 0 0.

Section code.
Context `{K : ThreadLib}.

Abbreviation M := (ST kts).

Definition printk l : M unit := st_modify (λ s,
  Kts (jiffies s) (MyThread s) (running s) (live s) (files s) (pid_refs s) (rcu s) (addr_limit s) (out s ++ [l]) (n_sched s) (n_kmalloc s) (n_open s)).

(** [schedule_timeout(timeout)]: the ticks left of [timeout]. *)
Definition schedule_timeout (timeout : Z) : M Z := λ s,
  let e := elapsed (n_sched s) in
  Some (Z.max 0 (timeout - e),
    Kts (jiffies s + e) (MyThread s) (running s) (live s) (files s) (pid_refs s) (rcu s) (addr_limit s) (out s) (S (n_sched s)) (n_kmalloc s) (n_open s)).

Fixpoint sleep_loop (fuel : nat) (timeout : Z) : M unit :=
  match fuel with
  | O => st_fail
  | S fuel =>
      if (0 <? timeout)%Z then t ← schedule_timeout timeout; sleep_loop fuel t
      else mret tt
  end.

Definition SLEEP_MILLI_SEC (fuel : nat) (nMilliSec : Z) : M unit :=
  sleep_loop fuel (nMilliSec * HZ / 1000).

Definition kmalloc (size : nat) : M (option (list cell)) := λ s,
  let s' l := Kts (jiffies s) (MyThread s) (running s) l (files s) (pid_refs s) (rcu s) (addr_limit s) (out s) (n_sched s) (S (n_kmalloc s)) (n_open s) in
  if kmalloc_ok (n_kmalloc s) then Some (Some (replicate size None), s' (S (live s)))
  else Some (None, s' (live s)).

Definition kfree : M unit := st_modify (λ s,
  Kts (jiffies s) (MyThread s) (running s) (pred (live s)) (files s) (pid_refs s) (rcu s) (addr_limit s) (out s) (n_sched s) (n_kmalloc s) (n_open s)).

(** The copy of the argument: [kmalloc], [memset] and [strncpy]. *)
Definition copy_data (data : list Z) : M (list cell) :=
  mydata ← kmalloc (length data + 1);
  mydata ← st_opt mydata;
  mydata ← st_opt (memset mydata 0 0 (length data + 1));
  st_opt (strncpy mydata 0 data (length data)).

(** The loop for the answers of kthread_should_stop in turn, [each] being what the module does
    before it prints; stuck when the answers run out. *)
Fixpoint print_loop (fuel : nat) (each : M unit) (mydata : list cell) (stops : list bool) : M unit :=
  match stops with
  | [] => st_fail
  | true :: _ => mret tt
  | false :: stops =>
      SLEEP_MILLI_SEC fuel 1000;;
      each;;
      s ← st_opt (cell_string mydata);
      printk (KStr "%s" s);;
      print_loop fuel each mydata stops
  end.

(** The thread function, [before] being what the module does before the loop. *)
Definition print_thread (fuel : nat) (before each : M unit) (data : list Z) (stops : list bool) : M Z :=
  mydata ← copy_data data;
  before;;
  print_loop fuel each mydata stops;;
  kfree;;
  mret 0%Z.

(** MyPrintk of Kernel_Thread/thread.c. *)
Definition MyPrintk (fuel : nat) (data : list Z) (stops : list bool) : M Z :=
  print_thread fuel (mret tt) (mret tt) data stops.

(** [MyThread = kthread_run(...)]. *)
Definition kthread_run : M unit := λ s,
  let '(t, r) := if kthread_ok 0 then (TTask, true) else (TErr, running s) in
  Some (tt, Kts (jiffies s) t r (live s) (files s) (pid_refs s) (rcu s) (addr_limit s) (out s) (n_sched s) (n_kmalloc s) (n_open s)).

(** [kthread_stop]: stuck on an error pointer. *)
Definition kthread_stop : M unit := λ s,
  match MyThread s with
  | TTask => Some (tt, Kts (jiffies s) (MyThread s) false (live s) (files s) (pid_refs s) (rcu s) (addr_limit s) (out s) (n_sched s) (n_kmalloc s) (n_open s))
  | _ => None
  end.

Definition init_kthread : M Z := kthread_run;; mret 0%Z.

Definition exit_kthread : M unit :=
  s ← st_get;
  match MyThread s with
  | TNull => mret tt
  | _ => printk (KText "stop MyThread");; kthread_stop
  end.

End code.

(** ** Sleeping *)

Section sleep.
Context `{K : ThreadLib, L : !ThreadLaws K}.

(** Only time has passed. *)
Definition slept (s s' : kts) : Prop :=
  s' = Kts (jiffies s') (MyThread s) (running s) (live s) (files s) (pid_refs s) (rcu s)
           (addr_limit s) (out s) (n_sched s') (n_kmalloc s) (n_open s).

Lemma slept_trans s1 s2 s3 : slept s1 s2 → slept s2 s3 → slept s1 s3.
Proof. unfold slept. intros E ->. rewrite E. done. Qed.

(** Until the clock ticks the loop only polls. *)
Lemma sleep_loop_wait d timeout s :
  (0 < timeout)%Z → (∀ i, i < d → elapsed (n_sched s + i) = 0%Z) →
  ∃ s', slept s s' ∧ n_sched s' = n_sched s + d ∧ jiffies s' = jiffies s ∧
    ∀ fuel, sleep_loop (d + fuel) timeout s = sleep_loop fuel timeout s'.
Proof.
  revert s. induction d as [|d IH]; intros s Ht Hz.
  { exists s. split_and!; [by destruct s|lia|done|done]. }
  pose proof (Hz 0 ltac:(lia)) as H0. rewrite Nat.add_0_r in H0.
  set (s1 := Kts (jiffies s) (MyThread s) (running s) (live s) (files s) (pid_refs s) (rcu s)
    (addr_limit s) (out s) (S (n_sched s)) (n_kmalloc s) (n_open s)).
  destruct (IH s1) as (s' & Hs & Hn & Hj & Hl); [done| |].
  { intros i Hi. simpl. rewrite -Nat.add_succ_r. apply Hz. lia. }
  exists s'. split_and!; [by eapply slept_trans, Hs|simpl in Hn; lia|done|].
  intros fuel. rewrite -Hl. simpl. destruct (Z.ltb_spec 0 timeout); [|lia].
  unfold schedule_timeout, mbind, ST_bind. rewrite H0 Z.sub_0_r Z.add_0_r Z.max_r; [lia|done].
Qed.

(** The next tick. *)
Lemma next_tick n : ∃ d, (∀ i, i < d → elapsed (n + i) = 0%Z) ∧ (0 < elapsed (n + d))%Z.
Proof.
  destruct (kt_progress n) as (k & Hk & He). replace k with (n + (k - n)) in He by lia.
  revert He. generalize (k - n) as m. clear k Hk. intros m. revert n.
  induction m as [|m IH]; intros n He; [exists 0; split; [lia|done]|].
  destruct (Z.eq_dec (elapsed n) 0%Z) as [E|E].
  - destruct (IH (S n)) as (d & Hz & Hp); [by rewrite Nat.add_succ_comm|].
    exists (S d). rewrite -Nat.add_succ_comm. split; [|done].
    intros [|i] Hi; [by rewrite Nat.add_0_r|]. rewrite -Nat.add_succ_comm. apply Hz. lia.
  - exists 0. rewrite Nat.add_0_r. pose proof (kt_elapsed n). split; [lia|lia].
Qed.

(** The loop ends, not before its time has passed. *)
Lemma sleep_loop_ends timeout s : ∃ fuel s',
  slept s s' ∧ (jiffies s + Z.max 0 timeout <= jiffies s')%Z ∧
  ∀ fuel', fuel ≤ fuel' → sleep_loop fuel' timeout s = Some (tt, s').
Proof.
  remember (Z.to_nat timeout) as m eqn:Em. revert timeout s Em.
  induction m as [m IH] using lt_wf_ind. intros timeout s ->.
  destruct (Z.lt_ge_cases 0 timeout) as [Ht|Ht].
  2:{ exists 1, s. split_and!; [by destruct s|lia|]. intros [|fuel'] Hf; [lia|]. simpl.
      by destruct (Z.ltb_spec 0 timeout); [lia|]. }
  destruct (next_tick (n_sched s)) as (d & Hz & Hp).
  destruct (sleep_loop_wait d timeout s Ht Hz) as (s1 & Hs1 & Hn1 & Hj1 & Hl1).
  set (s2 := Kts (jiffies s1 + elapsed (n_sched s1)) (MyThread s1) (running s1) (live s1) (files s1)
    (pid_refs s1) (rcu s1) (addr_limit s1) (out s1) (S (n_sched s1)) (n_kmalloc s1) (n_open s1)).
  destruct (IH (Z.to_nat (Z.max 0 (timeout - elapsed (n_sched s1)))) ltac:(rewrite -Hn1 in Hp; lia) _ s2 eq_refl)
    as (fuel & s' & Hs' & Hj' & Hl').
  exists (d + S fuel), s'. split_and!.
  - eapply slept_trans; [exact Hs1|]. eapply slept_trans; [|exact Hs']. by destruct s1.
  - rewrite -Hj1. simpl in Hj'. lia.
  - intros fuel' Hf. replace fuel' with (d + S (fuel' - d - 1)) by lia. rewrite Hl1. simpl.
    destruct (Z.ltb_spec 0 timeout); [|lia]. apply Hl'. lia.
Qed.

End sleep.

(** ** The thread *)

Section thread.
Context `{K : ThreadLib, L : !ThreadLaws K}.

(** The copy holds the argument and its terminator. *)
Lemma copy_data_spec data s :
  kmalloc_ok (n_kmalloc s) = true →
  copy_data data s = Some (Some <$> (data ++ [0%Z]),
    Kts (jiffies s) (MyThread s) (running s) (S (live s)) (files s) (pid_refs s) (rcu s)
        (addr_limit s) (out s) (n_sched s) (S (n_kmalloc s)) (n_open s)).
Proof.
  intros Hk. unfold copy_data, mbind, ST_bind, kmalloc. rewrite Hk. simpl.
  assert (memset (replicate (length data + 1) None) 0 0 (length data + 1) =
    Some (replicate (length data + 1) (Some 0%Z))) as ->.
  { unfold memset. rewrite buf_store_some; [by rewrite !length_replicate|].
    by rewrite take_0 length_replicate drop_ge ?length_replicate // app_nil_r. }
  simpl. unfold strncpy, st_opt. rewrite take_app_length.
  rewrite (_ : replicate (length data + 1) (Some 0%Z) = [] ++ replicate (length data) (Some 0%Z) ++ [Some 0%Z]).
  { by rewrite replicate_add. }
  rewrite buf_store_at //; [by rewrite length_replicate length_fmap|]. by rewrite fmap_app.
Qed.

Lemma copy_data_refused data s :
  kmalloc_ok (n_kmalloc s) = false → copy_data data s = None.
Proof. intros Hk. unfold copy_data, mbind, ST_bind, kmalloc. by rewrite Hk. Qed.

(** [act] always returns, and what it does to the state is in [R]; what it prints is [ls]. *)
Definition does (act : ST kts unit) (ls : list kt_line) : Prop :=
  ∀ s, ∃ s', act s = Some (tt, s') ∧ live s' = live s ∧ running s' = running s ∧
    MyThread s' = MyThread s ∧ rcu s' = rcu s ∧ files s' = files s ∧ addr_limit s' = addr_limit s ∧
    (jiffies s <= jiffies s')%Z ∧ out s' = out s ++ ls.

(** [n] rounds of the loop, then the stop: the lines printed and the time that has passed. *)
Lemma print_loop_ends each ls data n rest s :
  does each ls → Forall (λ c, c ≠ 0%Z) data →
  ∃ fuel s',
    live s' = live s ∧ rcu s' = rcu s ∧ files s' = files s ∧ addr_limit s' = addr_limit s ∧
    (jiffies s + Z.of_nat n * HZ <= jiffies s')%Z ∧
    out s' = out s ++ concat (replicate n (ls ++ [KStr "%s" data])) ∧
    ∀ fuel', fuel ≤ fuel' →
      print_loop fuel' each (Some <$> (data ++ [0%Z])) (replicate n false ++ true :: rest) s = Some (tt, s').
Proof.
  intros He Hd. revert s. induction n as [|n IH]; intros s.
  { exists 0, s. rewrite /= app_nil_r. split_and!; try done. lia. }
  destruct (sleep_loop_ends (1000 * HZ / 1000) s) as (f1 & s1 & Hs1 & Hj1 & Hl1).
  destruct (He s1) as (s2 & E2 & H1 & H2 & H3 & H4 & H5 & H6 & Hj2 & Ho2).
  set (s3 := Kts (jiffies s2) (MyThread s2) (running s2) (live s2) (files s2) (pid_refs s2) (rcu s2)
    (addr_limit s2) (out s2 ++ [KStr "%s" data]) (n_sched s2) (n_kmalloc s2) (n_open s2)).
  destruct (IH s3) as (f3 & s' & G1 & G2 & G3 & G4 & Hj' & Ho' & Hl').
  exists (f1 `max` f3), s'. rewrite Z.mul_comm Z.div_mul in Hj1; [lia|]. pose proof kt_hz.
  rewrite Hs1 in H1, H4, H5, H6, Ho2. simpl in *. split_and!; [congruence..|lia| |].
  - rewrite Ho' Ho2 -!app_assoc. done.
  - intros fuel' Hf. rewrite /SLEEP_MILLI_SEC (st_bind_some _ _ _ _ _ (Hl1 fuel' ltac:(lia))).
    rewrite (st_bind_some _ _ _ _ _ E2).
    rewrite -(app_nil_r (Some <$> (data ++ [0%Z]))) cell_string_app // app_nil_r. apply Hl'. lia.
Qed.

End thread.

(** ** Properties *)

Section properties.
Context `{K : ThreadLib, L : !ThreadLaws K}.

(** The thread function of all three modules. *)
Lemma print_thread_ends before bs each ls data n rest s :
  does before bs → does each ls → Forall (λ c, c ≠ 0%Z) data → kmalloc_ok (n_kmalloc s) = true →
  ∃ fuel s',
    live s' = live s ∧ rcu s' = rcu s ∧ files s' = files s ∧ addr_limit s' = addr_limit s ∧
    (jiffies s + Z.of_nat n * HZ <= jiffies s')%Z ∧
    out s' = out s ++ bs ++ concat (replicate n (ls ++ [KStr "%s" data])) ∧
    ∀ fuel', fuel ≤ fuel' →
      print_thread fuel' before each data (replicate n false ++ true :: rest) s = Some (0%Z, s').
Proof.
  intros Hb He Hd Hk. pose proof (copy_data_spec data s Hk) as Ec.
  match type of Ec with _ = Some (_, ?x) => set (s1 := x) in * end.
  destruct (Hb s1) as (s2 & E2 & H1 & H2 & H3 & H4 & H5 & H6 & Hj2 & Ho2).
  destruct (print_loop_ends each ls data n rest s2 He Hd) as (f & s3 & G1 & G2 & G3 & G4 & Hj3 & Ho3 & Hl3).
  eexists f, _. split_and!; cycle 6.
  { intros fuel' Hf. unfold print_thread. rewrite (st_bind_some _ _ _ _ _ Ec)
      (st_bind_some _ _ _ _ _ E2) (st_bind_some _ _ _ _ _ (Hl3 fuel' Hf)). reflexivity. }
  all: simpl in *; rewrite ?Ho3 ?Ho2 ?app_assoc; try congruence; try lia.
Qed.

Lemma does_nothing : does (mret tt) [].
Proof. intros s. exists s. rewrite app_nil_r. split_and!; done || lia. Qed.

(** the printing thread. Stopped at its n-th check, it has printed its argument exactly
    n times and slept at least n seconds of ticks in between, has freed its copy
    and returns 0, on every clock that does not stand still for ever, however early the
    scheduler returns; when the copy cannot be allocated it writes through a null pointer. *)
Theorem thread_prints data n rest s :
  Forall (λ c, c ≠ 0%Z) data →
  (kmalloc_ok (n_kmalloc s) = true →
    ∃ fuel s', live s' = live s ∧ (jiffies s + Z.of_nat n * HZ <= jiffies s')%Z ∧
      out s' = out s ++ replicate n (KStr "%s" data) ∧
      ∀ fuel', fuel ≤ fuel' →
        MyPrintk fuel' data (replicate n false ++ true :: rest) s = Some (0%Z, s')) ∧
  (kmalloc_ok (n_kmalloc s) = false → ∀ fuel stops, MyPrintk fuel data stops s = None).
Proof.
  intros Hd. split; intros Hk.
  - destruct (print_thread_ends _ _ _ _ data n rest s does_nothing does_nothing Hd Hk)
      as (f & s' & H1 & _ & _ & _ & Hj & Ho & Hl). exists f, s'. split_and!; [done..| |done].
    rewrite Ho. simpl. f_equal. clear. induction n as [|n IH]; [done|]. simpl. by rewrite IH.
  - intros fuel stops. by apply st_bind_none, copy_data_refused.
Qed.

(** The module is unloaded with its thread stopped; an error pointer of kthread_run is not
    NULL, and is stopped like a thread. *)
Lemma load_unload :
  (init_kthread;; exit_kthread) kt_globals =
    if kthread_ok 0 then
      Some (tt, Kts 0 TTask false 0 0 [] 0 USER_DS [KText "stop MyThread"] 0 0 0)
    else None.
Proof. unfold init_kthread, kthread_run, mbind, ST_bind. simpl. by destruct (kthread_ok 0). Qed.

End properties.

(** A clock of 100 ticks a second whose schedule_timeout returns after 30 ticks. *)
Definition clock30 : ThreadLib := {|
  HZ := 100; elapsed _ := 30%Z; kmalloc_ok _ := true; kthread_ok _ := true |}.

#[export] Instance clock30_laws : ThreadLaws clock30.
Proof. split; simpl; [lia|lia|]. intros n. exists n. lia. Qed.

Lemma thread_prints_witness :
  let hello := text "hello world" in
  ∃ fuel s', live s' = 0 ∧ (0 + Z.of_nat 2 * 100 <= jiffies s')%Z ∧
    out s' = [KStr "%s" hello; KStr "%s" hello] ∧
    ∀ fuel', fuel ≤ fuel' →
      MyPrintk (K := clock30) fuel' hello [false; false; true] kt_globals = Some (0%Z, s').
Proof.
  apply (proj1 (thread_prints (K := clock30) (text "hello world") 2 [] kt_globals
    ltac:(by apply (bool_decide_unpack _))) eq_refl).
Defined.
