(* ===== verification/KFile.v ===== *)
(** * Reading a file in the kernel

    ReadingFileFromKernelSpace/readingFilefromKernel.c reads a file when it is
    loaded, Kernel_Thread_ReadingFileFromKernel/thread.c does so in a thread. The
    answer of filp_open and the bytes the file's read operation delivers are
    parameters; dereferencing an error pointer or NULL, and printing a buffer
    without terminator, are stuck. *)

From Stdlib Require Import ZArith Lia ssreflect.
From stdpp Require Import base list numbers strings.
From S2P Require Import Prelude CString Bytes KThread.

(** [filp_open]: NULL, an error pointer, or a file whose next read delivers the given
    bytes (none at its end and on an error). *)
Inductive filp := FNull | FErr | FFile (bytes : list Z).

Class FileLib := { filp_open : nat → string → filp }.

(** A read delivers at most what was asked for. *)
Class FileLaws (F : FileLib) := {
  fl_read n path bs : filp_open n path = FFile bs → length bs ≤ 128;
}.

Section code.
Context `{K : ThreadLib, F : FileLib}.

Abbreviation M := (ST kts).

Definition do_open (path : string) : M filp := λ s,
  let f := filp_open (n_open s) path in
  let k := match f with FFile _ => S (files s) | _ => files s end in
  Some (f, Kts (jiffies s) (MyThread s) (running s) (live s) k (pid_refs s) (rcu s) (addr_limit s) (out s) (n_sched s) (n_kmalloc s) (S (n_open s))).

(** [filp_close]: stuck on NULL and on an error pointer. *)
Definition filp_close (f : filp) : M unit := λ s,
  match f with
  | FFile _ => Some (tt, Kts (jiffies s) (MyThread s) (running s) (live s) (pred (files s)) (pid_refs s) (rcu s) (addr_limit s) (out s) (n_sched s) (n_kmalloc s) (n_open s))
  | _ => None
  end.

Definition get_fs : M segment := s ← st_get; mret (addr_limit s).

Definition set_fs (d : segment) : M unit := st_modify (λ s,
  Kts (jiffies s) (MyThread s) (running s) (live s) (files s) (pid_refs s) (rcu s) d (out s) (n_sched s) (n_kmalloc s) (n_open s)).

(** [f->f_op->read(f, buf, 128, &f->f_pos)]: into kernel memory only under the kernel's
    address limit, the result is ignored. *)
Definition f_op_read (f : filp) (buf : list cell) : M (list cell) :=
  match f with
  | FFile bs =>
      s ← st_get;
      match addr_limit s with
      | KERNEL_DS => st_opt (buf_store buf 0 (Some <$> bs))
      | USER_DS => mret buf
      end
  | _ => st_fail
  end.

(** The body both modules share. *)
Definition read_file (path : string) : M unit :=
  let buf := replicate 128 (Some 0%Z) in
  printk (KText "My module is loaded");;
  f ← do_open path;
  match f with
  | FNull => printk (KText "filp_open error!!.")
  | _ =>
      fs ← get_fs;
      set_fs KERNEL_DS;;
      buf ← f_op_read f buf;
      set_fs fs;;
      str ← st_opt (cell_string buf);
      printk (KStr "buf:%s" str)
  end;;
  filp_close f.

(** readingFilefromKernel.c. *)
Definition init_module : M Z := read_file "/etc/fedora-release";; mret 0%Z.

Definition cleanup_module : M unit := printk (KText "My module is unloaded").

(** thread.c. *)
Definition ReadFile : M unit := read_file "/home/fedora-release".

Definition MyPrintk_read (fuel : nat) (data : list Z) (stops : list bool) : M Z :=
  print_thread fuel ReadFile ReadFile data stops.

End code.

(** ** Properties *)

(** The string in a zeroed buffer of [n] bytes after [bs] has been read into it. *)
Lemma read_string bs n :
  cell_string ((Some <$> bs) ++ replicate n (Some 0%Z)) =
    if bool_decide (n = 0 ∧ 0%Z ∉ bs) then None else Some (until_zero bs).
Proof.
  induction bs as [|b bs IH].
  - destruct n as [|n]; [|rewrite bool_decide_false //; naive_solver].
    rewrite bool_decide_true //. split; [done|apply not_elem_of_nil].
  - simpl. destruct (Z.eqb_spec b 0) as [->|Hb].
    { rewrite bool_decide_false //. intros [_ H]. apply H. left. }
    simpl in IH. rewrite IH.
    rewrite (bool_decide_ext (n = 0 ∧ 0%Z ∉ b :: bs) (n = 0 ∧ 0%Z ∉ bs)); [rewrite elem_of_cons; naive_solver|].
    by destruct (bool_decide (n = 0 ∧ 0%Z ∉ bs)).
Qed.

Section properties.
Context `{K : ThreadLib, KL : !ThreadLaws K, F : FileLib, FL : !FileLaws F}.

(** An open file: the run down to what the string of the buffer is. *)
Lemma read_file_run path s bs :
  filp_open (n_open s) path = FFile bs → length bs ≤ 128 →
  read_file path s =
    str ← cell_string ((Some <$> bs) ++ replicate (128 - length bs) (Some 0%Z));
    Some (tt, Kts (jiffies s) (MyThread s) (running s) (live s) (files s) (pid_refs s) (rcu s) (addr_limit s)
      ((out s ++ [KText "My module is loaded"]) ++ [KStr "buf:%s" str]) (n_sched s) (n_kmalloc s) (S (n_open s))).
Proof.
  intros E Hl. unfold read_file.
  assert (Hbuf : buf_store (replicate 128 (Some 0%Z)) 0 (Some <$> bs) =
    Some ((Some <$> bs) ++ replicate (128 - length bs) (Some 0%Z))).
  { rewrite buf_store_some; [by rewrite length_fmap length_replicate|].
    by rewrite take_0 length_fmap drop_replicate. }
  revert Hbuf. generalize (replicate 128 (Some 0%Z)) as buf. intros buf Hbuf.
  erewrite st_bind_some; [|reflexivity].
  erewrite st_bind_some; [|unfold do_open; cbn [n_open]; rewrite E; reflexivity].
  unfold mbind at 1, ST_bind at 1. unfold f_op_read.
  erewrite st_bind_some; [|reflexivity]. erewrite st_bind_some; [|reflexivity].
  erewrite st_bind_some; [|by erewrite st_bind_some; [|reflexivity]; cbn [addr_limit]; rewrite Hbuf].
  erewrite st_bind_some; [|reflexivity].
  destruct (cell_string _) as [str|]; [|done]. reflexivity.
Qed.

(** C37: reading a file. When the file opens and delivers fewer than 128 bytes, or a zero among
    them, exactly the bytes before the first zero are printed, the file is closed again
    and the address limit is what it was. When 128 bytes without a zero are delivered, the
    buffer has no terminator and printing it runs past its end. When the file cannot be opened
    the test for NULL does not notice the error pointer, which is dereferenced (NULL would be passed
    to filp_close). *)
Theorem read_file_prints path s :
  match filp_open (n_open s) path with
  | FFile bs =>
      if bool_decide (length bs = 128 ∧ 0%Z ∉ bs) then read_file path s = None
      else runs (read_file path) s (λ _ s',
        out s' = out s ++ [KText "My module is loaded"; KStr "buf:%s" (until_zero bs)] ∧
        files s' = files s ∧ addr_limit s' = addr_limit s ∧ live s' = live s ∧ rcu s' = rcu s ∧
        running s' = running s ∧ MyThread s' = MyThread s ∧ jiffies s' = jiffies s)
  | _ => read_file path s = None
  end.
Proof.
  pose proof (fl_read (n_open s) path) as Hread.
  destruct (filp_open (n_open s) path) as [| |bs] eqn:E.
  1,2: unfold read_file; erewrite st_bind_some; [|reflexivity];
    erewrite st_bind_some; [|unfold do_open; cbn [n_open]; rewrite E; reflexivity]; done.
  specialize (Hread bs eq_refl). unfold runs. rewrite (read_file_run path s bs E Hread) read_string.
  rewrite (bool_decide_ext (128 - length bs = 0 ∧ 0%Z ∉ bs) (length bs = 128 ∧ 0%Z ∉ bs)).
  { split; intros [? ?]; split; lia || done. }
  case_bool_decide; [done|]. eexists _, _. split; [reflexivity|]. cbn. rewrite -app_assoc. by split_and!.
Qed.

(** A file that can always be opened, with a short text. *)
Lemma ReadFile_does content :
  Forall (λ c, c ≠ 0%Z) content → length content < 128 →
  (∀ k, filp_open k "/home/fedora-release" = FFile content) →
  does ReadFile [KText "My module is loaded"; KStr "buf:%s" content].
Proof.
  intros Hc Hl Hopen s0. unfold ReadFile. rewrite (read_file_run _ s0 content (Hopen _)); [lia|].
  rewrite read_string bool_decide_false; [lia|]. rewrite (until_zero_id content Hc).
  eexists. split; [reflexivity|]. cbn. rewrite -app_assoc. split_and!; done || lia.
Qed.

(** the reading thread. When every open of the file succeeds and delivers the same text of fewer
    than 128 bytes, the thread prints the file once, then once before every line of its
    own until it is stopped, sleeps at least a second between, and leaves no
    buffer and no open file behind. *)
Theorem read_thread_prints data content n rest s :
  Forall (λ c, c ≠ 0%Z) data → kmalloc_ok (n_kmalloc s) = true →
  Forall (λ c, c ≠ 0%Z) content → length content < 128 →
  (∀ k, filp_open k "/home/fedora-release" = FFile content) →
  let read := [KText "My module is loaded"; KStr "buf:%s" content] in
  ∃ fuel s', live s' = live s ∧ files s' = files s ∧ addr_limit s' = addr_limit s ∧
    (jiffies s + Z.of_nat n * HZ <= jiffies s')%Z ∧
    out s' = out s ++ read ++ concat (replicate n (read ++ [KStr "%s" data])) ∧
    ∀ fuel', fuel ≤ fuel' →
      MyPrintk_read fuel' data (replicate n false ++ true :: rest) s = Some (0%Z, s').
Proof.
  intros Hd Hk Hc Hl Hopen read.
  pose proof (ReadFile_does content Hc Hl Hopen) as Hdoes.
  destruct (print_thread_ends _ _ _ _ data n rest s Hdoes Hdoes Hd Hk)
    as (f & s' & H1 & _ & H3 & H4 & Hj & Ho & Hrun). by exists f, s'.
Qed.

End properties.

(** ** Witnesses *)

Definition short_file : FileLib := {| filp_open _ _ := FFile (text "Fedora") |}.

#[export] Instance short_file_laws : FileLaws short_file.
Proof. split. intros _ _ bs [= <-]. simpl. lia. Qed.

Lemma read_file_prints_witness :
  runs (read_file (F := short_file) "/etc/fedora-release") kt_globals (λ _ s',
    out s' = [KText "My module is loaded"; KStr "buf:%s" (text "Fedora")] ∧
    files s' = 0 ∧ addr_limit s' = USER_DS ∧ live s' = 0 ∧ rcu s' = 0 ∧
    running s' = false ∧ MyThread s' = TNull ∧ jiffies s' = 0%Z).
Proof. exact (read_file_prints (F := short_file) "/etc/fedora-release" kt_globals). Defined.

Lemma read_thread_prints_witness :
  let read := [KText "My module is loaded"; KStr "buf:%s" (text "Fedora")] in
  ∃ fuel s', live s' = 0 ∧ files s' = 0 ∧ addr_limit s' = USER_DS ∧
    (0 + Z.of_nat 1 * 100 <= jiffies s')%Z ∧
    out s' = read ++ read ++ [KStr "%s" (text "hello world")] ∧
    ∀ fuel', fuel ≤ fuel' →
      MyPrintk_read (K := clock30) (F := short_file) fuel' (text "hello world") [false; true] kt_globals =
        Some (0%Z, s').
Proof.
  apply (read_thread_prints (K := clock30) (F := short_file) (text "hello world") (text "Fedora") 1 [] kt_globals).
  - by apply (bool_decide_unpack _).
  - reflexivity.
  - by apply (bool_decide_unpack _).
  - simpl. lia.
  - done.
Defined.
