(* ===== verification/Tgid.v ===== *)
(** * Thread group lookup (GetGroup_pid_From_ThreadId/get_tgid.c)

    get_tgid looks a task up by its process id and returns its thread group.
    The tasks are a parameter; find_get_pid takes a reference on what it finds, and the
    references taken and not given back are kept in the state. *)

From Stdlib Require Import ZArith Lia ssreflect.
From stdpp Require Import base gmap list numbers strings.
From S2P Require Import Prelude CString Bytes KThread.

(** The thread group of every task by its process id, and the running task. *)
Class TaskLib := {
  tasks : gmap Z Z;
  current_pid : Z;
}.

Section code.
Context `{K : ThreadLib, T : TaskLib}.

Abbreviation M := (ST kts).

Definition set_refs f : M unit := st_modify (λ s,
  Kts (jiffies s) (MyThread s) (running s) (live s) (files s) (f (pid_refs s)) (rcu s) (addr_limit s) (out s) (n_sched s) (n_kmalloc s) (n_open s)).

Definition set_rcu (d : nat) : M unit := st_modify (λ s,
  Kts (jiffies s) (MyThread s) (running s) (live s) (files s) (pid_refs s) d (addr_limit s) (out s) (n_sched s) (n_kmalloc s) (n_open s)).

Definition rcu_read_lock : M unit := s ← st_get; set_rcu (S (rcu s)).

Definition rcu_read_unlock : M unit :=
  s ← st_get;
  match rcu s with S d => set_rcu d | O => st_fail end.

(** [find_get_pid(nr)]: with a reference, or NULL. *)
Definition find_get_pid (nr : Z) : M (option Z) :=
  if bool_decide (is_Some (tasks !! nr)) then set_refs (λ l, l ++ [nr]);; mret (Some nr)
  else mret None.

(** [pid_task(pid, PIDTYPE_PID)]: the task's thread group stands for the task; to be
    called in a read section. *)
Definition pid_task (pid : option Z) : M (option Z) :=
  s ← st_get;
  match rcu s with
  | O => st_fail
  | S _ => mret (nr ← pid; tasks !! nr)
  end.

Definition get_tgid (pid : Z) : M Z :=
  rcu_read_lock;;
  pidStruct ← find_get_pid (s32 pid);
  task ← pid_task pidStruct;
  tgid ← match task with
         | Some tgid => mret (u32 tgid)
         | None => printk (KNum "Error : Pid:%u doesnt exist" pid);; mret 0%Z
         end;
  rcu_read_unlock;;
  mret tgid.

(** The line that MyPrintk and init_kthread print. *)
Definition print_ids : M unit :=
  tgid ← get_tgid (u32 current_pid);
  printk (KNum2 "PID:%u and TGID:%u" (u32 current_pid) tgid).

Definition MyPrintk_tgid (fuel : nat) (data : list Z) (stops : list bool) : M Z :=
  print_thread fuel print_ids (mret tt) data stops.

Definition init_kthread_tgid : M Z := print_ids;; kthread_run;; mret 0%Z.

End code.

(** ** Properties *)

Section properties.
Context `{K : ThreadLib, KL : !ThreadLaws K, T : TaskLib}.

(** One lookup. *)
Lemma get_tgid_run pid s :
  get_tgid pid s = Some
    match tasks !! s32 pid with
    | Some tgid =>
        (u32 tgid, Kts (jiffies s) (MyThread s) (running s) (live s) (files s) (pid_refs s ++ [s32 pid]) (rcu s)
           (addr_limit s) (out s) (n_sched s) (n_kmalloc s) (n_open s))
    | None =>
        (0%Z, Kts (jiffies s) (MyThread s) (running s) (live s) (files s) (pid_refs s) (rcu s)
           (addr_limit s) (out s ++ [KNum "Error : Pid:%u doesnt exist" pid]) (n_sched s) (n_kmalloc s) (n_open s))
    end.
Proof.
  unfold get_tgid, find_get_pid. destruct (tasks !! s32 pid) as [tgid|] eqn:E.
  - rewrite bool_decide_true; [eauto|]. unfold mbind, ST_bind. simpl. by rewrite E.
  - rewrite bool_decide_false; [intros [? ?]; congruence|]. done.
Qed.

(** The line with the ids of a task that exists. *)
Lemma print_ids_does tgid :
  in_s32 current_pid → tasks !! current_pid = Some tgid →
  does print_ids [KNum2 "PID:%u and TGID:%u" (u32 current_pid) (u32 tgid)].
Proof.
  intros Hp Ht s0. assert (Hs : s32 (u32 current_pid) = current_pid).
  { unfold s32, u32. rewrite Z.add_mod_idemp_l; [lia|]. by apply s32_id. }
  unfold print_ids, mbind, ST_bind. rewrite get_tgid_run Hs Ht.
  eexists. split; [reflexivity|]. simpl. split_and!; done || lia.
Qed.

(** The thread: one line with the ids of its own task, then its argument. *)
Lemma tgid_thread data tgid n rest s :
  Forall (λ c, c ≠ 0%Z) data → kmalloc_ok (n_kmalloc s) = true → in_s32 current_pid →
  tasks !! current_pid = Some tgid →
  ∃ fuel s', live s' = live s ∧ rcu s' = rcu s ∧
    out s' = out s ++ [KNum2 "PID:%u and TGID:%u" (u32 current_pid) (u32 tgid)] ++
             concat (replicate n [KStr "%s" data]) ∧
    ∀ fuel', fuel ≤ fuel' →
      MyPrintk_tgid fuel' data (replicate n false ++ true :: rest) s = Some (0%Z, s').
Proof.
  intros Hd Hk Hp Ht. pose proof (print_ids_does tgid Hp Ht) as Hdoes.
  destruct (print_thread_ends _ _ _ _ data n rest s Hdoes does_nothing Hd Hk)
    as (f & s' & H1 & H2 & _ & _ & _ & Ho & Hrun). by exists f, s'.
Qed.

(** a sequence of lookups returns for every process id the thread group of its task, or 0
    with an error line when there is none, and leaves every read section. The
    reference that find_get_pid takes is never given back: one stays for every
    successful lookup. *)
Theorem get_tgid_leaks pids s :
  ∃ s', mapM get_tgid pids s = Some ((λ pid, from_option u32 0%Z (tasks !! s32 pid)) <$> pids, s') ∧
    rcu s' = rcu s ∧
    pid_refs s' = pid_refs s ++ filter (λ nr, is_Some (tasks !! nr)) (s32 <$> pids) ∧
    out s' = out s ++ (KNum "Error : Pid:%u doesnt exist" <$> filter (λ pid, tasks !! s32 pid = None) pids).
Proof.
  revert s. induction pids as [|pid pids IH]; intros s.
  { exists s. simpl. by rewrite !app_nil_r. }
  pose proof (get_tgid_run pid s) as E. destruct (tasks !! s32 pid) as [tgid|] eqn:Et;
    match type of E with _ = Some (_, ?x) => destruct (IH x) as (s' & E' & H1 & H2 & H3) end;
    exists s'; simpl; rewrite Et (st_bind_some _ _ _ _ _ E) (st_bind_some _ _ _ _ _ E').
  - rewrite filter_cons_True; [by rewrite Et|]. rewrite filter_cons_False; [by rewrite Et|].
    rewrite -app_assoc in H2. by split_and!.
  - rewrite filter_cons_False; [by rewrite Et; intros [? ?]|]. rewrite filter_cons_True; [done|].
    simpl in H3. rewrite -app_assoc in H3. by split_and!.
Qed.

End properties.
