(* ===== verification/KLife.v ===== *)
(** * The life of the thread modules

    Kernel_Thread/thread.c, Kernel_Thread_ReadingFileFromKernel/thread.c and
    GetGroup_pid_From_ThreadId/get_tgid.c from loading to unloading: the thread of each module and the
    process that unloads it take turns. A step of the thread is a statement of its function (the copy
    of the argument, the check for a stop request, the sleep, the module's own action, the message,
    the return), a step of the unloading is its message, the request to stop, or the end of the
    wait for the thread. What differs between the modules is the interface [KModule]. *)

From Stdlib Require Import ZArith Lia ssreflect.
From stdpp Require Import base gmap list numbers strings relations.
From S2P Require Import Prelude CString Bytes KThread KFile Tgid.

(** ** The modules *)

(** What a module does before it starts its thread, before the thread's loop, and in every round. *)
Class KModule `{K : ThreadLib} := {
  km_load : ST kts unit;
  km_before : ST kts unit;
  km_each : ST kts unit;
}.

(** The argument of the thread. *)
Definition hello : list Z := text "hello world".

Section code.
Context `{K : ThreadLib} {N : KModule}.

Abbreviation M := (ST kts).

(** [init_kthread]. *)
Definition load : M Z := km_load;; kthread_run;; mret 0%Z.

(** *** The steps *)

(** Where the thread is: not yet run, before the module's first action, at the check of the loop, at the
    sleep, at the module's action, at the message, returned. *)
Inductive tpc :=
  | TNew
  | TBefore (mydata : list cell)
  | TCheck (mydata : list cell)
  | TSleep (mydata : list cell)
  | TEach (mydata : list cell)
  | TPrint (mydata : list cell)
  | TDone.

(** One statement of the thread function; [stop] is the answer of kthread_should_stop. *)
Definition thread_part (fuel : nat) (pc : tpc) (stop : bool) : M tpc :=
  match pc with
  | TNew => mydata ← copy_data hello; mret (TBefore mydata)
  | TBefore mydata => km_before;; mret (TCheck mydata)
  | TCheck mydata => if stop then kfree;; mret TDone else mret (TSleep mydata)
  | TSleep mydata => SLEEP_MILLI_SEC fuel 1000;; mret (TEach mydata)
  | TEach mydata => km_each;; mret (TPrint mydata)
  | TPrint mydata => s ← st_opt (cell_string mydata); printk (KStr "%s" s);; mret (TCheck mydata)
  | TDone => st_fail
  end.

(** [Exiting]: exit_kthread has printed its message and not yet called kthread_stop. *)
Inductive phase := Loaded | Exiting | Stopping | Unloaded | Faulted.

Definition active (ph : phase) : bool :=
  match ph with Loaded | Exiting | Stopping => true | Unloaded | Faulted => false end.

Record kmod := Kmod { k_st : kts; k_pc : tpc; k_stop : bool; k_phase : phase }.

(** A thread that is asked to stop before it has run never enters its function; the kernel's check comes
    before the entry, so that the request may also come in between. *)
Inductive kstep : relation kmod :=
  | KRun fuel s pc stop ph pc' s' : active ph = true → thread_part fuel pc stop s = Some (pc', s') →
      kstep (Kmod s pc stop ph) (Kmod s' pc' stop ph)
  | KRunFault s pc stop ph : active ph = true → pc ≠ TDone → (∀ fuel, thread_part fuel pc stop s = None) →
      kstep (Kmod s pc stop ph) (Kmod s pc stop Faulted)
  | KNever s : kstep (Kmod s TNew true Stopping) (Kmod s TDone true Stopping)
  | KExit s pc s' : MyThread s ≠ TNull → printk (KText "stop MyThread") s = Some (tt, s') →
      kstep (Kmod s pc false Loaded) (Kmod s' pc false Exiting)
  | KExitNone s pc : MyThread s = TNull → kstep (Kmod s pc false Loaded) (Kmod s pc false Unloaded)
  | KStop s pc : MyThread s = TTask → kstep (Kmod s pc false Exiting) (Kmod s pc true Stopping)
  | KStopFault s pc : kthread_stop s = None → kstep (Kmod s pc false Exiting) (Kmod s pc false Faulted)
  | KJoin s s' : kthread_stop s = Some (tt, s') →
      kstep (Kmod s TDone true Stopping) (Kmod s' TDone true Unloaded).

(** Right after the module was loaded; there is a thread if kthread_run succeeded. *)
Definition loaded (s : kts) : kmod :=
  Kmod s (match MyThread s with TTask => TNew | _ => TDone end) false Loaded.

End code.

(** The three modules. *)
Section modules.
Context `{K : ThreadLib}.

Definition plain_module : KModule := {| km_load := mret tt; km_before := mret tt; km_each := mret tt |}.

Definition read_module `{F : FileLib} : KModule :=
  {| km_load := mret tt; km_before := ReadFile; km_each := ReadFile |}.

(** The task that loads the module is [T0], the thread [T1]. *)
Definition tgid_module (T0 T1 : TaskLib) : KModule :=
  {| km_load := print_ids (T := T0); km_before := print_ids (T := T1); km_each := mret tt |}.

(** init_kthread of the second module; the third's is in [Tgid]. *)
Definition init_kthread_read `{F : FileLib} : ST kts Z := load (N := read_module).

(** The thread function and exit_kthread of the second and of the third module. *)
Definition read_step `{F : FileLib} : relation kmod := kstep (N := read_module).

Definition tgid_step (T0 T1 : TaskLib) : relation kmod := kstep (N := tgid_module T0 T1).

End modules.

(** ** What a module promises *)

(** Its parts return, print these lines, and leave the rest of the state alone. *)
Class KModuleLaws `(N : KModule) (ll bs ls : list kt_line) : Prop := {
  kml_load : does km_load ll;
  kml_before : does km_before bs;
  kml_each : does km_each ls;
}.

(** ** Specification *)

(** The lines of a round, and all lines of a thread after [n] rounds. *)
Definition round_lines (ls : list kt_line) : list kt_line := ls ++ [KStr "%s" hello].

Definition spoken (bs ls : list kt_line) (n : nat) : list kt_line :=
  bs ++ concat (replicate n (round_lines ls)).

Definition stop_line : kt_line := KText "stop MyThread".

(** ** Lemmas *)

(** *** Sleeping *)

Section sleeping.
Context `{K : ThreadLib, L : !ThreadLaws K}.

Lemma sleep_loop_more fuel fuel' timeout s r :
  sleep_loop fuel timeout s = Some r → fuel ≤ fuel' → sleep_loop fuel' timeout s = Some r.
Proof.
  revert fuel' timeout s. induction fuel as [|fuel IH]; intros [|fuel'] timeout s E Hf; try done; [lia|].
  simpl in *. destruct (0 <? timeout)%Z; [|done]. unfold mbind, ST_bind in *.
  destruct (schedule_timeout timeout s) as [[t s']|]; [|done]. apply IH; [done|lia].
Qed.

(** Whenever the macro returns, only time has passed, and enough of it. *)
Lemma slept_enough fuel timeout s s' :
  sleep_loop fuel timeout s = Some (tt, s') → slept s s' ∧ (jiffies s + Z.max 0 timeout <= jiffies s')%Z.
Proof.
  intros E. destruct (sleep_loop_ends timeout s) as (f & s0 & Hs & Hj & Hl).
  pose proof (sleep_loop_more _ (fuel `max` f) _ _ _ E ltac:(lia)) as E1.
  rewrite Hl in E1; [lia|]. by simplify_eq.
Qed.

End sleeping.

(** *** The parts of the thread *)

Lemma copy_string : cell_string (Some <$> (hello ++ [0%Z])) = Some hello.
Proof. rewrite -(app_nil_r (Some <$> _)) cell_string_app //. by apply (bool_decide_unpack _). Qed.

#[local] Opaque hello.

Section parts.
Context `{K : ThreadLib, L : !ThreadLaws K, N : !KModule} {ll bs ls : list kt_line} {NL : KModuleLaws N ll bs ls}.

Abbreviation buffer := (Some <$> (hello ++ [0%Z])).

(** The buffers the thread holds, what it has in them, and what its next statement prints. *)
Definition held (pc : tpc) : nat := match pc with TNew | TDone => 0 | _ => 1 end.

Definition holds_copy (pc : tpc) : Prop :=
  match pc with TNew | TDone => True | TBefore d | TCheck d | TSleep d | TEach d | TPrint d => d = buffer end.

Definition says (pc : tpc) : list kt_line :=
  match pc with TBefore _ => bs | TEach _ => ls | TPrint _ => [KStr "%s" hello] | _ => [] end.

Definition next (pc : tpc) (stop : bool) : tpc :=
  match pc with
  | TNew => TBefore buffer | TBefore d => TCheck d | TCheck d => if stop then TDone else TSleep d
  | TSleep d => TEach d | TEach d => TPrint d | TPrint d => TCheck d | TDone => TDone
  end.

(** How a statement of the thread changes the state. *)
Record changes (s s' : kts) (pc : tpc) (stop : bool) : Prop := {
  ch_task : MyThread s' = MyThread s;
  ch_live : live s' = held (next pc stop);
  ch_time : (jiffies s + (if pc is TSleep _ then HZ else 0) <= jiffies s')%Z;
  ch_out : out s' = out s ++ says pc }.

Lemma part_changes fuel s pc stop pc' s' :
  (∀ n, kmalloc_ok n = true) → holds_copy pc → live s = held pc → thread_part fuel pc stop s = Some (pc', s') →
  pc' = next pc stop ∧ changes s s' pc stop.
Proof.
  intros Hk Hc Hl E. destruct pc as [|d|d|d|d|d|]; simpl in Hc, Hl, E; try subst d; [..|done].
  - rewrite (st_bind_some _ _ _ _ _ (copy_data_spec hello s (Hk _))) in E. injection E as <- <-.
    split; [done|]. split; simpl; [done|lia|lia|by rewrite app_nil_r].
  - destruct (kml_before s) as (s2 & E2 & H1 & _ & H3 & _ & _ & _ & Hj & Ho).
    rewrite (st_bind_some _ _ _ _ _ E2) in E. injection E as <- <-. split; [done|]. split; simpl; [done|lia|lia|done].
  - destruct stop; injection E as <- <-; (split; [done|]); split; simpl; try done; try lia; by rewrite app_nil_r.
  - unfold SLEEP_MILLI_SEC, mbind, ST_bind in E.
    destruct (sleep_loop fuel (1000 * HZ / 1000) s) as [[[] s1]|] eqn:Es; [|done].
    destruct (slept_enough _ _ _ _ Es) as [Hs Hj]. rewrite Z.mul_comm Z.div_mul in Hj; [lia|]. pose proof kt_hz.
    injection E as <- <-. split; [done|]. rewrite Hs in Hj |- *. simpl in *.
    split; simpl; [done|lia|lia|by rewrite app_nil_r].
  - destruct (kml_each s) as (s2 & E2 & H1 & _ & H3 & _ & _ & _ & Hj & Ho).
    rewrite (st_bind_some _ _ _ _ _ E2) in E. injection E as <- <-. split; [done|]. split; simpl; [done|lia|lia|done].
  - rewrite copy_string in E. injection E as <- <-. split; [done|]. split; simpl; [done|done|lia|done].
Qed.

(** A thread that has not returned can go on. *)
Lemma part_returns s pc stop :
  (∀ n, kmalloc_ok n = true) → holds_copy pc → pc ≠ TDone → ∃ fuel r, thread_part fuel pc stop s = Some r.
Proof.
  intros Hk Hc Hd. destruct pc as [|d|d|d|d|d|]; simpl in Hc; try subst d; [..|done].
  - eexists 0, _. simpl. by rewrite (st_bind_some _ _ _ _ _ (copy_data_spec hello s (Hk _))).
  - destruct (kml_before s) as (s2 & E2 & _). eexists 0, _. simpl. by rewrite (st_bind_some _ _ _ _ _ E2).
  - destruct stop; by eexists 0, _.
  - destruct (sleep_loop_ends (1000 * HZ / 1000) s) as (f & s1 & _ & _ & Hl). eexists f, _. simpl.
    unfold SLEEP_MILLI_SEC. by rewrite (st_bind_some _ _ _ _ _ (Hl f (le_n f))).
  - destruct (kml_each s) as (s2 & E2 & _). eexists 0, _. simpl. by rewrite (st_bind_some _ _ _ _ _ E2).
  - eexists 0, _. simpl. by rewrite copy_string.
Qed.

End parts.

(** *** The invariant *)

Section life.
Context `{K : ThreadLib, L : !ThreadLaws K, N : !KModule} {ll bs ls : list kt_line} {NL : KModuleLaws N ll bs ls}.

Abbreviation buffer := (Some <$> (hello ++ [0%Z])).

(** What the thread has said when it has finished [n] rounds. *)
Definition told (pc : tpc) (n : nat) (t : list kt_line) : Prop :=
  match pc with
  | TNew | TBefore _ => n = 0 ∧ t = []
  | TPrint _ => t = spoken bs ls n ++ ls
  | TDone => (n = 0 ∧ t = []) ∨ t = spoken bs ls n
  | _ => t = spoken bs ls n
  end.

(** The sleeps it has finished by then. *)
Definition slept_rounds (pc : tpc) (n : nat) : nat := match pc with TEach _ | TPrint _ => S n | _ => n end.

(** The output of the module: the message of the unloading comes in between. *)
Definition printed (ph : phase) (o t : list kt_line) : Prop :=
  match ph with
  | Loaded => o = ll ++ t
  | _ => ∃ t1 t2, t = t1 ++ t2 ∧ o = ll ++ t1 ++ stop_line :: t2
  end.

Definition phase_ok (pc : tpc) (stop : bool) (ph : phase) : Prop :=
  match ph with
  | Loaded | Exiting => stop = false ∧ pc ≠ TDone
  | Stopping => stop = true
  | Unloaded => stop = true ∧ pc = TDone
  | Faulted => False
  end.

Record life_inv (m : kmod) : Prop := {
  li_task : MyThread (k_st m) = TTask;
  li_copy : holds_copy (k_pc m);
  li_live : live (k_st m) = held (k_pc m);
  li_phase : phase_ok (k_pc m) (k_stop m) (k_phase m);
  li_run : k_phase m = Unloaded → running (k_st m) = false;
  li_out : ∃ n t, told (k_pc m) n t ∧ (Z.of_nat (slept_rounds (k_pc m) n) * HZ <= jiffies (k_st m))%Z ∧
    printed (k_phase m) (out (k_st m)) t }.

Lemma printed_more ph o t u : printed ph o t → printed ph (o ++ u) (t ++ u).
Proof.
  destruct ph; simpl; [intros ->; by rewrite app_assoc|..]; intros (t1 & t2 & -> & ->); exists t1, (t2 ++ u);
    rewrite -!app_assoc; done.
Qed.

Lemma spoken_S n : spoken bs ls (S n) = spoken bs ls n ++ round_lines ls.
Proof.
  unfold spoken. rewrite -app_assoc. f_equal. rewrite -{1}Nat.add_1_r replicate_add concat_app /= app_nil_r //.
Qed.

(** What it says with its next statement goes on with what it has said. *)
Lemma told_next pc stop n t :
  pc ≠ TDone → told pc n t → ∃ n', told (next pc stop) n' (t ++ says (bs := bs) (ls := ls) pc) ∧
    slept_rounds (next pc stop) n' = slept_rounds pc n + (if pc is TSleep _ then 1 else 0).
Proof.
  intros Hd H. destruct pc as [|d|d|d|d|d|]; simpl in *; [..|done].
  - destruct H as [-> ->]. by exists 0.
  - destruct H as [-> ->]. exists 0. split; [by rewrite /spoken /= app_nil_r|done].
  - subst t. exists n. rewrite app_nil_r Nat.add_0_r. destruct stop; simpl; auto.
  - subst t. exists n. rewrite app_nil_r. split; [done|lia].
  - subst t. exists n. split; [done|lia].
  - subst t. exists (S n). rewrite spoken_S /round_lines -app_assoc. split; [done|lia].
Qed.

Lemma next_copy pc stop : holds_copy pc → holds_copy (next pc stop).
Proof. destruct pc, stop; simpl; done. Qed.

Lemma run_inv fuel s pc stop ph pc' s' :
  (∀ n, kmalloc_ok n = true) → life_inv (Kmod s pc stop ph) → active ph = true →
  thread_part fuel pc stop s = Some (pc', s') → life_inv (Kmod s' pc' stop ph).
Proof.
  intros Hk [H1 H2 H3 H4 H5 (n & t & Ht & Hj & Ho)] Hph E. simpl in *.
  assert (pc ≠ TDone) as Hd by (intros ->; done).
  destruct (part_changes _ _ _ _ _ _ Hk H2 H3 E) as [-> [C1 C2 C3 C4]].
  destruct (told_next pc stop n t Hd Ht) as (n' & Ht' & Hn'). pose proof kt_hz.
  split; simpl; [congruence|by apply next_copy|done| |by destruct ph|].
  - destruct ph; simpl in *; try done; destruct H4 as [-> _]; (split; [done|]); by destruct pc.
  - exists n', (t ++ says (bs := bs) (ls := ls) pc). rewrite Hn' C4. split_and!; [done| |by apply printed_more].
    destruct pc; simpl in *; lia.
Qed.

Lemma told_done pc n t : pc = TNew ∨ pc = TDone → told pc n t → told TDone n t.
Proof. intros [->| ->]; simpl; auto. Qed.

Lemma kstep_inv m m' :
  (∀ n, kmalloc_ok n = true) → life_inv m → kstep m m' → life_inv m'.
Proof.
  intros Hk H Hstep. destruct Hstep as [fuel s pc stop ph pc' s' Hph E|s pc stop ph Hph Hd E|s|s pc s' Ht E|s pc Ht
    |s pc Ht|s pc E|s s' E].
  - by eapply run_inv.
  - destruct H as [H1 H2 H3 H4 H5 _]. simpl in *. destruct (part_returns s pc stop Hk H2 Hd) as (fuel & r & E'). by rewrite E in E'.
  - destruct H as [H1 H2 H3 H4 H5 (n & t & Ht & Hj & Ho)]. simpl in *. split; simpl; [done..|].
    exists n, t. split_and!; [by left|done|done].
  - destruct H as [H1 H2 H3 H4 H5 (n & t & Htold & Hj & Ho)]. injection E as <-. simpl in *.
    split; simpl; [done..|]. exists n, t. split_and!; [done|done|]. exists t, []. by rewrite Ho app_nil_r -app_assoc.
  - destruct H as [H1 _]. simpl in *. congruence.
  - destruct H as [H1 H2 H3 H4 H5 (n & t & Htold & Hj & Ho)]. simpl in *. split; simpl; [done..|]. by exists n, t.
  - destruct H as [H1 _]. simpl in *. unfold kthread_stop in E. by rewrite H1 in E.
  - destruct H as [H1 H2 H3 H4 H5 (n & t & Htold & Hj & Ho)]. simpl in *. unfold kthread_stop in E. rewrite H1 in E.
    injection E as <-. split; simpl; [done..|]. by exists n, t.
Qed.

Lemma ksteps_inv m m' : (∀ n, kmalloc_ok n = true) → life_inv m → rtc kstep m m' → life_inv m'.
Proof. intros Hk H Hm. induction Hm as [|m1 m2 m3 Hs _ IH]; [done|]. apply IH. by eapply kstep_inv. Qed.

(** *** Unloading ends *)

(** The steps left, and what the thread still says, once it was asked to stop. *)
Definition steps_left (m : kmod) : nat :=
  match k_phase m with
  | Stopping => match k_pc m with TNew | TEach _ => 4 | TBefore _ | TPrint _ => 3 | TSleep _ => 5 | TCheck _ => 2 | TDone => 1 end
  | _ => 0
  end.

Definition to_say (pc : tpc) : list kt_line :=
  match pc with
  | TNew | TBefore _ => bs
  | TSleep _ | TEach _ => round_lines ls
  | TPrint _ => [KStr "%s" hello]
  | TCheck _ | TDone => []
  end.

Definition stop_asked (m : kmod) : Prop := k_phase m = Stopping ∨ k_phase m = Unloaded.

Lemma kstep_down m m' :
  (∀ n, kmalloc_ok n = true) → life_inv m → stop_asked m → kstep m m' →
  stop_asked m' ∧ S (steps_left m') ≤ steps_left m ∧
  ∃ u, out (k_st m') = out (k_st m) ++ u ∧ u ++ to_say (k_pc m') `prefix_of` to_say (k_pc m).
Proof.
  intros Hk Hinv Hask Hstep. pose proof (kstep_inv _ _ Hk Hinv Hstep) as Hinv'.
  destruct Hstep as [fuel s pc stop ph pc' s' Hph E|s pc stop ph Hph Hd E|s|s pc s' Ht E|s pc Ht
    |s pc Ht|s pc E|s s' E]; unfold stop_asked, steps_left in *; simpl in *.
  - destruct Hask as [-> | ->]; [|done]. destruct Hinv as [_ H2 H3 H4 _ _]. simpl in *. subst stop.
    assert (pc ≠ TDone) as Hd by (intros ->; done).
    destruct (part_changes _ _ _ _ _ _ Hk H2 H3 E) as [-> [_ _ _ C4]]. split; [by left|].
    split; [destruct pc; simpl; by (lia || done)|]. exists (says (bs := bs) (ls := ls) pc). split; [done|].
    destruct pc; simpl; rewrite ?app_nil_r; done.
  - by destruct Hinv' as [_ _ _ ? _ _].
  - split; [by left|]. split; [lia|]. exists []. rewrite app_nil_r. split; [done|]. apply prefix_nil.
  - by destruct Hask.
  - by destruct Hask.
  - by destruct Hask.
  - by destruct Hask.
  - split; [by right|]. split; [lia|]. exists []. unfold kthread_stop in E. destruct (MyThread s); [done..|].
    injection E as <-. by rewrite app_nil_r.
Qed.

Lemma ksteps_down k m m' :
  (∀ n, kmalloc_ok n = true) → life_inv m → stop_asked m → nsteps kstep k m m' →
  k ≤ steps_left m ∧ ∃ u, out (k_st m') = out (k_st m) ++ u ∧ u ++ to_say (k_pc m') `prefix_of` to_say (k_pc m).
Proof.
  intros Hk Hinv Hask Hn. induction Hn as [m|k m1 m2 m3 Hs _ IH].
  { split; [lia|]. exists []. by rewrite app_nil_r. }
  destruct (kstep_down _ _ Hk Hinv Hask Hs) as (Hask2 & Hle & u1 & E1 & P1).
  destruct (IH (kstep_inv _ _ Hk Hinv Hs) Hask2) as (Hle2 & u2 & E2 & [v2 P2]). split; [lia|].
  exists (u1 ++ u2). rewrite E2 E1 -!app_assoc. split; [done|]. rewrite P2 in P1.
  destruct P1 as [v1 P1]. exists (v2 ++ v1). rewrite P1. by rewrite -!app_assoc.
Qed.

Lemma kstep_progress m :
  (∀ n, kmalloc_ok n = true) → life_inv m → k_phase m = Stopping → ∃ m', kstep m m'.
Proof.
  intros Hk [H1 H2 H3 H4 H5 _] Hph. destruct m as [s pc stop ph]. simpl in *. subst ph. simpl in H4. subst stop.
  assert (pc = TDone ∨ pc ≠ TDone) as [->|Hd] by (destruct pc; auto).
  - eexists. eapply KJoin. unfold kthread_stop. by rewrite H1.
  - destruct (part_returns s pc true Hk H2 Hd) as (fuel & [pc' s'] & E). eexists. by eapply KRun.
Qed.

(** A loaded module can be unloaded: two steps lead to the request. *)
Lemma kstep_unload m :
  life_inv m → k_phase m = Loaded → ∃ m1 m2, kstep m m1 ∧ kstep m1 m2 ∧ k_phase m2 = Stopping.
Proof.
  intros [H1 H2 H3 H4 H5 _] Hph. destruct m as [s pc stop ph]. simpl in *. subst ph. simpl in H4. destruct H4 as [-> _].
  eexists _, _. split_and!; [eapply KExit; [by rewrite H1|reflexivity]|by eapply KStop|done].
Qed.

End life.

(** ** The modules keep their promises *)

#[export] Instance plain_laws `{K : ThreadLib} : KModuleLaws plain_module [] [] [].
Proof. split; apply does_nothing. Qed.

Lemma read_laws `{K : ThreadLib, F : FileLib} content :
  Forall (λ c, c ≠ 0%Z) content → length content < 128 →
  (∀ k, filp_open k "/home/fedora-release" = FFile content) →
  let read := [KText "My module is loaded"; KStr "buf:%s" content] in
  KModuleLaws read_module [] read read.
Proof. intros H1 H2 H3. split; [apply does_nothing|by apply ReadFile_does..]. Qed.

Definition ids_line (pid tgid : Z) : kt_line := KNum2 "PID:%u and TGID:%u" (u32 pid) (u32 tgid).

Lemma tgid_laws `{K : ThreadLib} (T0 T1 : TaskLib) g0 g1 :
  in_s32 (current_pid (TaskLib := T0)) → tasks (TaskLib := T0) !! current_pid (TaskLib := T0) = Some g0 →
  in_s32 (current_pid (TaskLib := T1)) → tasks (TaskLib := T1) !! current_pid (TaskLib := T1) = Some g1 →
  KModuleLaws (tgid_module T0 T1) [ids_line (current_pid (TaskLib := T0)) g0]
    [ids_line (current_pid (TaskLib := T1)) g1] [].
Proof. intros. split; [by apply print_ids_does..|apply does_nothing]. Qed.

(** [load] is the init function of each module. *)
Lemma loads_init `{K : ThreadLib} (T0 T1 : TaskLib) s :
  load (N := plain_module) s = init_kthread s ∧ load (N := tgid_module T0 T1) s = init_kthread_tgid (T := T0) s.
Proof. done. Qed.

(** ** Properties *)

(** C32: the life of a thread module, for any module whose own actions return and print fixed lines, as
    those of the three modules do, on any clock that does not stand still, when kthread_run and every
    allocation succeed. Loading returns 0, and in every interleaving of the statements of the thread
    with those of the unloading nothing faults and at most one buffer is held. A loaded module can be
    unloaded at any moment. Once kthread_stop was called there is always a next step, every sequence of
    steps has at most five, and the thread says at most its first lines or one more round
    (the rest of it, if it was inside). When the module is unloaded, no thread and no
    buffer is left, and its output is what was printed on loading, then what the thread said in
    whole rounds, at least a second of ticks each, with the message of the unloading somewhere in between. *)
Theorem thread_life `{K : ThreadLib, KL : !ThreadLaws K, N : !KModule} ll bs ls :
  KModuleLaws N ll bs ls → kthread_ok 0 = true → (∀ n, kmalloc_ok n = true) →
  ∃ s, load kt_globals = Some (0%Z, s) ∧ ∀ m, rtc kstep (loaded s) m →
    k_phase m ≠ Faulted ∧ live (k_st m) ≤ 1 ∧
    (k_phase m = Loaded → ∃ m1 m2, kstep m m1 ∧ kstep m1 m2 ∧ k_phase m2 = Stopping) ∧
    (k_phase m = Stopping →
      (∃ m', kstep m m') ∧
      ∀ k m', nsteps kstep k m m' → k ≤ 5 ∧
        ∃ u w, out (k_st m') = out (k_st m) ++ u ∧ u `prefix_of` w ∧ (w = bs ∨ w `suffix_of` round_lines ls)) ∧
    (k_phase m = Unloaded →
      k_pc m = TDone ∧ live (k_st m) = 0 ∧ running (k_st m) = false ∧
      ∃ n t1 t2, out (k_st m) = ll ++ t1 ++ stop_line :: t2 ∧
        (t1 ++ t2 = [] ∨ t1 ++ t2 = spoken bs ls n) ∧ (Z.of_nat n * HZ <= jiffies (k_st m))%Z).
Proof.
  intros NL Hth Hk. destruct (kml_load kt_globals) as (s1 & E1 & H1 & _ & _ & _ & _ & _ & Hj & Ho).
  set (s := Kts (jiffies s1) TTask true (live s1) (files s1) (pid_refs s1) (rcu s1) (addr_limit s1)
    (out s1) (n_sched s1) (n_kmalloc s1) (n_open s1)).
  exists s. split.
  { unfold load. rewrite (st_bind_some _ _ _ _ _ E1). unfold kthread_run, mbind, ST_bind. by rewrite Hth. }
  intros m Hm.
  assert (life_inv (ll := ll) (bs := bs) (ls := ls) m) as Hinv.
  { eapply ksteps_inv; [done| |exact Hm]. split; simpl; [done..|]. exists 0, []. rewrite app_nil_r. by split_and!. }
  pose proof Hinv as [_ _ Hlive Hph Hrun Hout]. split_and!.
  - intros E. by rewrite E in Hph.
  - rewrite Hlive. destruct (k_pc m); simpl; lia.
  - by apply (kstep_unload m Hinv).
  - intros E. split; [by apply (kstep_progress m Hk Hinv)|]. intros k m' Hn.
    destruct (ksteps_down k m m' Hk Hinv (or_introl E) Hn) as (Hle & u & Eu & Hu). split.
    { unfold steps_left in Hle. rewrite E in Hle. destruct (k_pc m); lia. }
    exists u, (to_say (bs := bs) (ls := ls) (k_pc m)). split_and!; [done|by etrans; [apply prefix_app_r|]|].
    destruct (k_pc m); simpl; auto; right; [apply suffix_nil|by exists ls|apply suffix_nil].
  - intros E. rewrite E in Hph, Hout. destruct Hph as [_ Epc]. rewrite Epc in Hlive, Hout.
    destruct Hout as (n & t & Ht & Hz & t1 & t2 & -> & Eo). split_and!; [done|done|by apply Hrun|].
    exists n, t1, t2. split_and!; [done| |done]. destruct Ht as [[_ Ht]|Ht]; auto.
Qed.

(** ** Witnesses *)

(** Loading and unloading the reading module, with one round of its thread. *)
Lemma thread_life_witness :
  let N := read_module (K := clock30) (F := short_file) in
  let read := [KText "My module is loaded"; KStr "buf:%s" (text "Fedora")] in
  ∃ s, load (N := N) kt_globals = Some (0%Z, s) ∧ ∀ m, rtc (kstep (N := N)) (loaded s) m →
    k_phase m = Unloaded → live (k_st m) = 0 ∧ ∃ n t1 t2, out (k_st m) = t1 ++ stop_line :: t2 ∧
      (t1 ++ t2 = [] ∨ t1 ++ t2 = spoken read read n).
Proof.
  intros N read.
  destruct (thread_life (K := clock30) (N := N) [] read read) as (s & E & H).
  - apply read_laws; [by apply (bool_decide_unpack _)|simpl; lia|done].
  - reflexivity.
  - intros n. reflexivity.
  - exists s. split; [exact E|]. intros m Hm Hu. destruct (H m Hm) as (_ & _ & _ & _ & H5).
    destruct (H5 Hu) as (_ & Hl & _ & n & t1 & t2 & Ho & Ht & _). split; [exact Hl|].
    exists n, t1, t2. exact (conj Ho Ht).
Defined.
