(* ===== verification/CreateFd.v ===== *)
(** * A new file descriptor for an open file (CreateUnusedFd/createfd.c)

    create_fd opens the object of a given file again and installs it under an unused
    descriptor. The state counts the references held on the file's dentry and on its
    mount, the descriptors reserved and in use, and the files opened by filp_open. What the
    kernel answers is a parameter: the unused descriptor, the result of dentry_open, and the kernel
    version, since from 3.6 on dentry_open takes references of its own while older
    ones take over the caller's. *)

From Stdlib Require Import ZArith Lia ssreflect.
From stdpp Require Import base gmap list numbers strings.
From S2P Require Import Prelude.

(** [filp->f_path]: whether dentry and mount are there. *)
Record filp := Filp { f_dentry : bool; f_mnt : bool }.

(** NULL, an error pointer, or an open file. *)
Inductive filp_ptr := FNull | FErr | FPtr (f : filp).

(** The result of filp_open, of get_unused_fd (negative when there is none), of dentry_open (an
    error number, or [None]), and whether the kernel is 3.6 or later. *)
Class FdLib := {
  filp_open : filp_ptr;
  get_unused_fd : Z;
  dentry_open_error : option Z;
  kernel_3_6 : bool;
}.

(** References on the dentry and on the mount, reserved descriptors, descriptors in use, files of
    filp_open that are open, and the numbers printed. *)
Record fds := Fds {
  dentry_refs : nat;
  mnt_refs : nat;
  reserved : gset Z;
  used : gset Z;
  filps : nat;
  printed : list Z }.

Definition EOVERFLOW : Z := 75.

Section code.
Context `{K : FdLib}.

Abbreviation M := (ST fds).

Definition set_refs (d m : nat) : M unit :=
  st_modify (λ s, Fds d m (reserved s) (used s) (filps s) (printed s)).

Definition set_fds (r u : gset Z) : M unit :=
  st_modify (λ s, Fds (dentry_refs s) (mnt_refs s) r u (filps s) (printed s)).

(** [dget] and [mntget]: NULL is passed through. *)
Definition dget (b : bool) : M bool :=
  s ← st_get; set_refs (if b then S (dentry_refs s) else dentry_refs s) (mnt_refs s);; mret b.

Definition mntget (b : bool) : M bool :=
  s ← st_get; set_refs (dentry_refs s) (if b then S (mnt_refs s) else mnt_refs s);; mret b.

(** [dentry_open]: a new file holds a reference on both; an old kernel uses the caller's references
    for it, and drops them when it fails. *)
Definition dentry_open : M (option Z) :=
  s ← st_get;
  (match kernel_3_6, dentry_open_error with
   | true, None => set_refs (S (dentry_refs s)) (S (mnt_refs s))
   | true, Some _ => mret tt
   | false, None => mret tt
   | false, Some _ => set_refs (pred (dentry_refs s)) (pred (mnt_refs s))
   end);;
  mret dentry_open_error.

(** [get_unused_fd] reserves the descriptor. *)
Definition reserve_fd : M Z :=
  s ← st_get;
  st_when (0 <=? get_unused_fd)%Z (set_fds ({[get_unused_fd]} ∪ reserved s) (used s));;
  mret get_unused_fd.

Definition put_unused_fd (fd : Z) : M unit :=
  s ← st_get; set_fds (reserved s ∖ {[fd]}) (used s).

Definition fd_install (fd : Z) : M unit :=
  s ← st_get; set_fds (reserved s ∖ {[fd]}) ({[fd]} ∪ used s).

(** [sys_close]: the descriptor's file is closed; nothing for one that is not in use. *)
Definition sys_close (fd : Z) : M unit :=
  s ← st_get;
  if bool_decide (fd ∈ used s) then
    set_fds (reserved s) (used s ∖ {[fd]});;
    set_refs (pred (dentry_refs s)) (pred (mnt_refs s))
  else mret tt.

Definition create_fd (f : filp_ptr) : M Z :=
  client_fd ← reserve_fd;
  if (client_fd <? 0)%Z then mret (-1)%Z
  else
    match f with
    | FNull | FErr => st_fail
    | FPtr f =>
        dentry ← dget (f_dentry f);
        mnt ← mntget (f_mnt f);
        err ← (if dentry && mnt then dentry_open else mret (Some (- EOVERFLOW)%Z));
        match err with
        | Some e => put_unused_fd client_fd;; mret e
        | None => fd_install client_fd;; mret client_fd
        end
    end.

(** filp_open counts as an open file, and nothing closes it. *)
Definition init_createfd_test : M Z :=
  (match filp_open with
   | FPtr _ => st_modify (λ s, Fds (dentry_refs s) (mnt_refs s) (reserved s) (used s) (S (filps s)) (printed s))
   | _ => mret tt
   end);;
  match filp_open with
  | FNull => mret 0%Z
  | filp =>
      fd ← create_fd filp;
      st_modify (λ s, Fds (dentry_refs s) (mnt_refs s) (reserved s) (used s) (filps s) (printed s ++ [fd]));;
      st_when (negb (fd =? -1)%Z) (sys_close fd);;
      mret 0%Z
  end.

End code.

(** ** Properties *)

Section properties.
Context `{K : FdLib}.

(** An unused descriptor. *)
Definition fd_free (s : fds) : Prop :=
  get_unused_fd ∉ reserved s ∧ get_unused_fd ∉ used s ∧
  (∀ e, dentry_open_error = Some e → (e < 0)%Z) ∧ (∀ fd, fd ∈ used s → (0 <= fd)%Z).

(** The references dget and mntget took that nothing will give back. *)
Definition stray : nat := if kernel_3_6 then 1 else 0.

Lemma set_id (X : gset Z) fd : fd ∉ X → ({[fd]} ∪ X) ∖ {[fd]} = X.
Proof. set_solver. Qed.

(** create_fd on a complete file. *)
Lemma create_fd_run s :
  fd_free s → (0 <= get_unused_fd)%Z →
  create_fd (FPtr (Filp true true)) s = Some
    match dentry_open_error with
    | Some e => (e, Fds (stray + dentry_refs s) (stray + mnt_refs s) (reserved s) (used s) (filps s) (printed s))
    | None => (get_unused_fd,
        Fds (S (stray + dentry_refs s)) (S (stray + mnt_refs s)) (reserved s) ({[get_unused_fd]} ∪ used s)
            (filps s) (printed s))
    end.
Proof.
  intros (Hr & Hu & _) Hfd. destruct s as [d m r u k p]. simpl in *.
  unfold create_fd, reserve_fd, mbind, ST_bind, stray. simpl.
  rewrite (proj2 (Z.leb_le _ _) Hfd) /= (proj2 (Z.ltb_ge _ _) Hfd).
  unfold mbind, ST_bind, dentry_open. simpl.
  destruct kernel_3_6, dentry_open_error; simpl; by rewrite set_id.
Qed.

(** descriptors and references. create_fd returns the unused descriptor with the file installed,
    -1 when there is no descriptor, and the error of dentry_open otherwise, with the reservation
    undone; so the error is not always the -1 its comment promises. From kernel 3.6 on the
    references of dget and mntget are never dropped, whether dentry_open succeeds
    or not: loading the module leaves one on the dentry and one on the mount for ever,
    besides the file of filp_open, although its descriptor is closed again. *)
Theorem createfd_leaks s :
  fd_free s → filp_open = FPtr (Filp true true) →
  runs init_createfd_test s (λ ret s',
    ret = 0%Z ∧ reserved s' = reserved s ∧ used s' = used s ∧ filps s' = S (filps s) ∧
    if (0 <=? get_unused_fd)%Z then
      printed s' = printed s ++ [default get_unused_fd dentry_open_error] ∧
      dentry_refs s' = stray + dentry_refs s ∧ mnt_refs s' = stray + mnt_refs s
    else printed s' = printed s ++ [-1]%Z ∧ dentry_refs s' = dentry_refs s ∧ mnt_refs s' = mnt_refs s).
Proof.
  intros Hfree Hopen. unfold init_createfd_test. rewrite Hopen. apply runs_bind.
  eexists _, _. split; [reflexivity|]. apply runs_bind.
  destruct (Z.leb_spec 0 get_unused_fd) as [Hfd|Hfd].
  2:{ eexists _, _. split.
      { unfold create_fd, reserve_fd, mbind, ST_bind. simpl.
        rewrite (proj2 (Z.leb_gt _ _) Hfd) /= (proj2 (Z.ltb_lt _ _) Hfd). reflexivity. }
      eexists _, _. split; [reflexivity|]. simpl. by split_and!. }
  unfold runs. rewrite create_fd_run //.
  destruct Hfree as (Hr & Hu & He & Hpos). destruct dentry_open_error as [e|] eqn:E; eexists _, _;
    (split; [reflexivity|]); apply runs_bind; eexists _, _; (split; [reflexivity|]); simpl.
  - specialize (He e eq_refl). destruct (Z.eqb_spec e (-1)); simpl.
    + eexists _, _. split; [reflexivity|]. by split_and!.
    + unfold runs, sys_close, mbind, ST_bind. simpl. rewrite bool_decide_false; [intros H%Hpos; lia|].
      eexists _, _. split; [reflexivity|]. by split_and!.
  - rewrite (proj2 (Z.eqb_neq get_unused_fd (-1))); [lia|]. simpl.
    unfold sys_close, mbind, ST_bind, runs. simpl. rewrite bool_decide_true; [set_solver|].
    eexists _, _. split; [reflexivity|]. simpl. rewrite set_id //.
Qed.

(** When the file cannot be opened, its error pointer is dereferenced. *)
Lemma createfd_open_error s :
  filp_open = FErr → (0 <= get_unused_fd)%Z → init_createfd_test s = None.
Proof.
  intros Hopen Hfd. unfold init_createfd_test. rewrite Hopen. erewrite st_bind_some; [|reflexivity].
  apply st_bind_none. unfold create_fd, reserve_fd, mbind, ST_bind. simpl.
  rewrite (proj2 (Z.leb_le _ _) Hfd) /= (proj2 (Z.ltb_ge _ _) Hfd). done.
Qed.

End properties.

Definition new_kernel : FdLib := {|
  filp_open := FPtr (Filp true true); get_unused_fd := 3; dentry_open_error := None; kernel_3_6 := true |}.

Definition fds0 : fds := Fds 1 1 ∅ {[ 0%Z; 1%Z; 2%Z ]} 0 [].

Lemma createfd_leaks_witness :
  runs (init_createfd_test (K := new_kernel)) fds0 (λ ret s',
    ret = 0%Z ∧ reserved s' = ∅ ∧ used s' = {[ 0%Z; 1%Z; 2%Z ]} ∧ filps s' = 1 ∧
    printed s' = [3%Z] ∧ dentry_refs s' = 2 ∧ mnt_refs s' = 2).
Proof.
  apply (createfd_leaks (K := new_kernel) fds0).
  - split_and!; [set_solver..|done|]. intros fd. simpl. set_solver by lia.
  - reflexivity.
Defined.
