(* ===== verification/KFifo.v ===== *)
(** * A queue of records (Kernel_Queue_using_Kernel_API/queue.c)

    The module puts ten records of growing length into a kernel fifo, peeks at the
    first and takes them all out again. The fifo of linux/kfifo.h with one byte of
    length per record is the interface [KFifoLib] with its laws; the local buffer is a list of
    cells, and stores outside it are stuck. *)

From Stdlib Require Import ZArith Lia ssreflect.
From stdpp Require Import base list numbers strings.
From S2P Require Import Prelude CString Bytes.

(** ** The kernel *)

(** A fifo of records: the space it has in bytes, and the records in it. kfifo_in gives the number of
    bytes copied, the reading operations the bytes of the first record that fit into [n]. *)
Class KFifoLib := {
  kfifo : Type;
  kfifo_size : kfifo → nat;
  kfifo_records : kfifo → list (list Z);
  kfifo_alloc : nat → kfifo + Z;
  kfifo_in : kfifo → list Z → nat * kfifo;
  kfifo_len : kfifo → Z;
  kfifo_is_empty : kfifo → bool;
  kfifo_out_peek : kfifo → nat → list Z;
  kfifo_out : kfifo → nat → list Z * kfifo;
}.

(** The space records take: a byte for the length, and their bytes. *)
Definition space (rs : list (list Z)) : nat := sum_list ((λ r, S (length r)) <$> rs).

(** kfifo_alloc makes room for at least the bytes asked for: it rounds the size up to a power of two. A
    library that rounds down does not meet this law; it would give 64 bytes for the module's 80, and the
    ten records take 65. *)
Class KFifoLaws (K : KFifoLib) := {
  kf_alloc n f : kfifo_alloc n = inl f → kfifo_records f = [] ∧ n ≤ kfifo_size f;
  kf_alloc_error n e : kfifo_alloc n = inr e → (e < 0)%Z;
  kf_in f r : length r < 256 → space (kfifo_records f ++ [r]) ≤ kfifo_size f →
    kfifo_records (kfifo_in f r).2 = kfifo_records f ++ [r] ∧
    kfifo_size (kfifo_in f r).2 = kfifo_size f;
  kf_empty f : kfifo_is_empty f = bool_decide (kfifo_records f = []);
  kf_peek f n r rs : kfifo_records f = r :: rs → kfifo_out_peek f n = take n r;
  kf_out f n r rs : kfifo_records f = r :: rs →
    (kfifo_out f n).1 = take n r ∧ kfifo_records (kfifo_out f n).2 = rs;
}.

(** ** The module *)

Definition FIFO_SIZE : nat := 10 * 8.

Inductive fifo_line :=
  | LLen (n : Z) | LFirst (s : list Z) | LItem (s : list Z) | LAllocError.

Section code.
Context `{K : KFifoLib}.

(** The fifo [test], [None] before it is allocated and after it is freed, and the lines printed. *)
Record fst := Fst { test : option kfifo; lines : list fifo_line }.

Abbreviation M := (ST fst).

Definition printk l : M unit := st_modify (λ s, Fst (test s) (lines s ++ [l])).

Definition get_test : M kfifo := s ← st_get; st_opt (test s).

Definition set_test (f : option kfifo) : M unit := st_modify (λ s, Fst f (lines s)).

(** The first loop, from [i] on; the buffer is passed on. *)
Fixpoint put_loop (fuel : nat) (i : nat) (buf : list cell) : M (list cell) :=
  match fuel with
  | O => st_fail
  | S fuel =>
      if bool_decide (i < 10) then
        buf ← st_opt (memset buf 0 (97 + Z.of_nat i) (i + 1));
        bs ← st_opt (known (take (i + 1) buf));
        f ← get_test;
        set_test (Some (kfifo_in f bs).2);;
        put_loop fuel (i + 1) buf
      else mret buf
  end.

(** What follows an extraction of [bs]: the bytes are in the buffer, and [buf[ret] = 0]. *)
Definition terminate (buf : list cell) (bs : list Z) : option (list cell) :=
  buf ← buf_store buf 0 (Some <$> bs);
  buf_store buf (length bs) [Some 0%Z].

(** The bytes printed by ["%.*s"] with the length [n]. *)
Definition shown (n : nat) (buf : list cell) : option (list Z) :=
  bs ← known (take n buf);
  Some (until_zero bs).

Fixpoint out_loop (fuel : nat) (buf : list cell) : M unit :=
  match fuel with
  | O => st_fail
  | S fuel =>
      f ← get_test;
      if negb (kfifo_is_empty f) then
        let '(bs, f') := kfifo_out f (length buf) in
        set_test (Some f');;
        buf ← st_opt (terminate buf bs);
        str ← st_opt (shown (length bs) buf);
        printk (LItem str);;
        out_loop fuel buf
      else mret tt
  end.

Definition testfunc (fuel : nat) : M Z :=
  let buf := replicate 100 None in
  buf ← put_loop fuel 0 buf;
  f ← get_test;
  printk (LLen (kfifo_len f));;
  let bs := kfifo_out_peek f (length buf) in
  buf ← st_opt (terminate buf bs);
  str ← st_opt (shown (length bs) buf);
  st_when (bool_decide (length bs ≠ 0)) (printk (LFirst str));;
  out_loop fuel buf;;
  mret 0%Z.

Definition kfifo_free : M unit := get_test;; set_test None.

Definition EIO : Z := 5.

Definition example_init (fuel : nat) : M Z :=
  match kfifo_alloc FIFO_SIZE with
  | inr ret => printk LAllocError;; mret ret
  | inl f =>
      set_test (Some f);;
      r ← testfunc fuel;
      if (r <? 0)%Z then kfifo_free;; mret (- EIO)%Z else mret 0%Z
  end.

Definition example_exit : M unit := kfifo_free.

End code.

(** ** Properties *)

(** The record of round [i]: [i + 1] times the letter. *)
Definition letters (i : nat) : list Z := replicate (i + 1) (97 + Z.of_nat i)%Z.

Section properties.
Context `{K : KFifoLib, L : !KFifoLaws K}.

Lemma known_replicate n c : known (replicate n (Some c)) = Some (replicate n c).
Proof. unfold known. induction n as [|n IH]; [done|]. simpl in *. by rewrite IH. Qed.

(** From round [i] on, the loop appends the remaining records. *)
Lemma put_loop_run k i buf f ls fuel :
  i + k = 10 → k < fuel → length buf = 100 → kfifo_records f = letters <$> seq 0 i → 80 ≤ kfifo_size f →
  runs (put_loop fuel i buf) (Fst (Some f) ls) (λ buf' s', ∃ f',
    length buf' = 100 ∧ s' = Fst (Some f') ls ∧ kfifo_records f' = letters <$> seq 0 10).
Proof.
  revert i buf f fuel. induction k as [|k IH]; intros i buf f [|fuel] Hi Hf Hb Hr Hs; try lia.
  - replace i with 10 in * by lia. simpl. apply runs_ret. eauto.
  - cbn [put_loop]. rewrite bool_decide_true; [lia|].
    assert (Hm : memset buf 0 (97 + Z.of_nat i) (i + 1) =
      Some (replicate (i + 1) (Some (97 + Z.of_nat i)%Z) ++ drop (i + 1) buf)).
    { unfold memset. rewrite buf_store_some; [rewrite length_replicate; lia|].
      by rewrite take_0 length_replicate. }
    rewrite Hm. cbn [st_opt]. apply runs_bind. eexists _, _. split; [reflexivity|].
    rewrite take_app_length'; [by rewrite length_replicate|]. rewrite known_replicate.
    apply runs_bind. eexists _, _. split; [reflexivity|].
    apply runs_bind. eexists _, _. split; [reflexivity|].
    apply runs_bind. eexists _, _. split; [reflexivity|]. cbn [lines].
    destruct (kf_in f (letters i)) as [Hin Hsz].
    { unfold letters. rewrite length_replicate. lia. }
    { rewrite Hr. assert (i ∈ seq 0 10) as Hi10 by (apply elem_of_seq; lia).
      etransitivity; [|exact Hs].
      clear -Hi10. do 10 (apply elem_of_cons in Hi10 as [->|Hi10]; [by vm_compute; lia|]).
      by apply elem_of_nil in Hi10. }
    apply IH; [lia|lia| | |by rewrite Hsz].
    + rewrite length_app length_replicate length_drop. lia.
    + rewrite Hin Hr. rewrite Nat.add_1_r seq_S fmap_app. done.
Qed.

(** A record that leaves room for the terminator. *)
Lemma terminate_shown buf bs :
  length buf = 100 → length bs < 100 → Forall (λ c, c ≠ 0%Z) bs →
  ∃ buf', terminate buf bs = Some buf' ∧ length buf' = 100 ∧ shown (length bs) buf' = Some bs.
Proof.
  intros Hb Hl Hz. unfold terminate.
  assert (Hdrop : ∃ c rest, drop (length bs) buf = c :: rest).
  { destruct (drop (length bs) buf) as [|c rest] eqn:E; [|eauto].
    apply (f_equal length) in E. rewrite length_drop /= in E. lia. }
  destruct Hdrop as (c & rest & Ed).
  rewrite buf_store_some; [rewrite length_fmap; lia|]. rewrite take_0 length_fmap /= Ed.
  rewrite (buf_store_at _ [c] [Some 0%Z] rest); [by rewrite length_fmap|done|].
  eexists. split_and!; [done| |].
  - apply (f_equal length) in Ed. rewrite length_drop /= in Ed.
    rewrite !length_app length_fmap /=. lia.
  - unfold shown. rewrite take_app_length'; [by rewrite length_fmap|]. rewrite known_fmap /=.
    by rewrite until_zero_id.
Qed.

Lemma out_loop_run rs buf f ls fuel :
  kfifo_records f = rs → Forall (λ r, length r < 100 ∧ Forall (λ c, c ≠ 0%Z) r) rs → length buf = 100 → length rs < fuel →
  runs (out_loop fuel buf) (Fst (Some f) ls) (λ _ s', ∃ f',
    s' = Fst (Some f') (ls ++ (LItem <$> rs)) ∧ kfifo_records f' = []).
Proof.
  revert buf f ls fuel. induction rs as [|r rs IH]; intros buf f ls [|fuel] Hr Hs Hb Hf; simpl in Hf; try lia;
    cbn [out_loop]; apply runs_bind; eexists _, _; (split; [reflexivity|]); rewrite kf_empty Hr.
  - simpl. apply runs_ret. rewrite app_nil_r. eauto.
  - simpl. apply Forall_cons in Hs as [[Hlr Hzr] Hs]. destruct (kf_out f (length buf) r rs Hr) as [Ho Hn].
    destruct (kfifo_out f (length buf)) as [bs f']. simpl in *.
    rewrite take_ge in Ho; [lia|]. subst bs.
    apply runs_bind. eexists _, _. split; [reflexivity|]. simpl.
    destruct (terminate_shown buf r Hb Hlr Hzr) as (buf' & -> & Hb' & Hsh).
    apply runs_bind. eexists _, _. split; [reflexivity|]. rewrite Hsh.
    apply runs_bind. eexists _, _. split; [reflexivity|].
    apply runs_bind. eexists _, _. split; [reflexivity|]. simpl.
    eapply runs_wand; [by apply IH; try lia|]. simpl. intros _ s' (f2 & -> & E). exists f2.
    rewrite -app_assoc. done.
Qed.

(** C33: loading the module fails with kfifo_alloc's error; otherwise all ten records fit into
    the fifo, the first one is shown, and all come out again whole and in the order they were put
    in, with every access inside the buffer; the fifo is empty, loading returns 0
    and unloading frees it. *)
Theorem fifo_order fuel s :
  10 < fuel →
  match kfifo_alloc FIFO_SIZE with
  | inr e => example_init fuel s = Some (e, Fst (test s) (lines s ++ [LAllocError]))
  | inl _ => runs (example_init fuel) s (λ ret s', ret = 0%Z ∧ ∃ f n,
      test s' = Some f ∧ kfifo_records f = [] ∧
      lines s' = lines s ++ [LLen n; LFirst (text "a")] ++ (LItem <$> (letters <$> seq 0 10)) ∧
      example_exit s' = Some (tt, Fst None (lines s')))
  end.
Proof.
  intros Hf. unfold example_init. destruct (kfifo_alloc FIFO_SIZE) as [f|e] eqn:E; [|done].
  destruct (kf_alloc _ _ E) as [Hr0 Hs0]. destruct s as [t ls].
  apply runs_bind. eexists _, _. split; [reflexivity|]. apply runs_bind. unfold testfunc.
  apply runs_bind. eapply runs_wand; [apply (put_loop_run 10); [done|done|by rewrite length_replicate|done|done]|].
  intros buf s' (f1 & Hb & -> & Hr1). apply runs_bind. eexists _, _. split; [reflexivity|].
  apply runs_bind. eexists _, _. split; [reflexivity|]. cbn [test lines].
  rewrite (kf_peek _ _ _ _ Hr1) Hb.
  destruct (terminate_shown buf (take 100 (letters 0)) Hb) as (buf' & -> & Hb' & Hsh);
    [vm_compute; lia|by apply (bool_decide_unpack _)|].
  apply runs_bind. eexists _, _. split; [reflexivity|]. rewrite Hsh.
  apply runs_bind. eexists _, _. split; [reflexivity|].
  apply runs_bind. eexists _, _. split; [reflexivity|]. cbn [test lines].
  apply runs_bind. eapply runs_wand; [eapply (out_loop_run _ buf'); [exact Hr1| |done|by rewrite length_fmap]|].
  { by apply (bool_decide_unpack _). }
  intros _ s' (f2 & -> & Hr2). apply runs_ret. apply runs_ret. split; [done|].
  exists f2, (kfifo_len f1). split_and!; [done|done| |done]. simpl. by rewrite -!app_assoc.
Qed.

End properties.

(** ** A concrete fifo *)

Definition list_fifo : KFifoLib := {|
  kfifo := nat * list (list Z);
  kfifo_size f := f.1;
  kfifo_records f := f.2;
  kfifo_alloc n := inl (n, []);
  kfifo_in f r := if bool_decide (space (f.2 ++ [r]) ≤ f.1) then (length r, (f.1, f.2 ++ [r])) else (0, f);
  kfifo_len f := Z.of_nat (space f.2);
  kfifo_is_empty f := bool_decide (f.2 = []);
  kfifo_out_peek f n := take n (default [] (head f.2));
  kfifo_out f n := (take n (default [] (head f.2)), (f.1, tail f.2)) |}.

#[export] Instance list_fifo_laws : KFifoLaws list_fifo.
Proof.
  split; simpl.
  - intros n f [= <-]. done.
  - done.
  - intros f r _ H. by rewrite bool_decide_true.
  - done.
  - intros f n r rs ->. done.
  - intros f n r rs ->. done.
Qed.

Lemma fifo_order_witness :
  runs (example_init (K := list_fifo) 11) (Fst (K := list_fifo) None []) (λ ret s', ret = 0%Z ∧ ∃ f n,
    test s' = Some f ∧ kfifo_records f = [] ∧
    lines s' = [LLen n; LFirst (text "a")] ++ (LItem <$> (letters <$> seq 0 10)) ∧
    example_exit s' = Some (tt, Fst (K := list_fifo) None (lines s'))).
Proof. apply (fifo_order (K := list_fifo) 11 (Fst (K := list_fifo) None [])). lia. Defined.
