(* ===== verification/SysMap.v ===== *)
(** * The System.map reader and the uname example

    Userspace_Read_System_map_file/read_system_map.c prints the first line of the
    running kernel's System.map that names the system call table, and its words;
    Userspace_UnameSyscall/uname_code.c prints what uname says. The answers of uname and of
    fopen are arguments. *)

From Stdlib Require Import ZArith Lia ssreflect.
From stdpp Require Import base list numbers strings sets.
From S2P Require Import Prelude CString Bytes.

(** [struct utsname]: each field is a string of at most 64 characters. *)
Record utsname := Utsname {
  sysname : list Z; nodename : list Z; release : list Z; version : list Z; machine : list Z }.

(** What is printed on the standard output. *)
Inductive out_line := OText (s : string) | OStr (fmt : string) (arg : list Z).

(** ** uname_code.c *)

(** The exit status and the output; [None] is uname's failure. *)
Definition uname_main (u : option utsname) : Z * list out_line :=
  match u with
  | None => (1%Z, [])
  | Some u => (0%Z,
      [OText "System infomation: "; OStr " sysname[] = %s" (sysname u); OStr " nodename[] = %s" (nodename u);
       OStr " release[] = %s" (release u); OStr " version[] = %s" (version u); OStr " machine[] = %s" (machine u)])
  end.

(** ** read_system_map.c *)

Definition PATH_MAX : nat := Z.to_nat 4096.

(** The characters [fgets(line, sizeof(line)-1, file)] reads at most, [char line[1024]]. *)
Definition line_chars : nat := Z.to_nat 1022.

#[global] Opaque PATH_MAX line_chars.

(** The path: [strcpy] and [strcat] into [char sysmapFile[PATH_MAX]]. *)
Definition sysmap_path (u : utsname) : option (list Z) :=
  let path := text "/boot/System.map-" ++ release u in
  if bool_decide (length path + 1 ≤ PATH_MAX) then Some path else None.

(** The strtok_r loop over the line; strtok_r stops at the line's end. *)
Fixpoint token_loop (fuel : nat) (rest : list Z) : option (list out_line) :=
  match fuel with
  | O => None
  | S fuel =>
      match strtok ch_space rest with
      | None => Some []
      | Some (w, rest) => ls ← token_loop fuel rest; Some (OStr "%s" w :: ls)
      end
  end.

(** The loop over the file; the line is a string, so it ends at a zero byte. *)
Fixpoint line_loop (fuel : nat) (file : list Z) : option (list out_line) :=
  match fuel with
  | O => None
  | S fuel =>
      match fgets line_chars file with
      | None => Some []
      | Some (line, file) =>
          let line := until_zero line in
          if strstr line (text "sys_call_table") then
            ls ← token_loop (S (length line)) line;
            Some (OStr "%s" line :: ls)
          else line_loop fuel file
      end
  end.

(** The exit status and the output, with what fopen finds at a path. *)
Definition sysmap_main (fuel : nat) (u : option utsname) (fopen : list Z → option (list Z)) :
    option (Z * list out_line) :=
  match u with
  | None => Some (1%Z, [])
  | Some u =>
      path ← sysmap_path u;
      match fopen path with
      | None => Some (1%Z, [OStr "%s" path; OText "Fail to open the system.map file"])
      | Some file => ls ← line_loop fuel file; Some (0%Z, OStr "%s" path :: ls)
      end
  end.

(** ** Properties *)

(** The words of a line are separated by spaces; the loop prints them. *)
Lemma token_loop_words line ws fuel :
  words_of ch_space line ws → length line < fuel → token_loop fuel line = Some (OStr "%s" <$> ws).
Proof.
  intros H. revert fuel. induction H as [gap Hg|gap w Hg Hw Hs|gap w rest ws Hg Hw Hs _ IH]; intros [|fuel] Hf; try lia;
    cbn [token_loop].
  - by rewrite -(app_nil_r gap) strtok_gap.
  - rewrite strtok_gap // -{1}(app_nil_r w) strtok_word // app_nil_r token_end_word //.
    destruct fuel; [|done]. rewrite length_app in Hf. destruct w; simpl in *; [done|lia].
  - rewrite strtok_gap // strtok_word // token_end_app // IH //. rewrite !length_app /= in Hf. lia.
Qed.

(** A line of the file: ends with its newline, has no other and no zero byte, and fits. *)
Definition line_ok (l : list Z) : Prop :=
  ∃ body, l = body ++ [ch_nl] ∧ ch_nl ∉ body ∧ Forall (λ c, c ≠ 0%Z) body ∧ length body < line_chars.

Lemma line_ok_fgets l file : line_ok l → fgets line_chars (l ++ file) = Some (l, file) ∧ until_zero l = l.
Proof.
  intros (body & -> & Hnl & Hz & Hl). split.
  - rewrite -app_assoc. unfold fgets. rewrite take_line_run //. by destruct body.
  - apply until_zero_id. apply Forall_app. split; [done|]. by repeat constructor.
Qed.

(** A line that names the table, and the first such line of a list. *)
Definition names_table (l : list Z) : Prop := ∃ a b, l = a ++ text "sys_call_table" ++ b.

Definition table_line (lines : list (list Z)) (line : list Z) : Prop :=
  ∃ before after, lines = before ++ line :: after ∧ names_table line ∧ Forall (λ l, ¬ names_table l) before.

Lemma starts_with_spec s t : starts_with s t = true ↔ ∃ b, s = t ++ b.
Proof.
  revert s. induction t as [|c t IH]; intros s.
  { destruct s; (split; [by eexists|done]). }
  destruct s as [|d s]; [split; [done|by intros [b ?]]|]. simpl. rewrite andb_true_iff Z.eqb_eq IH.
  split; [intros [-> [b ->]]; by exists b|]. intros [b [= -> ->]]. split; [done|by exists b].
Qed.

Lemma strstr_spec s t : strstr s t = true ↔ ∃ a b, s = a ++ t ++ b.
Proof.
  induction s as [|c s IH]; cbn [strstr]; rewrite orb_true_iff starts_with_spec.
  - split; [intros [[b H]|?]; [|done]; by exists [], b|]. intros ([|x a] & b & H); [|discriminate H]. left. by exists b.
  - rewrite IH. split.
    + intros [[b H]|(a & b & ->)]; [by exists [], b|by exists (c :: a), b].
    + intros ([|d a] & b & H); [left; by exists b|]. right. injection H as -> ->. by exists a, b.
Qed.

Lemma line_loop_skip before fuel file :
  Forall line_ok before → Forall (λ l, ¬ names_table l) before →
  line_loop (length before + fuel) (concat before ++ file) = line_loop fuel file.
Proof.
  intros Hok. induction Hok as [|l before Hl _ IH]; intros H; [done|]. apply Forall_cons in H as [Hn H].
  cbn [length Nat.add line_loop concat]. rewrite -app_assoc. destruct (line_ok_fgets l (concat before ++ file) Hl) as [-> ->].
  destruct (strstr l (text "sys_call_table")) eqn:Es; [by apply strstr_spec in Es|]. by apply IH.
Qed.

Lemma line_loop_found line ws fuel file :
  line_ok line → names_table line → words_of ch_space line ws →
  line_loop (S fuel) (line ++ file) = Some (OStr "%s" line :: (OStr "%s" <$> ws)).
Proof.
  intros Hl Hn Hw. cbn [line_loop]. destruct (line_ok_fgets line file Hl) as [-> ->].
  rewrite (proj2 (strstr_spec _ _)) //. rewrite (token_loop_words line ws _ Hw); [lia|done].
Qed.

(** C36: the System.map reader. It fails with status 1 when uname or fopen does. On a file whose lines
    end with a newline, have no zero byte and fewer than 1022 characters, and for a release of at most 64
    characters, it prints the path with the release and, of the file's lines, exactly the first one that
    contains sys_call_table, followed by its words one by one: the maximal pieces without
    a space, of which every line has exactly one list; when no line contains it,
    nothing. All copies stay inside their buffers and both loops end. *)
Theorem sysmap_prints_table u lines fuel fopen :
  length (release u) ≤ 64 → Forall line_ok lines → length lines < fuel →
  let path := text "/boot/System.map-" ++ release u in
  sysmap_main fuel None fopen = Some (1%Z, []) ∧
  (fopen path = None →
    sysmap_main fuel (Some u) fopen =
      Some (1%Z, [OStr "%s" path; OText "Fail to open the system.map file"])) ∧
  (fopen path = Some (concat lines) →
    (Forall (λ l, ¬ names_table l) lines → sysmap_main fuel (Some u) fopen = Some (0%Z, [OStr "%s" path])) ∧
    (∀ line, table_line lines line → ∃ ws, words_of ch_space line ws ∧ (∀ ws', words_of ch_space line ws' → ws' = ws) ∧
      sysmap_main fuel (Some u) fopen = Some (0%Z, [OStr "%s" path; OStr "%s" line] ++ (OStr "%s" <$> ws)))).
Proof.
  intros Hr Hok Hf path.
  assert (Hp : sysmap_path u = Some path).
  { unfold sysmap_path. rewrite bool_decide_true //. rewrite length_app.
    change (length (text "/boot/System.map-")) with 17.
    assert (Z.of_nat PATH_MAX = 4096)%Z by reflexivity. lia. }
  split_and!; [done| |]; intros E; unfold sysmap_main; rewrite Hp; cbn [mbind option_bind]; rewrite E; [done|].
  replace fuel with (length lines + S (fuel - length lines - 1)) by lia. split.
  - intros Hn. rewrite -(app_nil_r (concat lines)) line_loop_skip //.
  - intros line (before & after & -> & Hl & Hb). apply Forall_app in Hok as [Hok1 [Hokl _]%Forall_cons].
    destruct (words_exist ch_space line) as [ws Hw]. exists ws. split; [done|]. split; [intros ws' H; by apply (words_unique ch_space line)|].
    rewrite concat_app length_app -Nat.add_assoc line_loop_skip //. cbn [concat length Nat.add].
    rewrite (line_loop_found line ws) //.
Qed.

(** ** Witness *)

Definition map_lines : list (list Z) :=
  [text "c1 T start" ++ [ch_nl]; text "c2 R sys_call_table" ++ [ch_nl]].

Definition uts : utsname := Utsname [] [] (text "3.2") [] [].

Lemma sysmap_prints_table_witness :
  sysmap_main 3 (Some uts) (λ _, Some (concat map_lines)) =
    Some (0%Z, [OStr "%s" (text "/boot/System.map-3.2"); OStr "%s" (text "c2 R sys_call_table" ++ [ch_nl]);
      OStr "%s" (text "c2"); OStr "%s" (text "R"); OStr "%s" (text "sys_call_table" ++ [ch_nl])]).
Proof.
  assert (Z.of_nat line_chars = 1022%Z) as H by reflexivity.
  destruct (proj2 (proj2 (proj2 (sysmap_prints_table uts map_lines 3 (λ _, Some (concat map_lines))
    ltac:(simpl; lia)
    ltac:(repeat constructor; eexists; split_and!; try reflexivity;
      [by apply (bool_decide_unpack _)..|simpl; lia|by apply (bool_decide_unpack _)|by apply (bool_decide_unpack _)|simpl; lia])
    ltac:(simpl; lia))) eq_refl) (text "c2 R sys_call_table" ++ [ch_nl])) as (ws & _ & Hu & E).
  - exists [text "c1 T start" ++ [ch_nl]], []. split_and!; [done|by exists (text "c2 R "), [ch_nl]|].
    repeat constructor. intros Hn%strstr_spec. vm_compute in Hn. done.
  - rewrite E. rewrite -(Hu [text "c2"; text "R"; text "sys_call_table" ++ [ch_nl]]); [|done].
    apply (words_more _ [] (text "c2")); [constructor|discriminate|by apply (bool_decide_unpack _)|].
    apply (words_more _ [] (text "R")); [constructor|discriminate|by apply (bool_decide_unpack _)|].
    apply (words_last _ []); [constructor|discriminate|by apply (bool_decide_unpack _)].
Defined.
