(* ===== verification/Fanotify.v ===== *)
(** * The fanotify example (Userspace_Fanotify_Other_TestCode/fanotify.c)

    The program parses its options, marks the given files, then reads events from the kernel,
    prints them, answers permission requests and closes the descriptors that come with
    them. System calls are recorded in order, their answers are a parameter
    ([FanSys]); getopt's results are an argument. The event buffer is a list
    of bytes and events are read from it at their offsets, as the macros FAN_EVENT_OK and
    FAN_EVENT_NEXT of linux/fanotify.h do. [None] is undefined behaviour. *)

From Stdlib Require Import ZArith Lia ssreflect.
From stdpp Require Import base list numbers strings.
From S2P Require Import Prelude CString Bytes.

Open Scope Z_scope.

(** ** Constants (linux/fanotify.h) *)

Definition FAN_ACCESS : Z := 0x1.
Definition FAN_MODIFY : Z := 0x2.
Definition FAN_CLOSE_WRITE : Z := 0x8.
Definition FAN_CLOSE_NOWRITE : Z := 0x10.
Definition FAN_OPEN : Z := 0x20.
Definition FAN_OPEN_PERM : Z := 0x10000.
Definition FAN_ACCESS_PERM : Z := 0x20000.
Definition FAN_EVENT_ON_CHILD : Z := 0x8000000.
Definition FAN_ONDIR : Z := 0x40000000.
Definition FAN_CLOSE : Z := Z.lor FAN_CLOSE_WRITE FAN_CLOSE_NOWRITE.
Definition FAN_ALL_EVENTS : Z := Z.lor (Z.lor (Z.lor FAN_ACCESS FAN_MODIFY) FAN_CLOSE) FAN_OPEN.
Definition FAN_ALL_PERM_EVENTS : Z := Z.lor FAN_OPEN_PERM FAN_ACCESS_PERM.
Definition FAN_CLASS_NOTIF : Z := 0.
Definition FAN_CLASS_CONTENT : Z := 4.
Definition FAN_MARK_ADD : Z := 0x1.
Definition FAN_MARK_MOUNT : Z := 0x10.
Definition FAN_MARK_IGNORED_MASK : Z := 0x20.
Definition FAN_MARK_IGNORED_SURV_MODIFY : Z := 0x40.
Definition FAN_MARK_FLUSH : Z := 0x80.
Definition FAN_ALLOW : Z := 1.
Definition AT_FDCWD : Z := -100.
Definition EINTR : Z := 4.
Definition O_RDONLY_LARGEFILE : Z := 0x8000.

(** [x & y != 0]. *)
Definition bits (x y : Z) : bool := negb (Z.land x y =? 0).

(** ** Options *)

Record opts := Opts {
  fan_mask : Z;
  opt_child : bool;
  opt_on_mount : bool;
  opt_add_perms : bool;
  opt_fast : bool;
  opt_ignore_perm : bool;
  opt_sleep : Z }.

Definition opts_default : opts :=
  Opts (Z.lor (Z.lor (Z.lor FAN_OPEN FAN_CLOSE) FAN_ACCESS) FAN_MODIFY) false false false false true 0.

Definition with_mask (o : opts) (m : Z) : opts :=
  Opts m (opt_child o) (opt_on_mount o) (opt_add_perms o) (opt_fast o) (opt_ignore_perm o) (opt_sleep o).

Definition mask_word (tok : list Z) : option Z :=
  if bool_decide (tok = text "open") then Some FAN_OPEN
  else if bool_decide (tok = text "close") then Some FAN_CLOSE
  else if bool_decide (tok = text "access") then Some FAN_ACCESS
  else if bool_decide (tok = text "modify") then Some FAN_MODIFY
  else if bool_decide (tok = text "open_perm") then Some FAN_OPEN_PERM
  else if bool_decide (tok = text "access_perm") then Some FAN_ACCESS_PERM
  else None.

(** The strtok loop of the option o: the mask, or [inr 1] for [exit(1)]; every step takes at
    least one character. *)
Fixpoint mask_loop (fuel : nat) (mask : Z) (str : list Z) : option (Z + Z) :=
  match fuel with
  | O => None
  | S fuel =>
      match strtok 44 str with
      | None => Some (inl mask)
      | Some (tok, str) =>
          match mask_word tok with
          | Some bit => mask_loop fuel (Z.lor mask bit) str
          | None => Some (inr 1)
          end
      end
  end.

(** [atoi]: white space, a sign, digits; the value is an [int]. *)
Fixpoint atoi (s : list Z) : Z :=
  match s with
  | c :: s' =>
      if (c =? 32) || ((9 <=? c) && (c <=? 13)) then atoi s'
      else if c =? 43 then s32 (number 0 s')
      else s32 (strtol10 s)
  | [] => 0
  end.

(** One round of the option loop, for the character and the argument getopt delivers. *)
Definition parse_opt (o : opts) (opt : Z * list Z) : option (opts + Z) :=
  let '(c, optarg) := opt in
  if c =? 111 then                                        (* 'o' *)
    match mask_loop (S (length optarg)) 0 optarg with
    | Some (inl m) => Some (inl (with_mask o m))
    | Some (inr st) => Some (inr st)
    | None => None
    end
  else if c =? 99 then                                    (* 'c' *)
    Some (inl (Opts (fan_mask o) true (opt_on_mount o) (opt_add_perms o) (opt_fast o) (opt_ignore_perm o) (opt_sleep o)))
  else if c =? 100 then                                   (* 'd' *)
    Some (inl (with_mask o (Z.lor (fan_mask o) FAN_ONDIR)))
  else if c =? 102 then                                   (* 'f' *)
    Some (inl (Opts (fan_mask o) (opt_child o) (opt_on_mount o) (opt_add_perms o) true true (opt_sleep o)))
  else if c =? 109 then                                   (* 'm' *)
    Some (inl (Opts (fan_mask o) (opt_child o) true (opt_add_perms o) (opt_fast o) (opt_ignore_perm o) (opt_sleep o)))
  else if c =? 110 then                                   (* 'n' *)
    Some (inl (Opts (fan_mask o) (opt_child o) (opt_on_mount o) (opt_add_perms o) false false (opt_sleep o)))
  else if c =? 112 then                                   (* 'p' *)
    Some (inl (Opts (fan_mask o) (opt_child o) (opt_on_mount o) true (opt_fast o) (opt_ignore_perm o) (opt_sleep o)))
  else if c =? 115 then                                   (* 's' *)
    Some (inl (Opts (fan_mask o) (opt_child o) (opt_on_mount o) (opt_add_perms o) (opt_fast o) (opt_ignore_perm o) (atoi optarg)))
  else if c =? 104 then Some (inr 0)                      (* 'h' *)
  else Some (inr 1).

(** The option loop: the options, or the status of synopsis. *)
Fixpoint parse_opts (o : opts) (args : list (Z * list Z)) : option (opts + Z) :=
  match args with
  | [] => Some (inl o)
  | a :: args =>
      match parse_opt o a with
      | Some (inl o) => parse_opts o args
      | r => r
      end
  end.

(** The changes after the loop: the mask, and the flags of the marks and of fanotify_init. *)
Definition final_mask (o : opts) : Z :=
  let m := fan_mask o in
  let m := if opt_child o then Z.lor m FAN_EVENT_ON_CHILD else m in
  if opt_add_perms o then Z.lor m FAN_ALL_PERM_EVENTS else m.

Definition mark_flags (o : opts) : Z :=
  if opt_on_mount o then Z.lor FAN_MARK_ADD FAN_MARK_MOUNT else FAN_MARK_ADD.

Definition init_flags (o : opts) : Z :=
  if bits (final_mask o) FAN_ALL_PERM_EVENTS then FAN_CLASS_CONTENT else FAN_CLASS_NOTIF.

(** ** System calls *)

Inductive call :=
  | Sigaction
  | Init (flags event_flags : Z)
  | Mark (fanfd flags mask dfd : Z) (path : option (list Z))
  | Select | Read (fanfd : Z)
  | Readlink (fd : Z) | Write (fanfd fd response : Z) | Close (fd : Z) | Sleep (n : Z).

(** The result of the [n]-th call, the bytes of a read, the target of a link, and errno. *)
Class FanSys := {
  sys_result : nat → call → Z;
  sys_bytes : nat → list Z;
  sys_link : nat → list Z;
  sys_errno : nat → Z;
}.

(** What is printed. *)
Inductive piece := PText (s : string) | PStr (s : list Z) | PNum (s : string) (n : Z).

Record fan := Fan { trace : list call; out : list piece }.

(** ** Events (linux/fanotify.h) *)

Record metadata := Metadata {
  event_len : Z;
  vers : Z;
  mask : Z;
  fd : Z;
  pid : Z }.

(** [sizeof(struct fanotify_event_metadata)]. *)
Definition FAN_EVENT_METADATA_LEN : Z := 24.

(** The bytes of the field of [n] bytes at [off]: stuck outside the buffer and on bytes never
    written. *)
Definition field (buf : list cell) (off n : nat) : option Z :=
  if bool_decide (off + n ≤ length buf)%nat then le_join <$> known (take n (drop off buf)) else None.

Definition get_meta (buf : list cell) (off : nat) : option metadata :=
  l ← field buf off 4;
  v ← field buf (off + 4) 1;
  m ← field buf (off + 8) 8;
  f ← field buf (off + 16) 4;
  p ← field buf (off + 20) 4;
  Some (Metadata l v m (s32 f) (s32 p)).

Section code.
Context `{Sy : FanSys}.

Abbreviation M := (ST fan).

Definition do_call (c : call) : M Z := λ s,
  Some (sys_result (length (trace s)) c, Fan (trace s ++ [c]) (out s)).

Definition printf (p : piece) : M unit := st_modify (λ s, Fan (trace s) (out s ++ [p])).

Definition mark_object (fan_fd : Z) (path : option (list Z)) (fd mask flags : Z) : M Z :=
  do_call (Mark fan_fd flags mask fd path).

Definition usr1_handler (fan_fd : Z) : M unit := do_call (Mark fan_fd FAN_MARK_FLUSH 0 0 None);; mret tt.

(** [path]: [None] while the array is uninitialised. *)
Definition set_special_ignored (fan_fd fd : Z) (path : option (list Z)) : M Z :=
  let flags := Z.lor (Z.lor FAN_MARK_ADD FAN_MARK_IGNORED_MASK) FAN_MARK_IGNORED_SURV_MODIFY in
  let mask := Z.lor FAN_ALL_EVENTS FAN_ALL_PERM_EVENTS in
  p ← st_opt path;
  if bool_decide (p ≠ text "/var/log/audit/audit.log") && bool_decide (p ≠ text "/var/log/messages") &&
     bool_decide (p ≠ text "/var/log/wtmp") && bool_decide (p ≠ text "/var/run/utmp")
  then mret 0
  else mark_object fan_fd None fd mask flags.

Definition set_ignored_mask (fan_fd fd mask : Z) : M Z :=
  mark_object fan_fd None fd mask (Z.lor FAN_MARK_ADD FAN_MARK_IGNORED_MASK).

Definition handle_perm (fan_fd : Z) (m : metadata) : M Z :=
  ret ← do_call (Write fan_fd (fd m) FAN_ALLOW);
  if ret <? 0 then mret ret else mret 0.

(** [readlink] of /proc/self/fd/N: its length is negative on an error; at most 4095
    characters are stored. *)
Definition readlink (fd : Z) : M (option (list Z)) := λ s,
  let n := length (trace s) in
  let c := Readlink fd in
  Some (if sys_result n c <? 0 then None else Some (until_zero (take (Z.to_nat 4095) (sys_link n))),
        Fan (trace s ++ [c]) (out s)).

(** How a round of the event loop ends: at [fail], or with the contents of [path]. *)
Inductive round := Fail | Go (path : option (list Z)).

(** [b && call != 0], the call being made only if [b]. *)
Definition refused (b : bool) (m : M Z) : M bool :=
  if b then r ← m; mret (negb (r =? 0)) else mret false.

(** The lines for the bits of the mask. *)
Definition print_mask (m : Z) : M unit :=
  st_when (bits m FAN_ACCESS) (printf (PText " access"));;
  st_when (bits m FAN_OPEN) (printf (PText " open"));;
  st_when (bits m FAN_MODIFY) (printf (PText " modify"));;
  st_when (bits m FAN_CLOSE)
    (st_when (bits m FAN_CLOSE_WRITE) (printf (PText " close(writable)"));;
     st_when (bits m FAN_CLOSE_NOWRITE) (printf (PText " close")));;
  st_when (bits m FAN_OPEN_PERM) (printf (PText " open_perm"));;
  st_when (bits m FAN_ACCESS_PERM) (printf (PText " access_perm")).

(** The answer to a permission event, and its ignore mark; [true] to fail. *)
Definition answer_perm (o : opts) (fan_fd : Z) (m : metadata) : M bool :=
  if bits (mask m) FAN_ALL_PERM_EVENTS then
    (if negb (opt_sleep o =? 0) then do_call (Sleep (opt_sleep o));; mret tt else mret tt);;
    r ← handle_perm fan_fd m;
    if negb (r =? 0) then mret true
    else refused ((0 <=? fd m) && opt_ignore_perm o) (set_ignored_mask fan_fd (fd m) (mask m))
  else mret false.

(** The path of the event: printed, and left in the array. *)
Definition print_path (m : metadata) (path : option (list Z)) : M round :=
  if 0 <=? fd m then
    p ← readlink (fd m);
    match p with
    | None => mret Fail
    | Some p => printf (PStr p);; printf (PText ":");; mret (Go (Some p))
    end
  else printf (PText "?:");; mret (Go path).

(** The body of the event loop. *)
Definition handle_event (o : opts) (fan_fd : Z) (m : metadata) (path : option (list Z)) : M round :=
  if vers m <? 2 then printf (PText "Kernel fanotify version too old");; mret Fail
  else
    b ← refused ((0 <=? fd m) && opt_fast o)
          (set_ignored_mask fan_fd (fd m) (Z.lor FAN_ALL_EVENTS FAN_ALL_PERM_EVENTS));
    if b : bool then mret Fail
    else
      r ← print_path m path;
      match r with
      | Fail => mret Fail
      | Go path =>
          set_special_ignored fan_fd (fd m) path;;
          printf (PNum " pid=%ld" (pid m));;
          print_mask (mask m);;
          b ← answer_perm o fan_fd m;
          if b : bool then mret Fail
          else
            printf (PText "
");;
            b ← refused (0 <=? fd m) (do_call (Close (fd m)));
            if b : bool then mret Fail else mret (Go path)
      end.

(** The event loop from the offset [off] with [len] bytes left: FAN_EVENT_OK, the body and
    FAN_EVENT_NEXT. *)
Fixpoint event_loop (fuel : nat) (o : opts) (fan_fd : Z) (buf : list cell) (off : nat) (len : Z)
    (path : option (list Z)) : M round :=
  match fuel with
  | O => st_fail
  | S fuel =>
      if FAN_EVENT_METADATA_LEN <=? len then
        m ← st_opt (get_meta buf off);
        if (FAN_EVENT_METADATA_LEN <=? event_len m) && (event_len m <=? len) then
          r ← handle_event o fan_fd m path;
          match r with
          | Fail => mret Fail
          | Go path => event_loop fuel o fan_fd buf (off + Z.to_nat (event_len m)) (len - event_len m) path
          end
        else mret (Go path)
      else mret (Go path)
  end.

(** The select loop: [false] to fail. *)
Fixpoint select_loop (fuel : nat) : M bool :=
  match fuel with
  | O => st_fail
  | S fuel =>
      s ← st_get;
      r ← do_call Select;
      if r <? 0 then
        if sys_errno (length (trace s)) =? EINTR then select_loop fuel else mret false
      else mret true
  end.

(** [read(fan_fd, buf, 4096)]: the result, and the buffer with the bytes delivered in front. *)
Definition do_read (fan_fd : Z) (buf : list cell) : M (Z * list cell) := λ s,
  let n := length (trace s) in
  let r := sys_result n (Read fan_fd) in
  let bs := take (Z.to_nat r) (sys_bytes n) in
  match buf_store buf 0 (Some <$> bs) with
  | Some buf => Some ((r, buf), Fan (trace s ++ [Read fan_fd]) (out s))
  | None => None
  end.

(** The outer loop, [path] being a new array in every round; the exit status. *)
Fixpoint read_loop (fuel : nat) (o : opts) (fan_fd : Z) (buf : list cell) : M Z :=
  match fuel with
  | O => st_fail
  | S fuel =>
      '(len, buf) ← do_read fan_fd buf;
      if 0 <? len then
        r ← event_loop (Z.to_nat len) o fan_fd buf 0 len None;
        match r with
        | Fail => mret 1
        | Go _ =>
            ok ← select_loop fuel;
            if ok : bool then read_loop fuel o fan_fd buf else mret 1
        end
      else if len <? 0 then mret 1 else mret 0
  end.

(** The marks for the files named on the command line; [false] to fail. *)
Fixpoint mark_loop (o : opts) (fan_fd : Z) (files : list (list Z)) : M bool :=
  match files with
  | [] => mret true
  | f :: files =>
      r ← mark_object fan_fd (Some f) AT_FDCWD (final_mask o) (mark_flags o);
      if negb (r =? 0) then mret false else mark_loop o fan_fd files
  end.

(** [FD_SET(fan_fd, &rfds)] on a set that FD_ZERO has cleared: a descriptor that does not fit into
    the set is written behind it. *)
Definition FD_SETSIZE : Z := 1024.

Definition FD_SET (fan_fd : Z) : M unit := if fan_fd <? FD_SETSIZE then mret tt else st_fail.

(** [main], for getopt's results and the arguments after them; the exit status. *)
Definition main (fuel : nat) (args : list (Z * list Z)) (files : list (list Z)) : M Z :=
  r ← do_call Sigaction;
  if r =? -1 then mret 1
  else
    match parse_opts opts_default args with
    | None => st_fail
    | Some (inr st) => mret st
    | Some (inl o) =>
        if bool_decide (files = []) then mret 1
        else
          fan_fd ← do_call (Init (init_flags o) O_RDONLY_LARGEFILE);
          if fan_fd <? 0 then mret 1
          else
            ok ← mark_loop o fan_fd files;
            if negb ok then mret 1
            else
              FD_SET fan_fd;;
              ok ← select_loop fuel;
              if negb ok then mret 1
              else read_loop fuel o fan_fd (replicate (Z.to_nat 4096) None)
    end.

End code.

(** ** The calls a computation makes *)

Section performs.
Context `{Sy : FanSys}.

(** From every state [m] returns, having made calls that satisfy [P] together with its
    result. *)
Definition performs {A} (m : ST fan A) (P : A → list call → Prop) : Prop :=
  ∀ s, ∃ a s' tr, m s = Some (a, s') ∧ trace s' = trace s ++ tr ∧ P a tr.

Lemma performs_ret {A} (a : A) (P : A → list call → Prop) : P a [] → performs (mret a) P.
Proof. intros H s. exists a, s, []. by rewrite app_nil_r. Qed.

Lemma performs_bind {A B} (m : ST fan A) (k : A → ST fan B) P Q :
  performs m P → (∀ a t, P a t → performs (k a) (λ b t', Q b (t ++ t'))) → performs (m ≫= k) Q.
Proof.
  intros Hm Hk s. destruct (Hm s) as (a & s1 & t & E & Et & HP).
  destruct (Hk a t HP s1) as (b & s2 & t' & E' & Et' & HQ).
  exists b, s2, (t ++ t'). rewrite (st_bind_some _ _ _ _ _ E) E' Et' Et -app_assoc. done.
Qed.

Lemma performs_mono {A} (m : ST fan A) (P Q : A → list call → Prop) :
  performs m P → (∀ a t, P a t → Q a t) → performs m Q.
Proof. intros Hm HQ s. destruct (Hm s) as (a & s' & t & E & Et & HP). exists a, s', t. eauto. Qed.

Lemma performs_call c (P : Z → list call → Prop) : (∀ r, P r [c]) → performs (do_call c) P.
Proof. intros H s. eexists _, _, [c]. split; [reflexivity|]. by split. Qed.

Lemma performs_printf p (P : unit → list call → Prop) : P tt [] → performs (printf p) P.
Proof. intros H s. eexists _, _, []. split; [reflexivity|]. rewrite app_nil_r. by split. Qed.

Lemma performs_opt {A} (a : A) (P : A → list call → Prop) : P a [] → performs (st_opt (Some a)) P.
Proof. apply performs_ret. Qed.

(** The answers and the closed descriptors among the calls. *)
Definition writes (tr : list call) : list (Z * Z) :=
  omap (λ c, match c with Write _ f r => Some (f, r) | _ => None end) tr.

Definition closes (tr : list call) : list Z :=
  omap (λ c, match c with Close f => Some f | _ => None end) tr.

(** Neither an answer nor a close. *)
Definition silent (tr : list call) : Prop := writes tr = [] ∧ closes tr = [].

Lemma writes_app t1 t2 : writes (t1 ++ t2) = writes t1 ++ writes t2.
Proof. apply omap_app. Qed.

Lemma closes_app t1 t2 : closes (t1 ++ t2) = closes t1 ++ closes t2.
Proof. apply omap_app. Qed.

Lemma silent_app t1 t2 : silent t1 → silent t2 → silent (t1 ++ t2).
Proof. intros [E1 E2] [E3 E4]. unfold silent. by rewrite writes_app closes_app E1 E2 E3 E4. Qed.

(** Computations without answers and closes. *)
Definition quiet {A} (m : ST fan A) : Prop := performs m (λ _, silent).

Lemma quiet_bind {A B} (m : ST fan A) (k : A → ST fan B) :
  quiet m → (∀ a, quiet (k a)) → quiet (m ≫= k).
Proof.
  intros Hm Hk. eapply performs_bind; [exact Hm|]. intros a t Ht.
  eapply performs_mono; [apply Hk|]. intros b t'. by apply silent_app.
Qed.

Lemma quiet_ret {A} (a : A) : quiet (mret a).
Proof. by apply performs_ret. Qed.

Lemma quiet_printf p : quiet (printf p).
Proof. by apply performs_printf. Qed.

Lemma quiet_when b m : quiet m → quiet (st_when b m).
Proof. destruct b; [done|]. intros _. apply quiet_ret. Qed.

Lemma quiet_call c : silent [c] → quiet (do_call c).
Proof. intros H. by apply performs_call. Qed.

Lemma quiet_refused b m : quiet m → quiet (refused b m).
Proof.
  intros H. destruct b; [|apply quiet_ret]. apply quiet_bind; [done|]. intros. apply quiet_ret.
Qed.

Lemma quiet_readlink f : quiet (readlink f).
Proof. intros s. eexists _, _, [Readlink f]. split; [reflexivity|]. by split. Qed.

Lemma quiet_special fan_fd f p : quiet (set_special_ignored fan_fd f (Some p)).
Proof.
  apply quiet_bind; [by apply performs_opt|]. intros q. case_match; [apply quiet_ret|by apply quiet_call].
Qed.

Lemma quiet_print_mask m : quiet (print_mask m).
Proof.
  unfold print_mask. repeat (apply quiet_bind; [|intros _]);
    repeat (apply quiet_when || apply quiet_printf || (apply quiet_bind; [|intros _])).
Qed.

End performs.

#[export] Hint Resolve quiet_ret quiet_printf quiet_readlink quiet_special quiet_print_mask : kdb.

(** ** Answers and closes of an event *)

Section events.
Context `{Sy : FanSys}.

(** The answer an event asks for, and the descriptor to close. *)
Definition answering (m : metadata) : list (Z * Z) :=
  if bits (mask m) FAN_ALL_PERM_EVENTS then [(fd m, FAN_ALLOW)] else [].

Definition closing (m : metadata) : list Z := if 0 <=? fd m then [fd m] else [].

(** The event was handled: answered if it asks for it, then closed. *)
Definition handled (m : metadata) (tr : list call) : Prop :=
  ∃ t1 t2, tr = t1 ++ t2 ∧ writes t1 = answering m ∧ closes t1 = [] ∧
           writes t2 = [] ∧ closes t2 = closing m.

(** The program failed on the event: without an answer or with the right one, and not closed
    before it was answered. *)
Definition failed (m : metadata) (tr : list call) : Prop :=
  (closes tr = [] ∧ (writes tr = [] ∨ writes tr = answering m)) ∨ handled m tr.

(** The answer to a permission event. *)
Lemma answer_perm_performs o fan_fd m :
  performs (answer_perm o fan_fd m) (λ b tr, closes tr = [] ∧ writes tr = answering m).
Proof.
  unfold answer_perm, answering. destruct (bits (mask m) FAN_ALL_PERM_EVENTS); [|by apply performs_ret].
  eapply (performs_bind _ _ (λ _, silent)).
  { destruct (opt_sleep o =? 0); [by apply performs_ret|].
    apply quiet_bind; [by apply quiet_call|]. intros. apply quiet_ret. }
  intros ? t [Hw Hc]. eapply (performs_bind _ _ (λ _ t', closes t' = [] ∧ writes t' = [(fd m, FAN_ALLOW)])).
  { unfold handle_perm. eapply (performs_bind _ _ (λ _ t', t' = [Write fan_fd (fd m) FAN_ALLOW])).
    - by apply performs_call.
    - intros r t' ->. destruct (r <? 0); by apply performs_ret. }
  intros r t' [Hc' Hw']. destruct (negb (r =? 0)).
  - apply performs_ret. rewrite app_nil_r closes_app writes_app Hc Hc' Hw Hw'. done.
  - eapply performs_mono; [apply quiet_refused; by apply quiet_call|].
    intros b t2 [Hw2 Hc2]. rewrite !closes_app !writes_app Hc Hc' Hc2 Hw Hw' Hw2. done.
Qed.

(** The path of an event with a descriptor. *)
Lemma print_path_performs m path :
  0 <= fd m → performs (print_path m path) (λ r t, silent t ∧ ∀ p, r = Go p → p ≠ None).
Proof.
  intros Hfd. unfold print_path. rewrite (proj2 (Z.leb_le _ _) Hfd).
  eapply performs_bind; [apply quiet_readlink|]. intros [p|] t Ht.
  - eapply performs_bind; [apply quiet_printf|]. intros ? t1 Ht1.
    eapply performs_bind; [apply quiet_printf|]. intros ? t2 Ht2.
    apply performs_ret. split; [|by intros ? [= <-]]. by repeat apply silent_app.
  - apply performs_ret. rewrite app_nil_r. by split.
Qed.

(** One event: it is handled when the loop goes on, and the program never stops in
    between otherwise. *)
Lemma handle_event_performs o fan_fd m path :
  0 <= fd m →
  performs (handle_event o fan_fd m path) (λ r tr,
    match r with Go _ => handled m tr | Fail => failed m tr end).
Proof.
  intros Hfd. unfold handle_event.
  assert (Hfail : ∀ t, silent t → failed m t) by (intros t [? ?]; left; auto).
  destruct (vers m <? 2).
  { eapply performs_bind; [apply quiet_printf|]. intros ? t Ht. apply performs_ret. rewrite app_nil_r. auto. }
  eapply performs_bind; [apply quiet_refused; by apply quiet_call|]. intros [|] t0 Ht0.
  { apply performs_ret. rewrite app_nil_r. auto. }
  eapply performs_bind; [by apply print_path_performs|]. intros [|[p|]] t1 [Ht1 Hp]; [| |by destruct (Hp None)].
  { apply performs_ret. rewrite app_nil_r. apply Hfail. by apply silent_app. }
  eapply performs_bind; [apply quiet_special|]. intros ? t2 Ht2.
  eapply performs_bind; [apply quiet_printf|]. intros ? t3 Ht3.
  eapply performs_bind; [apply quiet_print_mask|]. intros ? t4 Ht4.
  eapply performs_bind; [apply answer_perm_performs|]. intros b t5 [Hc5 Hw5].
  assert (Hpre : silent (t0 ++ t1 ++ t2 ++ t3 ++ t4)) by by repeat apply silent_app.
  destruct Hpre as [Hwp Hcp]. rewrite !writes_app !closes_app in Hwp, Hcp.
  assert (Hans : ∀ t, silent t → closes (t0 ++ t1 ++ t2 ++ t3 ++ t4 ++ t5 ++ t) = [] ∧
                     writes (t0 ++ t1 ++ t2 ++ t3 ++ t4 ++ t5 ++ t) = answering m).
  { intros t [Hw Hc]. rewrite !writes_app !closes_app Hw Hc Hw5 Hc5 !app_nil_r.
    repeat (apply app_eq_nil in Hwp as [-> Hwp]; apply app_eq_nil in Hcp as [-> Hcp]).
    by rewrite Hwp Hcp. }
  destruct b.
  { apply performs_ret. left. destruct (Hans []) as [? ?]; [done|]. auto. }
  eapply performs_bind; [apply quiet_printf|]. intros ? t6 Ht6.
  eapply (performs_bind _ _ (λ _ t, writes t = [] ∧ closes t = closing m)).
  { unfold refused, closing. destruct (0 <=? fd m); [|by apply performs_ret].
    eapply (performs_bind _ _ (λ _ t, t = [Close (fd m)])); [by apply performs_call|].
    intros r t ->. by apply performs_ret. }
  intros b t7 [Hw7 Hc7]. destruct (Hans t6 Ht6) as [Hca Hwa].
  assert (handled m (t0 ++ t1 ++ t2 ++ t3 ++ t4 ++ t5 ++ t6 ++ t7)) as Hh.
  { exists (t0 ++ t1 ++ t2 ++ t3 ++ t4 ++ t5 ++ t6), t7. split_and!; [by rewrite -!app_assoc|done..]. }
  destruct b; apply performs_ret; rewrite app_nil_r; [by right|done].
Qed.

End events.

(** ** The event buffer *)

(** The first event of some bytes. *)
Definition meta_of (bs : list Z) : metadata :=
  Metadata (le_join (take 4 bs)) (le_join (take 1 (drop 4 bs))) (le_join (take 8 (drop 8 bs)))
    (s32 (le_join (take 4 (drop 16 bs)))) (s32 (le_join (take 4 (drop 20 bs)))).

(** The events in some bytes: each with its length in it, up to one that is cut off or has no
    proper length. *)
Fixpoint parse (fuel : nat) (bs : list Z) : list metadata :=
  match fuel with
  | O => []
  | S fuel =>
      let len := Z.of_nat (length bs) in
      if FAN_EVENT_METADATA_LEN <=? len then
        let m := meta_of bs in
        if (FAN_EVENT_METADATA_LEN <=? event_len m) && (event_len m <=? len)
        then m :: parse fuel (drop (Z.to_nat (event_len m)) bs)
        else []
      else []
  end.

(** The bytes of an event of the kernel, with what follows its fixed part. *)
Definition encode_event (m : metadata) (reserved metadata_len : Z) (extra : list Z) : list Z :=
  le_split 4 (event_len m) ++ le_split 1 (vers m) ++ le_split 1 reserved ++ le_split 2 metadata_len ++
  le_split 8 (mask m) ++ le_split 4 (fd m) ++ le_split 4 (pid m) ++ extra.

Record meta_ok (m : metadata) (extra : list Z) : Prop := {
  mo_len : event_len m = FAN_EVENT_METADATA_LEN + Z.of_nat (length extra);
  mo_u32 : in_u32 (event_len m);
  mo_vers : 0 <= vers m < 256;
  mo_mask : in_u64 (mask m);
  mo_fd : in_s32 (fd m);
  mo_pid : in_s32 (pid m) }.

Section buffer.
Context `{Sy : FanSys}.

(** The events one after the other. *)
Fixpoint handle_all (o : opts) (fan_fd : Z) (es : list metadata) (path : option (list Z)) : ST fan round :=
  match es with
  | [] => mret (Go path)
  | m :: es =>
      r ← handle_event o fan_fd m path;
      match r with
      | Fail => mret Fail
      | Go path => handle_all o fan_fd es path
      end
  end.

Lemma field_at pre (bs : list Z) rest i n :
  (i + n ≤ length bs)%nat →
  field (pre ++ (Some <$> bs) ++ rest) (length pre + i) n = Some (le_join (take n (drop i bs))).
Proof.
  intros H. unfold field. rewrite bool_decide_true; [rewrite !length_app length_fmap; lia|].
  rewrite -drop_drop drop_app_length drop_app_le; [rewrite length_fmap; lia|].
  rewrite take_app_le; [rewrite length_drop length_fmap; lia|].
  rewrite -fmap_drop -fmap_take known_fmap. done.
Qed.

Lemma get_meta_at pre (bs : list Z) rest :
  (24 ≤ length bs)%nat → get_meta (pre ++ (Some <$> bs) ++ rest) (length pre) = Some (meta_of bs).
Proof.
  intros H. unfold get_meta. rewrite !field_at; [lia..|].
  pose proof (field_at pre bs rest 0 4 ltac:(lia)) as E. rewrite Nat.add_0_r drop_0 in E.
  by rewrite E.
Qed.

(** The loop over a buffer handles the events in the bytes delivered, whatever bytes they are,
    and reads no others. *)
Lemma event_loop_parse fuel o fan_fd pre bs rest path s :
  (length bs < 24 * fuel)%nat →
  event_loop fuel o fan_fd (pre ++ (Some <$> bs) ++ rest) (length pre) (Z.of_nat (length bs)) path s =
    handle_all o fan_fd (parse fuel bs) path s.
Proof.
  revert pre bs path s. induction fuel as [|fuel IH]; intros pre bs path s Hf; [lia|].
  cbn [event_loop parse]. destruct (Z.leb_spec FAN_EVENT_METADATA_LEN (Z.of_nat (length bs))) as [Hl|Hl]; [|done].
  unfold FAN_EVENT_METADATA_LEN in *. rewrite get_meta_at; [lia|].
  erewrite st_bind_some; [|reflexivity].
  set (m := meta_of bs). destruct (Z.leb_spec 24 (event_len m)) as [H1|H1]; [|done].
  destruct (Z.leb_spec (event_len m) (Z.of_nat (length bs))) as [H2|H2]; [|done]. cbn [andb handle_all].
  unfold mbind, ST_bind. destruct (handle_event o fan_fd m path s) as [[[|p] s1]|]; [done| |done].
  rewrite -{1}(take_drop (Z.to_nat (event_len m)) bs) fmap_app -app_assoc app_assoc.
  set (k := Z.to_nat (event_len m)).
  replace (length pre + k)%nat with (length (pre ++ (Some <$> take k bs)))
    by (rewrite length_app length_fmap length_take; lia).
  replace (Z.of_nat (length bs) - event_len m) with (Z.of_nat (length (drop k bs))) by (rewrite length_drop; lia).
  apply IH. rewrite length_drop. lia.
Qed.

(** The fixed part of an encoded event. *)
Lemma meta_of_encode m reserved ml extra rest :
  meta_ok m extra → meta_of (encode_event m reserved ml extra ++ rest) = m.
Proof.
  intros [H1 H2 H3 H4 H5 H6].
  assert (Hseg : ∀ (l p q r : list Z) i n, l = p ++ q ++ r → length p = i → length q = n → take n (drop i l) = q).
  { intros l p q r i n -> <- <-. by rewrite drop_app_length take_app_length. }
  unfold meta_of, encode_event. rewrite -!app_assoc.
  match goal with |- Metadata (le_join (take 4 ?l)) _ _ _ _ = _ => remember l as bs eqn:Ebs end.
  rewrite -(drop_0 bs) (Hseg bs [] (le_split 4 (event_len m)) _ 0%nat 4%nat Ebs eq_refl (le_split_length _ _)) drop_0.
  rewrite (Hseg bs _ (le_split 1 (vers m)) _ 4%nat 1%nat Ebs (le_split_length _ _) (le_split_length _ _)).
  rewrite (Hseg bs (le_split 4 (event_len m) ++ le_split 1 (vers m) ++ le_split 1 reserved ++ le_split 2 ml)
    (le_split 8 (mask m)) (le_split 4 (fd m) ++ le_split 4 (pid m) ++ extra ++ rest) 8%nat 8%nat);
    [by rewrite Ebs -!app_assoc|by rewrite !length_app !le_split_length|by rewrite le_split_length|].
  rewrite (Hseg bs (le_split 4 (event_len m) ++ le_split 1 (vers m) ++ le_split 1 reserved ++ le_split 2 ml ++ le_split 8 (mask m))
    (le_split 4 (fd m)) (le_split 4 (pid m) ++ extra ++ rest) 16%nat 4%nat);
    [by rewrite Ebs -!app_assoc|by rewrite !length_app !le_split_length|by rewrite le_split_length|].
  rewrite (Hseg bs (le_split 4 (event_len m) ++ le_split 1 (vers m) ++ le_split 1 reserved ++ le_split 2 ml ++ le_split 8 (mask m) ++ le_split 4 (fd m))
    (le_split 4 (pid m)) (extra ++ rest) 20%nat 4%nat);
    [by rewrite Ebs -!app_assoc|by rewrite !length_app !le_split_length|by rewrite le_split_length|].
  rewrite le_join_split_u32 // le_join_split_u64 // !s32_le_split // le_join_split.
  rewrite Z.mod_small; [done|]. by destruct m.
Qed.

(** Encoded events are the events parsed. *)
Lemma parse_encode m reserved ml extra rest fuel :
  meta_ok m extra →
  parse (S fuel) (encode_event m reserved ml extra ++ rest) = m :: parse fuel rest.
Proof.
  intros Hok. pose proof Hok as [H1 H2 _ _ _ _]. cbn [parse].
  assert (Hlen : length (encode_event m reserved ml extra) = Z.to_nat (event_len m)).
  { unfold encode_event. rewrite !length_app !le_split_length H1. unfold FAN_EVENT_METADATA_LEN. lia. }
  pose proof (meta_of_encode m reserved ml extra rest Hok) as Hm.
  rewrite Hm length_app Hlen. unfold FAN_EVENT_METADATA_LEN in *.
  rewrite (proj2 (Z.leb_le _ _)); [lia|]. rewrite (proj2 (Z.leb_le 24 (event_len m))); [lia|].
  rewrite (proj2 (Z.leb_le (event_len m) _)); [lia|]. cbn [andb]. f_equal.
  by rewrite drop_app_length'.
Qed.

(** An event of the kernel with the bytes around its fields. *)
Record raw_event := RawEvent {
  re_meta : metadata; re_reserved : Z; re_metadata_len : Z; re_extra : list Z }.

Definition raw_bytes (e : raw_event) : list Z :=
  encode_event (re_meta e) (re_reserved e) (re_metadata_len e) (re_extra e).

Definition raw_ok (e : raw_event) : Prop := meta_ok (re_meta e) (re_extra e).

Lemma raw_length e : raw_ok e → (24 ≤ length (raw_bytes e))%nat.
Proof. intros _. unfold raw_bytes, encode_event. rewrite !length_app !le_split_length. lia. Qed.

Lemma parse_raw es fuel :
  Forall raw_ok es → (length es < fuel)%nat → parse fuel (concat (raw_bytes <$> es)) = re_meta <$> es.
Proof.
  intros Hok. revert fuel. induction Hok as [|e es He _ IH]; intros [|fuel] Hf; simpl in Hf; try lia; [done|].
  change (concat (raw_bytes <$> e :: es)) with (raw_bytes e ++ concat (raw_bytes <$> es)).
  unfold raw_bytes at 1. rewrite parse_encode // IH //. lia.
Qed.

Lemma raw_count es : Forall raw_ok es → (24 * length es ≤ length (concat (raw_bytes <$> es)))%nat.
Proof.
  induction 1 as [|e es He _ IH]; [done|]. rewrite fmap_cons. cbn [concat]. rewrite length_app length_cons.
  pose proof (raw_length e He). lia.
Qed.

(** The events are handled one after the other, up to the end or to a failure. *)
Lemma handle_all_performs o fan_fd es path :
  Forall (λ m, 0 <= fd m) es →
  performs (handle_all o fan_fd es path) (λ r tr,
    match r with
    | Go _ => ∃ ts, tr = concat ts ∧ Forall2 handled es ts
    | Fail => ∃ es1 m es2 ts t, es = es1 ++ m :: es2 ∧ tr = concat ts ++ t ∧
        Forall2 handled es1 ts ∧ failed m t
    end).
Proof.
  intros Hes. revert path. induction Hes as [|m es Hm _ IH]; intros path.
  { apply performs_ret. exists []. by split. }
  cbn [handle_all]. eapply performs_bind; [by apply handle_event_performs|]. intros [|p] t Ht.
  - apply performs_ret. exists [], m, es, [], t. rewrite app_nil_r. by split_and!.
  - eapply performs_mono; [apply IH|]. intros [|q] tr.
    + intros (es1 & m' & es2 & ts & t' & -> & -> & Hh & Hf).
      exists (m :: es1), m', es2, (t :: ts), t'. simpl. rewrite -app_assoc. split_and!; auto.
    + intros (ts & -> & Hh). exists (t :: ts). split; [done|]. by constructor.
Qed.

(** *** Properties *)

(** C20: the event loop on every buffer. Whatever bytes a read delivers, the loop ends within as
    many rounds as there are bytes, looks at no byte behind them, and does exactly what handling
    the events in them one by one does, the first event that is cut off or has an impossible length
    being the end; and the events the kernel encodes are the events found. *)
Theorem event_loop_walks o fan_fd bs stale path s :
  (0 < length bs)%nat →
  let len := Z.of_nat (length bs) in
  event_loop (Z.to_nat len) o fan_fd ((Some <$> bs) ++ stale) 0 len path s =
    handle_all o fan_fd (parse (Z.to_nat len) bs) path s ∧
  (∀ es, Forall raw_ok es → bs = concat (raw_bytes <$> es) → parse (Z.to_nat len) bs = re_meta <$> es).
Proof.
  intros Hb len. unfold len. rewrite Nat2Z.id. split.
  - apply (event_loop_parse _ _ _ []). lia.
  - intros es Hes ->. apply parse_raw; [done|]. pose proof (raw_count es Hes). lia.
Qed.

(** answers and descriptors. On any events of the kernel that carry a descriptor,
    and whatever the system calls return, the loop ends; when it goes on to the next read,
    every permission event has been answered exactly once, with FAN_ALLOW for its own
    descriptor, no other event has been answered, and every descriptor has been closed
    exactly once and after its answer, in the order of the events. When it
    fails on an event, all earlier ones were handled in this way, and that event was not
    closed without its answer. *)
Theorem permissions_answered o fan_fd es stale s :
  Forall raw_ok es → Forall (λ e, 0 <= fd (re_meta e)) es → es ≠ [] →
  let bs := concat (raw_bytes <$> es) in
  ∃ r s' tr, event_loop (length bs) o fan_fd ((Some <$> bs) ++ stale) 0 (Z.of_nat (length bs)) None s = Some (r, s') ∧
    trace s' = trace s ++ tr ∧
    match r with
    | Go _ => ∃ ts, tr = concat ts ∧ Forall2 (λ e, handled (re_meta e)) es ts
    | Fail => ∃ es1 e es2 ts t, es = es1 ++ e :: es2 ∧ tr = concat ts ++ t ∧
        Forall2 (λ e, handled (re_meta e)) es1 ts ∧ failed (re_meta e) t
    end.
Proof.
  intros Hok Hfd Hne bs. pose proof (raw_count es Hok) as Hc. fold bs in Hc.
  assert (0 < length es)%nat as Hpos by (destruct es; simpl; [done|lia]).
  rewrite (event_loop_parse _ _ _ []); [lia|]. unfold bs. rewrite parse_raw //; [fold bs; lia|].
  destruct (handle_all_performs o fan_fd (re_meta <$> es) None) with (s := s)
    as (r & s' & tr & E & Et & H); [by apply Forall_fmap|].
  exists r, s', tr. split_and!; [done..|]. destruct r as [|p].
  - destruct H as (es1 & m & es2 & ts & t & Ees & -> & Hh & Hf).
    apply fmap_app_inv in Ees as (e1 & e2 & -> & Ee2 & ->).
    symmetry in Ee2. apply fmap_cons_inv in Ee2 as (e & e3 & -> & -> & ->).
    exists e1, e, e3, ts, t. split_and!; [done..| |done]. exact (proj1 (Forall2_fmap_l _ _ _ _) Hh).
  - destruct H as (ts & -> & Hh). exists ts. split; [done|]. exact (proj1 (Forall2_fmap_l _ _ _ _) Hh).
Qed.

(** events without a descriptor. When the first event of a read has none (the
    kernel reports an overflowing queue in this way), the array for the path is compared while it is
    uninitialised, whatever the options and the answers of the system. *)
Theorem overflow_event_undefined o fan_fd bs stale m es s :
  (0 < length bs)%nat → parse (length bs) bs = m :: es → fd m < 0 → 2 <= vers m →
  event_loop (length bs) o fan_fd ((Some <$> bs) ++ stale) 0 (Z.of_nat (length bs)) None s = None.
Proof.
  intros Hb Hp Hfd Hv. rewrite (event_loop_parse _ _ _ []); [lia|]. rewrite Hp. cbn [handle_all].
  apply st_bind_none. unfold handle_event, print_path, refused.
  rewrite (proj2 (Z.ltb_ge _ _) Hv) (proj2 (Z.leb_gt _ _) Hfd). done.
Qed.

End buffer.

(** ** Options *)

(** Whether an option was given. *)
Definition given (c : Z) (args : list (Z * list Z)) : bool := existsb (λ a, a.1 =? c) args.

Lemma mask_loop_total fuel m str : (length str < fuel)%nat → is_Some (mask_loop fuel m str).
Proof.
  revert m str. induction fuel as [|fuel IH]; intros m str Hf; [lia|]. simpl.
  destruct (strtok 44 str) as [[tok rest]|] eqn:E; [|eauto].
  destruct (strtok_some _ _ _ _ E) as (_ & _ & Hl & _).
  destruct (mask_word tok); [apply IH; lia|eauto].
Qed.

Lemma parse_opt_total o a : is_Some (parse_opt o a).
Proof.
  unfold parse_opt. destruct a as [c arg]. destruct (mask_loop_total (S (length arg)) 0 arg) as [[m|st] ->]; [lia| |];
    repeat case_match; eauto.
Qed.

Lemma parse_opts_total o args : is_Some (parse_opts o args).
Proof.
  revert o. induction args as [|a args IH]; intros o; simpl; [eauto|].
  destruct (parse_opt_total o a) as [[o'|st] ->]; eauto.
Qed.

Lemma parse_opts_app o args1 args2 o1 :
  parse_opts o args1 = Some (inl o1) → parse_opts o (args1 ++ args2) = parse_opts o1 args2.
Proof.
  revert o. induction args1 as [|a args IH]; intros o E; simpl in *; [by simplify_eq|].
  destruct (parse_opt o a) as [[o'|st]|]; [by apply IH|done..].
Qed.

(** What an option other than o does to the mask and to the permission flag. *)
Lemma parse_opt_effect o a o' :
  parse_opt o a = Some (inl o') →
  opt_add_perms o' = (a.1 =? 112) || opt_add_perms o ∧
  (a.1 ≠ 111 → fan_mask o' = if a.1 =? 100 then Z.lor (fan_mask o) FAN_ONDIR else fan_mask o).
Proof.
  unfold parse_opt. destruct a as [c arg]. cbn [Datatypes.fst].
  destruct (Z.eqb_spec c 111) as [->|H1].
  { destruct (mask_loop (S (length arg)) 0 arg) as [[m|]|]; intros; simplify_eq. by split. }
  repeat (match goal with |- context [c =? ?k] => destruct (Z.eqb_spec c k) as [->|] end; try done);
    intros; simplify_eq; by split.
Qed.

Lemma parse_opts_perms o args o' :
  parse_opts o args = Some (inl o') → opt_add_perms o' = given 112 args || opt_add_perms o.
Proof.
  revert o. induction args as [|a args IH]; intros o E; simpl in *; [by simplify_eq|].
  destruct (parse_opt o a) as [[o1|st]|] eqn:Ea; [|done..].
  rewrite (IH _ E). destruct (parse_opt_effect _ _ _ Ea) as [-> _].
  by destruct (a.1 =? 112), (given 112 args).
Qed.

Lemma parse_opts_mask o args o' :
  parse_opts o args = Some (inl o') → given 111 args = false →
  fan_mask o' = if given 100 args then Z.lor (fan_mask o) FAN_ONDIR else fan_mask o.
Proof.
  revert o. induction args as [|a args IH]; intros o E Hno; simpl in *; [by simplify_eq|].
  apply orb_false_iff in Hno as [Ha Hno]. apply Z.eqb_neq in Ha.
  destruct (parse_opt o a) as [[o1|st]|] eqn:Ea; [|done..].
  rewrite (IH _ E Hno). destruct (parse_opt_effect _ _ _ Ea) as [_ ->]; [|done].
  destruct (a.1 =? 100), (given 100 args); simpl; try done.
  by rewrite -Z.lor_assoc Z.lor_diag.
Qed.

(** The class of the fanotify group depends on the permission bits alone. *)
Lemma init_flags_class o :
  init_flags o = FAN_CLASS_CONTENT ↔ opt_add_perms o = true ∨ bits (fan_mask o) FAN_ALL_PERM_EVENTS = true.
Proof.
  assert (Hc : ∀ m, bits (Z.lor m FAN_EVENT_ON_CHILD) FAN_ALL_PERM_EVENTS = bits m FAN_ALL_PERM_EVENTS).
  { intros m. unfold bits. rewrite Z.land_lor_distr_l. by rewrite Z.lor_0_r. }
  assert (Hp : ∀ m, bits (Z.lor m FAN_ALL_PERM_EVENTS) FAN_ALL_PERM_EVENTS = true).
  { intros m. unfold bits. rewrite Z.land_lor_distr_l Z.land_diag.
    destruct (Z.eqb_spec (Z.lor (Z.land m FAN_ALL_PERM_EVENTS) FAN_ALL_PERM_EVENTS) 0) as [E|]; [|done].
    by apply Z.lor_eq_0_iff in E as [_ E]. }
  unfold init_flags, final_mask.
  destruct (opt_add_perms o); [rewrite Hp; naive_solver|].
  destruct (opt_child o); rewrite ?Hc; destruct (bits (fan_mask o) FAN_ALL_PERM_EVENTS); naive_solver.
Qed.

(** the options on every command line. Parsing always ends, with options or with the usage
    message. When it gives options and an option o was given, the mask consists of the events of the last
    option o and, if the option d comes after that one, of directories: what was said before it, an
    option d included, is lost. The group is opened for content exactly when the
    option p was given anywhere or that mask has a permission event. *)
Theorem options_decide pre arg post :
  is_Some (parse_opts opts_default (pre ++ (111, arg) :: post)) ∧
  ∀ o, parse_opts opts_default (pre ++ (111, arg) :: post) = Some (inl o) → given 111 post = false →
  ∃ m, mask_loop (S (length arg)) 0 arg = Some (inl m) ∧
    fan_mask o = (if given 100 post then Z.lor m FAN_ONDIR else m) ∧
    (init_flags o = FAN_CLASS_CONTENT ↔
      given 112 (pre ++ post) = true ∨ bits m FAN_ALL_PERM_EVENTS = true).
Proof.
  split; [apply parse_opts_total|]. intros o E Hno.
  pose proof (parse_opts_perms _ _ _ E) as Hperm.
  destruct (parse_opts_total opts_default pre) as [[o1|st] E1].
  2:{ exfalso. clear -E E1. revert E E1. generalize opts_default as o0. induction pre as [|a pre IH]; intros o0 E E1; [done|].
      simpl in *. destruct (parse_opt o0 a) as [[o'|]|]; [by eapply IH|done..]. }
  rewrite (parse_opts_app _ _ _ _ E1) in E. cbn [parse_opts] in E. unfold parse_opt in E.
  rewrite Z.eqb_refl in E.
  destruct (mask_loop_total (S (length arg)) 0 arg) as [[m|st] Em]; [lia| |]; rewrite Em in E; [|done].
  exists m. split; [exact Em|].
  pose proof (parse_opts_mask _ _ _ E Hno) as Hmask. simpl in Hmask. split; [done|].
  rewrite init_flags_class Hmask Hperm. unfold given. rewrite !existsb_app. simpl. rewrite orb_false_r.
  assert (bits (if existsb (λ a, a.1 =? 100) post then Z.lor m FAN_ONDIR else m) FAN_ALL_PERM_EVENTS =
          bits m FAN_ALL_PERM_EVENTS) as ->; [|done].
  destruct (existsb _ post); [|done]. unfold bits. rewrite Z.land_lor_distr_l. by rewrite Z.lor_0_r.
Qed.

(** ** Witnesses *)

(** A system on which every call succeeds. *)
Definition kind_system : FanSys := {|
  sys_result _ _ := 0; sys_bytes _ := []; sys_link _ := text "/tmp/f"; sys_errno _ := 0 |}.

Definition perm_event : raw_event := RawEvent (Metadata 24 3 FAN_OPEN_PERM 5 77) 0 24 [].

Lemma perm_event_ok : raw_ok perm_event.
Proof. split; try reflexivity; split; vm_compute; congruence. Qed.

Definition fan0 : fan := Fan [] [].

Lemma permissions_answered_witness :
  let bs := raw_bytes perm_event ++ [] in
  ∃ r s' tr, event_loop (Sy := kind_system) (length bs) opts_default 3 ((Some <$> bs) ++ []) 0
      (Z.of_nat (length bs)) None fan0 = Some (r, s') ∧
    trace s' = tr ∧
    match r with
    | Go _ => ∃ ts, tr = concat ts ∧ Forall2 (λ e, handled (re_meta e)) [perm_event] ts
    | Fail => ∃ es1 e es2 ts t, [perm_event] = es1 ++ e :: es2 ∧ tr = concat ts ++ t ∧
        Forall2 (λ e, handled (re_meta e)) es1 ts ∧ failed (re_meta e) t
    end.
Proof.
  apply (permissions_answered (Sy := kind_system) opts_default 3 [perm_event] [] fan0).
  - repeat constructor; apply perm_event_ok.
  - constructor; [simpl; lia|constructor].
  - done.
Defined.

Lemma event_loop_walks_witness :
  let bs := raw_bytes perm_event in
  event_loop (Sy := kind_system) 24 opts_default 3 ((Some <$> bs) ++ [None]) 0 24 None fan0 =
    handle_all (Sy := kind_system) opts_default 3 (parse 24 bs) None fan0.
Proof.
  refine (proj1 (event_loop_walks (Sy := kind_system) opts_default 3 (raw_bytes perm_event) [None] None fan0 _)).
  vm_compute. lia.
Defined.

(** An overflow event. *)
Definition overflow_bytes : list Z := raw_bytes (RawEvent (Metadata 24 3 0x4000 (-1) 0) 0 24 []).

Lemma overflow_event_undefined_witness :
  event_loop (Sy := kind_system) 24 opts_default 3 ((Some <$> overflow_bytes) ++ []) 0 24 None fan0 = None.
Proof.
  apply (overflow_event_undefined (Sy := kind_system) opts_default 3 overflow_bytes []
    (Metadata 24 3 0x4000 (-1) 0) [] fan0).
  - vm_compute. lia.
  - vm_compute. reflexivity.
  - simpl. lia.
  - simpl. lia.
Defined.

Lemma options_decide_witness :
  let o := Opts FAN_OPEN false false false false true 0 in
  ∃ m, mask_loop 5 0 (text "open") = Some (inl m) ∧ fan_mask o = m ∧
    (init_flags o = FAN_CLASS_CONTENT ↔ false = true ∨ bits m FAN_ALL_PERM_EVENTS = true).
Proof.
  intros o. refine (proj2 (options_decide [(100, [])] (text "open") []) o _ _); vm_compute; reflexivity.
Defined.
