(* ===== verification/FanRun.v ===== *)
(** * The fanotify example from start to exit

    [Fanotify] has the program and its theorems on one buffer of events; here the whole run of
    [main] is related to what the kernel delivered: the events of all reads, in order,
    are what the program answers and closes. *)

From Stdlib Require Import ZArith Lia ssreflect.
From stdpp Require Import base list numbers strings.
From S2P Require Import Prelude CString Bytes Fanotify.

Open Scope Z_scope.

(** ** Specification *)

Section spec.
Context `{Sy : FanSys}.

(** What the program does to the kernel's requests: an answer or a close. *)
Definition act (c : call) : option ((Z * Z) + Z) :=
  match c with Write _ f r => Some (inl (f, r)) | Close f => Some (inr f) | _ => None end.

Definition acts (tr : list call) : list ((Z * Z) + Z) := omap act tr.

(** What an event asks for: the answer of a permission event, then the close. *)
Definition duties (m : metadata) : list ((Z * Z) + Z) := (inl <$> answering m) ++ (inr <$> closing m).

(** The events that the [n]-th call delivers if it is a read. *)
Definition batch (n : nat) (c : call) : list metadata :=
  match c with
  | Read _ =>
      let r := Z.to_nat (sys_result n c) in parse r (take r (sys_bytes n))
  | _ => []
  end.

(** The events delivered by the calls [tr], the first of which is number [n]. *)
Fixpoint delivered (n : nat) (tr : list call) : list metadata :=
  match tr with
  | [] => []
  | c :: tr => batch n c ++ delivered (S n) tr
  end.

(** The descriptor of the group fits into an fd_set; reads fit into the buffer, deliver the bytes they count
    and events with descriptors; from call [N] on the group is closed and no signal arrives. *)
Record session (N : nat) : Prop := {
  ses_fd n a b : sys_result n (Init a b) < FD_SETSIZE;
  ses_fits n f : sys_result n (Read f) <= 4096;
  ses_bytes n f : sys_result n (Read f) <= Z.of_nat (length (sys_bytes n));
  ses_fds n f : Forall (λ m, 0 <= fd m) (batch n (Read f));
  ses_end n f : (N ≤ n)%nat → sys_result n (Read f) <= 0;
  ses_signals n : (N ≤ n)%nat → sys_errno n ≠ EINTR;
}.

(** Everything delivered by [tr] was served when the program goes on, and a part of it, in
    the same order, when it fails. *)
Definition served (ok : bool) (n : nat) (tr : list call) : Prop :=
  if ok then acts tr = concat (duties <$> delivered n tr)
  else acts tr `prefix_of` concat (duties <$> delivered n tr).

End spec.

(** ** Lemmas *)

Section proofs.
Context `{Sy : FanSys}.

Lemma acts_app t1 t2 : acts (t1 ++ t2) = acts t1 ++ acts t2.
Proof. apply omap_app. Qed.

Lemma delivered_app n t1 t2 : delivered n (t1 ++ t2) = delivered n t1 ++ delivered (n + length t1) t2.
Proof.
  revert n. induction t1 as [|c t1 IH]; intros n; simpl; [by rewrite Nat.add_0_r|].
  rewrite IH -app_assoc. do 3 f_equal. lia.
Qed.

Lemma acts_writes tr : closes tr = [] → acts tr = inl <$> writes tr.
Proof. induction tr as [|[] tr IH]; simpl; intros H; try done; rewrite ?IH //. Qed.

Lemma acts_closes tr : writes tr = [] → acts tr = inr <$> closes tr.
Proof. induction tr as [|[] tr IH]; simpl; intros H; try done; rewrite ?IH //. Qed.

Lemma handled_acts m tr : handled m tr → acts tr = duties m.
Proof.
  intros (t1 & t2 & -> & Hw1 & Hc1 & Hw2 & Hc2).
  by rewrite acts_app acts_writes // acts_closes // Hw1 Hc2.
Qed.

Lemma failed_acts m tr : failed m tr → acts tr `prefix_of` duties m.
Proof.
  intros [[Hc [Hw|Hw]]|H]; [..|by rewrite (handled_acts _ _ H)].
  - rewrite acts_writes // Hw. apply prefix_nil.
  - rewrite acts_writes // Hw. apply prefix_app_r. done.
Qed.

(** A part of a run that is followed by another. *)
Lemma served_app ok n t1 t2 :
  served true n t1 → served ok (n + length t1) t2 → served ok n (t1 ++ t2).
Proof.
  intros H1. unfold served. rewrite acts_app delivered_app fmap_app concat_app H1.
  destruct ok; [by intros ->|]. intros. by apply prefix_app.
Qed.

(** Calls that neither read, answer nor close. *)
Definition idle (c : call) : Prop :=
  match c with Read _ | Write _ _ _ | Close _ => False | _ => True end.

Lemma idle_served ok n tr : Forall idle tr → served ok n tr.
Proof.
  intros H. assert (acts tr = [] ∧ ∀ n, delivered n tr = []) as [Ha Hd].
  { induction H as [|c tr Hc _ [IH1 IH2]]; [done|]. split.
    - unfold acts. simpl. by destruct c.
    - intros k. simpl. rewrite IH2. by destruct c. }
  unfold served. rewrite Ha Hd. by destruct ok.
Qed.

(** *** Calls other than reads *)

Definition noread (c : call) : Prop := match c with Read _ => False | _ => True end.

(** Whenever [m] returns, it has not read. *)
Definition only {A} (m : ST fan A) : Prop :=
  ∀ s a s', m s = Some (a, s') → ∃ tr, trace s' = trace s ++ tr ∧ Forall noread tr.

Lemma only_ret {A} (a : A) : only (mret a).
Proof. intros s ? ? [= <- <-]. exists []. by rewrite app_nil_r. Qed.

Lemma only_bind {A B} (m : ST fan A) (k : A → ST fan B) : only m → (∀ a, only (k a)) → only (m ≫= k).
Proof.
  intros Hm Hk s b s' E. st_inv. destruct (Hm _ _ _ Heqo) as (t1 & E1 & H1).
  destruct (Hk _ _ _ _ E) as (t2 & E2 & H2). exists (t1 ++ t2). rewrite E2 E1 -app_assoc. split; [done|].
  by apply Forall_app.
Qed.

Lemma only_call c : noread c → only (do_call c).
Proof. intros H s ? ? [= <- <-]. exists [c]. auto. Qed.

Lemma only_printf p : only (printf p).
Proof. intros s ? ? [= <- <-]. exists []. by rewrite app_nil_r. Qed.

Lemma only_opt {A} (o : option A) : only (st_opt o).
Proof. intros s a s'. destruct o; intros [= <- <-]. exists []. by rewrite app_nil_r. Qed.

Lemma only_readlink f : only (readlink f).
Proof. intros s ? ? [= <- <-]. exists [Readlink f]. split; [done|by repeat constructor]. Qed.

Ltac only_auto :=
  repeat first
    [ apply only_ret | apply only_printf | apply only_opt | apply only_readlink
    | apply only_call; exact I | apply only_bind; [|intros ?]
    | progress (unfold mark_object, set_ignored_mask, set_special_ignored, handle_perm, refused, st_when)
    | case_match ].

Lemma only_handle_event o fan_fd m path : only (handle_event o fan_fd m path).
Proof. unfold handle_event, print_path, print_mask, answer_perm. only_auto. Qed.

Lemma only_handle_all o fan_fd es path : only (handle_all o fan_fd es path).
Proof.
  revert path. induction es as [|m es IH]; intros path; [apply only_ret|]. cbn [handle_all].
  apply only_bind; [apply only_handle_event|]. intros []; [apply only_ret|apply IH].
Qed.

Lemma noread_delivered n tr : Forall noread tr → delivered n tr = [].
Proof. intros H. revert n. induction H as [|c tr Hc _ IH]; intros n; [done|]. simpl. rewrite IH. by destruct c. Qed.

(** The events of one read: their duties are done, or a part of them when the program fails. *)
Lemma handle_all_acts o fan_fd es s :
  Forall (λ m, 0 <= fd m) es →
  ∃ r s' tr, handle_all o fan_fd es None s = Some (r, s') ∧ trace s' = trace s ++ tr ∧ Forall noread tr ∧
    match r with
    | Go _ => acts tr = concat (duties <$> es)
    | Fail => acts tr `prefix_of` concat (duties <$> es)
    end.
Proof.
  intros Hes. destruct (handle_all_performs o fan_fd es None Hes s) as (r & s' & tr & E & Et & H).
  destruct (only_handle_all _ _ _ _ _ _ _ E) as (tr' & Et' & Hn).
  rewrite Et in Et'. apply app_inv_head in Et' as <-.
  assert (Hdone : ∀ es ts, Forall2 handled es ts → acts (concat ts) = concat (duties <$> es)).
  { induction 1 as [|m t es' ts Hm _ IH]; [done|]. simpl. by rewrite acts_app (handled_acts _ _ Hm) IH. }
  exists r, s', tr. split_and!; [done..|]. destruct r as [|p].
  - destruct H as (es1 & m & es2 & ts & t & -> & -> & Hh & Hf).
    rewrite acts_app (Hdone _ _ Hh) fmap_app concat_app. apply prefix_app. simpl.
    apply prefix_app_r. by apply failed_acts.
  - destruct H as (ts & -> & Hh). by apply Hdone.
Qed.

(** *** The loops *)

(** [m] returns from [s], and the calls it makes serve what they deliver. *)
Definition serves {A} (good : A → bool) (m : ST fan A) (s : fan) : Prop :=
  runs m s (λ a s', ∃ tr, trace s' = trace s ++ tr ∧ served (good a) (length (trace s)) tr).

Lemma serves_ret {A} (good : A → bool) (a : A) s : serves good (mret a) s.
Proof. apply runs_ret. exists []. rewrite app_nil_r. split; [done|]. by apply idle_served. Qed.

(** The continuation of a part that served everything. *)
Lemma serves_after {A} (good : A → bool) (m : ST fan A) s s1 tr :
  trace s1 = trace s ++ tr → served true (length (trace s)) tr → serves good m s1 →
  runs m s1 (λ a s', ∃ tr, trace s' = trace s ++ tr ∧ served (good a) (length (trace s)) tr).
Proof.
  intros E Hs Hm. eapply runs_wand; [exact Hm|]. intros a s' (t2 & E2 & H2).
  exists (tr ++ t2). rewrite E2 E -app_assoc. split; [done|]. apply served_app; [done|].
  by rewrite E length_app in H2.
Qed.

(** [m] returns from [s] without a read, an answer or a close. *)
Definition idles {A} (m : ST fan A) (s : fan) : Prop :=
  runs m s (λ _ s', ∃ tr, trace s' = trace s ++ tr ∧ Forall idle tr).

Lemma serves_idle {A B} (good : B → bool) (m : ST fan A) (k : A → ST fan B) s :
  idles m s → (∀ a s', (length (trace s) ≤ length (trace s'))%nat → serves good (k a) s') →
  serves good (m ≫= k) s.
Proof.
  intros Hm Hk. apply runs_bind. eapply runs_wand; [exact Hm|]. intros a s' (tr & E & Hi).
  apply (serves_after good _ s _ tr); [done|by apply idle_served|]. apply Hk. rewrite E length_app. lia.
Qed.

Lemma serves_call {B} (good : B → bool) c (k : Z → ST fan B) s :
  idle c → serves good (k (sys_result (length (trace s)) c)) (Fan (trace s ++ [c]) (out s)) →
  serves good (do_call c ≫= k) s.
Proof.
  intros Hc Hk. apply runs_bind. eexists _, _. split; [reflexivity|].
  apply (serves_after good _ s _ [c]); [done| |exact Hk]. apply idle_served. by repeat constructor.
Qed.

Lemma idles_ret {A} (a : A) s : idles (mret a) s.
Proof. apply runs_ret. exists []. by rewrite app_nil_r. Qed.

Lemma idles_call c s : idle c → idles (do_call c) s.
Proof. intros H. eexists _, _. split; [reflexivity|]. exists [c]. by repeat constructor. Qed.

Lemma idles_bind {A B} (m : ST fan A) (k : A → ST fan B) s :
  idles m s → (∀ a s', idles (k a) s') → idles (m ≫= k) s.
Proof.
  intros Hm Hk. apply runs_bind. eapply runs_wand; [exact Hm|]. intros a s1 (t1 & E1 & H1).
  eapply runs_wand; [apply Hk|]. intros b s2 (t2 & E2 & H2). exists (t1 ++ t2).
  rewrite E2 E1 -app_assoc. split; [done|]. by apply Forall_app.
Qed.

Lemma mark_loop_idles o fan_fd files s : idles (mark_loop o fan_fd files) s.
Proof.
  revert s. induction files as [|f files IH]; intros s; [apply idles_ret|]. cbn [mark_loop].
  apply idles_bind; [by apply idles_call|]. intros r s'. destruct (negb (r =? 0)); [apply idles_ret|apply IH].
Qed.

(** Waiting ends once no signal interrupts it. *)
Lemma select_loop_idles N fuel s :
  session N → (0 < fuel)%nat → (N < length (trace s) + fuel)%nat → idles (select_loop fuel) s.
Proof.
  intros Hses. revert s. induction fuel as [|fuel IH]; intros s Hpos Hf; [lia|]. cbn [select_loop].
  apply runs_bind. eexists _, _. split; [reflexivity|]. apply runs_bind. eexists _, _. split; [reflexivity|].
  set (s1 := Fan (trace s ++ [Select]) (out s)).
  assert (Hone : ∀ b : bool, runs (mret b) s1 (λ _ s', ∃ tr, trace s' = trace s ++ tr ∧ Forall idle tr)).
  { intros b. apply runs_ret. exists [Select]. by repeat constructor. }
  destruct (_ <? 0); [|apply Hone].
  destruct (Z.eqb_spec (sys_errno (length (trace s))) EINTR) as [E|]; [|apply Hone].
  assert (length (trace s) < N)%nat as HN.
  { destruct (le_lt_dec N (length (trace s))) as [Hle|]; [|done]. by destruct (ses_signals N Hses _ Hle). }
  eapply runs_wand; [apply IH; [lia|simpl; rewrite length_app; simpl; lia]|].
  intros b s' (tr & E' & Hi). exists (Select :: tr). rewrite E' /= -app_assoc. by split; [|constructor].
Qed.

(** A read puts the bytes it delivers at the front of the buffer. *)
Lemma do_read_spec N fan_fd buf s :
  session N → Z.of_nat (length buf) = 4096 →
  let n := length (trace s) in
  let r := sys_result n (Read fan_fd) in
  let bs := take (Z.to_nat r) (sys_bytes n) in
  ∃ buf', do_read fan_fd buf s = Some ((r, buf'), Fan (trace s ++ [Read fan_fd]) (out s)) ∧
    length buf' = length buf ∧ length bs = Z.to_nat r ∧ ∃ stale, buf' = (Some <$> bs) ++ stale.
Proof.
  intros Hses Hb n r bs.
  pose proof (ses_fits N Hses n fan_fd) as H1. pose proof (ses_bytes N Hses n fan_fd) as H2.
  assert (Hl : length bs = Z.to_nat r) by (unfold bs; rewrite length_take; lia).
  unfold do_read. fold n r bs. destruct (buf_store buf 0 (Some <$> bs)) as [buf'|] eqn:E.
  - exists buf'. pose proof (buf_store_length _ _ _ _ E). split_and!; [done..|].
    rewrite buf_store_some in E; [rewrite length_fmap; lia|]. injection E as <-. eauto.
  - rewrite buf_store_some in E; [rewrite length_fmap; lia|done].
Qed.

Abbreviation exit_ok := (λ st : Z, st =? 0).

(** The calls of a round up to the next wait: the read and the events it delivered. *)
Lemma round_served ok n fan_fd tr :
  Forall noread tr →
  (if ok then acts tr = concat (duties <$> batch n (Read fan_fd))
   else acts tr `prefix_of` concat (duties <$> batch n (Read fan_fd))) →
  served ok n (Read fan_fd :: tr).
Proof.
  intros Hn H. unfold served. cbn [delivered acts omap list_omap act].
  rewrite (noread_delivered _ _ Hn) app_nil_r. exact H.
Qed.

Lemma read_loop_serves N fuel o fan_fd buf s :
  session N → Z.of_nat (length buf) = 4096 → (0 < fuel)%nat → (N < length (trace s) + fuel)%nat →
  serves exit_ok (read_loop fuel o fan_fd buf) s.
Proof.
  intros Hses. revert buf s. induction fuel as [|fuel IH]; intros buf s Hb Hpos Hf; [lia|]. cbn [read_loop].
  destruct (do_read_spec N fan_fd buf s Hses Hb) as (buf' & E & Hb' & Hl & stale & Ebuf).
  apply runs_bind. eexists _, _. split; [exact E|]. clear E. cbv zeta iota beta in *.
  set (n := length (trace s)) in *. set (r := sys_result n (Read fan_fd)) in *.
  set (s1 := Fan (trace s ++ [Read fan_fd]) (out s)).
  assert (Hbatch : batch n (Read fan_fd) = parse (Z.to_nat r) (take (Z.to_nat r) (sys_bytes n))) by done.
  destruct (Z.ltb_spec 0 r) as [Hr|Hr].
  2:{ assert (Hnil : served true n [Read fan_fd]).
      { apply round_served; [done|]. rewrite Hbatch. by replace (Z.to_nat r) with 0%nat by lia. }
      destruct (r <? 0); apply (serves_after exit_ok _ s s1 [Read fan_fd]); try done; apply serves_ret. }
  assert (n < N)%nat as HN.
  { destruct (le_lt_dec N n) as [Hle|]; [|done]. pose proof (ses_end N Hses n fan_fd Hle). lia. }
  destruct (handle_all_acts o fan_fd (batch n (Read fan_fd)) s1) as (rd & s2 & tr & E & Et & Hn & Ha);
    [apply (ses_fds N Hses)|].
  apply runs_bind. exists rd, s2. split.
  { pose proof (event_loop_parse (Z.to_nat r) o fan_fd [] (take (Z.to_nat r) (sys_bytes n)) stale None s1) as Ev.
    rewrite Hl Z2Nat.id in Ev; [lia|]. rewrite Ebuf Hbatch in E |- *. rewrite -E. apply Ev. lia. }
  assert (Et2 : trace s2 = trace s ++ Read fan_fd :: tr) by (rewrite Et /= -app_assoc; done).
  destruct rd as [|p].
  - apply runs_ret. exists (Read fan_fd :: tr). split; [done|]. by apply round_served.
  - apply (serves_after exit_ok _ s s2 (Read fan_fd :: tr)); [done|by apply round_served|].
    assert (length (trace s) < length (trace s2))%nat as Hlen by (rewrite Et2 length_app /=; lia).
    apply serves_idle; [apply (select_loop_idles N); [done|unfold n in *; lia..]|].
    intros [] s3 Hle; [|apply serves_ret]. apply IH; [congruence|unfold n in *; lia..].
Qed.

(** The whole program. *)
Lemma main_serves_all fuel args files N s :
  session N → (N < fuel)%nat → serves exit_ok (main fuel args files) s.
Proof.
  intros Hses Hf. unfold main. apply serves_idle; [by apply idles_call|]. intros r s1 H1.
  destruct (r =? -1); [apply serves_ret|].
  destruct (parse_opts_total opts_default args) as [[o|st] ->]; [|apply serves_ret].
  case_bool_decide; [apply serves_ret|].
  apply serves_call; [done|]. set (fan_fd := sys_result _ _). set (s2 := Fan _ _).
  pose proof (ses_fd N Hses (length (trace s1)) (init_flags o) O_RDONLY_LARGEFILE) as Hfd. fold fan_fd in Hfd.
  assert (length (trace s1) ≤ length (trace s2))%nat as H2 by (simpl; rewrite length_app; lia).
  destruct (fan_fd <? 0); [apply serves_ret|].
  apply serves_idle; [apply mark_loop_idles|]. intros [] s3 H3; [|apply serves_ret]. cbn [negb].
  unfold FD_SET. apply Z.ltb_lt in Hfd. rewrite Hfd. apply serves_idle; [apply idles_ret|]. intros [] s3' H3'.
  apply serves_idle; [apply (select_loop_idles N); [done|lia..]|]. intros [] s4 H4; [|apply serves_ret].
  apply (read_loop_serves N); [done| |lia..]. rewrite length_replicate. lia.
Qed.

End proofs.

(** ** Properties *)

(** C15: the program from start to exit. For every command line and whatever the system calls
    return, as long as the descriptor of the group is below FD_SETSIZE, reads deliver no more than the
    buffer holds and only events with descriptors, and from some call on no read delivers anything and
    no wait is interrupted, [main] returns without undefined behaviour. When it exits with 0, its answers and closes are
    exactly those that the events of all its reads ask for: one answer FAN_ALLOW for each permission
    event, followed by one close of its descriptor, in the order in which the kernel delivered the events, and
    nothing else. When it exits with another status, they are an initial part of these. *)
Theorem main_serves `{Sy : FanSys} fuel args files N :
  session N → (N < fuel)%nat →
  runs (main fuel args files) (Fan [] []) (λ st s',
    if st =? 0 then acts (trace s') = concat (duties <$> delivered 0 (trace s'))
    else acts (trace s') `prefix_of` concat (duties <$> delivered 0 (trace s'))).
Proof.
  intros Hses Hf. eapply runs_wand; [by apply (main_serves_all fuel args files N (Fan [] []) Hses Hf)|].
  intros st s' (tr & -> & H). exact H.
Qed.

(** A group that delivers one permission event with the first read, and is closed after it. *)
Definition one_event : FanSys := {|
  sys_result n c := match c with Init _ _ => 3 | Read _ => if Nat.eqb n 4 then 24 else 0 | _ => 0 end;
  sys_bytes _ := raw_bytes perm_event; sys_link _ := text "/tmp/f"; sys_errno _ := 0 |}.

Lemma one_event_session : session (Sy := one_event) 5.
Proof.
  split; intros n; simpl sys_result; simpl sys_errno.
  - intros _ _. done.
  - intros _. destruct (Nat.eqb n 4); lia.
  - intros _. destruct (Nat.eqb n 4); vm_compute; congruence.
  - intros f. unfold batch. simpl sys_result. destruct (Nat.eqb n 4); [|constructor].
    replace (parse _ _) with [re_meta perm_event] by by vm_compute. by repeat constructor.
  - intros _ Hn. destruct (Nat.eqb_spec n 4); lia.
  - done.
Qed.

Lemma main_serves_witness :
  ∃ s', main (Sy := one_event) 6 [] [text "/tmp"] (Fan [] []) = Some (0, s') ∧
    acts (trace s') = [inl (5, FAN_ALLOW); inr 5] ∧
    acts (trace s') = concat (duties <$> delivered (Sy := one_event) 0 (trace s')).
Proof.
  destruct (main_serves (Sy := one_event) 6 [] [text "/tmp"] 5 one_event_session ltac:(lia)) as (st & s' & E & H).
  pose proof E as E'. vm_compute in E'. injection E' as <- Es. exists s'. split; [exact E|].
  split; [rewrite -Es; reflexivity|exact H].
Defined.

(** Without the bound on the descriptor of the group the program is undefined: once the files are marked, FD_SET
    writes behind the set. *)
Theorem main_fd_set_undefined `{Sy : FanSys} fuel args files o :
  parse_opts opts_default args = Some (inl o) → files ≠ [] → sys_result 0 Sigaction ≠ -1 →
  FD_SETSIZE <= sys_result 1 (Init (init_flags o) O_RDONLY_LARGEFILE) →
  (∀ n f fl m d p, sys_result n (Mark f fl m d p) = 0) →
  main fuel args files (Fan [] []) = None.
Proof.
  intros Ho Hf Hs Hfd Hm. unfold main. apply Z.eqb_neq in Hs.
  unfold mbind at 1, ST_bind at 1, do_call at 1. cbn [length trace]. rewrite Hs Ho bool_decide_false //.
  unfold mbind at 1, ST_bind at 1, do_call at 1. cbn [length trace app].
  set (fan_fd := sys_result 1 _) in *. unfold FD_SETSIZE in Hfd.
  destruct (Z.ltb_spec fan_fd 0) as [?|_]; [lia|].
  assert (∀ fs s, ∃ s', mark_loop o fan_fd fs s = Some (true, s')) as Hmark.
  { induction fs as [|f fs IH]; intros s; [by eexists|]. cbn [mark_loop]. unfold mark_object, mbind, ST_bind, do_call.
    rewrite Hm. apply IH. }
  unfold mbind at 1, ST_bind at 1. destruct (Hmark files) with (s := Fan [Sigaction; Init (init_flags o) O_RDONLY_LARGEFILE] []) as [s' E].
  cbn [out]. rewrite E. cbn [negb]. unfold FD_SET, FD_SETSIZE. destruct (Z.ltb_spec fan_fd 1024) as [?|_]; [lia|done].
Qed.
