(* ===== verification/FanArgs.v ===== *)
(** * The command line of the fanotify example

    [Fanotify] takes the results of getopt as they come; here they are computed from the words of
    the command line. [getopt] is glibc's, in its default mode: options may be grouped, an argument
    is the rest of its word or the next word, the word -- ends the options, and the other words are
    moved behind the options in their order. An unknown option and a missing argument
    give the character ?; the message getopt itself prints about them is not part of the model, and
    POSIXLY_CORRECT is not set. *)

From Stdlib Require Import ZArith Lia ssreflect.
From stdpp Require Import base list numbers strings.
From S2P Require Import Prelude CString Bytes Fanotify.

Open Scope Z_scope.

(** ** getopt *)

(** Whether an option character is in the string, and whether it takes an argument. *)
Fixpoint opt_kind (optstring : list Z) (c : Z) : option bool :=
  match optstring with
  | [] => None
  | d :: optstring =>
      if bool_decide (c = d)
      then Some (match optstring with 58 :: _ => true | _ => false end)
      else opt_kind optstring c
  end.

Definition kind (optstring : list Z) (c : Z) : option bool :=
  if bool_decide (c = 58 ∨ c = 59) then None else opt_kind optstring c.

Definition QUESTION : Z := 63.

(** The options of one word without its dash, and the option whose argument is the next word. *)
Fixpoint group (optstring : list Z) (cs : list Z) : list (Z * list Z) * option Z :=
  match cs with
  | [] => ([], None)
  | c :: cs =>
      match kind optstring c with
      | Some false => let '(os, p) := group optstring cs in ((c, []) :: os, p)
      | Some true => match cs with [] => ([], Some c) | _ => ([(c, cs)], None) end
      | None => let '(os, p) := group optstring cs in ((QUESTION, []) :: os, p)
      end
  end.

(** All options with their arguments, and the other words. *)
Fixpoint getopt (optstring : list Z) (args : list (list Z)) : list (Z * list Z) * list (list Z) :=
  match args with
  | [] => ([], [])
  | w :: args =>
      if bool_decide (w = text "--") then ([], args)
      else
        match w with
        | 45 :: (_ :: _) as cs =>
            let '(os, p) := group optstring cs in
            match p, args with
            | None, _ => let '(os', files) := getopt optstring args in (os ++ os', files)
            | Some c, v :: args => let '(os', files) := getopt optstring args in (os ++ (c, v) :: os', files)
            | Some _, [] => (os ++ [(QUESTION, [])], [])
            end
        | _ => let '(os, files) := getopt optstring args in (os, w :: files)
        end
  end.

(** ** The program *)

Definition FANOTIFY_ARGUMENTS : list Z := text "cdfhmnp".

Definition OPTIONS : list Z := text "o:s:" ++ FANOTIFY_ARGUMENTS.

(** What [synopsis] prints: whether to stderr, the text, and the exit status. *)
Record usage := Usage { to_stderr : bool; usage_text : list Z; usage_status : Z }.

Definition synopsis (progname : list Z) (status : Z) : usage :=
  Usage (negb (status =? 0))
    (text "USAGE: " ++ progname ++ text " [-" ++ FANOTIFY_ARGUMENTS ++ text "] " ++
     text "[-o {open,close,access,modify,open_perm,access_perm}] " ++
     text "file ...
" ++
     text "-c: learn about events on children of a directory (not decendants)
" ++
     text "-d: send events which happen to directories
" ++
     text "-f: set premptive ignores (go faster)
" ++
     text "-h: this help screen
" ++
     text "-m: place mark on the whole mount point, not just the inode
" ++
     text "-n: do not ignore repeated permission checks
" ++
     text "-p: check permissions, not just notification
" ++
     text "-s N: sleep N seconds before replying to perm events
") status.

(** The part of [main] that reads the command line: the options and the files, or the usage
    message. *)
Definition read_arguments (progname : list Z) (args : list (list Z)) : option ((opts * list (list Z)) + usage) :=
  let '(os, files) := getopt OPTIONS args in
  match parse_opts opts_default os with
  | None => None
  | Some (inr status) => Some (inr (synopsis progname status))
  | Some (inl o) =>
      if bool_decide (files = []) then Some (inr (synopsis progname 1)) else Some (inl (o, files))
  end.

(** [main] on the words of the command line. *)
Definition command `{Sy : FanSys} (fuel : nat) (args : list (list Z)) : ST fan Z :=
  let '(os, files) := getopt OPTIONS args in main fuel os files.

(** ** Command lines *)

Section lines.
Context (optstring : list Z).

(** The elements of a command line: flags in a group, possibly with an option at the end that has its
    argument in the same word or in the next one, and other words. *)
Inductive element :=
  | Flags (cs : list Z)
  | Attached (cs : list Z) (c : Z) (arg : list Z)
  | Detached (cs : list Z) (c : Z) (arg : list Z)
  | Word (w : list Z).

Definition words (e : element) : list (list Z) :=
  match e with
  | Flags cs => [45 :: cs]
  | Attached cs c arg => [45 :: cs ++ c :: arg]
  | Detached cs c arg => [45 :: cs ++ [c]; arg]
  | Word w => [w]
  end.

Definition options_of (e : element) : list (Z * list Z) :=
  match e with
  | Flags cs => (λ c, (c, [])) <$> cs
  | Attached cs c arg | Detached cs c arg => ((λ c, (c, [])) <$> cs) ++ [(c, arg)]
  | Word _ => []
  end.

Definition files_of (e : element) : list (list Z) := match e with Word w => [w] | _ => [] end.

Definition flag (c : Z) : Prop := kind optstring c = Some false.
Definition valued (c : Z) : Prop := kind optstring c = Some true.

(** A word that is not an option. *)
Definition plain (w : list Z) : Prop := match w with 45 :: _ :: _ => False | _ => True end.

Definition element_ok (e : element) : Prop :=
  match e with
  | Flags cs => cs ≠ [] ∧ Forall flag cs
  | Attached cs c arg => Forall flag cs ∧ valued c ∧ arg ≠ []
  | Detached cs c arg => Forall flag cs ∧ valued c
  | Word w => plain w
  end.

(** A command line: elements, and possibly -- with words behind it. *)
Definition line (es : list element) (rest : option (list (list Z))) : list (list Z) :=
  concat (words <$> es) ++ match rest with Some fs => text "--" :: fs | None => [] end.

Definition line_options (es : list element) : list (Z * list Z) := concat (options_of <$> es).

Definition line_files (es : list element) (rest : option (list (list Z))) : list (list Z) :=
  concat (files_of <$> es) ++ default [] rest.

(** *** Parsing what was written *)

Hypothesis no_dash : kind optstring 45 = None.

Lemma group_flags cs ds :
  Forall flag cs →
  group optstring (cs ++ ds) =
    (((λ c, (c, [])) <$> cs) ++ (group optstring ds).1, (group optstring ds).2).
Proof.
  induction 1 as [|c cs Hc _ IH]; simpl; [by destruct (group optstring ds)|].
  unfold flag in Hc. rewrite Hc IH. done.
Qed.

Lemma group_attached cs c arg :
  Forall flag cs → valued c → arg ≠ [] →
  group optstring (cs ++ c :: arg) = (((λ c, (c, [])) <$> cs) ++ [(c, arg)], None).
Proof. intros H Hc Ha. rewrite group_flags //. simpl. unfold valued in Hc. rewrite Hc. by destruct arg. Qed.

Lemma group_separate cs c :
  Forall flag cs → valued c → group optstring (cs ++ [c]) = ((λ c, (c, [])) <$> cs, Some c).
Proof. intros H Hc. rewrite group_flags //. simpl. unfold valued in Hc. by rewrite Hc app_nil_r. Qed.

(** A word with known options is not --. *)
Lemma not_dashes cs : cs ≠ [] → (∃ c, head cs = Some c ∧ is_Some (kind optstring c)) → 45 :: cs ≠ text "--".
Proof.
  intros _ (c & Hc & [b Hk]) E. change (text "--") with [45; 45] in E. injection E as ->. injection Hc as <-. congruence.
Qed.

Lemma getopt_dash cs args :
  cs ≠ [] → 45 :: cs ≠ text "--" →
  getopt optstring ((45 :: cs) :: args) =
    let '(os, p) := group optstring cs in
    match p, args with
    | None, _ => let '(os', files) := getopt optstring args in (os ++ os', files)
    | Some c, v :: args => let '(os', files) := getopt optstring args in (os ++ (c, v) :: os', files)
    | Some _, [] => (os ++ [(QUESTION, [])], [])
    end.
Proof. intros H Hne. destruct cs as [|c cs]; [done|]. cbn [getopt]. by rewrite bool_decide_false. Qed.

Lemma getopt_group cs args :
  (∃ c, head cs = Some c ∧ is_Some (kind optstring c)) →
  getopt optstring ((45 :: cs) :: args) =
    let '(os, p) := group optstring cs in
    match p, args with
    | None, _ => let '(os', files) := getopt optstring args in (os ++ os', files)
    | Some c, v :: args => let '(os', files) := getopt optstring args in (os ++ (c, v) :: os', files)
    | Some _, [] => (os ++ [(QUESTION, [])], [])
    end.
Proof.
  intros H. assert (cs ≠ []) as Hc by (intros ->; by destruct H as (? & ? & _)).
  apply getopt_dash; [done|by apply not_dashes].
Qed.

Lemma head_known cs c rest :
  Forall flag cs → is_Some (kind optstring c) → ∃ d, head (cs ++ c :: rest) = Some d ∧ is_Some (kind optstring d).
Proof. intros [|d cs' Hd _] Hc; [by exists c|]. exists d. split; [done|]. by eexists. Qed.

Lemma getopt_word w args :
  w ≠ text "--" → plain w →
  getopt optstring (w :: args) = ((getopt optstring args).1, w :: (getopt optstring args).2).
Proof.
  intros Hd He. cbn [getopt]. rewrite bool_decide_false //. destruct (getopt optstring args). simpl in He.
  by destruct w as [|[|p|] [|? ?]]; try done; repeat (destruct p as [p|p|]; try done).
Qed.

Lemma getopt_line es rest :
  Forall element_ok es → getopt optstring (line es rest) = (line_options es, line_files es rest).
Proof.
  unfold line, line_options, line_files. induction 1 as [|e es He _ IH].
  { destruct rest as [fs|]; [|done]. done. }
  rewrite !fmap_cons. cbn [concat]. rewrite -!app_assoc.
  set (tl := concat (words <$> es) ++ _) in *.
  destruct e as [cs|cs c arg|cs c arg|w]; cbn [words options_of files_of app].
  - destruct He as [Hne Hcs]. destruct cs as [|c cs]; [done|]. rewrite getopt_group.
    { exists c. split; [done|]. apply Forall_cons in Hcs as [Hc _]. by eexists. }
    rewrite -(app_nil_r (c :: cs)) group_flags // IH. simpl. by rewrite !app_nil_r.
  - destruct He as (Hcs & Hc & Ha). rewrite getopt_group; [by apply head_known; [|eexists]|].
    by rewrite group_attached // IH.
  - destruct He as (Hcs & Hc). rewrite getopt_group; [by apply head_known; [|eexists]|].
    rewrite group_separate // IH. by rewrite -app_assoc.
  - rewrite getopt_word //; [by intros ->|]. by rewrite IH.
Qed.

(** *** What is parsed was written *)

(** The forms of a word whose options are all known. *)
Lemma group_known cs :
  QUESTION ∉ (group optstring cs).1.*1 →
  (Forall flag cs ∧ (group optstring cs).2 = None) ∨
  ∃ fs c arg, cs = fs ++ c :: arg ∧ Forall flag fs ∧ valued c ∧
              (group optstring cs).2 = if bool_decide (arg = []) then Some c else None.
Proof.
  induction cs as [|c cs IH]; intros H; [by left|]. simpl in *.
  destruct (kind optstring c) as [[|]|] eqn:Hk.
  - right. exists [], c, cs. split_and!; [done..|]. by destruct cs.
  - destruct (group optstring cs) as [os p]. simpl in *. apply not_elem_of_cons in H as [_ H].
    destruct (IH H) as [[Hf Hp]|(fs & d & arg & -> & Hf & Hd & Hp)].
    + left. split; [by constructor|done].
    + right. exists (c :: fs), d, arg. split_and!; [done|by constructor|done..].
  - destruct (group optstring cs) as [os p]. simpl in H. by apply not_elem_of_cons in H as [? _].
Qed.

Lemma line_cons e es rest : line (e :: es) rest = words e ++ line es rest.
Proof. unfold line. rewrite fmap_cons. cbn [concat]. by rewrite -app_assoc. Qed.

(** The argument words of a line without unknown options. *)
Definition written (args : list (list Z)) : Prop := ∃ es rest, Forall element_ok es ∧ args = line es rest.

Lemma written_cons e args : element_ok e → written args → written (words e ++ args).
Proof. intros He (es & rest & Hes & ->). exists (e :: es), rest. split; [by constructor|]. by rewrite line_cons. Qed.

Lemma plain_or_dash w : plain w ∨ ∃ cs, cs ≠ [] ∧ w = 45 :: cs.
Proof.
  destruct w as [|c [|d w]]; [by left..|simpl; by repeat (case_match; try by left)|].
  destruct (decide (c = 45)) as [->|Hc]; [right; by exists (d :: w)|left].
  simpl. by repeat case_match.
Qed.

Lemma getopt_written args : QUESTION ∉ (getopt optstring args).1.*1 → written args.
Proof.
  induction args as [args IH] using (induction_ltof1 _ (@length (list Z))). unfold ltof in IH.
  destruct args as [|w args]; [intros _; by exists [], None|].
  destruct (decide (w = text "--")) as [->|Hd]; [intros _; by exists [], (Some args)|].
  destruct (plain_or_dash w) as [Hp|(cs & Hne & ->)]; intros H.
  { rewrite getopt_word // in H. apply (written_cons (Word w) args); [done|]. apply IH; [simpl; lia|done]. }
  rewrite getopt_dash // in H.
  assert (QUESTION ∉ (group optstring cs).1.*1) as Hg.
  { intros Hq. apply H. destruct (group optstring cs) as [os [c|]];
      [destruct args as [|v args]; [|destruct (getopt optstring args)]|destruct (getopt optstring args)]; simpl; rewrite fmap_app elem_of_app; auto. }
  destruct (group_known cs Hg) as [[Hf Hp]|(fs & c & arg & -> & Hf & Hc & Hp)];
    destruct (group optstring _) as [os p]; simpl in Hp; subst p.
  - apply (written_cons (Flags cs) args); [done|]. apply IH; [simpl; lia|].
    destruct (getopt optstring args). intros Hq. apply H. simpl. rewrite fmap_app elem_of_app. auto.
  - case_bool_decide as Ha.
    + subst arg. destruct args as [|v args].
      { exfalso. apply H. simpl. rewrite fmap_app elem_of_app. right. by left. }
      apply (written_cons (Detached fs c v) args); [done|]. apply IH; [simpl; lia|].
      destruct (getopt optstring args). intros Hq. apply H. simpl. rewrite fmap_app elem_of_app. right. by right.
    + apply (written_cons (Attached fs c arg) args); [done|]. apply IH; [simpl; lia|].
      destruct (getopt optstring args). intros Hq. apply H. simpl. rewrite fmap_app elem_of_app. auto.
Qed.
End lines.

(** ** The arguments of the program *)

Lemma no_dash_option : kind OPTIONS 45 = None.
Proof. reflexivity. Qed.

(** *** What the usage text promises *)

(** The flags and the options with an argument. *)
Definition usage_flag (c : Z) : Prop := c ∈ [99; 100; 102; 104; 109; 110; 112].
Definition usage_valued (c : Z) : Prop := c ∈ [111; 115].

Definition usage_ok (e : element) : Prop :=
  match e with
  | Flags cs => cs ≠ [] ∧ Forall usage_flag cs
  | Attached cs c arg => Forall usage_flag cs ∧ usage_valued c ∧ arg ≠ []
  | Detached cs c arg => Forall usage_flag cs ∧ usage_valued c
  | Word w => plain w
  end.

(** The names of events and their bits. *)
Definition event_names : list (list Z * Z) :=
  [(text "open", 0x20); (text "close", 0x18); (text "access", 0x1); (text "modify", 0x2);
   (text "open_perm", 0x10000); (text "access_perm", 0x20000)].

(** The argument of -o is a list of names separated by commas, with the bits [bits]. *)
Definition event_list (arg : list Z) (bits : list Z) : Prop :=
  ∃ ws, words_of 44 arg ws ∧ Forall2 (λ w b, (w, b) ∈ event_names) ws bits.

(** An option that does not end the program. *)
Definition accepted (a : Z * list Z) : Prop :=
  a.1 ∈ [99; 100; 102; 109; 110; 112; 115] ∨ a.1 = 111 ∧ ∃ bits, event_list a.2 bits.

(** The mask of the options: that of the last -o, or the default, with directories if -d follows. *)
Definition mask_meant (os : list (Z * list Z)) (mask : Z) : Prop :=
  ∃ m post,
    (os = post ∧ m = 0x3B ∨
     ∃ pre arg bits, os = pre ++ (111, arg) :: post ∧ event_list arg bits ∧ m = foldr Z.lor 0 bits) ∧
    111 ∉ post.*1 ∧ mask = if bool_decide (100 ∈ post.*1) then Z.lor m 0x40000000 else m.

(** What the options together mean. Of -f and -n, and of several -s, the last one counts. *)
Record means (os : list (Z * list Z)) (o : opts) : Prop := {
  me_child : opt_child o = bool_decide (99 ∈ os.*1);
  me_mount : opt_on_mount o = bool_decide (109 ∈ os.*1);
  me_perms : opt_add_perms o = bool_decide (112 ∈ os.*1);
  me_fast : opt_fast o = bool_decide (last (filter (.∈ [102; 110]) os.*1) = Some 102);
  me_ignore : opt_ignore_perm o = bool_decide (last (filter (.∈ [102; 110]) os.*1) ≠ Some 110);
  me_sleep : opt_sleep o = match last (filter (λ a, a.1 = 115) os) with Some a => atoi a.2 | None => 0 end;
  me_mask : mask_meant os (fan_mask o) }.

(** *** Events of -o *)

Lemma mask_word_name w b : mask_word w = Some b ↔ (w, b) ∈ event_names.
Proof.
  unfold mask_word, event_names. rewrite !elem_of_cons elem_of_nil. split.
  - intros H. repeat case_bool_decide; simplify_eq; auto 10.
  - intros H. repeat (destruct H as [[= -> ->]|H]; [reflexivity|]). done.
Qed.

Lemma mask_loop_words ws fuel m arg :
  words_of 44 arg ws → (length arg < fuel)%nat →
  mask_loop fuel m arg = Some (match mapM mask_word ws with Some bits => inl (fold_left Z.lor bits m) | None => inr 1 end).
Proof.
  revert fuel m arg. induction ws as [|w ws IH]; intros [|fuel] m arg Hw Hf; try lia; apply strtok_words in Hw; simpl.
  - by rewrite Hw.
  - destruct Hw as (rest & -> & Hl & Hw). destruct (mask_word w) as [b|]; [|done]. simpl.
    rewrite IH //; [lia|]. by destruct (mapM mask_word ws).
Qed.

Lemma fold_lor bits m : fold_left Z.lor bits m = Z.lor (foldr Z.lor 0 bits) m.
Proof.
  revert m. induction bits as [|b bits IH]; intros m; [done|]. cbn [fold_left foldr].
  rewrite IH (Z.lor_comm m b) Z.lor_assoc (Z.lor_comm _ b) //.
Qed.

Lemma event_list_words arg ws bits :
  words_of 44 arg ws → event_list arg bits ↔ mapM mask_word ws = Some bits.
Proof.
  intros Hw. rewrite mapM_Some. split.
  - intros (ws' & Hw' & H). rewrite -(words_unique _ _ _ _ Hw' Hw). eapply Forall2_impl; [exact H|]. intros. by apply mask_word_name.
  - intros H. exists ws. split; [done|]. eapply Forall2_impl; [exact H|]. intros. by apply mask_word_name.
Qed.

(** The mask of an argument of -o, or the status for a name that is unknown. *)
Lemma mask_loop_events arg :
  (∃ bits, event_list arg bits ∧ mask_loop (S (length arg)) 0 arg = Some (inl (foldr Z.lor 0 bits))) ∨
  (¬ ∃ bits, event_list arg bits) ∧ mask_loop (S (length arg)) 0 arg = Some (inr 1).
Proof.
  destruct (words_exist 44 arg) as [ws Hw]. rewrite (mask_loop_words ws) //; [lia|].
  destruct (mapM mask_word ws) as [bits|] eqn:E; [left|right].
  - exists bits. split; [by eapply event_list_words|]. by rewrite fold_lor Z.lor_0_r.
  - split; [|done]. intros [bits H]. rewrite (event_list_words _ ws) // in H. congruence.
Qed.

(** *** One option *)

Lemma parse_opt_result o a :
  (accepted a ∧ ∃ o', parse_opt o a = Some (inl o')) ∨
  (¬ accepted a ∧ parse_opt o a = Some (inr (if a.1 =? 104 then 0 else 1))).
Proof.
  destruct a as [c arg]. unfold accepted, parse_opt. cbn [fst snd].
  destruct (Z.eqb_spec c 111) as [->|Ho].
  { destruct (mask_loop_events arg) as [(bits & Hb & ->)|(Hb & ->)]; [left|right].
    - split; [right; eauto|eauto].
    - split; [|done]. intros [H|[_ H]]; [|by apply Hb]. repeat (apply elem_of_cons in H as [?|H]; [done|]). by apply elem_of_nil in H. }
  rewrite !elem_of_cons elem_of_nil.
  repeat (case_match; [left; split; [left; lia|eauto]|]); right; repeat match goal with H : (_ =? _) = false |- _ => apply Z.eqb_neq in H end.
  all: split; [lia|]; by repeat case_match.
Qed.
(** *** All options *)

(** The loop accepts all options, or stops at the first one that is not accepted. *)
Lemma parse_opts_result o os :
  (Forall accepted os ∧ ∃ o', parse_opts o os = Some (inl o')) ∨
  (∃ os1 a os2, os = os1 ++ a :: os2 ∧ Forall accepted os1 ∧ ¬ accepted a ∧
    parse_opts o os = Some (inr (if a.1 =? 104 then 0 else 1))).
Proof.
  revert o. induction os as [|a os IH]; intros o; [left; eauto|]. cbn [parse_opts].
  destruct (parse_opt_result o a) as [[Ha [o1 ->]]|[Ha ->]].
  - destruct (IH o1) as [[H [o' E]]|(os1 & b & os2 & -> & H & Hb & E)]; rewrite E; [left; eauto|right].
    exists (a :: os1), b, os2. split_and!; [done|by constructor|done..].
  - right. exists [], a, os. by split_and!.
Qed.

Lemma parse_opts_snoc o os a o' :
  parse_opts o (os ++ [a]) = Some (inl o') → ∃ o1, parse_opts o os = Some (inl o1) ∧ parse_opt o1 a = Some (inl o').
Proof.
  intros E. destruct (parse_opts_total o os) as [[o1|st] E1].
  - exists o1. split; [done|]. rewrite (parse_opts_app _ _ _ _ E1) in E. cbn [parse_opts] in E.
    by destruct (parse_opt o1 a) as [[?|?]|].
  - exfalso. clear -E E1. revert o E E1. induction os as [|b os IH]; intros o E E1; [done|]. cbn [app parse_opts] in *.
    destruct (parse_opt o b) as [[o2|]|]; [by eapply IH|done..].
Qed.

Lemma last_filter_snoc {A} (P : A → Prop) `{∀ x, Decision (P x)} xs x :
  last (filter P (xs ++ [x])) = if bool_decide (P x) then Some x else last (filter P xs).
Proof.
  rewrite filter_app. case_bool_decide.
  - by rewrite filter_cons_True // filter_nil last_snoc.
  - by rewrite filter_cons_False // filter_nil app_nil_r.
Qed.

(** One more option. *)
Lemma codes_snoc {A} (os : list (Z * A)) c arg x : x ∈ (os ++ [(c, arg)]).*1 ↔ x ∈ os.*1 ∨ x = c.
Proof. by rewrite fmap_app elem_of_app /= list_elem_of_singleton. Qed.

Lemma given_snoc {A} (os : list (Z * A)) c arg x :
  bool_decide (x ∈ (os ++ [(c, arg)]).*1) = bool_decide (x ∈ os.*1) || (x =? c).
Proof.
  destruct (Z.eqb_spec x c) as [->|Hx]; [rewrite orb_true_r|rewrite orb_false_r].
  - apply bool_decide_eq_true. apply codes_snoc. by right.
  - apply bool_decide_ext. rewrite codes_snoc. naive_solver.
Qed.

Lemma mask_meant_snoc os c arg m :
  mask_meant os m → c ≠ 111 → mask_meant (os ++ [(c, arg)]) (if c =? 100 then Z.lor m 0x40000000 else m).
Proof.
  intros (m0 & post & Hos & Hn & ->) Hc. exists m0, (post ++ [(c, arg)]). split_and!.
  - destruct Hos as [[-> ->]|(pre & arg' & bits & -> & Hb & ->)]; [by left|right].
    exists pre, arg', bits. by rewrite -app_assoc.
  - rewrite codes_snoc. naive_solver.
  - rewrite given_snoc (Z.eqb_sym 100). case_bool_decide; simpl; destruct (c =? 100); try done.
    by rewrite -Z.lor_assoc Z.lor_diag.
Qed.

Lemma parse_opt_means os o a o' : means os o → parse_opt o a = Some (inl o') → means (os ++ [a]) o'.
Proof.
  intros [H1 H2 H3 H4 H5 H6 H7] E. destruct a as [c arg].
  pose proof (given_snoc os c arg) as Hg. pose proof (mask_meant_snoc os c arg _ H7) as Hm.
  pose proof (last_filter_snoc (.∈ [102; 110]) os.*1 c) as Hfn.
  pose proof (last_filter_snoc (λ a, a.1 = 115) os (c, arg)) as Hs. cbn [fst] in Hs.
  assert ((os ++ [(c, arg)]).*1 = os.*1 ++ [c]) as Ec by by rewrite fmap_app.
  unfold parse_opt in E. destruct (Z.eqb_spec c 111) as [->|Hc].
  { destruct (mask_loop_events arg) as [(bits & Hb & El)|(Hb & El)]; rewrite El in E; [|done]. injection E as <-.
    split; cbn; [rewrite Hg H1 orb_false_r //|rewrite Hg H2 orb_false_r //|rewrite Hg H3 orb_false_r //
      |rewrite Ec Hfn //|rewrite Ec Hfn //|rewrite Hs //|].
    exists (foldr Z.lor 0 bits), []. split_and!; [right; by exists os, arg, bits|apply not_elem_of_nil|done]. }
  specialize (Hm Hc). rewrite -Ec in Hfn.
  repeat match type of E with (if c =? ?k then _ else _) = _ => destruct (Z.eqb_spec c k) as [->|?] end;
    simplify_eq; (split; cbn; rewrite ?Hg ?Hfn ?Hs ?H1 ?H2 ?H3 ?H4 ?H5 ?H6 ?orb_true_r ?orb_false_r; done).
Qed.

Lemma parse_opts_means os o : parse_opts opts_default os = Some (inl o) → means os o.
Proof.
  revert o. induction os as [|a os IH] using rev_ind; intros o E.
  - injection E as <-. split; try done. exists 0x3B, []. split_and!; [by left|apply not_elem_of_nil|done].
  - destruct (parse_opts_snoc _ _ _ _ E) as (o1 & E1 & E2). eapply parse_opt_means; [by apply IH|done].
Qed.

(** *** The command line *)

Lemma OPTIONS_kind c :
  kind OPTIONS c = if bool_decide (c ∈ [111; 115]) then Some true
                   else if bool_decide (c ∈ [99; 100; 102; 104; 109; 110; 112]) then Some false else None.
Proof.
  change OPTIONS with [111; 58; 115; 58; 99; 100; 102; 104; 109; 110; 112]. unfold kind.
  rewrite (bool_decide_ext (c ∈ [111; 115]) (c = 111 ∨ c = 115)); [by rewrite !elem_of_cons elem_of_nil; tauto|].
  rewrite (bool_decide_ext (c ∈ [99; 100; 102; 104; 109; 110; 112])
    (c = 99 ∨ c = 100 ∨ c = 102 ∨ c = 104 ∨ c = 109 ∨ c = 110 ∨ c = 112)); [by rewrite !elem_of_cons elem_of_nil; tauto|].
  cbn [opt_kind]. repeat case_bool_decide; try done; lia.
Qed.

Lemma usage_ok_element e : usage_ok e ↔ element_ok OPTIONS e.
Proof.
  assert (∀ c, usage_flag c ↔ flag OPTIONS c) as Hf.
  { intros c. unfold flag, usage_flag. rewrite OPTIONS_kind. case_bool_decide as H1; [|by case_bool_decide].
    split; [|done]. rewrite !elem_of_cons !elem_of_nil in H1 |- *. lia. }
  assert (∀ c, usage_valued c ↔ valued OPTIONS c) as Hv.
  { intros c. unfold valued, usage_valued. rewrite OPTIONS_kind. repeat case_bool_decide; naive_solver. }
  assert (∀ cs, Forall usage_flag cs ↔ Forall (flag OPTIONS) cs) as Hfs by (intros cs; apply Forall_iff; apply Hf).
  destruct e; simpl; rewrite ?Hfs ?Hv; done.
Qed.

(** What the program does with the options [os] and the other words [files]. *)
Definition decides (os : list (Z * list Z)) (files : list (list Z)) (r : option ((opts * list (list Z)) + usage)) : Prop :=
  match r with
  | None => False
  | Some (inl (o, fs)) => Forall accepted os ∧ means os o ∧ fs = files ∧ files ≠ []
  | Some (inr u) =>
      usage_status u = 0 ∧ to_stderr u = false ∧
        (∃ os1 arg os2, os = os1 ++ (104, arg) :: os2 ∧ Forall accepted os1) ∨
      usage_status u = 1 ∧ to_stderr u = true ∧
        (Forall accepted os ∧ files = [] ∨
         ∃ os1 a os2, os = os1 ++ a :: os2 ∧ Forall accepted os1 ∧ ¬ accepted a ∧ a.1 ≠ 104)
  end.

Lemma read_arguments_decides progname args os files :
  getopt OPTIONS args = (os, files) → decides os files (read_arguments progname args).
Proof.
  intros Eg. unfold read_arguments. rewrite Eg.
  destruct (parse_opts_result opts_default os) as [[Hos [o E]]|(os1 & [c arg] & os2 & -> & Hos & Ha & E)]; rewrite E.
  - case_bool_decide as Hf; simpl; [right; by auto|]. by split_and!; [|apply parse_opts_means|..].
  - simpl. destruct (Z.eqb_spec c 104) as [->|Hc]; simpl; [left|right]; (split_and!; [done..|]).
    + by exists os1, arg, os2.
    + right. by exists os1, (c, arg), os2.
Qed.

Lemma question_refused progname args :
  QUESTION ∈ (getopt OPTIONS args).1.*1 → ∃ u, read_arguments progname args = Some (inr u).
Proof.
  intros Hq. destruct (getopt OPTIONS args) as [os files] eqn:Eg.
  pose proof (read_arguments_decides progname args os files Eg) as H.
  destruct (read_arguments progname args) as [[[o fs]|u]|]; [|eauto|done]. exfalso. destruct H as (H & _).
  apply list_elem_of_fmap in Hq as ([c arg] & Ec & Hin). simpl in Ec. subst c. rewrite Forall_forall in H.
  destruct (H _ Hin) as [H'|[H' _]]; [|done]. simpl in H'.
  repeat (apply elem_of_cons in H' as [?|H']; [done|]). by apply elem_of_nil in H'.
Qed.

(** C34: how the fanotify example reads its command line. For every line written as its usage text says (groups of
    the flags c, d, f, h, m, n and p, the options o and s with their argument in the same or in the next word,
    file names, with or without -- and words behind it), with its options in order: if all are
    accepted, which for -o means a list of the six event names, and there is a file, the program
    goes on with these files and with settings that mean the options (-c, -m and -p are set if given, of
    -f and -n and of several -s the last counts, the mask is the union of the last -o, or the default, with
    directories if -d follows it). If the first option that is not accepted is -h, the usage goes to stdout with
    status 0; if it is another or there is no file, to stderr with status 1. Every other line
    is refused with the usage text. After the usage text the program has made no call but
    sigaction. *)
Theorem command_line_read `{Sy : FanSys} (progname : list Z) fuel s :
  (∀ es rest, Forall usage_ok es →
    decides (line_options es) (line_files es rest) (read_arguments progname (line es rest))) ∧
  (∀ args, (¬ ∃ es rest, Forall usage_ok es ∧ args = line es rest) →
    ∃ u, read_arguments progname args = Some (inr u) ∧
      decides (getopt OPTIONS args).1 (getopt OPTIONS args).2 (Some (inr u))) ∧
  (∀ args u, read_arguments progname args = Some (inr u) → sys_result (length (trace s)) Sigaction ≠ -1 →
    command fuel args s = Some (usage_status u, Fan (trace s ++ [Sigaction]) (out s))).
Proof.
  split_and!.
  - intros es rest Hes. apply read_arguments_decides, (getopt_line OPTIONS no_dash_option).
    eapply Forall_impl; [exact Hes|]. intros e. apply usage_ok_element.
  - intros args Hno. destruct (decide (QUESTION ∈ (getopt OPTIONS args).1.*1)) as [Hq|Hq].
    + destruct (question_refused progname args Hq) as [u Eu]. exists u. split; [done|]. rewrite -Eu.
      apply read_arguments_decides. by destruct (getopt OPTIONS args).
    + exfalso. destruct (getopt_written OPTIONS args Hq) as (es & rest & Hes & ->). apply Hno. exists es, rest.
      split; [|done]. eapply Forall_impl; [exact Hes|]. intros e. apply usage_ok_element.
  - intros args u E Hr. unfold read_arguments in E. unfold command. destruct (getopt OPTIONS args) as [os files].
    unfold main, do_call, mbind, ST_bind. apply Z.eqb_neq in Hr. rewrite Hr.
    destruct (parse_opts opts_default os) as [[o|st]|]; [|by simplify_eq|done]. case_bool_decide; by simplify_eq.
Qed.

(** -pm -o open,close /tmp -s5 -- -x *)
Definition sample_line : list element :=
  [Flags (text "pm"); Detached [] 111 (text "open,close"); Word (text "/tmp"); Attached [] 115 (text "5")].

Lemma command_line_read_witness :
  line sample_line (Some [text "-x"]) =
    [text "-pm"; text "-o"; text "open,close"; text "/tmp"; text "-s5"; text "--"; text "-x"] ∧
  ∃ o, read_arguments (text "fanotify") (line sample_line (Some [text "-x"])) = Some (inl (o, [text "/tmp"; text "-x"])) ∧
    means [(112, []); (109, []); (111, text "open,close"); (115, text "5")] o ∧
    o = Opts 0x38 false true true false true 5.
Proof.
  split; [reflexivity|].
  pose proof (proj1 (command_line_read (Sy := kind_system) (text "fanotify") 0 (Fan [] [])) sample_line (Some [text "-x"])) as H.
  destruct (read_arguments (text "fanotify") (line sample_line (Some [text "-x"]))) as [[[o fs]|u]|] eqn:E;
    pose proof E as E'; vm_compute in E'; try discriminate E'. injection E' as Eo Ef.
  assert (Forall usage_ok sample_line) as Hok.
  { repeat constructor; try discriminate; apply (bool_decide_unpack _); vm_compute; done. }
  destruct (H Hok) as (_ & Hm & Efs & _). exists o. split_and!; [by rewrite Efs|exact Hm|by rewrite -Eo].
Defined.

(** Without a file, with -h and with an unknown option. *)
Example usage_cases :
  (λ r, match r with Some (inr u) => Some (to_stderr u, usage_status u) | _ => None end) <$>
    [read_arguments (text "f") [text "-p"]; read_arguments (text "f") [text "-ph"; text "x"];
     read_arguments (text "f") [text "x"; text "-q"]; read_arguments (text "f") [text "x"; text "-o"]] =
  [Some (true, 1); Some (false, 0); Some (true, 1); Some (true, 1)].
Proof. vm_compute. reflexivity. Qed.
