(* ===== verification/FanPoll.v ===== *)
(** * The polling fanotify program (Userspace_Fanotify_TestCode/test_fan.c)

    The program marks the mounts of the given directories, then polls a signal descriptor and the
    fanotify group: events are printed, closed and answered, SIGINT and SIGTERM end it. System
    calls are recorded in order with their answers as a parameter ([PollSys]), and so are the answers of
    malloc. The array of monitored directories lives on the heap: [p_mon] is the
    pointer to it, with [None] for an entry not written yet, and [p_live] counts the blocks not freed. The
    variant test_fan_debugstatement.c differs by further lines of output only. *)

From Stdlib Require Import ZArith Lia ssreflect.
From stdpp Require Import base list numbers strings.
From S2P Require Import Prelude CString Bytes Fanotify.

Open Scope Z_scope.

Definition FAN_MARK_REMOVE : Z := 0x2.
Definition FAN_CLOEXEC : Z := 0x1.
Definition O_RDONLY_CLOEXEC_LARGEFILE : Z := Z.lor 0x80000 0x8000.
Definition POLLIN : Z := 0x1.
Definition SIGINT : Z := 2.
Definition SIGTERM : Z := 15.
(** [sizeof(struct signalfd_siginfo)]. *)
Definition SIGINFO_SIZE : Z := 128.
Definition EXIT_FAILURE : Z := 1.

Definition FANOTIFY_BUFFER_SIZE : nat := Z.to_nat 8192.

(** [PATH_MAX - 1]: what is read at most. *)
Definition PATH_CHARS : nat := Z.to_nat 4095.

Definition event_mask : Z := Z.lor FAN_OPEN_PERM FAN_CLOSE_WRITE.

(** ** System calls and state *)

(** Whose descriptor is closed. *)
Inductive owner := OfEvent | OfCmdline | OfGroup | OfSignals.

Inductive pcall :=
  | Sigprocmask | Signalfd
  | FanInit (flags event_flags : Z)
  | FanMark (fanfd flags mask dfd : Z) (path : option (list Z))
  | Poll
  | ReadSignal (fd : Z) | ReadEvents (fd : Z)
  | OpenCmdline (pid : Z) | ReadCmdline (fd : Z)
  | ReadFdLink (fd : Z)
  | Answer (fanfd fd response : Z)
  | CloseFd (who : owner) (fd : Z).

(** The result of the [n]-th call; the revents a poll delivers for the two descriptors; the
    signal number and the bytes a read delivers; and whether the [n]-th malloc succeeds. *)
Class PollSys := {
  ps_result : nat → pcall → Z;
  ps_revents : nat → Z * Z;
  ps_signo : nat → Z;
  ps_bytes : nat → list Z;
  ps_malloc : nat → bool;
}.

Record pst := Pst {
  p_trace : list pcall;
  p_out : list piece;
  p_mon : option (list (option (option (list Z))));   (* monitors *)
  p_n : nat;                                           (* n_monitors *)
  p_live : nat;
  p_mallocs : nat }.

Definition pst0 : pst := Pst [] [] None 0 0 0.

Section code.
Context `{Sy : PollSys}.

Abbreviation M := (ST pst).

Definition sys (c : pcall) : M Z := λ s,
  Some (ps_result (length (p_trace s)) c,
        Pst (p_trace s ++ [c]) (p_out s) (p_mon s) (p_n s) (p_live s) (p_mallocs s)).

(** The number of the next call. *)
Definition now : M nat := s ← st_get; mret (length (p_trace s)).

Definition print (p : piece) : M unit := st_modify (λ s,
  Pst (p_trace s) (p_out s ++ [p]) (p_mon s) (p_n s) (p_live s) (p_mallocs s)).

Definition malloc : M bool := λ s,
  let ok := ps_malloc (p_mallocs s) in
  Some (ok, Pst (p_trace s) (p_out s) (p_mon s) (p_n s) (if ok then S (p_live s) else p_live s) (S (p_mallocs s))).

Definition free : M unit := λ s,
  match p_live s with
  | S l => Some (tt, Pst (p_trace s) (p_out s) (p_mon s) (p_n s) l (p_mallocs s))
  | O => None
  end.

Definition set_mon (m : option (list (option (option (list Z))))) (n : nat) : M unit := st_modify (λ s,
  Pst (p_trace s) (p_out s) m n (p_live s) (p_mallocs s)).

(** ** Events *)

(** The text up to the first place where [t] starts: [*strstr(s, t) = 0]. *)
Fixpoint cut_at (s t : list Z) : list Z :=
  match s with
  | [] => []
  | c :: s' => if starts_with s t then [] else c :: cut_at s' t
  end.

Definition get_program_name_from_pid (pid : Z) : M (option (list Z)) :=
  fd ← sys (OpenCmdline pid);
  if fd <? 0 then mret None
  else
    n ← now;
    len ← sys (ReadCmdline fd);
    if len <=? 0 then sys (CloseFd OfCmdline fd);; mret None
    else
      sys (CloseFd OfCmdline fd);;
      let buffer := until_zero (take (Nat.min (Z.to_nat len) PATH_CHARS) (ps_bytes n)) in
      mret (Some (cut_at buffer (text "^@"))).

Definition get_file_path_from_fd (fd : Z) : M (option (list Z)) :=
  if fd <=? 0 then mret None
  else
    n ← now;
    len ← sys (ReadFdLink fd);
    if len <? 0 then mret None
    else mret (Some (until_zero (take (Nat.min (Z.to_nat len) PATH_CHARS) (ps_bytes n)))).

Definition event_process (event : metadata) : M unit :=
  path ← get_file_path_from_fd (fd event);
  print (PText "Received event in path '");; print (PStr (default (text "unknown") path));; print (PText "'");;
  name ← get_program_name_from_pid (pid event);
  print (PNum " pid=%d (" (pid event));; print (PStr (default (text "unknown") name));; print (PText "): ");;
  st_when (bits (mask event) FAN_CLOSE_WRITE) (print (PText "FAN_CLOSE_WRITE"));;
  st_when (bits (mask event) FAN_OPEN_PERM) (print (PText "FAN_OPEN_PERM"));;
  sys (CloseFd OfEvent (fd event));;
  mret tt.

(** The answer, in a block of its own that is not checked for NULL. *)
Definition respond (fanotify_fd : Z) (event : metadata) : M unit :=
  resp ← malloc;
  print (PNum "%d" (fd event));;
  if resp : bool then
    sys (Answer fanotify_fd (fd event) FAN_ALLOW);;
    free
  else st_fail.

Fixpoint event_loop (fuel : nat) (fanotify_fd : Z) (buf : list cell) (off : nat) (len : Z) : M unit :=
  match fuel with
  | O => st_fail
  | S fuel =>
      if FAN_EVENT_METADATA_LEN <=? len then
        m ← st_opt (get_meta buf off);
        if (FAN_EVENT_METADATA_LEN <=? event_len m) && (event_len m <=? len) then
          event_process m;;
          respond fanotify_fd m;;
          event_loop fuel fanotify_fd buf (off + Z.to_nat (event_len m)) (len - event_len m)
        else mret tt
      else mret tt
  end.

(** ** Set-up and shut-down *)

(** The loop over the monitors: the mark is removed, the path is freed. *)
Fixpoint unmark_loop (fanotify_fd : Z) (i n : nat) : M unit :=
  match n with
  | O => mret tt
  | S n =>
      s ← st_get;
      mon ← st_opt (p_mon s);
      entry ← st_opt (mon !! i);
      path ← st_opt entry;
      sys (FanMark fanotify_fd FAN_MARK_REMOVE event_mask AT_FDCWD path);;
      (if path is Some _ then free else mret tt);;
      unmark_loop fanotify_fd (S i) n
  end.

Definition shutdown_fanotify (fanotify_fd : Z) : M unit :=
  s ← st_get;
  unmark_loop fanotify_fd 0 (p_n s);;
  s ← st_get;
  (if p_mon s is Some _ then free else mret tt);;
  sys (CloseFd OfGroup fanotify_fd);;
  mret tt.

(** The loop over the directories: [false] when a mark could not be added. *)
Fixpoint mark_loop (fanotify_fd : Z) (i : nat) (dirs : list (list Z)) : M bool :=
  match dirs with
  | [] => mret true
  | d :: dirs =>
      ok ← malloc;
      let path := if ok : bool then Some d else None in
      s ← st_get;
      mon ← st_opt (p_mon s);
      (if bool_decide (i < length mon)%nat then set_mon (Some (<[i := Some path]> mon)) (p_n s) else st_fail);;
      r ← sys (FanMark fanotify_fd (Z.lor FAN_MARK_ADD FAN_MARK_MOUNT) event_mask AT_FDCWD path);
      p ← st_opt path;
      if r <? 0 then print (PText "Couldn't add monitor in directory");; print (PStr p);; mret false
      else
        print (PText "Started monitoring directory");; print (PStr p);;
        mark_loop fanotify_fd (S i) dirs
  end.

Definition initialize_fanotify (dirs : list (list Z)) : M Z :=
  fanotify_fd ← sys (FanInit (Z.lor FAN_CLASS_CONTENT FAN_CLOEXEC) O_RDONLY_CLOEXEC_LARGEFILE);
  if fanotify_fd <? 0 then print (PText "Couldn't setup new fanotify device");; mret (-1)
  else
    ok ← malloc;
    set_mon (if ok : bool then Some (replicate (length dirs) None) else None) (length dirs);;
    ok ← mark_loop fanotify_fd 0 dirs;
    if ok : bool then mret fanotify_fd else mret (-1).

Definition shutdown_signals (signal_fd : Z) : M unit := sys (CloseFd OfSignals signal_fd);; mret tt.

Definition initialize_signals : M Z :=
  r ← sys Sigprocmask;
  if r <? 0 then print (PText "Couldn't block signals");; mret (-1)
  else
    signal_fd ← sys Signalfd;
    if signal_fd <? 0 then print (PText "Couldn't setup signal FD");; mret (-1)
    else mret signal_fd.

(** ** The loop *)

(** The signal part of a round: leave the loop, exit, or go on. *)
Inductive ending := Break | Exit (status : Z) | Continue.

Definition signal_part (signal_fd : Z) (revents : Z) : M ending :=
  if bits revents POLLIN then
    n ← now;
    r ← sys (ReadSignal signal_fd);
    if negb (r =? SIGINFO_SIZE) then
      print (PText "Couldn't read signal, wrong size read");; mret (Exit EXIT_FAILURE)
    else if (ps_signo n =? SIGINT) || (ps_signo n =? SIGTERM) then mret Break
    else print (PText "Received unexpected signal");; mret Continue
  else mret Continue.

(** The fanotify part: one read into a new buffer, and its events. *)
Definition event_part (fanotify_fd : Z) (revents : Z) : M unit :=
  if bits revents POLLIN then
    n ← now;
    length ← sys (ReadEvents fanotify_fd);
    buffer ← st_opt (buf_store (replicate FANOTIFY_BUFFER_SIZE None) 0 (Some <$> take (Z.to_nat length) (ps_bytes n)));
    if 0 <? length then event_loop (Z.to_nat length) fanotify_fd buffer 0 length else mret tt
  else mret tt.

(** [None]: the loop was left by break; otherwise the exit status. *)
Fixpoint poll_loop (fuel : nat) (signal_fd fanotify_fd : Z) : M (option Z) :=
  match fuel with
  | O => st_fail
  | S fuel =>
      n ← now;
      r ← sys Poll;
      if r <? 0 then print (PText "Couldn't poll()");; mret (Some EXIT_FAILURE)
      else
        let '(rs, rf) := ps_revents n in
        e ← signal_part signal_fd rs;
        match e with
        | Break => mret None
        | Exit st => mret (Some st)
        | Continue => event_part fanotify_fd rf;; poll_loop fuel signal_fd fanotify_fd
        end
  end.

(** [main] for the directories on the command line; the exit status. *)
Definition main (fuel : nat) (dirs : list (list Z)) : M Z :=
  if bool_decide (dirs = []) then print (PText "Usage");; mret EXIT_FAILURE
  else
    signal_fd ← initialize_signals;
    if signal_fd <? 0 then print (PText "Couldn't initialize signals");; mret EXIT_FAILURE
    else
      fanotify_fd ← initialize_fanotify dirs;
      if fanotify_fd <? 0 then print (PText "Couldn't initialize fanotify");; mret EXIT_FAILURE
      else
        e ← poll_loop fuel signal_fd fanotify_fd;
        match e with
        | Some st => mret st
        | None =>
            shutdown_fanotify fanotify_fd;;
            shutdown_signals signal_fd;;
            print (PText "Exiting fanotify example...");;
            mret 0
        end.

End code.

(** ** Specification *)

Section spec.
Context `{Sy : PollSys}.

(** What the program does to the kernel's requests: an answer, or the close of their descriptor. *)
Definition act (c : pcall) : option ((Z * Z) + Z) :=
  match c with Answer _ f r => Some (inl (f, r)) | CloseFd OfEvent f => Some (inr f) | _ => None end.

Definition acts (tr : list pcall) : list ((Z * Z) + Z) := omap act tr.

(** What the program does for an event, whatever its mask and its descriptor. *)
Definition duties (m : metadata) : list ((Z * Z) + Z) := [inr (fd m); inl (fd m, FAN_ALLOW)].

(** The events that the [n]-th call delivers if it is a read from the group. *)
Definition batch (n : nat) (c : pcall) : list metadata :=
  match c with
  | ReadEvents _ => let r := Z.to_nat (ps_result n c) in parse r (take r (ps_bytes n))
  | _ => []
  end.

(** The events delivered by the calls [tr], the first of which is number [n]. *)
Fixpoint delivered (n : nat) (tr : list pcall) : list metadata :=
  match tr with
  | [] => []
  | c :: tr => batch n c ++ delivered (S n) tr
  end.

(** Every event delivered by [tr] was closed and answered. *)
Definition served (n : nat) (tr : list pcall) : Prop := acts tr = concat (duties <$> delivered n tr).

(** Reads fit into the buffer and deliver the bytes they count; memory is not exhausted; and from
    call [N] on polling fails or reports a signal, which cannot be read or ends the program. *)
Record poll_session (N : nat) : Prop := {
  po_fits n f : ps_result n (ReadEvents f) <= 8192;
  po_bytes n f : ps_result n (ReadEvents f) <= Z.of_nat (length (ps_bytes n));
  po_malloc n : ps_malloc n = true;
  po_poll n : (N ≤ n)%nat → ps_result n Poll < 0 ∨ bits (ps_revents n).1 POLLIN = true;
  po_signal n f : (N ≤ n)%nat → ps_result n (ReadSignal f) ≠ SIGINFO_SIZE ∨ ps_signo n ∈ [SIGINT; SIGTERM];
}.

(** The calls of the loop: neither set-up nor shut-down. *)
Definition in_loop (c : pcall) : Prop :=
  match c with
  | Poll | ReadSignal _ | ReadEvents _ | OpenCmdline _ | ReadCmdline _ | ReadFdLink _ | Answer _ _ _ => True
  | CloseFd who _ => who = OfEvent ∨ who = OfCmdline
  | _ => False
  end.

Definition added (ffd : Z) (d : list Z) : pcall :=
  FanMark ffd (Z.lor FAN_MARK_ADD FAN_MARK_MOUNT) event_mask AT_FDCWD (Some d).

Definition removed (ffd : Z) (d : list Z) : pcall := FanMark ffd FAN_MARK_REMOVE event_mask AT_FDCWD (Some d).

(** The calls of a run that ends with status 0: set-up, the calls [mid] of the loop, shut-down. *)
Definition clean_run (dirs : list (list Z)) (tr : list pcall) : Prop :=
  let ini := FanInit (Z.lor FAN_CLASS_CONTENT FAN_CLOEXEC) O_RDONLY_CLOEXEC_LARGEFILE in
  let sfd := ps_result 1 Signalfd in
  let ffd := ps_result 2 ini in
  ∃ mid, Forall in_loop mid ∧
    tr = [Sigprocmask; Signalfd; ini] ++ (added ffd <$> dirs) ++ mid ++ (removed ffd <$> dirs) ++
         [CloseFd OfGroup ffd; CloseFd OfSignals sfd].

End spec.

(** ** Lemmas *)

Section proofs.
Context `{Sy : PollSys}.

Lemma poll_acts_app t1 t2 : acts (t1 ++ t2) = acts t1 ++ acts t2.
Proof. apply omap_app. Qed.

Lemma poll_delivered_app n t1 t2 : delivered n (t1 ++ t2) = delivered n t1 ++ delivered (n + length t1) t2.
Proof.
  revert n. induction t1 as [|c t1 IH]; intros n; simpl; [by rewrite Nat.add_0_r|].
  rewrite IH -app_assoc. do 3 f_equal. lia.
Qed.

Lemma poll_served_app n t1 t2 : served n t1 → served (n + length t1) t2 → served n (t1 ++ t2).
Proof. intros H1 H2. unfold served in *. by rewrite poll_acts_app poll_delivered_app fmap_app concat_app H1 H2. Qed.

(** Calls [tr] that deliver nothing and do [es] to the requests of the kernel. *)
Definition yields (es : list ((Z * Z) + Z)) (tr : list pcall) : Prop :=
  Forall (λ c, ∀ n, batch n c = []) tr ∧ acts tr = es.

Lemma yields_nil : yields [] [].
Proof. by split. Qed.

Lemma yields_app e1 e2 t1 t2 : yields e1 t1 → yields e2 t2 → yields (e1 ++ e2) (t1 ++ t2).
Proof. intros [H1 <-] [H2 <-]. split; [by apply Forall_app|apply poll_acts_app]. Qed.

Lemma yields_delivered es tr n : yields es tr → delivered n tr = [].
Proof.
  intros [H _]. revert n. induction H as [|c tr Hc _ IH]; intros n; [done|]. simpl. by rewrite Hc IH.
Qed.

Lemma yields_served tr n : yields [] tr → served n tr.
Proof. intros H. unfold served. rewrite (yields_delivered _ _ _ H). apply H. Qed.

Lemma idle_yields c : act c = None → (∀ n, batch n c = []) → yields [] [c].
Proof. intros Ha Hb. split; [by constructor|]. unfold acts. simpl. by rewrite Ha. Qed.

(** *** Parts of the loop *)

Definition heap (s : pst) := (p_mon s, p_n s, p_live s).

(** [m] returns from [s] with the heap as it was, by calls of the loop that satisfy [Q]. *)
Definition works {A} (m : ST pst A) (s : pst) (Q : A → list pcall → Prop) : Prop :=
  runs m s (λ a s', ∃ tr, p_trace s' = p_trace s ++ tr ∧ heap s' = heap s ∧ Forall in_loop tr ∧ Q a tr).

Lemma works_ret {A} (a : A) s (Q : A → list pcall → Prop) : Q a [] → works (mret a) s Q.
Proof. intros H. apply runs_ret. exists []. rewrite app_nil_r. auto. Qed.

Lemma works_bind {A B} (m : ST pst A) (k : A → ST pst B) s P (Q : B → list pcall → Prop) :
  works m s P →
  (∀ a s' tr, p_trace s' = p_trace s ++ tr → P a tr → works (k a) s' (λ b t2, Q b (tr ++ t2))) →
  works (m ≫= k) s Q.
Proof.
  intros Hm Hk. apply runs_bind. eapply runs_wand; [exact Hm|]. intros a s1 (t1 & E1 & Hh1 & Hl1 & HP).
  eapply runs_wand; [by apply (Hk a s1 t1)|]. intros b s2 (t2 & E2 & Hh2 & Hl2 & HQ).
  exists (t1 ++ t2). rewrite E2 E1 -app_assoc Hh2 Hh1. split_and!; [done..|by apply Forall_app|done].
Qed.

Lemma works_mono {A} (m : ST pst A) s (P Q : A → list pcall → Prop) :
  works m s P → (∀ a tr, P a tr → Q a tr) → works m s Q.
Proof. intros Hm HPQ. eapply runs_wand; [exact Hm|]. intros a s' (tr & ? & ? & ? & ?). exists tr. auto. Qed.

Lemma works_sys c s :
  in_loop c → works (sys c) s (λ r tr, tr = [c] ∧ r = ps_result (length (p_trace s)) c).
Proof. intros H. eexists _, _. split; [reflexivity|]. exists [c]. split_and!; [done..|by constructor|done|done]. Qed.

Lemma works_print p s : works (print p) s (λ _ tr, tr = []).
Proof. eexists _, _. split; [reflexivity|]. exists []. rewrite app_nil_r. by repeat split. Qed.

Lemma works_now s : works now s (λ n tr, tr = [] ∧ n = length (p_trace s)).
Proof. eexists _, _. split; [reflexivity|]. exists []. rewrite app_nil_r. by repeat split. Qed.

(** [m] returns from every state, and its calls do [es]. *)
Definition does {A} (m : ST pst A) (es : list ((Z * Z) + Z)) : Prop := ∀ s, works m s (λ _ tr, yields es tr).

Lemma does_ret {A} (a : A) : does (mret a) [].
Proof. intros s. apply works_ret, yields_nil. Qed.

Lemma does_bind {A B} (m : ST pst A) (k : A → ST pst B) e1 e2 :
  does m e1 → (∀ a, does (k a) e2) → does (m ≫= k) (e1 ++ e2).
Proof.
  intros Hm Hk s. eapply works_bind; [apply Hm|]. intros a s' tr _ H1.
  eapply works_mono; [apply Hk|]. intros b t2 H2. by apply yields_app.
Qed.

(** A quiet part in front. *)
Lemma does_after {A B} (m : ST pst A) (k : A → ST pst B) es :
  does m [] → (∀ a, does (k a) es) → does (m ≫= k) es.
Proof. apply (does_bind m k [] es). Qed.

Lemma does_sys c es : in_loop c → yields es [c] → does (sys c) es.
Proof. intros Hc Hy s. eapply works_mono; [by apply works_sys|]. by intros r tr [-> _]. Qed.

Lemma does_print p : does (print p) [].
Proof. intros s. eapply works_mono; [apply works_print|]. intros _ tr ->. apply yields_nil. Qed.

Lemma does_now : does now [].
Proof. intros s. eapply works_mono; [apply works_now|]. intros _ tr [-> _]. apply yields_nil. Qed.

Ltac quiet :=
  repeat first
    [ apply does_ret | apply does_print | apply does_now
    | apply does_sys; [simpl; by auto|by apply idle_yields]
    | apply does_after; [|intros ?] | progress unfold st_when | case_match ].

Lemma does_name p : does (get_program_name_from_pid p) [].
Proof. unfold get_program_name_from_pid. quiet. Qed.

Lemma does_path f : does (get_file_path_from_fd f) [].
Proof. unfold get_file_path_from_fd. quiet. Qed.

Lemma does_process m : does (event_process m) [inr (fd m)].
Proof.
  unfold event_process. apply does_after; [apply does_path|]. intros path.
  do 3 (apply does_after; [apply does_print|intros _]).
  apply does_after; [apply does_name|]. intros name.
  do 3 (apply does_after; [apply does_print|intros _]).
  do 2 (apply does_after; [quiet|intros _]).
  apply (does_bind _ _ [_] []); [|intros; apply does_ret].
  apply does_sys; [by left|]. split; [by constructor|done].
Qed.

(** The answer: the block for it is freed again. *)
Lemma does_respond ffd m : (∀ n, ps_malloc n = true) → does (respond ffd m) [inl (fd m, FAN_ALLOW)].
Proof.
  intros Hmal s. unfold respond, malloc. eexists _, _. split.
  { unfold mbind, ST_bind. rewrite Hmal. reflexivity. }
  exists [Answer ffd (fd m) FAN_ALLOW]. split_and!; [done..|by constructor|]. split; [by constructor|done].
Qed.

(** The events one after the other. *)
Fixpoint process_all (ffd : Z) (es : list metadata) : ST pst unit :=
  match es with
  | [] => mret tt
  | m :: es => event_process m;; respond ffd m;; process_all ffd es
  end.

Lemma does_all ffd es : (∀ n, ps_malloc n = true) → does (process_all ffd es) (concat (duties <$> es)).
Proof.
  intros Hmal. induction es as [|m es IH]; [apply does_ret|]. cbn [process_all]. rewrite fmap_cons.
  apply (does_bind _ _ [inr (fd m)] (inl (fd m, FAN_ALLOW) :: concat (duties <$> es))); [apply does_process|].
  intros _. by apply (does_bind _ _ [_]); [apply does_respond|].
Qed.

(** The loop over a buffer takes the events in the bytes delivered, and reads no others. *)
Lemma poll_event_loop fuel ffd pre bs rest s :
  (length bs < 24 * fuel)%nat →
  event_loop fuel ffd (pre ++ (Some <$> bs) ++ rest) (length pre) (Z.of_nat (length bs)) s =
    process_all ffd (parse fuel bs) s.
Proof.
  revert pre bs s. induction fuel as [|fuel IH]; intros pre bs s Hf; [lia|].
  cbn [event_loop parse]. destruct (Z.leb_spec FAN_EVENT_METADATA_LEN (Z.of_nat (length bs))) as [Hl|Hl]; [|done].
  unfold FAN_EVENT_METADATA_LEN in *. rewrite get_meta_at; [lia|].
  erewrite st_bind_some; [|reflexivity].
  set (m := meta_of bs). destruct (Z.leb_spec 24 (event_len m)) as [H1|H1]; [|done].
  destruct (Z.leb_spec (event_len m) (Z.of_nat (length bs))) as [H2|H2]; [|done]. cbn [andb process_all].
  unfold mbind, ST_bind. destruct (event_process m s) as [[_ s1]|]; [|done].
  destruct (respond ffd m s1) as [[_ s2]|]; [|done].
  set (k := Z.to_nat (event_len m)).
  rewrite -{1}(take_drop k bs) fmap_app -app_assoc app_assoc.
  replace (length pre + k)%nat with (length (pre ++ (Some <$> take k bs)))
    by (rewrite length_app length_fmap length_take; lia).
  replace (Z.of_nat (length bs) - event_len m) with (Z.of_nat (length (drop k bs))) by (rewrite length_drop; lia).
  apply IH. rewrite length_drop. lia.
Qed.

(** One read and its events. *)
Lemma event_part_serves N ffd rf s :
  poll_session N → works (event_part ffd rf) s (λ _ tr, served (length (p_trace s)) tr).
Proof.
  intros Hses. unfold event_part. destruct (bits rf POLLIN); [|by apply works_ret].
  eapply works_bind; [apply works_now|]. intros n s0 t0 E0 [-> ->]. rewrite app_nil_r in E0. rewrite -E0.
  eapply works_bind; [by apply works_sys|]. intros r s1 t1 E1 [-> Er].
  set (n := length (p_trace s0)) in *. pose proof (po_fits N Hses n ffd) as Hfit.
  pose proof (po_bytes N Hses n ffd) as Hbytes. rewrite -Er in Hfit, Hbytes.
  set (bs := take (Z.to_nat r) (ps_bytes n)).
  assert (Hl : length bs = Z.to_nat r) by (unfold bs; rewrite length_take; lia).
  assert (Hroom : (length bs ≤ FANOTIFY_BUFFER_SIZE)%nat) by (unfold FANOTIFY_BUFFER_SIZE; lia).
  rewrite buf_store_some; [rewrite length_fmap length_replicate; lia|].
  match goal with |- context [_ ++ drop ?k ?b] => generalize (drop k b) end. intros stale.
  rewrite take_0 app_nil_l.
  set (es := parse (Z.to_nat r) bs).
  assert (Hb : batch n (ReadEvents ffd) = es) by (unfold batch; by rewrite -Er).
  assert (Hround : ∀ t2, yields (concat (duties <$> es)) t2 → served n ([ReadEvents ffd] ++ t2)).
  { intros t2 Hy. unfold served. cbn [app delivered acts omap list_omap act].
    rewrite Hb (yields_delivered _ _ _ Hy) app_nil_r. apply Hy. }
  eapply (works_bind _ _ _ (λ b tr, b = (Some <$> bs) ++ stale ∧ tr = [])).
  { eexists _, _. split; [reflexivity|]. exists []. by rewrite app_nil_r. }
  intros b s2 t2 _ [-> ->]. destruct (Z.ltb_spec 0 r) as [Hr|Hr].
  - pose proof (po_malloc N Hses) as Hmal.
    pose proof (poll_event_loop (Z.to_nat r) ffd [] bs stale s2) as E.
    rewrite Hl Z2Nat.id in E; [lia|]. unfold works, runs. rewrite E; [lia|].
    eapply works_mono; [by apply does_all|]. intros ? tr. apply Hround.
  - apply works_ret. apply Hround. unfold es. replace (Z.to_nat r) with 0%nat by lia. apply yields_nil.
Qed.

(** The signal part: nothing is served, and from call [N] on it does not continue. *)
Lemma signal_part_ends N sfd rs s :
  poll_session N → works (signal_part sfd rs) s (λ e tr, yields [] tr ∧
    (e = Continue → (N ≤ length (p_trace s))%nat → bits rs POLLIN = false) ∧
    (∀ st, e = Exit st → st = EXIT_FAILURE)).
Proof.
  intros Hses. unfold signal_part. destruct (bits rs POLLIN) eqn:Hrs; [|by apply works_ret; auto using yields_nil].
  eapply works_bind; [apply works_now|]. intros n s0 t0 E0 [-> ->]. rewrite app_nil_r in E0. rewrite -E0.
  eapply works_bind; [by apply works_sys|]. intros r s1 t1 E1 [-> Er].
  set (n := length (p_trace s0)) in *. pose proof (po_signal N Hses n sfd) as Hsig. rewrite -Er in Hsig.
  assert (yields [] [ReadSignal sfd]) as Hy by by apply idle_yields.
  destruct (Z.eqb_spec r SIGINFO_SIZE) as [->|]; cbn [negb].
  2:{ eapply works_bind; [apply works_print|]. intros _ s2 t2 _ ->. apply works_ret. split_and!; [done|done|congruence]. }
  destruct ((ps_signo n =? SIGINT) || (ps_signo n =? SIGTERM)) eqn:Hno; [by apply works_ret|].
  eapply works_bind; [apply works_print|]. intros _ s2 t2 _ ->. apply works_ret. split_and!; [done| |done].
  intros _ HN. apply orb_false_iff in Hno as [H1%Z.eqb_neq H2%Z.eqb_neq]. destruct (Hsig HN) as [|Hin]; [done|].
  apply list_elem_of_In in Hin as [?|[?|[]]]; congruence.
Qed.

Lemma poll_loop_serves N fuel sfd ffd s :
  poll_session N → (0 < fuel)%nat → (N < length (p_trace s) + fuel)%nat →
  works (poll_loop fuel sfd ffd) s (λ e tr, served (length (p_trace s)) tr ∧ ∀ st, e = Some st → st = EXIT_FAILURE).
Proof.
  intros Hses. revert s. induction fuel as [|fuel IH]; intros s Hpos Hf; [lia|]. cbn [poll_loop].
  eapply works_bind; [apply works_now|]. intros n s0 t0 E0 [-> ->]. rewrite app_nil_r in E0. rewrite -E0 in Hf |- *.
  eapply works_bind; [by apply works_sys|]. intros r s1 t1 E1 [-> Er].
  set (n := length (p_trace s0)) in *. pose proof (po_poll N Hses n) as Hpoll. rewrite -Er in Hpoll.
  assert (Hl1 : length (p_trace s1) = S n) by (rewrite E1 length_app /=; unfold n; lia).
  assert (yields [] [Poll]) as Hy by by apply idle_yields.
  destruct (Z.ltb_spec r 0) as [Hr|Hr].
  { eapply works_bind; [apply works_print|]. intros _ s2 t2 _ ->. apply works_ret. split; [by apply yields_served|congruence]. }
  destruct (ps_revents n) as [rs rf] eqn:Erev.
  eapply works_bind; [by apply (signal_part_ends N)|]. intros e s2 t2 E2 (Hy2 & He & Hne).
  assert (Hs2 : yields [] ([Poll] ++ t2)) by (by apply (yields_app [] [])).
  destruct e as [|st|]; [apply works_ret; split; [apply yields_served; by rewrite app_nil_r|intros ? [=]; subst; eauto]..|].
  assert (HN : (n < N)%nat).
  { destruct (le_lt_dec N n) as [Hle|]; [|done]. destruct (Hpoll Hle) as [|Hbits]; [lia|].
    cbn [fst] in Hbits. rewrite He in Hbits; [done|lia|done]. }
  assert (Hl2 : length (p_trace s2) = (n + length ([Poll] ++ t2))%nat) by (rewrite E2 length_app Hl1 /=; lia).
  eapply works_bind; [by apply (event_part_serves N)|]. intros ? s3 t3 E3 Hs3.
  assert (Hl3 : length (p_trace s3) = (n + length (([Poll] ++ t2) ++ t3))%nat)
    by (rewrite E3 length_app Hl2 !length_app; lia).
  eapply works_mono; [apply IH; rewrite ?Hl3 ?length_app /=; lia|]. intros e t4 [Hs4 Hne4]. split; [|done].
  rewrite app_nil_l !app_assoc. apply poll_served_app; [apply poll_served_app|by rewrite -Hl3].
  - by apply yields_served.
  - by rewrite -Hl2.
Qed.

(** *** Set-up and shut-down *)

(** The array of monitors while the directories [pre] are set up. *)
Definition mon_at (pre rest : list (list Z)) : list (option (option (list Z))) :=
  (Some ∘ Some <$> pre) ++ replicate (length rest) None.

Lemma mon_at_next pre d rest :
  <[length pre := Some (Some d)]> (mon_at pre (d :: rest)) = mon_at (pre ++ [d]) rest.
Proof.
  unfold mon_at. rewrite -{1}(length_fmap (Some ∘ Some) pre) -{1}(Nat.add_0_r (length _)) insert_app_r.
  by rewrite fmap_app -app_assoc.
Qed.

Lemma mark_loop_marks ffd pre rest s :
  (∀ n, ps_malloc n = true) →
  p_mon s = Some (mon_at pre rest) → p_n s = length (pre ++ rest) →
  runs (mark_loop ffd (length pre) rest) s (λ ok s', ∃ tr, p_trace s' = p_trace s ++ tr ∧ yields [] tr ∧
    (ok = true → tr = added ffd <$> rest ∧
      heap s' = (Some (mon_at (pre ++ rest) []), p_n s, (length rest + p_live s)%nat))).
Proof.
  intros Hmal. revert pre s. induction rest as [|d rest IH]; intros pre s Hm Hn.
  { apply runs_ret. exists []. rewrite !app_nil_r. split_and!; [done|apply yields_nil|].
    intros _. by rewrite -Hm. }
  cbn [mark_loop]. apply runs_bind. unfold malloc at 1. eexists _, _. split; [reflexivity|].
  rewrite Hmal. cbv zeta iota beta. apply runs_bind. eexists _, _. split; [reflexivity|]. cbn [p_mon p_n].
  rewrite Hm. apply runs_bind. eexists _, _. split; [reflexivity|].
  rewrite bool_decide_true; [unfold mon_at; rewrite length_app length_fmap length_replicate /=; lia|].
  rewrite mon_at_next. apply runs_bind. eexists _, _. split; [reflexivity|]. cbn [p_trace p_live].
  apply runs_bind. eexists _, _. split; [reflexivity|]. cbn [p_trace p_live].
  apply runs_bind. eexists _, _. split; [reflexivity|].
  assert (Hy : yields [] [added ffd d]) by by apply idle_yields.
  destruct (_ <? 0).
  - eexists _, _. split; [reflexivity|]. exists [added ffd d]. by split_and!.
  - do 2 (apply runs_bind; eexists _, _; split; [reflexivity|]). cbn [p_trace p_out p_mon p_n p_live p_mallocs].
    replace (S (length pre)) with (length (pre ++ [d])) by (rewrite length_app /=; lia).
    eapply runs_wand; [apply IH; [done|cbn [p_n]; rewrite -app_assoc; exact Hn]|].
    intros ok s' (tr & E & Hyt & Hok). exists (added ffd d :: tr). split_and!.
    + by rewrite E /= -app_assoc.
    + by apply (yields_app [] [] [_]).
    + intros Htrue. destruct (Hok Htrue) as [-> Hh]. split; [done|]. rewrite Hh -app_assoc /=.
      do 2 f_equal. lia.
Qed.

Lemma unmark_loop_removes ffd pre rest s :
  p_mon s = Some (mon_at (pre ++ rest) []) → (length rest ≤ p_live s)%nat →
  runs (unmark_loop ffd (length pre) (length rest)) s (λ _ s',
    p_trace s' = p_trace s ++ (removed ffd <$> rest) ∧
    heap s' = (p_mon s, p_n s, (p_live s - length rest)%nat)).
Proof.
  revert pre s. induction rest as [|d rest IH]; intros pre s Hm Hl.
  { apply runs_ret. by rewrite app_nil_r Nat.sub_0_r. }
  assert (Hd : mon_at (pre ++ d :: rest) [] !! length pre = Some (Some (Some d))).
  { unfold mon_at. rewrite app_nil_r fmap_app lookup_app_r ?length_fmap ?Nat.sub_diag //. }
  cbn [unmark_loop length]. simpl in Hl.
  apply runs_bind. eexists _, _. split; [reflexivity|]. rewrite Hm.
  apply runs_bind. eexists _, _. split; [reflexivity|]. rewrite Hd.
  do 3 (apply runs_bind; eexists _, _; split; [reflexivity|]).
  destruct (p_live s) as [|l] eqn:El; [lia|].
  apply runs_bind. eexists _, _. split; [reflexivity|].
  cbn [p_trace p_out p_mon p_n p_live p_mallocs].
  replace (S (length pre)) with (length (pre ++ [d])) by (rewrite length_app /=; lia).
  eapply runs_wand; [apply IH; cbn [p_mon p_live]; [by rewrite -app_assoc|lia]|].
  intros _ s' [E Hh]. rewrite E Hh Hm. by rewrite -app_assoc.
Qed.

Abbreviation group_init := (FanInit (Z.lor FAN_CLASS_CONTENT FAN_CLOEXEC) O_RDONLY_CLOEXEC_LARGEFILE).

Lemma initialize_fanotify_marks dirs s :
  (∀ n, ps_malloc n = true) →
  runs (initialize_fanotify dirs) s (λ r s', ∃ tr, p_trace s' = p_trace s ++ tr ∧ yields [] tr ∧
    (0 <= r → r = ps_result (length (p_trace s)) group_init ∧ tr = group_init :: (added r <$> dirs) ∧
      heap s' = (Some (mon_at dirs []), length dirs, (length dirs + S (p_live s))%nat))).
Proof.
  intros Hmal. unfold initialize_fanotify. apply runs_bind. eexists _, _. split; [reflexivity|].
  set (ffd := ps_result _ _).
  assert (Hy : yields [] [group_init]) by by apply idle_yields.
  destruct (Z.ltb_spec ffd 0) as [Hf|Hf].
  { eexists _, _. split; [reflexivity|]. exists [group_init]. split_and!; [done..|lia]. }
  apply runs_bind. unfold malloc. eexists _, _. split; [reflexivity|]. rewrite Hmal.
  apply runs_bind. eexists _, _. split; [reflexivity|].
  cbn [p_trace p_out p_mon p_n p_live p_mallocs]. apply runs_bind.
  eapply runs_wand; [by apply (mark_loop_marks ffd [] dirs)|]. cbn [p_trace p_n p_live].
  intros ok s' (tr & E & Hyt & Hok). destruct ok; apply runs_ret; exists (group_init :: tr);
    (split_and!; [by rewrite E -app_assoc|by apply (yields_app [] [] [_])|]); [|lia].
  intros _. destruct (Hok eq_refl) as [-> Hh]. by rewrite Hh.
Qed.

Lemma shutdown_fanotify_frees ffd dirs s :
  heap s = (Some (mon_at dirs []), length dirs, S (length dirs)) →
  runs (shutdown_fanotify ffd) s (λ _ s', p_live s' = 0%nat ∧
    p_trace s' = p_trace s ++ (removed ffd <$> dirs) ++ [CloseFd OfGroup ffd]).
Proof.
  unfold heap. intros [= Hm Hn Hl]. unfold shutdown_fanotify. apply runs_bind. eexists _, _. split; [reflexivity|].
  rewrite Hn. apply runs_bind.
  eapply runs_wand; [apply (unmark_loop_removes ffd [] dirs); [done|lia]|]. unfold heap. intros _ s1 [E1 [= Hm1 Hn1 Hl1]].
  apply runs_bind. eexists _, _. split; [reflexivity|]. rewrite Hm1 Hm.
  assert (Hone : p_live s1 = 1%nat) by lia.
  eexists _, _. split.
  { unfold free, mbind, ST_bind. rewrite Hone. reflexivity. }
  cbn [p_live p_trace]. split; [done|]. by rewrite E1 -!app_assoc.
Qed.

Lemma removed_yields ffd dirs : yields [] (removed ffd <$> dirs).
Proof.
  induction dirs as [|d dirs IH]; [apply yields_nil|]. rewrite fmap_cons.
  apply (yields_app [] [] [_]); [by apply idle_yields|done].
Qed.

Lemma initialize_signals_calls s :
  runs initialize_signals s (λ r s', ∃ tr, p_trace s' = p_trace s ++ tr ∧ yields [] tr ∧ heap s' = heap s ∧
    (0 <= r → r = ps_result (S (length (p_trace s))) Signalfd ∧ tr = [Sigprocmask; Signalfd])).
Proof.
  unfold initialize_signals. apply runs_bind. eexists _, _. split; [reflexivity|].
  assert (Hy1 : yields [] [Sigprocmask]) by by apply idle_yields.
  destruct (_ <? 0).
  { eexists _, _. split; [reflexivity|]. exists [Sigprocmask]. split_and!; [done..|lia]. }
  apply runs_bind. eexists _, _. split; [reflexivity|]. cbn [p_trace].
  rewrite length_app Nat.add_1_r. set (r := ps_result _ _).
  assert (Hy2 : yields [] [Sigprocmask; Signalfd]) by by apply (yields_app [] [] [_] [_]); [|apply idle_yields].
  destruct (Z.ltb_spec r 0); eexists _, _; (split; [reflexivity|]); exists [Sigprocmask; Signalfd];
    (split_and!; [by rewrite /= -app_assoc|done|done|]); [lia|done].
Qed.

End proofs.

(** ** Properties *)

(** C16: the polling program from start to exit. For every list of directories and whatever the
    system calls return, as long as memory is not exhausted, reads fit into the buffer, and at last polling
    fails or a signal arrives, [main] returns without undefined behaviour, with status 0 or 1. Every event
    that its reads delivered has been served, in the order of the events and nothing else: its descriptor
    is closed and then answered with FAN_ALLOW, also when it is not a permission event or has no
    descriptor. With status 0 the marks were added on the mounts of all directories
    in order, one by one removed at the end, with a call that does not name the mounts, both descriptors
    were closed, and every block of memory was freed. *)
Theorem poll_main_serves `{Sy : PollSys} fuel dirs N :
  poll_session N → (N < fuel)%nat →
  runs (main fuel dirs) pst0 (λ st s',
    (st = 0 ∨ st = EXIT_FAILURE) ∧
    acts (p_trace s') = concat (duties <$> delivered 0 (p_trace s')) ∧
    (st = 0 → clean_run dirs (p_trace s') ∧ p_live s' = 0%nat)).
Proof.
  intros Hses Hf. pose proof (po_malloc N Hses) as Hmal. unfold main.
  case_bool_decide as Hd.
  { eexists _, _. split; [reflexivity|]. split_and!; [by right|done|done]. }
  assert (Hfail : ∀ p s, served 0 (p_trace s) →
    runs (print p;; mret EXIT_FAILURE) s (λ st s', (st = 0 ∨ st = EXIT_FAILURE) ∧
      acts (p_trace s') = concat (duties <$> delivered 0 (p_trace s')) ∧
      (st = 0 → clean_run dirs (p_trace s') ∧ p_live s' = 0%nat))).
  { intros p s Hs. eexists _, _. split; [reflexivity|]. split_and!; [by right|done|done]. }
  apply runs_bind. eapply runs_wand; [apply initialize_signals_calls|].
  intros sfd s1 (t1 & E1 & Hy1 & Hh1 & Hsfd). rewrite app_nil_l in E1. subst t1.
  destruct (Z.ltb_spec sfd 0) as [?|Hs]; [by apply Hfail, yields_served|]. destruct (Hsfd Hs) as [-> Et1].
  apply runs_bind. eapply runs_wand; [by apply initialize_fanotify_marks|].
  intros ffd s2 (t2 & E2 & Hy2 & Hffd).
  assert (Hy : yields [] (p_trace s2)) by (rewrite E2; by apply (yields_app [] [])).
  destruct (Z.ltb_spec ffd 0) as [?|Hff]; [by apply Hfail, yields_served|].
  destruct (Hffd Hff) as (Effd & Et2 & Hh2). unfold heap in Hh1. injection Hh1 as _ _ Hl1. rewrite Hl1 Et1 in Effd, Hh2.
  rewrite Nat.add_1_r in Hh2. cbn [length] in Effd.
  apply runs_bind. eapply runs_wand; [apply (poll_loop_serves N); [done|lia..]|].
  intros e s3 (t3 & E3 & Hh3 & Hl3 & Hs3 & He).
  assert (Hserved : served 0 (p_trace s3)) by (rewrite E3; apply poll_served_app; [by apply yields_served|done]).
  destruct e as [st|].
  { rewrite (He st eq_refl). apply runs_ret. split_and!; [by right|done|done]. }
  apply runs_bind. eapply runs_wand; [apply (shutdown_fanotify_frees ffd dirs); congruence|].
  intros _ s4 [Hl4 E4]. eexists _, _. split; [reflexivity|]. cbn [p_trace p_live].
  rewrite E4 -!app_assoc. split_and!; [by left| |].
  - apply poll_served_app; [done|]. apply yields_served.
    apply (yields_app [] []); [apply removed_yields|]. apply (yields_app [] [] [_] [_]); by apply idle_yields.
  - intros _. split; [|done]. exists t3. split; [done|]. rewrite E3 E2 Et1 Et2 Effd. by rewrite -!app_assoc.
Qed.

(** One permission event and one without a descriptor with the first read; then SIGTERM. *)
Definition two_events : PollSys := {|
  ps_result n c := match c with
    | FanInit _ _ => 4 | Signalfd => 3 | ReadSignal _ => 128
    | ReadEvents _ => if Nat.eqb n 5 then 48 else 0 | _ => 0 end;
  ps_revents n := if Nat.leb n 4 then (0, 1) else (1, 1);
  ps_signo _ := SIGTERM;
  ps_bytes _ := raw_bytes perm_event ++ overflow_bytes;
  ps_malloc _ := true |}.

Lemma two_events_session : poll_session (Sy := two_events) 5.
Proof.
  split; intros n; simpl ps_result; simpl ps_bytes; simpl ps_revents; simpl ps_signo.
  - intros _. destruct (Nat.eqb n 5); lia.
  - intros _. destruct (Nat.eqb n 5); vm_compute; congruence.
  - done.
  - intros Hn. right. destruct (Nat.leb_spec n 4); [lia|done].
  - intros _ _. right. apply list_elem_of_In. simpl. auto.
Qed.

Lemma poll_main_serves_witness :
  ∃ s', main (Sy := two_events) 6 [text "/tmp"] pst0 = Some (0, s') ∧ p_live s' = 0%nat ∧
    acts (p_trace s') = [inr 5; inl (5, FAN_ALLOW); inr (-1); inl (-1, FAN_ALLOW)] ∧
    acts (p_trace s') = concat (duties <$> delivered (Sy := two_events) 0 (p_trace s')).
Proof.
  destruct (poll_main_serves (Sy := two_events) 6 [text "/tmp"] 5 two_events_session ltac:(lia))
    as (st & s' & E & _ & H & Hz).
  pose proof E as E'. vm_compute in E'. injection E' as <- Es. exists s'. split; [exact E|].
  split; [by apply Hz|]. split; [rewrite -Es; reflexivity|exact H].
Defined.
